(* ===== verification/_CoqProject ===== *)
-Q . S2P
Prelude.v
Primitives.v
Merkle.v
Frame.v
SupportedChains.v
Randomness.v
Types.v
Ledger.v
Roster.v
RosterSpec.v
RosterRefine.v
Bonds.v
Settings.v
Validate.v
Checkpoints.v
Maintenance.v
LadderFrame.v
LadderSpec.v
History.v
LadderRefine.v
MaintRefine.v
Teardown.v
Pallet.v
Termination.v
Genesis.v
Runtime.v
Concrete.v
Guarantees.v
Prevalidate.v
BlockProver.v
Inclusion.v
ChainInfo.v
Provable.v
VotePool.v
VotePoolSpec.v
Submitter.v
Sources.v
AttestationStream.v
Production.v
Commitment.v
ProofSource.v
MerkleCache.v
ServerState.v
ProofService.v
Serving.v
EventStream.v
Announced.v
Following.v
Startup.v
