(* ===== verification/Prelude.v ===== *)
(** * Creditcoin3: attestations from source chains to verified transactions

    Creditcoin3 lets contracts check transactions of other chains. Attestors follow a
    source chain and sign the roots of its blocks; the attestation pallet commits what
    a quorum of the elected attestors signed, as a hash chain of digests, and condenses
    it into checkpoints; a proof server builds, for a transaction, a Merkle proof to its
    block's root and a continuity proof from that root to a digest on chain; and the
    block prover precompile checks both. This development models that path end to end,
    as functions and step relations that can be run, and proves that its parts do what
    the next part relies on.

    ** The parts and their files

    Shared data. [Prelude] has machine integers, lists, the program monad [M S E]
    (a function on a state that returns a [Result], with the writes made before an
    error kept until a [transactional] boundary), record updates, the tactics that run
    programs backwards ([run_inv], [call_inv], [step_inv]) and the hint database
    [leaves] for what a program leaves alone. [Primitives] is [src/primitives/attestor]:
    attestations, checkpoints, quorums, block digests, continuity proofs and encodings.
    [Merkle] is [src/common/merkle]. [Frame] states what the pallets use of FRAME:
    origins, iteration and [clear_prefix], with the laws Substrate documents.

    The runtime. [SupportedChains] and [Randomness] are the pallets of these names. The
    attestation pallet ([src/pallets/attestation]) is split as its source is: [Types]
    (configuration, every storage item as a field of [State], events, errors, getters),
    [Ledger] and [Bonds] (stakes), [Roster] (attestors, keys, elections), [Settings],
    [Validate] (what a commit must pass), [Checkpoints] (committing and condensing),
    [Maintenance] (reverts, imports, forward patches, pruning, cleanup of removed
    chains), [Genesis], and [Pallet] (calls, hooks, the pallet's invariant). Its two
    contracts are abstract machines with their own steps and invariants: [RosterSpec]
    with the refinement in [RosterRefine] and [Teardown], and [LadderSpec] for one
    chain's attestations and checkpoints, with [LadderFrame], [LadderRefine] and
    [MaintRefine]; [History] adds that everything stored lies on one hash chain.
    [Termination] shows that the fuel of the pallet's loops is enough. [Runtime] wires
    the pallets together as [src/runtime/src/lib.rs] does; [Concrete] instantiates all
    that is abstract so that examples evaluate; [Guarantees] holds the theorems about
    every state reachable from genesis. [Prevalidate] is the transaction extension.

    The precompiles. [BlockProver] and [ChainInfo] are the precompiles, with gas, logs
    and reverts; [Inclusion] and [Provable] set them on top of the pallet.

    The attestor. [VotePool] and [VotePoolSpec] are [src/attestor/pool], with its lock
    and its parked receiver as a step relation. [Submitter] is the verification of
    votes, the proof cache, the committee's keys and the validation task of
    [src/attestor/attestor]. [Sources] has the maturity rule, the tip and the root
    streams ([src/common/streams/eth]), [AttestationStream] the stream that produces
    attestations, [Production] the task that casts votes, and [Commitment] joins
    attestor and runtime.

    The proof server ([src/proof-gen-api-server]). [ProofSource] is the source chain as
    the server sees it: fetched blocks with their checks, the archiver, the provider
    interface [EthRpcProvider] and its contract [SourceChain]. [MerkleCache] and
    [ServerState] are its state: the caches and the handler of events. [ProofService]
    has the requests, [Serving] sets their answers against the block prover.
    [EventStream] is the stream of finalized events ([src/common/streams/cc3]);
    [Announced] shows what a cache that replays the pallet's events knows of its
    storage, [Following] that the server's caches are such caches; [Startup] has the
    retried reads of the pinned snapshot and composes startup, stream, caches and
    requests.

    ** What the theorems show

    - On chain, in every reachable state and for all calls of all origins: the
      invariant of table and pallet; the attestations of a chain form one history;
      stable checkpoints persist; commits have quorums, quorums overlap, keys identify
      attestors; bonds are locked and withdrawals release what has matured; settings
      stay within bounds; calls refine the roster and ladder machines; commits below
      the last checkpoint boundary of the u64 range end.
    - Pool and precompiles: prevalidation agrees with dispatch; what the prover
      verifies is in an attested block, it decides every query, a batch is each of its
      queries, and every height that chain info bounds can be proven.
    - Off chain: the streams keep order and lose nothing, what is produced extends the
      head and can be committed, the vote pool hands out dominant quorums without lost
      wake-ups, decisions on its forks stick, and the submitter agrees with the
      runtime. The node's steps ([node_step]) interleave freely; its agreement with
      the chain is for runs without a reversion above genesis during the genesis wait
      ([aligned_step]), its eligibility for runs without the race of the warm-up
      timers ([calm_step]); both exceptions are exhibited.
    - The proof server: its answers are accepted by the prover, attested transactions
      are served, its caches follow the chain, its event stream yields every block
      once, its startup reads end, and a started server that follows the stream
      answers with proofs that verify at the latest block it has seen.

    ** Parameters, bounds and fuel

    Code outside the repository is a parameter with named laws: Keccak ([Keccak];
    collision freedom is asked for only on the messages that are hashed), BLS ([Bls]),
    balances ([Currency], [CurrencyLaws]), FRAME's storage ([FrameStorage] and its
    laws), the EVM's handle ([PrecompileHandle], [HandleLaws]), ABI encoding
    ([Ethabi]), trie roots and encodings of the source chain ([EthFormats]). Each has
    an instance on which the theorems' examples run.

    Heights and amounts are [Z] with the word size written out where the code adds,
    multiplies or casts. [usize] is [Arch]: 32 bits in the runtime, 64 bits in the
    attestor and the server. The streams keep heights below [height_limit], half of the
    u64 range, so that an interval can be added. [usize_width] asks that twice the
    widest checkpoint width fits in a [usize]; the runtime's configuration satisfies
    it.

    Loops that are not structural take fuel. A catch-up runs [boundary_fuel], two more
    than the boundaries up to the head, and a pruning turn two more than its pivots;
    [Termination] shows that neither runs out for heads below [last_boundary], the
    last multiple of the checkpoint width that is a u64. At or above it the source's
    loop does not end, and no fuel is enough ([boundary_loop_endless]). A commit at
    the very last height is the one call whose checkpoint the server's caches cannot
    follow ([untold_call]), and the vote pool cannot move its bounds past that
    height ([above]). Merkle levels take one more than the number of leaves.
    The polls of the attestation stream are shown to end with the fuel that the
    distance to [height_limit] and the sources' pending items give, and any more gives
    the same outcome. The root
    stream is run on a finite schedule. A startup read takes [retry_fuel], seven turns
    more than the waits that fit in the limit: five failures, one wait more, and the
    last turn; its result is given call by call ([ends_with]).

    ** Not modelled

    - Networking and processes: the peer-to-peer task, HTTP servers, RPC transports,
      reconnects and back-off beyond their outcome, metrics, health and shutdown. They
      are I/O; their effect on the modelled code is the order and content of its
      inputs, over which the theorems quantify.
    - Locks of the server and of the attestor's stores: each handler is one step. The
      vote pool, whose lock and wake-ups matter, is the exception.
    - The client-side continuity builder, the indexer and its client, the archiver's
      database, the checkpoint tools, command line tools, the node, tracing and
      operational scripts, which no modelled part depends on but through their answers.
    - Weights, benchmarks, storage migrations, the staking and EVM pallets of the
      runtime, and the precompiles that only forward calls or check signatures.
    - Decoding of extrinsics, events and ABI data: values arrive with their types. *)

From stdpp Require Import prelude gmap list sorting.
From Stdlib Require Import ZArith Lia.

#[global] Open Scope Z_scope.

(** ** Machine integers

    Unsigned integers are kept in [Z]; an operation that can leave the range
    of a [w]-bit word says what the Rust operation of that name does there. *)

Definition umax (w : Z) : Z := 2 ^ w - 1.
Definition in_range (w z : Z) : Prop := 0 <= z <= umax w.
Definition wrap (w z : Z) : Z := z mod 2 ^ w.
Definition saturating_add (w a b : Z) : Z := Z.min (a + b) (umax w).
Definition saturating_sub (a b : Z) : Z := Z.max 0 (a - b).
Definition saturating_mul (w a b : Z) : Z := Z.min (a * b) (umax w).
Definition checked_add (w a b : Z) : option Z :=
  if a + b <=? umax w then Some (a + b) else None.
Definition checked_mul (w a b : Z) : option Z :=
  if a * b <=? umax w then Some (a * b) else None.
Definition checked_sub (a b : Z) : option Z :=
  if b <=? a then Some (a - b) else None.

(** The length of a vector, as the source's [len() as u64]. *)
Definition zlen {A} (l : list A) : Z := Z.of_nat (length l).

Lemma umax_32 : umax 32 = 4294967295. Proof. reflexivity. Qed.
Lemma umax_64 : umax 64 = 18446744073709551615. Proof. reflexivity. Qed.
Lemma pow2_64 : 2 ^ 64 = 18446744073709551616. Proof. reflexivity. Qed.

Lemma wrap_small w z : 0 <= z < 2 ^ w -> wrap w z = z.
Proof. apply Z.mod_small. Qed.

Lemma wrap_idemp w z : 0 <= w -> wrap w (wrap w z) = wrap w z.
Proof.
  intros Hw. unfold wrap. apply Z.mod_mod. apply Z.pow_nonzero; lia.
Qed.

Lemma checked_add_Some w a b c : checked_add w a b = Some c -> c = a + b /\ a + b <= umax w.
Proof. unfold checked_add. destruct (Z.leb_spec (a + b) (umax w)); intros [=]; auto. Qed.

Lemma checked_sub_Some a b c : checked_sub a b = Some c -> c = a - b /\ b <= a.
Proof. unfold checked_sub. destruct (Z.leb_spec b a); intros [=]; auto. Qed.

Lemma zlen_nonneg {A} (l : list A) : 0 <= zlen l.
Proof. unfold zlen. lia. Qed.

Lemma zlen_app {A} (l k : list A) : zlen (l ++ k) = zlen l + zlen k.
Proof. unfold zlen. rewrite length_app. lia. Qed.

Lemma zlen_cons {A} (x : A) (l : list A) : zlen (x :: l) = zlen l + 1.
Proof. unfold zlen. simpl. lia. Qed.

Lemma zlen_nil_inv {A} (l : list A) : zlen l = 0 -> l = [].
Proof. destruct l; unfold zlen; simpl; [done|lia]. Qed.

(** Unfold the word operations and hand the comparisons to [lia]. *)
Ltac words :=
  unfold saturating_add, saturating_sub, saturating_mul, checked_add,
    checked_mul, checked_sub, in_range, zlen in *;
  rewrite ?umax_32, ?umax_64, ?pow2_64 in *.

(** Prove a decidable proposition by evaluating its decision procedure. *)
Ltac decide_now :=
  apply (bool_decide_eq_true_1 _); vm_compute; reflexivity.

(** ** Byte strings

    A byte is a [Z] in [0, 256); [H256], [AccountId32] and the BLS key types
    are fixed-size byte arrays, kept as the number their bytes spell
    big-endian, so that the derived [Ord] of the arrays is the order of [Z]. *)

Fixpoint to_le_bytes (n : nat) (z : Z) : list Z :=
  match n with
  | O => []
  | S n' => z mod 256 :: to_le_bytes n' (z / 256)
  end.

Definition to_be_bytes (n : nat) (z : Z) : list Z := rev (to_le_bytes n z).

Lemma length_to_le_bytes n z : length (to_le_bytes n z) = n.
Proof. revert z. induction n; intros z; simpl; auto. Qed.

Lemma length_to_be_bytes n z : length (to_be_bytes n z) = n.
Proof. unfold to_be_bytes. rewrite length_rev. apply length_to_le_bytes. Qed.

Lemma to_le_bytes_inj n a b :
  0 <= a < 256 ^ Z.of_nat n -> 0 <= b < 256 ^ Z.of_nat n ->
  to_le_bytes n a = to_le_bytes n b -> a = b.
Proof.
  revert a b. induction n as [|n IH]; intros a b Ha Hb Heq.
  - simpl in *. lia.
  - simpl in Heq. injection Heq as Hmod Hdiv.
    rewrite Nat2Z.inj_succ, Z.pow_succ_r in Ha, Hb by lia.
    assert (a / 256 = b / 256) as Hd.
    { apply IH; [| |done].
      - split; [apply Z.div_pos; lia|]. apply Z.div_lt_upper_bound; lia.
      - split; [apply Z.div_pos; lia|]. apply Z.div_lt_upper_bound; lia. }
    rewrite (Z.div_mod a 256), (Z.div_mod b 256) by lia. congruence.
Qed.

Lemma to_be_bytes_inj n a b :
  0 <= a < 256 ^ Z.of_nat n -> 0 <= b < 256 ^ Z.of_nat n ->
  to_be_bytes n a = to_be_bytes n b -> a = b.
Proof.
  intros Ha Hb Heq. apply (to_le_bytes_inj n); [done..|].
  unfold to_be_bytes in Heq. apply (f_equal (@rev Z)) in Heq.
  by rewrite !rev_involutive in Heq.
Qed.

#[global] Arguments to_le_bytes : simpl never.
#[global] Arguments to_be_bytes : simpl never.
#[global] Arguments wrap : simpl never.
#[global] Arguments umax : simpl never.

(** Splitting equal concatenations whose first parts have the same length. *)
Lemma app_inj_length {A} (a b c d : list A) :
  length a = length c -> a ++ b = c ++ d -> a = c /\ b = d.
Proof. intros. by apply app_inj_1. Qed.

(** [collect::<BTreeSet<_>>()]: the distinct elements in increasing order. *)
Definition btree_set (l : list Z) : list Z := merge_sort Z.le (remove_dups l).

Lemma elem_of_btree_set l x : x ∈ btree_set l <-> x ∈ l.
Proof. unfold btree_set. rewrite merge_sort_Permutation. apply elem_of_remove_dups. Qed.

Lemma NoDup_btree_set l : NoDup (btree_set l).
Proof. unfold btree_set. rewrite merge_sort_Permutation. apply NoDup_remove_dups. Qed.

Lemma btree_set_perm l : NoDup l -> btree_set l ≡ₚ l.
Proof.
  intros Hnd. apply NoDup_Permutation; [apply NoDup_btree_set|done|].
  intros x. apply elem_of_btree_set.
Qed.

(** [Iterator::take_while] *)
Fixpoint take_while {A} (f : A -> bool) (l : list A) : list A :=
  match l with
  | [] => []
  | x :: l' => if f x then x :: take_while f l' else []
  end.

(** ** Results and the storage monad

    A runtime function runs on a storage [S] and returns a [Result] with the
    storage as it left it: an early return on an error keeps the writes made
    before it, until a [transactional] boundary drops them. *)

Inductive Result (E A : Type) : Type :=
| Ok (a : A)
| Err (e : E).
Arguments Ok {E A} a.
Arguments Err {E A} e.

Definition is_ok {E A} (r : Result E A) : bool :=
  match r with Ok _ => true | Err _ => false end.

Definition ok_or {E A} (e : E) (o : option A) : Result E A :=
  match o with Some a => Ok a | None => Err e end.

Definition M (S E A : Type) : Type := S -> Result E A * S.

#[export] Instance M_ret S E : MRet (M S E) := fun _ a s => (Ok a, s).
#[export] Instance M_bind S E : MBind (M S E) := fun _ _ k m s =>
  match m s with
  | (Ok a, s') => k a s'
  | (Err e, s') => (Err e, s')
  end.

Definition fail {S E A} (e : E) : M S E A := fun s => (Err e, s).
Definition gets {S E A} (f : S -> A) : M S E A := fun s => (Ok (f s), s).
Definition modify {S E} (f : S -> S) : M S E unit := fun s => (Ok tt, f s).
Definition ensure {S E} (b : bool) (e : E) : M S E unit :=
  if b then mret tt else fail e.
Definition lift {S E A} (r : Result E A) : M S E A := fun s => (r, s).

(** [#\[transactional\]] and the dispatchable boundary: an error rolls back. *)
Definition transactional {S E A} (m : M S E A) : M S E A := fun s =>
  match m s with
  | (Ok a, s') => (Ok a, s')
  | (Err e, _) => (Err e, s)
  end.

(** A loop over a collection, in order. *)
Fixpoint for_each {S E A} (f : A -> M S E unit) (l : list A) : M S E unit :=
  match l with
  | [] => mret tt
  | x :: l' => f x;; for_each f l'
  end.

(** [iter().filter_map(f).collect()] with a closure that writes to storage. *)
Fixpoint filter_map_m {S E A B} (f : A -> M S E (option B)) (l : list A) : M S E (list B) :=
  match l with
  | [] => mret []
  | x :: l' =>
      o ← f x;
      rest ← filter_map_m f l';
      mret (match o with Some y => y :: rest | None => rest end)
  end.

(** Run a fallible call and look at its result instead of propagating it. *)
Definition attempt {S E A} (m : M S E A) : M S E (Result E A) := fun s =>
  let '(r, s') := m s in (Ok r, s').

(** A branch without an else. *)
Definition when {S E} (b : bool) (m : M S E unit) : M S E unit := if b then m else mret tt.

(** [Vec::swap_remove]: the last element takes the place of the removed one. *)
Definition swap_remove {A} (pos : nat) (l : list A) : list A :=
  match last l with
  | Some x => <[pos := x]> (removelast l)
  | None => l
  end.

(** ** Reasoning about the monad *)

Section MonadFacts.
Context {S E : Type}.

Lemma bind_ok {A B} (m : M S E A) (k : A -> M S E B) s b s' :
  (m ≫= k) s = (Ok b, s') ->
  exists a s1, m s = (Ok a, s1) /\ k a s1 = (Ok b, s').
Proof.
  unfold mbind, M_bind. destruct (m s) as [[a|e] s1]; [eauto|done].
Qed.

Lemma bind_err {A B} (m : M S E A) (k : A -> M S E B) s e s' :
  (m ≫= k) s = (Err e, s') ->
  m s = (Err e, s') \/ exists a s1, m s = (Ok a, s1) /\ k a s1 = (Err e, s').
Proof.
  unfold mbind, M_bind. destruct (m s) as [[a|e'] s1]; [eauto|intros [= <- <-]; auto].
Qed.

Lemma transactional_err_inv {A} (m : M S E A) s e s' :
  transactional m s = (Err e, s') -> exists s1, m s = (Err e, s1).
Proof. unfold transactional. destruct (m s) as [[?|?] ?]; intros [=]; subst; eauto. Qed.

Lemma ensure_ok (b : bool) (e : E) (s s' : S) (u : unit) :
  ensure b e s = (Ok u, s') -> b = true /\ s' = s.
Proof. unfold ensure. destruct b; cbn; intros [=]; auto. Qed.

Lemma lift_ok {A} (r : Result E A) (s s' : S) (a : A) :
  lift r s = (Ok a, s') -> r = Ok a /\ s' = s.
Proof. unfold lift. intros [=]; auto. Qed.

Lemma ok_or_ok {A} (e : E) (o : option A) (a : A) : ok_or e o = Ok a -> o = Some a.
Proof. destruct o; cbn; congruence. Qed.

Lemma gets_ok {A} (f : S -> A) (s s' : S) (a : A) :
  (gets f : M S E A) s = (Ok a, s') -> a = f s /\ s' = s.
Proof. unfold gets. intros [=]; auto. Qed.

Lemma modify_ok (f : S -> S) (s s' : S) (u : unit) :
  (modify f : M S E unit) s = (Ok u, s') -> s' = f s.
Proof. unfold modify. intros [=]; auto. Qed.

Lemma ret_ok {A} (a b : A) (s s' : S) :
  (mret a : M S E A) s = (Ok b, s') -> b = a /\ s' = s.
Proof. intros [=]; auto. Qed.

Lemma transactional_ok {A} (m : M S E A) s a s' :
  transactional m s = (Ok a, s') -> m s = (Ok a, s').
Proof. unfold transactional. destruct (m s) as [[?|?] ?]; congruence. Qed.

(** A transaction that fails leaves the storage as it found it. *)
Lemma transactional_err {A} (m : M S E A) s e s' :
  transactional m s = (Err e, s') -> s' = s.
Proof. unfold transactional. destruct (m s) as [[?|?] ?]; congruence. Qed.

(** Running a program forward, step by step. *)
Lemma run_gets {A B} (f : S -> A) (k : A -> M S E B) s : (gets f ≫= k) s = k (f s) s.
Proof. done. Qed.

Lemma run_ensure {B} b (e : E) (k : unit -> M S E B) s : b = true -> (ensure b e ≫= k) s = k tt s.
Proof. by intros ->. Qed.

Lemma run_refuse {B} b (e : E) (k : unit -> M S E B) s : b = false -> (ensure b e ≫= k) s = (Err e, s).
Proof. by intros ->. Qed.

Lemma run_lift {A B} (r : Result E A) a (k : A -> M S E B) s : r = Ok a -> (lift r ≫= k) s = k a s.
Proof. by intros ->. Qed.

Lemma run_call {A B} (m : M S E A) a s s' (k : A -> M S E B) : m s = (Ok a, s') -> (m ≫= k) s = k a s'.
Proof. intros Hm. unfold mbind, M_bind. by rewrite Hm. Qed.

(** [keeps I m]: whenever [m] succeeds it preserves [I]. *)
Definition keeps {A} (I : S -> Prop) (m : M S E A) : Prop :=
  forall s a s', m s = (Ok a, s') -> I s -> I s'.

Lemma keeps_ret {A} I (a : A) : keeps I (mret a : M S E A).
Proof. intros s a' s' [=]; subst; auto. Qed.

Lemma keeps_fail {A} I (e : E) : keeps I (fail e : M S E A).
Proof. intros s a s' [=]. Qed.

Lemma keeps_gets {A} I (f : S -> A) : keeps I (gets f : M S E A).
Proof. intros s a s' [=]; subst; auto. Qed.

Lemma keeps_lift {A} I (r : Result E A) : keeps I (lift r : M S E A).
Proof. intros s a s' [=]; subst; auto. Qed.

Lemma keeps_ensure I b (e : E) : keeps I (ensure b e : M S E unit).
Proof. intros s u s' [_ ->]%ensure_ok; auto. Qed.

Lemma keeps_modify (I : S -> Prop) (f : S -> S) :
  (forall s, I s -> I (f s)) -> keeps I (modify f : M S E unit).
Proof. intros H s u s' [=]; subst; auto. Qed.

Lemma keeps_bind {A B} I (m : M S E A) (k : A -> M S E B) :
  keeps I m -> (forall a, keeps I (k a)) -> keeps I (m ≫= k).
Proof.
  intros Hm Hk s b s' (a & s1 & H1 & H2)%bind_ok HI. eapply Hk; eauto.
Qed.

Lemma keeps_transactional {A} I (m : M S E A) :
  keeps I m -> keeps I (transactional m).
Proof. intros Hm s a s' H%transactional_ok; eauto. Qed.

Lemma keeps_for_each {A} I (f : A -> M S E unit) l :
  (forall x, keeps I (f x)) -> keeps I (for_each f l).
Proof.
  intros Hf. induction l as [|x l IH]; simpl; [apply keeps_ret|].
  apply keeps_bind; auto.
Qed.

(** Behind a transactional boundary [keeps] is an invariant outright. *)
Definition rolls_back {A} (m : M S E A) : Prop :=
  forall s e s', m s = (Err e, s') -> s' = s.

Lemma rolls_back_transactional {A} (m : M S E A) : rolls_back (transactional m).
Proof. intros s e s'. apply transactional_err. Qed.

Lemma rolls_back_invariant {A} (I : S -> Prop) (m : M S E A) s :
  rolls_back m -> keeps I m -> I s -> I (m s).2.
Proof.
  intros Hr Hm HI. destruct (m s) as [[a|e] s'] eqn:Hs; simpl; [by eapply Hm|].
  by apply Hr in Hs as ->.
Qed.
End MonadFacts.

#[export] Hint Resolve rolls_back_transactional : core.

Lemma keeps_filter_map_m {S E A B} (I : S -> Prop) (f : A -> M S E (option B)) l :
  (forall x, keeps I (f x)) -> keeps I (filter_map_m f l).
Proof.
  intros Hf. induction l as [|x l IH]; simpl; [apply keeps_ret|].
  apply keeps_bind; [done|intros o]. apply keeps_bind; [done|intros r]. apply keeps_ret.
Qed.

Lemma keeps_when {S E} (I : S -> Prop) b (m : M S E unit) : keeps I m -> keeps I (when b m).
Proof. intros Hm. destruct b; [done|apply keeps_ret]. Qed.

Lemma when_ok {S E} b (m : M S E unit) s u s' :
  when b m s = (Ok u, s') -> (b = true /\ m s = (Ok u, s')) \/ (b = false /\ s' = s).
Proof. destruct b; cbn; [auto|intros [=]; auto]. Qed.

Create HintDb keeps.
#[export] Hint Resolve keeps_ret keeps_fail keeps_gets keeps_lift keeps_ensure
  keeps_bind keeps_transactional keeps_for_each keeps_filter_map_m keeps_when : keeps.

Lemma swap_remove_perm {A} pos (x : A) l :
  l !! pos = Some x -> x :: swap_remove pos l ≡ₚ l.
Proof.
  intros Hx. unfold swap_remove. destruct (exists_last (l := l)) as (k & y & ->).
  { intros ->. done. }
  rewrite last_snoc, removelast_last.
  apply lookup_app_Some in Hx as [Hk|[Hlen Hk]].
  - rewrite insert_take_drop by (by eapply lookup_lt_Some).
    rewrite <- (take_drop_middle k pos x Hk) at 3. solve_Permutation.
  - destruct (pos - length k)%nat eqn:Hd; [|done]. injection Hk as ->.
    rewrite list_insert_ge by lia. solve_Permutation.
Qed.

(** The function symbol of an application. *)
Ltac head_of t := lazymatch t with ?f _ => head_of f | _ => t end.

(** Invert a successful run into the runs of its steps. *)
Ltac run_inv :=
  repeat match goal with
  | H : (_ ≫= _) _ = (Ok _, _) |- _ =>
      let a := fresh "a" in let s := fresh "s" in
      let H1 := fresh "Hrun" in let H2 := fresh "Hrun" in
      apply bind_ok in H as (a & s & H1 & H2)
  | H : transactional _ _ = (Ok _, _) |- _ => apply transactional_ok in H
  | H : ensure _ _ _ = (Ok _, _) |- _ =>
      let Hb := fresh "Hens" in apply ensure_ok in H as [Hb ->]
  | H : lift _ _ = (Ok _, _) |- _ =>
      let Hb := fresh "Hlift" in apply lift_ok in H as [Hb ->]
  | H : ok_or _ _ = Ok _ |- _ => apply ok_or_ok in H
  | H : gets _ _ = (Ok _, _) |- _ => apply gets_ok in H as [-> ->]
  | H : modify _ _ = (Ok _, _) |- _ => apply modify_ok in H as ->
  | H : mret _ _ = (Ok _, _) |- _ => apply ret_ok in H as [-> ->]
  | H : fail _ _ = (Ok _, _) |- _ => discriminate H
  end.

(** The two cases of a conditional step. *)
Ltac when_inv Hb :=
  match goal with
  | H : when _ _ _ = (Ok _, _) |- _ => apply when_ok in H as [[Hb H]|[Hb ->]]
  end.

(** ** Views

    [leaves v m]: running [m], successfully or not, leaves the view [v] of the
    state as it was. The tactic [leaves] proves it by following the program. *)

Definition leaves {S E A T} (v : S -> T) (m : M S E A) : Prop :=
  forall s r s', m s = (r, s') -> v s' = v s.

Section Leaves.
Context {S E T : Type} (v : S -> T).

Lemma leaves_ret {A} (a : A) : leaves v (mret a : M S E A).
Proof. by intros s r s' [= _ <-]. Qed.

Lemma leaves_fail {A} (e : E) : leaves v (fail e : M S E A).
Proof. by intros s r s' [= _ <-]. Qed.

Lemma leaves_gets {A} (f : S -> A) : leaves v (gets f : M S E A).
Proof. by intros s r s' [= _ <-]. Qed.

Lemma leaves_lift {A} (x : Result E A) : leaves v (lift x : M S E A).
Proof. by intros s r s' [= _ <-]. Qed.

Lemma leaves_ensure b (e : E) : leaves v (ensure b e : M S E unit).
Proof. unfold ensure. destruct b; [apply leaves_ret|apply leaves_fail]. Qed.

Lemma leaves_modify (f : S -> S) :
  (forall s, v (f s) = v s) -> leaves v (modify f : M S E unit).
Proof. by intros Hf s r s' [= _ <-]. Qed.

Lemma leaves_bind {A B} (m : M S E A) (k : A -> M S E B) :
  leaves v m -> (forall a, leaves v (k a)) -> leaves v (m ≫= k).
Proof.
  intros Hm Hk s r s'. unfold mbind, M_bind.
  destruct (m s) as [[a|e] s1] eqn:Hs; intros Hr.
  - rewrite (Hk a _ _ _ Hr). by eapply Hm.
  - injection Hr as _ <-. by eapply Hm.
Qed.

Lemma leaves_transactional {A} (m : M S E A) : leaves v m -> leaves v (transactional m).
Proof.
  intros Hm s r s'. unfold transactional.
  destruct (m s) as [[a|e] s1] eqn:Hs; intros [= _ <-]; [by eapply Hm|done].
Qed.

Lemma leaves_attempt {A} (m : M S E A) : leaves v m -> leaves v (attempt m).
Proof.
  intros Hm s r s'. unfold attempt. destruct (m s) as [x s1] eqn:Hs.
  intros [= _ <-]. by eapply Hm.
Qed.

Lemma leaves_when b (m : M S E unit) : leaves v m -> leaves v (when b m).
Proof. intros Hm. destruct b; [done|apply leaves_ret]. Qed.

Lemma leaves_for_each {A} (f : A -> M S E unit) l :
  (forall x, leaves v (f x)) -> leaves v (for_each f l).
Proof.
  intros Hf. induction l as [|x l IH]; simpl; [apply leaves_ret|].
  apply leaves_bind; auto.
Qed.

Lemma leaves_filter_map_m {A B} (f : A -> M S E (option B)) l :
  (forall x, leaves v (f x)) -> leaves v (filter_map_m f l).
Proof.
  intros Hf. induction l as [|x l IH]; simpl; [apply leaves_ret|].
  apply leaves_bind; [done|intros o]. apply leaves_bind; [done|intros r]. apply leaves_ret.
Qed.
End Leaves.

Create HintDb leaves.

Ltac leaves :=
  intros;
  lazymatch goal with
  | |- leaves _ (_ ≫= _) => apply leaves_bind; leaves
  | |- leaves _ (mret _) => apply leaves_ret
  | |- leaves _ (fail _) => apply leaves_fail
  | |- leaves _ (gets _) => apply leaves_gets
  | |- leaves _ (lift _) => apply leaves_lift
  | |- leaves _ (ensure _ _) => apply leaves_ensure
  | |- leaves _ (modify _) => apply leaves_modify; intros; repeat case_match;
      first [reflexivity|solve [eauto with leaves]]
  | |- leaves _ (transactional _) => apply leaves_transactional; leaves
  | |- leaves _ (attempt _) => apply leaves_attempt; leaves
  | |- leaves _ (when _ _) => apply leaves_when; leaves
  | |- leaves _ (for_each _ _) => apply leaves_for_each; leaves
  | |- leaves _ (filter_map_m _ _) => apply leaves_filter_map_m; leaves
  | |- leaves _ (match ?x with _ => _ end) => destruct x; leaves
  | |- leaves _ (let _ := _ in _) => cbv zeta; leaves
  | |- leaves _ _ => first [solve [eauto with leaves]|progress cbv zeta beta; leaves
      |match goal with |- leaves _ ?m => let h := head_of m in unfold h end; leaves]
  end.

(** The run [H] leaves the view alone. *)
Ltac left_alone v H Heq :=
  lazymatch type of H with
  | ?m ?a = (_, ?b) => assert (v b = v a) as Heq by (refine ((_ : leaves v m) _ _ _ H); leaves)
  end.

(** An invariant that only reads a view is kept by what leaves the view alone. *)
Lemma keeps_leaves {S E A T} (v : S -> T) (I : S -> Prop) (m : M S E A) :
  (forall s s', v s' = v s -> I s -> I s') -> leaves v m -> keeps I m.
Proof. intros HI Hm s a s' Hs. apply HI. by eapply Hm. Qed.

(** ** Success

    [succeeds m]: [m] returns from every state; the tactic [succeeds] follows the
    program as [leaves] does. *)

Definition succeeds {S E A} (m : M S E A) : Prop := forall s, exists a s', m s = (Ok a, s').

Section Succeeds.
Context {S E : Type}.

Lemma succeeds_bind {A B} (m : M S E A) (k : A -> M S E B) :
  succeeds m -> (forall a, succeeds (k a)) -> succeeds (m ≫= k).
Proof.
  intros Hm Hk s. destruct (Hm s) as (a & s1 & Hs). destruct (Hk a s1) as (b & s' & Hs').
  exists b, s'. unfold mbind, M_bind. by rewrite Hs.
Qed.

Lemma succeeds_ret {A} (a : A) : succeeds (mret a : M S E A).
Proof. intros s. by exists a, s. Qed.

Lemma succeeds_gets {A} (f : S -> A) : succeeds (gets f : M S E A).
Proof. intros s. by eexists _, s. Qed.

Lemma succeeds_modify (f : S -> S) : succeeds (modify f : M S E unit).
Proof. intros s. by exists tt, (f s). Qed.

Lemma succeeds_attempt {A} (m : M S E A) : succeeds (attempt m).
Proof. intros s. unfold attempt. destruct (m s) as [r s']. by exists r, s'. Qed.

Lemma succeeds_when b (m : M S E unit) : succeeds m -> succeeds (when b m).
Proof. intros Hm. destruct b; [done|apply succeeds_ret]. Qed.

Lemma succeeds_transactional {A} (m : M S E A) : succeeds m -> succeeds (transactional m).
Proof.
  intros Hm s. destruct (Hm s) as (a & s' & Hs). exists a, s'. unfold transactional. by rewrite Hs.
Qed.

Lemma succeeds_for_each {A} (f : A -> M S E unit) l :
  (forall x, succeeds (f x)) -> succeeds (for_each f l).
Proof.
  intros Hf. induction l as [|x l IH]; simpl; [apply succeeds_ret|]. by apply succeeds_bind.
Qed.

Lemma succeeds_filter_map_m {A B} (f : A -> M S E (option B)) l :
  (forall x, succeeds (f x)) -> succeeds (filter_map_m f l).
Proof.
  intros Hf. induction l as [|x l IH]; simpl; [apply succeeds_ret|].
  apply succeeds_bind; [done|intros o]. apply succeeds_bind; [done|intros r]. apply succeeds_ret.
Qed.
End Succeeds.

Create HintDb succeeds.

Ltac succeeds :=
  intros;
  lazymatch goal with
  | |- succeeds (_ ≫= _) => apply succeeds_bind; succeeds
  | |- succeeds (mret _) => apply succeeds_ret
  | |- succeeds (gets _) => apply succeeds_gets
  | |- succeeds (modify _) => apply succeeds_modify
  | |- succeeds (attempt _) => apply succeeds_attempt
  | |- succeeds (transactional _) => apply succeeds_transactional; succeeds
  | |- succeeds (when _ _) => apply succeeds_when; succeeds
  | |- succeeds (for_each _ _) => apply succeeds_for_each; succeeds
  | |- succeeds (filter_map_m _ _) => apply succeeds_filter_map_m; succeeds
  | |- succeeds (match ?x with _ => _ end) => destruct x; succeeds
  | |- succeeds (let _ := _ in _) => cbv zeta; succeeds
  | |- succeeds _ => first [solve [eauto with succeeds]|progress cbv zeta beta; succeeds
      |match goal with |- succeeds ?m => let h := head_of m in unfold h end; succeeds]
  end.

(** ** Record update

    [r <| p := v |>] is [r] with the field read by [p] set to [v]. A record
    declares its eta expansion as an instance of [Settable]. *)

Class Settable (R : Type) := eta_of : R -> R.
Class Setter {R T : Type} (proj : R -> T) := setter_of : (T -> T) -> R -> R.
Definition upd {R T} (proj : R -> T) {s : Setter proj} (f : T -> T) (r : R) : R :=
  s f r.
Arguments upd {R T} proj {s} f r /.

Ltac solve_setter R proj :=
  let eta := constr:(_ : Settable R) in
  let body := eval hnf in (@eta_of R eta) in
  match eval pattern proj in body with
  | ?f _ => exact (fun g r => f (fun r' => g (proj r')) r)
  end.

#[export] Hint Extern 1 (@Setter ?R ?T ?proj) =>
  solve_setter R proj : typeclass_instances.

Declare Scope record_scope.
Notation "r <| p ::= f |>" := (upd p f r)
  (at level 12, left associativity, p at level 9) : record_scope.
Notation "r <| p := v |>" := (upd p (fun _ => v) r)
  (at level 12, left associativity, p at level 9) : record_scope.
#[global] Open Scope record_scope.
