(* ===== verification/Primitives.v ===== *)
(** * Attestor primitives

    The data every other component shares ([src/primitives/attestor/src/lib.rs]
    and [block.rs]): attestors, attestations and checkpoints, the quorum
    arithmetic, the digest of a block, continuity proofs and the functions that
    recompute their digests, and the byte encodings that are signed. Keccak-256
    is a parameter; the theorems that need collision resistance ask for it only
    on the messages that are really hashed. *)

From stdpp Require Import prelude gmap list sorting.
From Stdlib Require Import ZArith Lia.
From S2P Require Import Prelude.

(** ** Parameters *)

(** [sha3::Keccak256] on a byte string, as the number its 32 bytes spell. *)
Class Keccak := keccak256 : list Z -> Z.

(** The width of [usize]: 32 in the Wasm runtime, 64 in a native node. *)
Class Arch := usize_bits : Z.
Class ArchOk `{Arch} : Prop := usize_ok : 32 <= usize_bits.

Abbreviation H256 := Z (only parsing).
Abbreviation Digest := Z (only parsing).
Abbreviation ChainKey := Z (only parsing).
Abbreviation Height := Z (only parsing).
Abbreviation AccountId := Z (only parsing).
Abbreviation BlsPublicKey := Z (only parsing).
Abbreviation BlsSignature := Z (only parsing).

(** [H256::as_bytes]: 32 bytes. *)
Definition h256_bytes (h : H256) : list Z := to_be_bytes 32 h.

(** No two of the listed messages collide. *)
Definition coll_free `{Keccak} (msgs : list (list Z)) : Prop :=
  forall x y, x ∈ msgs -> y ∈ msgs -> keccak256 x = keccak256 y -> x = y.

(** ** Attestors *)

Inductive AttestorStatus := Active | Idle | Waiting | Leaving.

#[export] Instance AttestorStatus_eq_dec : EqDecision AttestorStatus.
Proof. solve_decision. Defined.

Definition is_active (s : AttestorStatus) : bool :=
  match s with Active => true | _ => false end.

Record Attestor := mkAttestor {
  at_bls_public_key : option BlsPublicKey;
  at_status : AttestorStatus;
  at_stash : AccountId;
}.

#[export] Instance eta_Attestor : Settable Attestor := fun r =>
  mkAttestor (at_bls_public_key r) (at_status r) (at_stash r).

#[export] Instance Attestor_eq_dec : EqDecision Attestor.
Proof. solve_decision. Defined.

(** ** Digests *)

(** [compute_digest_for]: the bytes hashed are number, root, previous digest. *)
Definition digest_payload (block_number root : Z) (prev : option Digest) : list Z :=
  to_be_bytes 8 block_number ++ h256_bytes root ++
  match prev with Some p => h256_bytes p | None => [] end.

Definition compute_digest_for `{Keccak} (block_number : Z) (root : H256)
    (prev_digest : option Digest) : Digest :=
  keccak256 (digest_payload block_number root prev_digest).

Definition hash_payload `{Keccak} (block_number : Z) (root prev_digest : H256) : H256 :=
  compute_digest_for block_number root (Some prev_digest).

(** ** Attestations and checkpoints *)

Record AttestationData := mkAttestationData {
  ad_chain_key : ChainKey;
  ad_header_number : Height;
  ad_header_hash : H256;
  ad_root : H256;
  ad_prev_digest : option Digest;
}.

#[export] Instance AttestationData_eq_dec : EqDecision AttestationData.
Proof. solve_decision. Defined.

Definition serialize (a : AttestationData) : list Z :=
  to_le_bytes 8 (ad_chain_key a) ++ to_le_bytes 8 (ad_header_number a) ++
  h256_bytes (ad_header_hash a) ++ h256_bytes (ad_root a) ++
  match ad_prev_digest a with Some p => h256_bytes p | None => [] end.

Definition digest `{Keccak} (a : AttestationData) : Digest :=
  compute_digest_for (ad_header_number a) (ad_root a) (ad_prev_digest a).

Definition round (a : AttestationData) : ChainKey * Height :=
  (ad_chain_key a, ad_header_number a).

Record AttestationCheckpoint := mkCheckpoint {
  cp_block_number : Height;
  cp_digest : Digest;
}.

#[export] Instance AttestationCheckpoint_eq_dec : EqDecision AttestationCheckpoint.
Proof. solve_decision. Defined.

(** ** Quorum *)

Definition calculate_threshold (active_attestors : Z) : Z :=
  saturating_mul 32 active_attestors 2 / 3 + 1.

Definition calculate_quorum (active_attestors : Z) : Z :=
  calculate_threshold active_attestors.

(** ** Proof of possession *)

(** The bytes of ["CC3:ATTESTOR:POP:v1"]. *)
Definition POP_DOMAIN_V1 : list Z :=
  [67; 67; 51; 58; 65; 84; 84; 69; 83; 84; 79; 82; 58; 80; 79; 80; 58; 118; 49].

Definition proof_of_possession_message (chain_key : ChainKey)
    (attestor_id : list Z) (bls_public_key : BlsPublicKey) : list Z :=
  POP_DOMAIN_V1 ++ to_le_bytes 8 chain_key ++ attestor_id ++
  to_be_bytes 48 bls_public_key.

(** ** Blocks *)

Inductive BlockError := BlockNumberMismatch (n : Z) | Empty (n : Z).

Record Block := mkBlock {
  b_block_number : Z;
  b_root : H256;
  b_prev_digest : H256;
  b_digest : H256;
}.

#[export] Instance Block_eq_dec : EqDecision Block.
Proof. solve_decision. Defined.

Definition Block_new `{Keccak} (block_number : Z) (root : H256) : Block :=
  let prev_digest := 0 in
  mkBlock block_number root prev_digest (hash_payload block_number root prev_digest).

Definition new_from_prev_digest `{Keccak} (block_number : Z)
    (root prev_digest : H256) : Block :=
  mkBlock block_number root prev_digest (hash_payload block_number root prev_digest).

Definition new_from_digest (block_number : Z) (_root digest : H256) : Block :=
  mkBlock block_number 0 0 digest.

Definition try_from_previous `{Keccak} (prev block : Block) : Result BlockError Block :=
  if b_block_number block =? wrap 64 (b_block_number prev + 1) then
    Ok (mkBlock (b_block_number block) (b_root block) (b_digest prev)
          (hash_payload (b_block_number block) (b_root block) (b_digest prev)))
  else Err (BlockNumberMismatch (b_block_number block)).

Definition from_block_number_and_digest (block_number : Z) (digest : H256) : Block :=
  mkBlock block_number 0 0 digest.

Definition created_from_empty (b : Block) : bool := b_root b =? 0.

Record BlockSerializable := mkBlockSerializable {
  bs_block_number : Z;
  bs_root : H256;
}.

Definition BlockSerializable_from (b : Block) : BlockSerializable :=
  mkBlockSerializable (b_block_number b) (b_root b).

Definition from_serializable_with_prev `{Keccak} (val : BlockSerializable)
    (prev_digest : H256) : Block :=
  mkBlock (bs_block_number val) (bs_root val) prev_digest
    (hash_payload (bs_block_number val) (bs_root val) prev_digest).

(** ** Continuity proofs *)

Record ContinuityProof := mkContinuityProof {
  lower_endpoint_digest : H256;
  roots : list H256;
}.

#[export] Instance ContinuityProof_eq_dec : EqDecision ContinuityProof.
Proof. solve_decision. Defined.

(** One turn of the digest loops: block [start + i], whose number wraps as
    [u64] addition does in a release build. *)
Definition chain_step `{Keccak} (start : Z) (i : nat) (root prev : H256) : H256 :=
  hash_payload (wrap 64 (start + Z.of_nat i)) root prev.

Definition digest_at `{Keccak} (p : ContinuityProof) (start_block_number : Z)
    (index : nat) : option H256 :=
  if (length (roots p) <=? index)%nat then None
  else Some (foldl (fun prev i =>
      chain_step start_block_number i (nth i (roots p) 0) prev)
    (lower_endpoint_digest p) (seq 0 (S index))).

Definition digest_for_block `{Keccak} `{Arch} (p : ContinuityProof)
    (start_block_number block_number : Z) : option H256 :=
  if block_number <? start_block_number then None
  else digest_at p start_block_number
    (Z.to_nat (wrap usize_bits (block_number - start_block_number))).

Definition from_blocks (blocks : list Block) : ContinuityProof :=
  match blocks with
  | [] => mkContinuityProof 0 []
  | b0 :: _ => mkContinuityProof (b_prev_digest b0) (map b_root blocks)
  end.

(** The loop of [to_blocks], at index [idx] with the digest before it. *)
Fixpoint to_blocks_loop `{Keccak} (start : Z) (idx : nat) (prev : H256)
    (rs : list H256) : list Block :=
  match rs with
  | [] => []
  | root :: rs' =>
      let d := chain_step start idx root prev in
      mkBlock (wrap 64 (start + Z.of_nat idx)) root prev d ::
      to_blocks_loop start (S idx) d rs'
  end.

Definition to_blocks `{Keccak} (p : ContinuityProof) (start_block_number : Z) : list Block :=
  to_blocks_loop start_block_number 0 (lower_endpoint_digest p) (roots p).

Fixpoint continuity_digest_loop `{Keccak} (start : Z) (i : nat) (d : H256)
    (rs : list H256) : H256 :=
  match rs with
  | [] => d
  | root :: rs' => continuity_digest_loop start (S i) (chain_step start i root d) rs'
  end.

Definition compute_continuity_digest `{Keccak} (p : ContinuityProof) (start_block : Z) : H256 :=
  continuity_digest_loop start_block 0 (lower_endpoint_digest p) (roots p).

Definition start_block_number (p : ContinuityProof) (attestation_header_number : Z) : Z :=
  saturating_sub attestation_header_number (zlen (roots p)).

Definition tail_prev_digest (p : ContinuityProof) : option H256 :=
  match roots p with [] => None | _ => Some (lower_endpoint_digest p) end.

Fixpoint block_digests_loop `{Keccak} (start : Z) (i : nat) (prev : H256)
    (rs : list H256) (m : gmap Z H256) : gmap Z H256 :=
  match rs with
  | [] => m
  | root :: rs' =>
      let d := chain_step start i root prev in
      block_digests_loop start (S i) d rs' (<[wrap 64 (start + Z.of_nat i) := d]> m)
  end.

Definition block_digests `{Keccak} (p : ContinuityProof) (start_block_number : Z)
    : gmap Z H256 :=
  block_digests_loop start_block_number 0 (lower_endpoint_digest p) (roots p) ∅.

Definition find_query_block_index `{Arch} (p : ContinuityProof)
    (start_block_number query_height : Z) : option Z :=
  match roots p with
  | [] => None
  | _ =>
      let last_block_num := wrap 64 (start_block_number + (zlen (roots p) - 1)) in
      if (start_block_number <=? query_height) && (query_height <=? last_block_num) then
        let index := wrap usize_bits (query_height - start_block_number) in
        if index <? zlen (roots p) then Some index else None
      else None
  end.

(** ** Signed attestations *)

Record SignedAttestation := mkSignedAttestation {
  sa_attestation : AttestationData;
  sa_signature : BlsSignature;
  sa_attestors : list AccountId;
  sa_continuity_proof : ContinuityProof;
}.

#[export] Instance SignedAttestation_eq_dec : EqDecision SignedAttestation.
Proof. solve_decision. Defined.

Definition sa_chain_key (s : SignedAttestation) : ChainKey :=
  ad_chain_key (sa_attestation s).
Definition sa_header_number (s : SignedAttestation) : Height :=
  ad_header_number (sa_attestation s).
Definition sa_digest `{Keccak} (s : SignedAttestation) : Digest :=
  digest (sa_attestation s).
Definition sa_prev_digest (s : SignedAttestation) : option Digest :=
  ad_prev_digest (sa_attestation s).

(** ** Injectivity of the encodings *)

Definition is_h256 (h : Z) : Prop := 0 <= h < 2 ^ 256.
Definition is_u64 (n : Z) : Prop := 0 <= n < 2 ^ 64.

#[export] Instance is_h256_dec h : Decision (is_h256 h).
Proof. unfold is_h256. apply _. Defined.
#[export] Instance is_u64_dec n : Decision (is_u64 n).
Proof. unfold is_u64. apply _. Defined.

(** The output of Keccak-256 is 32 bytes. *)
Definition keccak_range `{Keccak} : Prop := forall m, is_h256 (keccak256 m).

Lemma h256_bytes_inj a b : is_h256 a -> is_h256 b -> h256_bytes a = h256_bytes b -> a = b.
Proof. apply (to_be_bytes_inj 32). Qed.

Lemma u64_be_inj a b : is_u64 a -> is_u64 b -> to_be_bytes 8 a = to_be_bytes 8 b -> a = b.
Proof. apply (to_be_bytes_inj 8). Qed.

Lemma u64_le_inj a b : is_u64 a -> is_u64 b -> to_le_bytes 8 a = to_le_bytes 8 b -> a = b.
Proof. apply (to_le_bytes_inj 8). Qed.

Lemma length_h256_bytes h : length (h256_bytes h) = 32%nat.
Proof. apply length_to_be_bytes. Qed.

Create HintDb bytes.
Create Rewrite HintDb bytes.
#[export] Hint Resolve h256_bytes_inj u64_be_inj u64_le_inj : bytes.
#[export] Hint Rewrite length_h256_bytes length_to_be_bytes length_to_le_bytes : bytes.

(** Peel equal byte strings apart, field by field. *)
Ltac peel_bytes H :=
  let H' := fresh H in
  apply app_inj_length in H as [H' H]; [|by autorewrite with bytes].

(** The optional trailing digest is determined by its bytes: an absent digest
    is the empty string, a present one has 32 bytes. *)
Lemma opt_digest_inj (p q : option Digest) :
  (forall d, p = Some d -> is_h256 d) -> (forall d, q = Some d -> is_h256 d) ->
  match p with Some d => h256_bytes d | None => [] end =
  match q with Some d => h256_bytes d | None => [] end -> p = q.
Proof.
  intros Hp Hq Heq. destruct p as [a|], q as [b|]; [|exfalso..|done].
  - f_equal. eauto with bytes.
  - apply (f_equal length) in Heq. by rewrite length_h256_bytes in Heq.
  - apply (f_equal length) in Heq. by rewrite length_h256_bytes in Heq.
Qed.

Lemma digest_payload_inj n1 r1 p1 n2 r2 p2 :
  is_u64 n1 -> is_u64 n2 -> is_h256 r1 -> is_h256 r2 ->
  (forall d, p1 = Some d -> is_h256 d) -> (forall d, p2 = Some d -> is_h256 d) ->
  digest_payload n1 r1 p1 = digest_payload n2 r2 p2 ->
  n1 = n2 /\ r1 = r2 /\ p1 = p2.
Proof.
  unfold digest_payload. intros ?????? Heq.
  peel_bytes Heq. peel_bytes Heq. split_and!; eauto using opt_digest_inj with bytes.
Qed.

Definition wf_attestation (a : AttestationData) : Prop :=
  is_u64 (ad_chain_key a) /\ is_u64 (ad_header_number a) /\
  is_h256 (ad_header_hash a) /\ is_h256 (ad_root a) /\
  (forall d, ad_prev_digest a = Some d -> is_h256 d).

Definition wf_proof (p : ContinuityProof) : Prop :=
  is_h256 (lower_endpoint_digest p) /\ Forall is_h256 (roots p).

#[export] Instance wf_proof_dec p : Decision (wf_proof p).
Proof. unfold wf_proof. apply _. Defined.

(** ** The digest loops *)

Section Loops.
Context `{Keccak}.

Lemma continuity_digest_loop_app start i d rs rs' :
  continuity_digest_loop start i d (rs ++ rs') =
  continuity_digest_loop start (i + length rs) (continuity_digest_loop start i d rs) rs'.
Proof.
  revert i d. induction rs as [|r rs IH]; intros i d; simpl.
  - by rewrite Nat.add_0_r.
  - rewrite IH. by rewrite Nat.add_succ_comm.
Qed.

Lemma digest_fold_loop start pre rs d m :
  (m <= length rs)%nat ->
  foldl (fun prev i => chain_step start i (nth i (pre ++ rs) 0) prev) d
    (seq (length pre) m) =
  continuity_digest_loop start (length pre) d (take m rs).
Proof.
  revert pre rs d. induction m as [|m IH]; intros pre rs d Hm; [done|].
  destruct rs as [|r rs]; simpl in *; [lia|].
  rewrite app_nth2, Nat.sub_diag by lia. simpl.
  specialize (IH (pre ++ [r]) rs (chain_step start (length pre) r d) ltac:(lia)).
  rewrite length_app, Nat.add_1_r, <- app_assoc in IH. exact IH.
Qed.

Lemma digest_at_loop p start i :
  (i < length (roots p))%nat ->
  digest_at p start i =
  Some (continuity_digest_loop start 0 (lower_endpoint_digest p) (take (S i) (roots p))).
Proof.
  intros Hi. unfold digest_at. destruct (Nat.leb_spec (length (roots p)) i); [lia|].
  f_equal. apply (digest_fold_loop start [] (roots p)). lia.
Qed.

Lemma to_blocks_loop_lookup start i d rs j r :
  rs !! j = Some r ->
  to_blocks_loop start i d rs !! j = Some (mkBlock
    (wrap 64 (start + Z.of_nat (i + j))) r
    (continuity_digest_loop start i d (take j rs))
    (continuity_digest_loop start i d (take (S j) rs))).
Proof.
  revert i d j. induction rs as [|r0 rs IH]; intros i d j Hj; [done|].
  destruct j as [|j]; simpl in *.
  - injection Hj as ->. by rewrite Nat.add_0_r.
  - rewrite IH by done. do 2 f_equal. f_equal. lia.
Qed.

Lemma length_to_blocks_loop start i d rs :
  length (to_blocks_loop start i d rs) = length rs.
Proof. revert i d. induction rs; intros; simpl; auto. Qed.

Lemma to_blocks_lookup p start j r :
  roots p !! j = Some r ->
  to_blocks p start !! j = Some (mkBlock
    (wrap 64 (start + Z.of_nat j)) r
    (continuity_digest_loop start 0 (lower_endpoint_digest p) (take j (roots p)))
    (continuity_digest_loop start 0 (lower_endpoint_digest p) (take (S j) (roots p)))).
Proof. apply to_blocks_loop_lookup. Qed.

Lemma block_digests_loop_lookup start i d rs m n :
  0 <= start -> start + Z.of_nat i + zlen rs <= 2 ^ 64 ->
  block_digests_loop start i d rs m !! n =
  if bool_decide (start + Z.of_nat i <= n < start + Z.of_nat i + zlen rs)
  then Some (continuity_digest_loop start i d
               (take (S (Z.to_nat (n - start) - i)) rs))
  else m !! n.
Proof.
  intros Hs. revert i d m. induction rs as [|r rs IH]; intros i d m Hb; simpl.
  - rewrite bool_decide_eq_false_2; [done|]. unfold zlen; simpl; lia.
  - rewrite zlen_cons in *. pose proof (zlen_nonneg rs).
    rewrite IH by lia. rewrite wrap_small by lia.
    destruct (decide (n = start + Z.of_nat i)) as [->|Hn].
    + rewrite bool_decide_eq_false_2, bool_decide_eq_true_2 by lia.
      rewrite lookup_insert_eq. by replace (_ - i)%nat with O by lia.
    + rewrite lookup_insert_ne by done.
      destruct (decide (start + Z.of_nat i <= n < start + Z.of_nat i + (zlen rs + 1))).
      * rewrite !bool_decide_eq_true_2 by lia. do 2 f_equal.
        by replace (Z.to_nat (n - start) - i)%nat
          with (S (Z.to_nat (n - start) - S i))%nat by lia.
      * by rewrite !bool_decide_eq_false_2 by lia.
Qed.
End Loops.

(** A toy hash with 32-byte outputs, for evaluating the model on examples. *)
Definition toy_keccak : Keccak := fun m =>
  foldl (fun a b => (a * 257 + b + 1) mod 2305843009213693951) 7 m.

Lemma toy_keccak_range : @keccak_range toy_keccak.
Proof.
  intros m. unfold keccak256, toy_keccak, is_h256.
  destruct m as [|b m _] using rev_ind; [done|].
  rewrite foldl_app. cbn [foldl].
  pose proof (Z.mod_pos_bound
    (foldl (fun a b => (a * 257 + b + 1) mod 2305843009213693951) 7 m * 257 + b + 1)
    2305843009213693951 ltac:(lia)). lia.
Qed.

(** [coll_free] is decidable by comparing every pair. *)
Definition coll_freeb `{Keccak} (msgs : list (list Z)) : bool :=
  forallb (fun x => forallb (fun y =>
    negb (keccak256 x =? keccak256 y) || bool_decide (x = y)) msgs) msgs.

Lemma coll_freeb_sound `{Keccak} msgs : coll_freeb msgs = true -> coll_free msgs.
Proof.
  unfold coll_freeb. rewrite forallb_forall. intros Hall x y Hx Hy Heq.
  apply list_elem_of_In, Hall in Hx. rewrite forallb_forall in Hx.
  apply list_elem_of_In, Hx in Hy.
  apply orb_true_iff in Hy as [Hy|Hy].
  - apply negb_true_iff in Hy. lia.
  - by apply bool_decide_eq_true in Hy.
Qed.

Lemma coll_free_sublist `{Keccak} l k : l ⊆ k -> coll_free k -> coll_free l.
Proof. unfold coll_free. set_solver. Qed.

(** ** Quorum arithmetic *)

(** Below the saturation point the threshold is the exact [2n/3 + 1]. *)
Lemma calculate_quorum_exact n :
  0 <= n <= 2 ^ 31 - 1 -> calculate_quorum n = 2 * n / 3 + 1.
Proof.
  intros Hn. unfold calculate_quorum, calculate_threshold. words.
  rewrite Z.min_l by lia. by rewrite Z.mul_comm.
Qed.

Lemma calculate_quorum_two_thirds n :
  0 <= n <= 2 ^ 31 - 1 -> 2 * n < 3 * calculate_quorum n <= 2 * n + 3.
Proof.
  intros Hn. rewrite calculate_quorum_exact by done.
  pose proof (Z.div_mod (2 * n) 3 ltac:(lia)).
  pose proof (Z.mod_pos_bound (2 * n) 3 ltac:(lia)). lia.
Qed.

(** Two subsets of a finite set that are both quorums overlap in more than a
    third of it. *)
Lemma quorum_overlap (active q1 q2 : gset AccountId) :
  Z.of_nat (size active) <= 2 ^ 31 - 1 ->
  q1 ⊆ active -> q2 ⊆ active ->
  calculate_quorum (Z.of_nat (size active)) <= Z.of_nat (size q1) ->
  calculate_quorum (Z.of_nat (size active)) <= Z.of_nat (size q2) ->
  Z.of_nat (size active) < 3 * Z.of_nat (size (q1 ∩ q2)).
Proof.
  intros Hn H1 H2 Hq1 Hq2.
  pose proof (calculate_quorum_two_thirds (Z.of_nat (size active))) as Hq.
  pose proof (size_union_alt q1 q2).
  assert (size (q1 ∪ q2) <= size active)%nat by (apply subseteq_size; set_solver).
  assert (size q2 = size (q2 ∖ q1) + size (q1 ∩ q2))%nat.
  { rewrite <- size_union by set_solver. f_equal.
    apply set_eq. intros x. destruct (decide (x ∈ q1)); set_solver. }
  lia.
Qed.

(** ** Continuity proofs: agreement, round trip, binding *)

Section Continuity.
Context `{Keccak} `{Arch}.

(** The messages hashed when the digests of a proof are recomputed. *)
Definition payloads (p : ContinuityProof) (start : Z) : list (list Z) :=
  map (fun b => digest_payload (b_block_number b) (b_root b) (Some (b_prev_digest b)))
    (to_blocks p start).

(** Blocks that follow one another from block [start] after digest [prev]. *)
Fixpoint linked (start : Z) (prev : H256) (bs : list Block) : Prop :=
  match bs with
  | [] => True
  | b :: bs' =>
      b_block_number b = wrap 64 start /\ b_prev_digest b = prev /\
      b_digest b = hash_payload (b_block_number b) (b_root b) prev /\
      linked (start + 1) (b_digest b) bs'
  end.

Lemma to_blocks_loop_linked start i prev bs :
  linked (start + Z.of_nat i) prev bs ->
  to_blocks_loop start i prev (map b_root bs) = bs.
Proof.
  revert i prev. induction bs as [|b bs IH]; intros i prev; simpl; [done|].
  intros (Hn & Hp & Hd & Hl). destruct b as [n r p d]; simpl in *; subst.
  unfold chain_step. f_equal. apply IH.
  by replace (start + Z.of_nat (S i)) with (start + Z.of_nat i + 1) by lia.
Qed.

Lemma map_root_to_blocks_loop start i prev rs :
  map b_root (to_blocks_loop start i prev rs) = rs.
Proof. revert i prev. induction rs; intros; simpl; f_equal; auto. Qed.

(** C40: rebuilding the blocks of a proof and taking the proof of blocks are
    inverse to each other: a non-empty proof is recovered from the blocks it
    expands to, from whatever height it is expanded, and a chain of blocks
    linked from its first block's number and previous digest is recovered
    from the proof made of it. *)
Theorem from_blocks_to_blocks_roundtrip :
  (forall p start, roots p <> [] -> from_blocks (to_blocks p start) = p) /\
  (forall b bs, linked (b_block_number b) (b_prev_digest b) (b :: bs) ->
     to_blocks (from_blocks (b :: bs)) (b_block_number b) = b :: bs).
Proof.
  split.
  - intros [d [|r rs]] start Hne; [done|]. unfold to_blocks. simpl.
    by rewrite map_root_to_blocks_loop.
  - intros b bs Hl. unfold to_blocks, from_blocks, roots, lower_endpoint_digest.
    apply (to_blocks_loop_linked _ 0). by rewrite Z.add_0_r.
Qed.

Lemma digest_for_block_loop p start n :
  start <= n < start + zlen (roots p) -> zlen (roots p) <= 2 ^ usize_bits ->
  digest_for_block p start n =
  Some (continuity_digest_loop start 0 (lower_endpoint_digest p)
    (take (S (Z.to_nat (n - start))) (roots p))).
Proof.
  intros Hn Hu. unfold digest_for_block. destruct (Z.ltb_spec n start); [lia|].
  rewrite wrap_small, digest_at_loop; unfold zlen in *; [done|lia..].
Qed.

(** The five ways the code recomputes digests agree. For a proof whose
    block numbers do not overflow, the digest at an index is the digest of the
    block [to_blocks] builds there, the entry of [block_digests] at that height
    and the answer of [digest_for_block] for that height, the map has no other
    entries, and the digest at the last index is [compute_continuity_digest]. *)
Theorem digest_views_agree (p : ContinuityProof) (start : Z) :
  0 <= start -> start + zlen (roots p) <= 2 ^ 64 ->
  zlen (roots p) <= 2 ^ usize_bits ->
  (forall i, (i < length (roots p))%nat ->
     digest_at p start i = b_digest <$> to_blocks p start !! i /\
     digest_at p start i = block_digests p start !! (start + Z.of_nat i) /\
     digest_at p start i = digest_for_block p start (start + Z.of_nat i)) /\
  (forall n, ~ (start <= n < start + zlen (roots p)) -> block_digests p start !! n = None) /\
  compute_continuity_digest p start =
    default (lower_endpoint_digest p) (digest_at p start (length (roots p) - 1)).
Proof.
  intros Hs Hb Hu. unfold block_digests. split_and!.
  - intros i Hi. rewrite digest_at_loop by done. split_and!.
    + destruct (lookup_lt_is_Some_2 _ _ Hi) as [r Hr].
      by rewrite (to_blocks_lookup _ _ _ r) by done.
    + rewrite block_digests_loop_lookup, bool_decide_eq_true_2 by (unfold zlen in *; lia).
      do 3 f_equal. lia.
    + rewrite digest_for_block_loop by (unfold zlen in *; lia). do 3 f_equal. lia.
  - intros n Hn. rewrite block_digests_loop_lookup, bool_decide_eq_false_2 by lia. done.
  - unfold compute_continuity_digest. destruct (roots p) as [|r rs] eqn:Hr.
    + unfold digest_at. by rewrite Hr.
    + rewrite digest_at_loop by (rewrite Hr; simpl; lia).
      rewrite Hr, take_ge by (simpl; lia). done.
Qed.

Lemma to_blocks_loop_app start i d rs rs' :
  to_blocks_loop start i d (rs ++ rs') =
  to_blocks_loop start i d rs ++
  to_blocks_loop start (i + length rs) (continuity_digest_loop start i d rs) rs'.
Proof.
  revert i d. induction rs as [|r rs IH]; intros i d; simpl.
  - by rewrite Nat.add_0_r.
  - rewrite IH. by rewrite Nat.add_succ_comm.
Qed.

Lemma payloads_snoc d rs r start :
  payloads (mkContinuityProof d (rs ++ [r])) start =
  payloads (mkContinuityProof d rs) start ++
  [digest_payload (wrap 64 (start + zlen rs)) r
     (Some (compute_continuity_digest (mkContinuityProof d rs) start))].
Proof.
  unfold payloads, to_blocks. simpl. by rewrite to_blocks_loop_app, map_app.
Qed.

Lemma compute_continuity_digest_snoc d rs r start :
  compute_continuity_digest (mkContinuityProof d (rs ++ [r])) start =
  keccak256 (digest_payload (wrap 64 (start + zlen rs)) r
     (Some (compute_continuity_digest (mkContinuityProof d rs) start))).
Proof.
  unfold compute_continuity_digest. simpl. by rewrite continuity_digest_loop_app.
Qed.

Lemma continuity_digest_range d rs start :
  keccak_range -> is_h256 d ->
  is_h256 (compute_continuity_digest (mkContinuityProof d rs) start).
Proof.
  intros Hk Hd. induction rs as [|r rs _] using rev_ind; [done|].
  rewrite compute_continuity_digest_snoc. apply Hk.
Qed.

(** The last hash of two proofs that end in the same digest. *)
Lemma last_payload_eq d1 rs1 r1 d2 rs2 r2 start :
  keccak_range -> 0 <= start ->
  wf_proof (mkContinuityProof d1 (rs1 ++ [r1])) ->
  wf_proof (mkContinuityProof d2 (rs2 ++ [r2])) ->
  start + zlen rs1 < 2 ^ 64 -> start + zlen rs2 < 2 ^ 64 ->
  coll_free (payloads (mkContinuityProof d1 (rs1 ++ [r1])) start ++
             payloads (mkContinuityProof d2 (rs2 ++ [r2])) start) ->
  compute_continuity_digest (mkContinuityProof d1 (rs1 ++ [r1])) start =
  compute_continuity_digest (mkContinuityProof d2 (rs2 ++ [r2])) start ->
  zlen rs1 = zlen rs2 /\ r1 = r2 /\
  compute_continuity_digest (mkContinuityProof d1 rs1) start =
  compute_continuity_digest (mkContinuityProof d2 rs2) start.
Proof.
  intros Hk Hs [Hd1 Hr1] [Hd2 Hr2] Hb1 Hb2 Hcf Heq. simpl in *.
  apply Forall_app in Hr1 as [_ Hr1%Forall_inv].
  apply Forall_app in Hr2 as [_ Hr2%Forall_inv].
  pose proof (zlen_nonneg rs1). pose proof (zlen_nonneg rs2).
  rewrite !compute_continuity_digest_snoc in Heq.
  apply Hcf in Heq; [|rewrite !payloads_snoc, !elem_of_app, !list_elem_of_singleton; tauto..].
  rewrite !wrap_small in Heq by lia.
  apply digest_payload_inj in Heq as (Hn & -> & [= Hp]);
    [|unfold is_u64; lia|unfold is_u64; lia|done|done|
      intros ? [= <-]; by apply continuity_digest_range..].
  split_and!; [lia|done|done].
Qed.

Lemma continuity_binding_same_length d1 rs1 d2 rs2 start :
  keccak_range -> 0 <= start -> length rs1 = length rs2 ->
  wf_proof (mkContinuityProof d1 rs1) -> wf_proof (mkContinuityProof d2 rs2) ->
  start + zlen rs1 <= 2 ^ 64 ->
  coll_free (payloads (mkContinuityProof d1 rs1) start ++
             payloads (mkContinuityProof d2 rs2) start) ->
  compute_continuity_digest (mkContinuityProof d1 rs1) start =
  compute_continuity_digest (mkContinuityProof d2 rs2) start ->
  d1 = d2 /\ rs1 = rs2.
Proof.
  intros Hk Hs. revert rs2. induction rs1 as [|r1 rs1 IH] using rev_ind;
    intros rs2 Hlen Hw1 Hw2 Hb Hcf Heq.
  - symmetry in Hlen. apply nil_length_inv in Hlen as ->. done.
  - destruct rs2 as [|r2 rs2 _] using rev_ind; rewrite !length_app in Hlen;
      simpl in Hlen; [lia|].
    rewrite zlen_app in Hb. unfold zlen in Hb. simpl in Hb.
    destruct (last_payload_eq d1 rs1 r1 d2 rs2 r2 start) as (_ & -> & Heq');
      [done..|unfold zlen; lia|unfold zlen; lia|done|done|].
    rewrite !payloads_snoc in Hcf.
    destruct Hw1 as [? [? _]%Forall_app], Hw2 as [? [? _]%Forall_app].
    destruct (IH rs2) as [-> ->]; [lia|by split|by split|unfold zlen; lia| |done|done].
    eapply coll_free_sublist; [|exact Hcf]. intros x. rewrite !elem_of_app. tauto.
Qed.

(** C36: the digest of a continuity proof binds everything in it. Two
    non-empty proofs over block ranges that start at the same height and do not
    overflow, and that end in the same digest, are the same proof (in
    particular they have the same length), as long as Keccak does not collide
    on the messages hashed for the two of them. *)
Theorem continuity_digest_binding (p q : ContinuityProof) (start : Z) :
  keccak_range -> 0 <= start -> wf_proof p -> wf_proof q ->
  roots p <> [] -> roots q <> [] ->
  start + zlen (roots p) <= 2 ^ 64 -> start + zlen (roots q) <= 2 ^ 64 ->
  coll_free (payloads p start ++ payloads q start) ->
  compute_continuity_digest p start = compute_continuity_digest q start ->
  p = q.
Proof.
  intros Hk Hs Hwp Hwq Hp Hq Hbp Hbq Hcf Heq.
  destruct p as [d1 rs1], q as [d2 rs2]; simpl in *.
  assert (length rs1 = length rs2) as Hlen.
  { destruct (exists_last Hp) as (l1 & r1 & ->), (exists_last Hq) as (l2 & r2 & ->).
    rewrite !zlen_app in *. unfold zlen in *. simpl in *. rewrite !length_app.
    destruct (last_payload_eq d1 l1 r1 d2 l2 r2 start) as [Hl _]; try done;
      unfold zlen in *; simpl; lia. }
  by destruct (continuity_binding_same_length d1 rs1 d2 rs2 start) as [-> ->].
Qed.

End Continuity.

(** What an attestor signs determines what it attests. Two well-formed
    attestations that serialise to the same bytes are equal, with or without
    a previous digest; and two proof-of-possession messages for account
    identifiers of one length are equal only when they name the same chain, the
    same account and the same public key. *)
Theorem signed_messages_injective :
  (forall a b, wf_attestation a -> wf_attestation b -> serialize a = serialize b -> a = b) /\
  (forall c1 id1 k1 c2 id2 k2,
     is_u64 c1 -> is_u64 c2 -> length id1 = length id2 ->
     0 <= k1 < 2 ^ 384 -> 0 <= k2 < 2 ^ 384 ->
     proof_of_possession_message c1 id1 k1 = proof_of_possession_message c2 id2 k2 ->
     c1 = c2 /\ id1 = id2 /\ k1 = k2).
Proof.
  split.
  - intros [c1 n1 h1 r1 p1] [c2 n2 h2 r2 p2] (?&?&?&?&?) (?&?&?&?&?) Heq.
    unfold serialize in Heq.
    cbn [ad_chain_key ad_header_number ad_header_hash ad_root ad_prev_digest] in *.
    do 4 peel_bytes Heq.
    f_equal; eauto using opt_digest_inj with bytes.
  - unfold proof_of_possession_message. intros ?????? ?? Hid ?? Heq.
    apply app_inv_head in Heq. peel_bytes Heq.
    apply app_inj_length in Heq as [-> Heq]; [|done].
    split_and!; [by apply u64_le_inj|done|by apply (to_be_bytes_inj 48)].
Qed.

(** The quorum is never zero, never more than the active set (so it can
    always be reached), strictly more than two thirds of it, and at most one
    signer more than two thirds; it grows with the active set. *)
Theorem calculate_quorum_bounds (n m : Z) :
  1 <= n <= m -> m <= 2 ^ 31 - 1 ->
  1 <= calculate_quorum n <= n /\
  2 * n < 3 * calculate_quorum n <= 2 * n + 3 /\
  calculate_quorum n <= calculate_quorum m.
Proof.
  intros Hn Hm. pose proof (calculate_quorum_two_thirds n).
  pose proof (calculate_quorum_two_thirds m). lia.
Qed.

(** ** Examples *)

Definition ex_proof : ContinuityProof := mkContinuityProof 11 [101; 102; 103].

Lemma from_blocks_to_blocks_roundtrip_witness :
  from_blocks (@to_blocks toy_keccak ex_proof 40) = ex_proof /\
  @to_blocks toy_keccak (from_blocks (@to_blocks toy_keccak ex_proof 40)) 40 =
    @to_blocks toy_keccak ex_proof 40.
Proof.
  split.
  - apply (proj1 (@from_blocks_to_blocks_roundtrip toy_keccak)). done.
  - apply (proj2 (@from_blocks_to_blocks_roundtrip toy_keccak)
      (hd (mkBlock 0 0 0 0) (@to_blocks toy_keccak ex_proof 40))
      (tl (@to_blocks toy_keccak ex_proof 40))).
    vm_compute. auto 12.
Defined.

Lemma digest_views_agree_witness :
  @compute_continuity_digest toy_keccak ex_proof 40 =
    default 11 (@digest_at toy_keccak ex_proof 40 2).
Proof.
  apply (@digest_views_agree toy_keccak 32 ex_proof 40); vm_compute; congruence.
Defined.

Lemma continuity_digest_binding_witness : ex_proof = mkContinuityProof 11 [101; 102; 103].
Proof.
  apply (@continuity_digest_binding toy_keccak ex_proof _ 40);
    [apply toy_keccak_range|lia|decide_now|decide_now|done|done|
     vm_compute; congruence|vm_compute; congruence| |reflexivity].
  apply coll_freeb_sound. vm_compute. reflexivity.
Defined.

Lemma signed_messages_injective_witness :
  mkAttestationData 1 2 3 4 (Some 5) = mkAttestationData 1 2 3 4 (Some 5).
Proof.
  apply (proj1 signed_messages_injective); [..|reflexivity];
    (split_and!; [decide_now..|intros ? [= <-]; decide_now]).
Defined.

Lemma calculate_quorum_bounds_witness : 1 <= calculate_quorum 4 <= 4.
Proof. apply (calculate_quorum_bounds 4 5); lia. Defined.
