(* ===== verification/Merkle.v ===== *)
(** * Keccak Merkle trees and transaction inclusion proofs

    [src/common/merkle/src]: the domain-separated leaf and inner hashes
    ([keccak.rs]), the level-by-level tree with a zero hash in place of a missing
    sibling and its proofs ([keccak_merkle_tree.rs]), and proof verification
    ([proof.rs]). The theorems are completeness (every generated proof verifies
    and spells its own index), soundness (a proof that verifies against the root
    of a tree is the generated proof of a leaf with that data, if Keccak does not
    collide on what was hashed) and termination of the construction. *)

From stdpp Require Import prelude gmap list sorting.
From Stdlib Require Import ZArith Lia.
From S2P Require Import Prelude Primitives.

(** ** Hashes *)

Definition LEAF_HASH_PREPEND_VALUE : Z := 0.
Definition INNER_HASH_PREPEND_VALUE : Z := 1.

Definition leaf_message (input : list Z) : list Z := LEAF_HASH_PREPEND_VALUE :: input.
Definition inner_message (left right : H256) : list Z :=
  INNER_HASH_PREPEND_VALUE :: h256_bytes left ++ h256_bytes right.

Definition hash_leaf `{Keccak} (input : list Z) : H256 := keccak256 (leaf_message input).
Definition hash_inner `{Keccak} (left right : H256) : H256 :=
  keccak256 (inner_message left right).

(** ** Proofs *)

Record MerkleProofEntry := mkEntry {
  me_hash : H256;
  me_is_left : bool;
}.

Record TransactionMerkleProof := mkMerkleProof {
  mp_root : H256;
  mp_siblings : list MerkleProofEntry;
}.

(** One turn of the loop of [verify]. *)
Definition verify_step `{Keccak} (current : H256) (entry : MerkleProofEntry) : H256 :=
  if me_is_left entry then hash_inner (me_hash entry) current
  else hash_inner current (me_hash entry).

Definition verify_path `{Keccak} (start : H256) (siblings : list MerkleProofEntry) : H256 :=
  foldl verify_step start siblings.

(** [TransactionMerkleProof::verify] *)
Definition merkle_verify `{Keccak} (p : TransactionMerkleProof) (tx_data : list Z) : bool :=
  verify_path (hash_leaf tx_data) (mp_siblings p) =? mp_root p.

(** [TransactionMerkleProof::levels] *)
Definition merkle_levels (p : TransactionMerkleProof) : nat := length (mp_siblings p).

Definition is_single_transaction (p : TransactionMerkleProof) : bool :=
  match mp_siblings p with [] => true | _ => false end.

(** ** Trees *)

Inductive MerkleTreeError := IndexOutOfRange (index max_index : Z).

(** All levels, from the leaves to the root. *)
Record KeccakMerkleTree := mkTree { levels : list (list H256) }.

Definition PAD_HASH : H256 := 0.

(** [(0..len).step_by(2)] *)
Definition step_by_2 (len : nat) : list nat := map (Nat.mul 2) (seq 0 ((len + 1) / 2)).

Definition next_level `{Keccak} (current_level : list H256) : list H256 :=
  if (1 <? length current_level)%nat then
    map (fun i => hash_inner (nth i current_level 0)
                    (default PAD_HASH (current_level !! (i + 1)%nat)))
      (step_by_2 (length current_level))
  else [].

(** The [while] loop of [new]; [None] when the fuel runs out. *)
Fixpoint build_levels `{Keccak} (fuel : nat) (current_level : list H256)
    : option (list (list H256)) :=
  match fuel with
  | O => None
  | S fuel' =>
      match current_level with
      | [] => Some []
      | _ => cons current_level <$> build_levels fuel' (next_level current_level)
      end
  end.

(** [KeccakMerkleTree::new]; the fuel is one more than the number of leaves. *)
Definition merkle_new `{Keccak} (items : list (list Z)) : option KeccakMerkleTree :=
  mkTree <$> build_levels (S (length items)) (map hash_leaf items).

(** [KeccakMerkleTree::root] *)
Definition merkle_root (t : KeccakMerkleTree) : H256 :=
  default 0 (last (levels t) ≫= head).

(** [KeccakMerkleTree::heap_bytes]: [size_of::<Vec<H256>>()] is three words. *)
Definition heap_bytes `{Arch} (t : KeccakMerkleTree) : Z :=
  foldl (fun acc level =>
      saturating_add usize_bits acc (saturating_mul usize_bits 32 (zlen level)))
    (saturating_mul usize_bits (3 * (usize_bits / 8)) (zlen (levels t))) (levels t).

(** The entry of the proof at one level and the parent's index. *)
Definition proof_entry (level : list H256) (current_index : nat) : MerkleProofEntry :=
  let sibling_offset := (1 - current_index `mod` 2)%nat in
  let sibling_index := (current_index + 2 * sibling_offset - 1)%nat in
  mkEntry (default PAD_HASH (level !! sibling_index)) (sibling_offset =? 0)%nat.

Fixpoint proof_path (current_index : nat) (lvls : list (list H256)) : list MerkleProofEntry :=
  match lvls with
  | [] => []
  | level :: lvls' => proof_entry level current_index :: proof_path (current_index / 2) lvls'
  end.

Definition generate_proof (t : KeccakMerkleTree) (leaf_index : nat)
    : Result MerkleTreeError TransactionMerkleProof :=
  let leaf_count := match levels t with [] => O | level :: _ => length level end in
  if (leaf_count <=? leaf_index)%nat then
    Err (IndexOutOfRange (Z.of_nat leaf_index) (saturating_sub (Z.of_nat leaf_count) 1))
  else
    (* [.rev().skip(1).rev()]: every level but the root's *)
    Ok (mkMerkleProof (merkle_root t) (proof_path leaf_index (removelast (levels t)))).

(** ** The next level *)

Section Levels.
Context `{Keccak}.

Lemma length_next_level l :
  (1 < length l)%nat -> length (next_level l) = ((length l + 1) / 2)%nat.
Proof.
  intros Hl. unfold next_level. destruct (Nat.ltb_spec 1 (length l)); [|lia].
  unfold step_by_2. by rewrite !length_map, length_seq.
Qed.

Lemma next_level_shrinks l : l <> [] -> (length (next_level l) < length l)%nat.
Proof.
  intros Hl. destruct (decide (1 < length l)%nat) as [Hlt|Hle].
  - rewrite length_next_level by done.
    apply Nat.Div0.div_lt_upper_bound; lia.
  - unfold next_level. destruct (Nat.ltb_spec 1 (length l)); [lia|].
    destruct l; simpl; [done|lia].
Qed.

Lemma next_level_lookup l k x :
  next_level l !! k = Some x ->
  (2 * k < length l)%nat /\
  x = hash_inner (nth (2 * k) l 0) (default PAD_HASH (l !! (2 * k + 1)%nat)).
Proof.
  unfold next_level. destruct (Nat.ltb_spec 1 (length l)) as [Hl|]; [|done].
  intros Hx. unfold step_by_2 in Hx. rewrite !list_lookup_fmap in Hx.
  destruct (seq 0 ((length l + 1) / 2) !! k) as [j|] eqn:Hj; [|done].
  apply lookup_seq in Hj as [-> Hk]. injection Hx as <-. simpl. split; [|done].
  pose proof (Nat.Div0.mul_div_le (length l + 1) 2). lia.
Qed.

Lemma next_level_lookup_half l i :
  (1 < length l)%nat -> (i < length l)%nat ->
  next_level l !! (i / 2)%nat =
  Some (hash_inner (nth (2 * (i / 2)) l 0)
          (default PAD_HASH (l !! (2 * (i / 2) + 1)%nat))).
Proof.
  intros Hl Hi. destruct (next_level l !! (i / 2)%nat) as [x|] eqn:Hx.
  - by apply next_level_lookup in Hx as [_ ->].
  - apply lookup_ge_None in Hx. rewrite length_next_level in Hx by done.
    exfalso. pose proof (Nat.div_mod_eq i 2). pose proof (Nat.mod_upper_bound i 2).
    pose proof (Nat.div_mod_eq (length l + 1) 2).
    pose proof (Nat.mod_upper_bound (length l + 1) 2). lia.
Qed.

(** Hashing a node with the sibling its proof entry names gives the parent. *)
Lemma verify_step_parent l i x :
  (1 < length l)%nat -> l !! i = Some x ->
  next_level l !! (i / 2)%nat = Some (verify_step x (proof_entry l i)).
Proof.
  intros Hl Hx. pose proof (lookup_lt_Some _ _ _ Hx) as Hi.
  rewrite next_level_lookup_half by done. f_equal.
  unfold verify_step, proof_entry. cbn [me_is_left me_hash].
  pose proof (Nat.div_mod_eq i 2) as Hdm.
  pose proof (Nat.mod_upper_bound i 2 ltac:(lia)).
  destruct (decide (i `mod` 2 = 0)%nat) as [Hm|Hm].
  - replace (2 * (i / 2))%nat with i by lia.
    replace (i + 2 * (1 - i `mod` 2) - 1)%nat with (i + 1)%nat by lia.
    rewrite Hm, (nth_lookup_Some l i 0 x) by done. done.
  - replace (2 * (i / 2) + 1)%nat with i by lia.
    replace (i + 2 * (1 - i `mod` 2) - 1)%nat with (2 * (i / 2))%nat by lia.
    replace (i `mod` 2)%nat with 1%nat by lia.
    destruct (lookup_lt_is_Some_2 l (2 * (i / 2))) as [y Hy]; [lia|].
    by rewrite Hx, Hy, (nth_lookup_Some l _ 0 y).
Qed.

(** ** Construction *)

Lemma build_levels_total fuel l :
  (length l < fuel)%nat -> exists ls, build_levels fuel l = Some ls.
Proof.
  revert l. induction fuel as [|fuel IH]; intros l Hf; [lia|]. simpl.
  destruct l as [|x l]; [by eexists|].
  pose proof (next_level_shrinks (x :: l) ltac:(done)).
  destruct (IH (next_level (x :: l))) as [ls ->]; [simpl in *; lia|]. by eexists.
Qed.

(** Consecutive levels of a tree, each computed from the one below. *)
Fixpoint tree_levels (ls : list (list H256)) : Prop :=
  match ls with
  | [] => True
  | l :: ls' => l <> [] /\ next_level l = default [] (head ls') /\ tree_levels ls'
  end.

Lemma build_levels_spec fuel l ls :
  build_levels fuel l = Some ls -> tree_levels ls /\ default [] (head ls) = l.
Proof.
  revert l ls. induction fuel as [|fuel IH]; intros l ls; simpl; [done|].
  destruct l as [|x l]; [by intros [= <-]|].
  intros (ls' & Hls & ->)%fmap_Some. apply IH in Hls as [Ht Hh].
  simpl. auto.
Qed.

Lemma merkle_new_total items : exists t, merkle_new items = Some t.
Proof.
  unfold merkle_new. edestruct (build_levels_total (S (length items))) as [ls ->].
  - rewrite length_map. lia.
  - by eexists.
Qed.

Lemma merkle_new_spec items t :
  merkle_new items = Some t ->
  tree_levels (levels t) /\ default [] (head (levels t)) = map hash_leaf items.
Proof.
  unfold merkle_new. intros (ls & Hls & ->)%fmap_Some. by apply build_levels_spec in Hls.
Qed.

End Levels.

(** ** Completeness *)

(** The leaf index a proof's flags spell, least significant bit first: a left
    sibling is a one. *)
Fixpoint path_index (siblings : list MerkleProofEntry) : Z :=
  match siblings with
  | [] => 0
  | e :: rest => Z.b2z (me_is_left e) + 2 * path_index rest
  end.

Section Completeness.
Context `{Keccak}.

Lemma next_level_nil l : next_level l = [] <-> (length l <= 1)%nat.
Proof.
  unfold next_level. destruct (Nat.ltb_spec 1 (length l)) as [Hl|Hl]; [|done].
  split; [|lia]. intros Hn%(f_equal length). unfold step_by_2 in Hn.
  rewrite !length_map, length_seq in Hn. cbn [length] in Hn.
  pose proof (Nat.div_mod_eq (length l + 1) 2).
  pose proof (Nat.mod_upper_bound (length l + 1) 2). lia.
Qed.

Lemma verify_path_root ls l i x :
  tree_levels (l :: ls) -> l !! i = Some x ->
  verify_path x (proof_path i (removelast (l :: ls))) =
  default 0 (last (l :: ls) ≫= head).
Proof.
  revert l i x. induction ls as [|l2 ls IH]; intros l i x (Hne & Hn & Ht) Hx.
  - apply next_level_nil in Hn. destruct l as [|y [|]]; simpl in *; [done| |lia].
    destruct i; [|done]. by injection Hx as ->.
  - simpl in Hn. destruct Ht as [Hne2 Ht].
    assert (1 < length l)%nat as Hl.
    { destruct (decide (length l <= 1)%nat) as [Hle|]; [|lia].
      apply next_level_nil in Hle. congruence. }
    pose proof (verify_step_parent l i x Hl Hx) as Hp. rewrite Hn in Hp.
    exact (IH l2 (i / 2)%nat _ (conj Hne2 Ht) Hp).
Qed.

Lemma tree_level_bound ls l :
  tree_levels (l :: ls) -> (length l <= 2 ^ length ls)%nat.
Proof.
  revert l. induction ls as [|l2 ls IH]; intros l (Hne & Hn & Ht).
  - by apply next_level_nil in Hn.
  - simpl in Hn. specialize (IH l2 Ht). rewrite <- Hn in IH.
    destruct (decide (length l <= 1)%nat) as [Hle|Hgt].
    + apply next_level_nil in Hle. destruct Ht as [Hne2 _]. congruence.
    + rewrite length_next_level in IH by lia. simpl.
      pose proof (Nat.div_mod_eq (length l + 1) 2).
      pose proof (Nat.mod_upper_bound (length l + 1) 2). lia.
Qed.

Lemma path_index_proof_path lvls i :
  (i < 2 ^ length lvls)%nat -> path_index (proof_path i lvls) = Z.of_nat i.
Proof.
  revert i. induction lvls as [|l lvls IH]; intros i Hi; [simpl in *; lia|].
  cbn [proof_path path_index proof_entry me_is_left].
  cbn [length] in Hi. rewrite Nat.pow_succ_r' in Hi.
  pose proof (Nat.div_mod_eq i 2). pose proof (Nat.mod_upper_bound i 2).
  rewrite IH by (apply Nat.Div0.div_lt_upper_bound; lia).
  destruct (decide (i `mod` 2 = 0)%nat) as [Hm|Hm].
  - rewrite Hm. change (Z.b2z (1 - 0 =? 0)%nat) with 0. lia.
  - replace (i `mod` 2)%nat with 1%nat by lia. change (Z.b2z (1 - 1 =? 0)%nat) with 1. lia.
Qed.

Lemma length_proof_path i lvls : length (proof_path i lvls) = length lvls.
Proof. revert i. induction lvls; intros; simpl; auto. Qed.

Lemma merkle_path_index items t i :
  merkle_new items = Some t -> (i < length items)%nat ->
  path_index (proof_path i (removelast (levels t))) = Z.of_nat i.
Proof.
  intros [Hl Hh]%merkle_new_spec Hi. destruct (levels t) as [|l ls]; simpl in Hh.
  { destruct items; simpl in *; [lia|done]. }
  subst l. apply path_index_proof_path.
  rewrite removelast_firstn_len, length_firstn. simpl length. rewrite Nat.min_l by lia. simpl pred.
  pose proof (tree_level_bound _ _ Hl) as Hb. rewrite length_map in Hb. lia.
Qed.

(** The proofs a tree generates, for an index in range and out of it. *)
Lemma generated_proofs items t :
  merkle_new items = Some t ->
  (forall i item, items !! i = Some item ->
     exists p, generate_proof t i = Ok p /\ mp_root p = merkle_root t /\
       merkle_verify p item = true /\ path_index (mp_siblings p) = Z.of_nat i) /\
  (forall i, (length items <= i)%nat ->
     generate_proof t i =
     Err (IndexOutOfRange (Z.of_nat i) (saturating_sub (zlen items) 1))).
Proof.
  intros Ht. pose proof (merkle_new_spec items t Ht) as [Hl Hh].
  assert (match levels t with [] => O | level :: _ => length level end = length items) as Hc.
  { rewrite <- (length_map hash_leaf), <- Hh. by destruct (levels t). }
  unfold generate_proof. rewrite Hc. split.
  - intros i item Hi. pose proof (lookup_lt_Some _ _ _ Hi) as Hlt.
    destruct (Nat.leb_spec (length items) i); [lia|].
    eexists. split; [done|]. split; [done|].
    split; [|cbn [mp_siblings]; by eapply merkle_path_index].
    destruct (levels t) as [|l ls] eqn:Els; [simpl in Hc; lia|]. simpl in Hh. subst l.
    unfold merkle_verify, merkle_root. apply Z.eqb_eq. rewrite Els.
    apply verify_path_root; [done|]. by rewrite list_lookup_fmap, Hi.
  - intros i Hi. destruct (Nat.leb_spec (length items) i); [done|lia].
Qed.

(** C14: the construction of a tree terminates on every list of items, and its
    proofs are complete: the proof generated for an index in range carries the
    tree's root, verifies for the item at that index, and its left/right flags
    spell that very index; an index out of range is refused with the last valid
    index. *)
Theorem merkle_completeness (items : list (list Z)) :
  exists t, merkle_new items = Some t /\
    (forall i item, items !! i = Some item ->
       exists p, generate_proof t i = Ok p /\ mp_root p = merkle_root t /\
         merkle_verify p item = true /\ path_index (mp_siblings p) = Z.of_nat i) /\
    (forall i, (length items <= i)%nat ->
       generate_proof t i =
       Err (IndexOutOfRange (Z.of_nat i) (saturating_sub (zlen items) 1))).
Proof.
  destruct (merkle_new_total items) as [t Ht]. exists t. split; [done|]. by apply generated_proofs.
Qed.

End Completeness.

(** ** Soundness *)

Section Soundness.
Context `{Keccak}.

(** The messages hashed to build the parents of one level. *)
Definition level_messages (l : list H256) : list (list Z) :=
  if (1 <? length l)%nat then
    map (fun i => inner_message (nth i l 0) (default PAD_HASH (l !! (i + 1)%nat)))
      (step_by_2 (length l))
  else [].

(** The messages hashed to build a tree. *)
Definition tree_messages (items : list (list Z)) (t : KeccakMerkleTree) : list (list Z) :=
  map leaf_message items ++ flat_map level_messages (levels t).

Definition step_message (current : H256) (e : MerkleProofEntry) : list Z :=
  if me_is_left e then inner_message (me_hash e) current
  else inner_message current (me_hash e).

Fixpoint path_messages (current : H256) (siblings : list MerkleProofEntry) : list (list Z) :=
  match siblings with
  | [] => []
  | e :: rest => step_message current e :: path_messages (verify_step current e) rest
  end.

(** The messages hashed to verify a proof. *)
Definition proof_messages (p : TransactionMerkleProof) (tx_data : list Z) : list (list Z) :=
  leaf_message tx_data :: path_messages (hash_leaf tx_data) (mp_siblings p).

Lemma verify_path_snoc c s e : verify_path c (s ++ [e]) = keccak256 (step_message (verify_path c s) e).
Proof.
  unfold verify_path. rewrite foldl_app. simpl. unfold verify_step, step_message.
  by destruct (me_is_left e).
Qed.

Lemma path_messages_snoc c s e :
  path_messages c (s ++ [e]) = path_messages c s ++ [step_message (verify_path c s) e].
Proof. revert c. induction s as [|e' s IH]; intros c; simpl; [done|by rewrite IH]. Qed.

(** The last hash of a verification is the hash of one of its messages. *)
Lemma verify_path_message data s :
  exists m, m ∈ leaf_message data :: path_messages (hash_leaf data) s /\
    verify_path (hash_leaf data) s = keccak256 m.
Proof.
  destruct s as [|e s _] using rev_ind.
  - exists (leaf_message data). split; [constructor|done].
  - exists (step_message (verify_path (hash_leaf data) s) e). split.
    + rewrite path_messages_snoc. right. apply elem_of_app. right. constructor.
    + apply verify_path_snoc.
Qed.

Lemma inner_message_inj a b c d :
  is_h256 a -> is_h256 b -> is_h256 c -> is_h256 d ->
  inner_message a b = inner_message c d -> a = c /\ b = d.
Proof.
  unfold inner_message. intros ???? Heq. apply (f_equal tail) in Heq. cbn [tail] in Heq.
  peel_bytes Heq. eauto using h256_bytes_inj.
Qed.

Lemma leaf_inner_ne x a b : leaf_message x <> inner_message a b.
Proof. unfold leaf_message, inner_message. intros Heq%(f_equal head). done. Qed.

Lemma next_level_message l k x :
  next_level l !! k = Some x ->
  inner_message (nth (2 * k) l 0) (default PAD_HASH (l !! (2 * k + 1)%nat)) ∈ level_messages l.
Proof.
  unfold next_level, level_messages. destruct (1 <? length l)%nat; [|done].
  intros Hx. unfold step_by_2 in *. rewrite !list_lookup_fmap in Hx.
  destruct (seq 0 ((length l + 1) / 2) !! k) as [j|] eqn:Hj; [|done].
  apply list_elem_of_In, in_map_iff. exists (2 * k)%nat. split; [done|].
  apply in_map_iff. exists k. split; [done|].
  apply lookup_seq in Hj as [-> Hk]. apply in_seq. lia.
Qed.

Lemma proof_path_snoc i ls l :
  proof_path i (ls ++ [l]) = proof_path i ls ++ [proof_entry l (i / 2 ^ length ls)].
Proof.
  revert i. induction ls as [|l' ls IH]; intros i.
  - change (2 ^ length (@nil (list Z)))%nat with 1%nat. by rewrite Nat.div_1_r.
  - cbn [proof_path app length]. rewrite IH, Nat.Div0.div_div. by rewrite Nat.pow_succ_r'.
Qed.

Lemma tree_levels_lookup ls k l' :
  tree_levels ls -> ls !! S k = Some l' ->
  exists l, ls !! k = Some l /\ next_level l = l'.
Proof.
  revert k. induction ls as [|l ls IH]; intros k Ht Hk; [done|].
  destruct Ht as (Hne & Hn & Ht). simpl in Hk. destruct k as [|k].
  - exists l. split; [done|]. by destruct ls; simplify_eq/=.
  - destruct (IH k Ht Hk) as (l0 & ? & ?). by exists l0.
Qed.

Lemma proof_entry_even l j :
  proof_entry l (2 * j) = mkEntry (default PAD_HASH (l !! (2 * j + 1)%nat)) false.
Proof.
  unfold proof_entry. replace ((2 * j) `mod` 2)%nat with O.
  - cbn [Nat.sub Nat.eqb]. do 3 f_equal. lia.
  - rewrite Nat.mul_comm. by rewrite Nat.Div0.mod_mul.
Qed.

Lemma proof_entry_odd l j :
  proof_entry l (2 * j + 1) = mkEntry (default PAD_HASH (l !! (2 * j)%nat)) true.
Proof.
  unfold proof_entry. replace ((2 * j + 1) `mod` 2)%nat with 1%nat.
  - cbn [Nat.sub Nat.eqb]. do 3 f_equal. lia.
  - rewrite Nat.add_comm, Nat.mul_comm. by rewrite Nat.Div0.mod_add.
Qed.

Section Descent.
Variables (items : list (list Z)) (t : KeccakMerkleTree) (data : list Z).
Variables (msgs verified : list (list Z)).
Hypothesis Hnew : merkle_new items = Some t.
Hypothesis Hrange : keccak_range.
Hypothesis Hcf : coll_free msgs.
Hypothesis Htree : tree_messages items t ⊆ msgs.
Hypothesis Hver : verified ⊆ msgs.
Hypothesis Hpad : forall m, m ∈ verified -> keccak256 m <> PAD_HASH.

Lemma level_range k l i x : levels t !! k = Some l -> l !! i = Some x -> is_h256 x.
Proof.
  pose proof (merkle_new_spec items t Hnew) as [Hl Hh]. intros Hk Hx. destruct k as [|k].
  - assert (l = map hash_leaf items) as -> by (by destruct (levels t); simplify_eq/=).
    apply list_lookup_fmap_Some in Hx as (? & -> & _). apply Hrange.
  - destruct (tree_levels_lookup _ _ _ Hl Hk) as (l0 & _ & <-).
    apply next_level_lookup in Hx as [_ ->]. apply Hrange.
Qed.

Lemma level_nth_range k l i : levels t !! k = Some l ->
  is_h256 (nth i l 0) /\ is_h256 (default PAD_HASH (l !! i)).
Proof.
  intros Hk. rewrite nth_lookup. assert (is_h256 0) by decide_now.
  destruct (l !! i) eqn:Hi; simpl; eauto using level_range.
Qed.

Lemma verified_not_pad s :
  leaf_message data :: path_messages (hash_leaf data) s ⊆ verified ->
  verify_path (hash_leaf data) s <> PAD_HASH.
Proof.
  intros Hs. destruct (verify_path_message data s) as (m & Hm & ->). eauto.
Qed.

Lemma verified_range s : is_h256 (verify_path (hash_leaf data) s).
Proof. destruct (verify_path_message data s) as (m & _ & ->). apply Hrange. Qed.

(** A leaf hash: only the bare leaf message reaches it. *)
Lemma descend_leaf l idx x s :
  levels t !! O = Some l -> l !! idx = Some x ->
  leaf_message data :: path_messages (hash_leaf data) s ⊆ verified ->
  verify_path (hash_leaf data) s = x ->
  items !! idx = Some data /\ s = [].
Proof.
  pose proof (merkle_new_spec items t Hnew) as [Hl Hh]. intros Hk Hx Hs Heq.
  assert (l = map hash_leaf items) as -> by (by destruct (levels t); simplify_eq/=).
  apply list_lookup_fmap_Some in Hx as (item & -> & Hit).
  assert (leaf_message item ∈ msgs) as Hm.
  { apply Htree, elem_of_app. left. apply list_elem_of_fmap_2. by eapply list_elem_of_lookup_2. }
  destruct s as [|e s _] using rev_ind.
  - apply Hcf in Heq; [|by apply Hver, Hs; left|done].
    injection Heq as ->. done.
  - rewrite verify_path_snoc, path_messages_snoc in *. exfalso.
    apply Hcf in Heq; [| |done].
    + unfold step_message in Heq.
      destruct (me_is_left e); symmetry in Heq; by apply leaf_inner_ne in Heq.
    + apply Hver, Hs. right. apply elem_of_app. right. constructor.
Qed.

(** An inner hash: the verification ends in a step, and that step hashes the
    two children the tree hashed. *)
Lemma descend_inner k l idx x s :
  levels t !! k = Some l -> next_level l !! idx = Some x ->
  leaf_message data :: path_messages (hash_leaf data) s ⊆ verified ->
  Forall (fun e => is_h256 (me_hash e)) s ->
  verify_path (hash_leaf data) s = x ->
  exists s' e, s = s' ++ [e] /\
    ((me_is_left e = true /\ me_hash e = nth (2 * idx) l 0 /\
      l !! (2 * idx + 1)%nat = Some (verify_path (hash_leaf data) s')) \/
     (me_is_left e = false /\ me_hash e = default PAD_HASH (l !! (2 * idx + 1)%nat) /\
      l !! (2 * idx)%nat = Some (verify_path (hash_leaf data) s'))).
Proof.
  intros Hk Hx Hs Hw Heq. pose proof (next_level_lookup _ _ _ Hx) as [Hlt ->].
  assert (inner_message (nth (2 * idx) l 0) (default PAD_HASH (l !! (2 * idx + 1)%nat)) ∈ msgs) as Hm.
  { apply Htree, elem_of_app. right. apply list_elem_of_In, in_flat_map.
    exists l. split; apply list_elem_of_In;
      [by eapply list_elem_of_lookup_2|by eapply next_level_message]. }
  destruct (level_nth_range k l (2 * idx) Hk) as [Hr1 _].
  destruct (level_nth_range k l (2 * idx + 1) Hk) as [_ Hr2].
  destruct s as [|e s _] using rev_ind.
  - exfalso. apply Hcf in Heq; [|by apply Hver, Hs; left|done]. by apply leaf_inner_ne in Heq.
  - rewrite verify_path_snoc, path_messages_snoc in *. exists s, e. split; [done|].
    apply Forall_app in Hw as [_ Hw%Forall_inv].
    assert (leaf_message data :: path_messages (hash_leaf data) s ⊆ verified) as Hs'.
    { intros m Hm'. apply Hs. rewrite app_comm_cons. apply elem_of_app. by left. }
    apply Hcf in Heq; [|apply Hver, Hs; right; apply elem_of_app; right; constructor|done].
    pose proof (verified_not_pad s Hs') as Hnp. pose proof (verified_range s).
    unfold step_message in Heq. destruct (me_is_left e); [left|right];
      apply inner_message_inj in Heq as [He Hc]; try done; split_and!; try done.
    + rewrite Hc in *. by destruct (l !! (2 * idx + 1)%nat).
    + rewrite He. rewrite nth_lookup. by destruct (lookup_lt_is_Some_2 _ _ Hlt) as [? ->].
Qed.

Lemma descend k l idx x s :
  levels t !! k = Some l -> l !! idx = Some x ->
  leaf_message data :: path_messages (hash_leaf data) s ⊆ verified ->
  Forall (fun e => is_h256 (me_hash e)) s ->
  verify_path (hash_leaf data) s = x ->
  exists i, items !! i = Some data /\ (i / 2 ^ k)%nat = idx /\
    s = proof_path i (take k (levels t)).
Proof.
  pose proof (merkle_new_spec items t Hnew) as [Hl Hh].
  revert l idx x s. induction k as [|k IH]; intros l' idx x s Hk Hx Hs Hw Heq.
  - destruct (descend_leaf l' idx x s) as [Hi ->]; [done..|].
    exists idx. split_and!; [done|apply Nat.div_1_r|done].
  - destruct (tree_levels_lookup _ _ _ Hl Hk) as (l & Hkl & <-).
    destruct (descend_inner k l idx x s) as (s' & e & -> & Hcase); [done..|].
    apply Forall_app in Hw as [Hw _].
    assert (leaf_message data :: path_messages (hash_leaf data) s' ⊆ verified) as Hs'.
    { intros m Hm'. apply Hs. rewrite path_messages_snoc, app_comm_cons.
      apply elem_of_app. by left. }
    rewrite (take_S_r _ _ l) by done. rewrite Nat.pow_succ_r', Nat.mul_comm.
    destruct e as [eh el]; cbn [me_is_left me_hash] in Hcase.
    destruct Hcase as [(-> & -> & Hc)|(-> & -> & Hc)];
      destruct (IH l _ _ s' Hkl Hc Hs' Hw eq_refl) as (i & Hi & Hdiv & ->);
      exists i; rewrite proof_path_snoc, length_take_le
        by (apply lookup_lt_Some in Hkl; lia);
      rewrite <- Nat.Div0.div_div, Hdiv; (split_and!; [done| |f_equal; f_equal]).
    + rewrite Nat.mul_comm, Nat.div_add_l by lia. simpl. lia.
    + rewrite proof_entry_odd, nth_lookup. done.
    + rewrite Nat.mul_comm. by apply Nat.div_mul.
    + by rewrite proof_entry_even.
Qed.
End Descent.

(** The path that verifies is the path of the tree. *)
Lemma merkle_sound (items : list (list Z)) (t : KeccakMerkleTree)
    (p : TransactionMerkleProof) (data : list Z) :
  merkle_new items = Some t -> keccak_range ->
  Forall (fun e => is_h256 (me_hash e)) (mp_siblings p) ->
  coll_free (tree_messages items t ++ proof_messages p data) ->
  (forall m, m ∈ proof_messages p data -> keccak256 m <> PAD_HASH) ->
  mp_root p = merkle_root t -> merkle_verify p data = true ->
  exists i, items !! i = Some data /\ generate_proof t i = Ok p.
Proof.
  intros Hnew Hr Hw Hcf Hpad Hroot Hv. apply Z.eqb_eq in Hv.
  pose proof (merkle_new_spec items t Hnew) as [Hl Hh].
  destruct (verify_path_message data (mp_siblings p)) as (m & Hm & Hmv).
  assert (merkle_root t <> PAD_HASH) as Hnz by (rewrite <- Hroot, <- Hv, Hmv; auto).
  unfold merkle_root in Hnz.
  destruct (last (levels t)) as [l|] eqn:Hlast; [|done].
  destruct (head l) as [x|] eqn:Hx; [|simpl in Hnz; rewrite Hx in Hnz; done].
  assert (merkle_root t = x) as Hrx by (unfold merkle_root; rewrite Hlast; simpl; by rewrite Hx).
  rewrite last_lookup in Hlast. rewrite head_lookup in Hx.
  destruct (descend items t data (tree_messages items t ++ proof_messages p data)
    (proof_messages p data) Hnew Hr Hcf) with (k := pred (length (levels t))) (l := l)
    (idx := O) (x := x) (s := mp_siblings p) as (i & Hi & Hdiv & Hs);
    try done; [set_solver|set_solver|congruence|].
  exists i. split; [done|]. pose proof (lookup_lt_Some _ _ _ Hi) as Hlt. unfold generate_proof.
  destruct (levels t) as [|l0 ls] eqn:Els; [done|]. simpl in Hh. subst l0.
  rewrite length_map. destruct (Nat.leb_spec (length items) i); [lia|].
  rewrite removelast_firstn_len, <- Hs, <- Hroot. by destruct p.
Qed.

(** C12: Merkle proofs are sound. A proof that verifies for some data against
    the root of a tree built from [items] is exactly the proof the tree generates
    for an index at which [items] holds that data. No inner node can be passed
    off as a leaf, and the zero hash used for padding proves nothing, given that
    Keccak does not collide on the messages hashed to build the tree and to check
    the proof, and that none of the latter hashes to the padding value. *)
Theorem merkle_soundness (items : list (list Z)) (t : KeccakMerkleTree)
    (p : TransactionMerkleProof) (data : list Z) :
  merkle_new items = Some t -> keccak_range ->
  Forall (fun e => is_h256 (me_hash e)) (mp_siblings p) ->
  coll_free (tree_messages items t ++ proof_messages p data) ->
  (forall m, m ∈ proof_messages p data -> keccak256 m <> PAD_HASH) ->
  mp_root p = merkle_root t -> merkle_verify p data = true ->
  exists i, items !! i = Some data /\ generate_proof t i = Ok p.
Proof. apply merkle_sound. Qed.

End Soundness.

(** ** Example: the middle leaf of three *)

Definition ex_items : list (list Z) := [[1; 2]; [3]; [4; 5; 6]].
Definition ex_tree : KeccakMerkleTree := default (mkTree []) (@merkle_new toy_keccak ex_items).
Definition ex_merkle_proof : TransactionMerkleProof :=
  match generate_proof ex_tree 1 with Ok p => p | Err _ => mkMerkleProof 0 [] end.

Lemma merkle_soundness_witness :
  exists i, ex_items !! i = Some [3] /\ generate_proof ex_tree i = Ok ex_merkle_proof.
Proof.
  apply (@merkle_soundness toy_keccak ex_items ex_tree ex_merkle_proof [3]);
    [reflexivity|apply toy_keccak_range|decide_now| | |reflexivity|vm_compute; reflexivity].
  - apply coll_freeb_sound. vm_compute. reflexivity.
  - intros m Hm. assert (Forall (fun m => @keccak256 toy_keccak m <> PAD_HASH)
      (@proof_messages toy_keccak ex_merkle_proof [3])) as Hall by decide_now.
    rewrite Forall_forall in Hall. by apply Hall.
Defined.
