(* ===== verification/Frame.v ===== *)
(** * What the pallets use of FRAME

    Origins, dispatch errors and the two storage operations whose result is not
    determined by the keys alone: iteration, which follows the hashed keys, and
    [clear_prefix] with a limit and a cursor. They are parameters; the laws that
    Substrate documents for them are stated here and asked for where a theorem
    needs them, and a simple instance shows they can hold. *)

From stdpp Require Import prelude gmap list sorting strings.
From Stdlib Require Import ZArith Lia.
From S2P Require Import Prelude Primitives.

(** ** Origins and errors *)

Inductive Origin := RootOrigin | SignedOrigin (who : AccountId) | NoneOrigin.

#[export] Instance Origin_eq_dec : EqDecision Origin.
Proof. solve_decision. Defined.

(** [sp_runtime::DispatchError], with the pallet's own errors as [ModuleError]. *)
Inductive DispatchError (E : Type) :=
| BadOrigin
| ModuleError (e : E)
| Other (msg : string).
Arguments BadOrigin {E}.
Arguments ModuleError {E} e.
Arguments Other {E} msg.

(** [EnsureOrigin::ensure_origin] for a configured origin, [ensure_root] and
    [ensure_signed]. *)
Definition ensure_origin {S E} (allowed : Origin -> bool) (o : Origin)
    : M S (DispatchError E) unit :=
  ensure (allowed o) BadOrigin.

Definition ensure_root {S E} (o : Origin) : M S (DispatchError E) unit :=
  match o with RootOrigin => mret tt | _ => fail BadOrigin end.

Definition ensure_signed {S E} (o : Origin) : M S (DispatchError E) AccountId :=
  match o with SignedOrigin who => mret who | _ => fail BadOrigin end.

Definition ensure_m {S E} (b : bool) (e : E) : M S (DispatchError E) unit :=
  ensure b (ModuleError e).

Definition ok_or_m {S E A} (o : option A) (e : E) : M S (DispatchError E) A :=
  lift (ok_or (ModuleError e) o).

Lemma ensure_signed_ok {S E} o (s s' : S) who :
  (ensure_signed o : M S (DispatchError E) AccountId) s = (Ok who, s') ->
  o = SignedOrigin who /\ s' = s.
Proof. destruct o; intros [=]. by subst. Qed.

(** Invert a successful call into the runs of its steps. *)
Ltac call_inv :=
  repeat (progress (unfold ensure_origin, ensure_m, ok_or_m in *; run_inv;
    match goal with
    | H : ensure_signed ?o _ = (Ok _, _) |- _ =>
        destruct o; cbn [ensure_signed] in H; run_inv
    | H : ensure_root ?o _ = (Ok _, _) |- _ =>
        destruct o; cbn [ensure_root] in H; run_inv
    | H : bool_decide _ = true |- _ => apply bool_decide_eq_true in H
    | _ => idtac
    end));
  run_inv.

(** Invert the first step of a successful run only. *)
Ltac step_inv H :=
  let Hs := fresh "Hstep" in
  apply bind_ok in H as (? & ? & Hs & H);
  unfold ensure_origin, ensure_m, ok_or_m in Hs;
  lazymatch type of Hs with
  | ensure _ _ _ = _ =>
      let Hb := fresh "Hens" in apply ensure_ok in Hs as [Hb ->];
      try apply bool_decide_eq_true in Hb
  | lift _ _ = _ => apply lift_ok in Hs as [Hs ->]; try apply ok_or_ok in Hs
  | gets _ _ = _ => apply gets_ok in Hs as [-> ->]
  | modify _ _ = _ => apply modify_ok in Hs as ->
  | mret _ _ = _ => apply ret_ok in Hs as [-> ->]
  | ensure_signed _ _ = _ => apply ensure_signed_ok in Hs as [-> ->]
  | _ => idtac
  end.

(** ** Storage iteration and bounded clearing

    [K] is the type of the keys below the prefix, a cursor is an opaque value. *)

(** The storage items that are iterated or cleared. *)
Inductive StorageItem :=
| SupportedChainsItem | AttestorsItem | AttestationsItem | CheckpointsItem
| CheckpointBucketsItem | InvulnerablesItem | RetiredKeysItem | BlsKeyOwnerItem
| RemovedChainCleanupItem | PruningStatesItem | CheckpointCursorsItem
| BucketCursorsItem | AttestationCursorsItem | PendingIntervalItem
| PendingSampleSizeItem | PendingMaxCatchupItem.

Class FrameStorage (K : Type) := {
  (** The order in which the keys of a map or prefix are iterated. *)
  trie_order : StorageItem -> list K -> list K;
  (** [clear_prefix(limit, cursor)] on the keys of a prefix: the keys that are
      removed, and the cursor to continue from if some are left. *)
  clear_prefix : StorageItem -> list K -> Z -> option Z -> list K * option Z;
  (** The keys that a call with this cursor still visits. *)
  reachable : StorageItem -> option Z -> K -> Prop;
  (** Whether the first key's hash is below the second's. *)
  trie_before : StorageItem -> K -> K -> bool;
}.

(** [iter_key_prefix_from]: the keys after a given one. *)
Definition iter_from `{FrameStorage K} (it : StorageItem) (start : K) (keys : list K) : list K :=
  filter (fun k => trie_before it start k = true) (trie_order it keys).

(** Iteration visits every key once. [clear_prefix] removes keys of the prefix
    only; a key it can reach and does not remove is reached from the cursor it
    returns, and without one nothing it could reach is left; a cursor is only
    returned after [limit] keys have been removed. *)
Class FrameStorageLaws (K : Type) `{FrameStorage K} : Prop := {
  trie_order_perm : forall it keys, trie_order it keys ≡ₚ keys;
  clear_prefix_sub : forall it keys limit c, (clear_prefix it keys limit c).1 ⊆ keys;
  clear_prefix_nodup : forall it keys limit c,
    NoDup keys -> NoDup (clear_prefix it keys limit c).1;
  reachable_start : forall it k, reachable it None k;
  clear_prefix_done : forall it keys limit c removed,
    clear_prefix it keys limit c = (removed, None) ->
    forall k, k ∈ keys -> reachable it c k -> k ∈ removed;
  clear_prefix_more : forall it keys limit c removed c',
    clear_prefix it keys limit c = (removed, Some c') ->
    limit <= zlen removed /\
    forall k, k ∈ keys -> reachable it c k -> k ∉ removed -> reachable it (Some c') k;
}.

(** Iteration follows a total order of the keys. *)
Class FrameOrderLaws (K : Type) `{FrameStorage K} : Prop := {
  trie_before_irrefl : forall it k, trie_before it k k = false;
  trie_before_trans : forall it a b c,
    trie_before it a b = true -> trie_before it b c = true -> trie_before it a c = true;
  trie_before_total : forall it a b, a <> b -> trie_before it a b = false -> trie_before it b a = true;
  trie_order_sorted : forall it keys i j a b, NoDup keys ->
    trie_order it keys !! i = Some a -> trie_order it keys !! j = Some b -> (i < j)%nat ->
    trie_before it a b = true;
}.

(** An instance for examples: keys in a given order; a call removes the first
    [limit] of them, and starts from the front again whatever its cursor. *)
Section Toy.
Context {K : Type} (R : relation K) `{!EqDecision K} `{!RelDecision R}
  `{!Transitive R} `{!Total R} `{!AntiSymm (=) R}.

Definition toy_storage : FrameStorage K := {|
  trie_order := fun _ keys => merge_sort R keys;
  clear_prefix := fun _ keys limit _ =>
    if zlen keys <=? limit then (keys, None)
    else (take (Z.to_nat limit) keys, Some 0);
  reachable := fun _ _ _ => True;
  trie_before := fun _ a b => bool_decide (R a b /\ a <> b);
|}.

Lemma toy_storage_laws : @FrameStorageLaws K toy_storage.
Proof.
  constructor; unfold trie_order, clear_prefix, reachable, toy_storage;
    [intros; apply merge_sort_Permutation| | |done|..];
    intros it keys limit c; destruct (Z.leb_spec (zlen keys) limit) as [Hle|Hgt]; simpl.
  - done.
  - intros x Hx. by apply elem_of_take in Hx as (? & ?%list_elem_of_lookup_2 & _).
  - done.
  - intros Hnd. eapply sublist_NoDup; [exact Hnd|apply sublist_take].
  - by intros removed [= <-].
  - done.
  - done.
  - intros removed c' [= <- _]. split; [|done]. unfold zlen in *. rewrite length_take. lia.
Qed.

Lemma toy_order_laws : @FrameOrderLaws K toy_storage.
Proof.
  constructor; unfold trie_before, trie_order, toy_storage; intros it.
  - intros k. apply bool_decide_eq_false. tauto.
  - intros a b c [Hab Hne]%bool_decide_eq_true [Hbc _]%bool_decide_eq_true.
    apply bool_decide_eq_true. split; [by etrans|]. intros ->. by destruct Hne; apply (anti_symm R).
  - intros a b Hne Hn%bool_decide_eq_false. apply bool_decide_eq_true.
    destruct (total R a b); [by destruct Hn|auto].
  - intros keys i j a b Hnd Ha Hb Hij. apply bool_decide_eq_true. split.
    + pose proof (StronglySorted_merge_sort R keys) as Hs. revert i j Ha Hb Hij.
      induction Hs as [|x l Hs IH Hall]; intros i j Ha Hb Hij; [done|].
      destruct j as [|j]; [lia|]. destruct i as [|i]; cbn in *; [|eapply IH; eauto; lia].
      injection Ha as <-. eapply Forall_lookup_1; eauto.
    + intros ->. assert (NoDup (merge_sort R keys)) as Hnd' by by rewrite merge_sort_Permutation.
      pose proof (NoDup_lookup _ _ _ _ Hnd' Ha Hb). lia.
Qed.
End Toy.

(** ** Storage maps

    A [StorageMap] is a [gmap]; a [StorageDoubleMap] is a map of maps in which an
    absent row is an empty one. *)

Definition row {V} (m : gmap Z (gmap Z V)) (k1 : Z) : gmap Z V := default ∅ (m !! k1).
Definition dget {V} (m : gmap Z (gmap Z V)) (k1 k2 : Z) : option V := row m k1 !! k2.
Definition dinsert {V} (k1 k2 : Z) (v : V) (m : gmap Z (gmap Z V)) : gmap Z (gmap Z V) :=
  <[k1 := <[k2 := v]> (row m k1)]> m.
Definition dremove {V} (k1 k2 : Z) (m : gmap Z (gmap Z V)) : gmap Z (gmap Z V) :=
  <[k1 := delete k2 (row m k1)]> m.

(** The keys of a map, in iteration order. *)
Definition map_keys {V} (m : gmap Z V) : list Z := map fst (map_to_list m).
Definition iter_keys `{FrameStorage Z} {V} (it : StorageItem) (m : gmap Z V) : list Z :=
  trie_order it (map_keys m).

(** Remove several keys. *)
Definition remove_keys {V} (ks : list Z) (m : gmap Z V) : gmap Z V := foldr delete m ks.

(** [clear_prefix] on one row of a double map. *)
Definition clear_row `{FrameStorage Z} {V} (it : StorageItem) (k1 limit : Z) (c : option Z)
    (m : gmap Z (gmap Z V)) : gmap Z (gmap Z V) * list Z * option Z :=
  let '(removed, c') := clear_prefix it (map_keys (row m k1)) limit c in
  (<[k1 := remove_keys removed (row m k1)]> m, removed, c').

Lemma row_insert {V} k r (m : gmap Z (gmap Z V)) k' :
  row (<[k := r]> m) k' = if decide (k = k') then r else row m k'.
Proof. unfold row. rewrite lookup_insert. by case_decide. Qed.

Lemma row_insert_eq {V} k r (m : gmap Z (gmap Z V)) : row (<[k := r]> m) k = r.
Proof. unfold row. by rewrite lookup_insert_eq. Qed.

Lemma row_insert_ne {V} k r (m : gmap Z (gmap Z V)) k' :
  k <> k' -> row (<[k := r]> m) k' = row m k'.
Proof. intros. unfold row. by rewrite lookup_insert_ne. Qed.

Lemma row_delete {V} k (m : gmap Z (gmap Z V)) k' :
  row (delete k m) k' = if decide (k = k') then ∅ else row m k'.
Proof. unfold row. rewrite lookup_delete. by case_decide. Qed.

Lemma row_dinsert {V} k1 k2 (v : V) m k :
  row (dinsert k1 k2 v m) k = if decide (k1 = k) then <[k2 := v]> (row m k1) else row m k.
Proof. apply row_insert. Qed.

Lemma row_dremove {V} k1 k2 (m : gmap Z (gmap Z V)) k :
  row (dremove k1 k2 m) k = if decide (k1 = k) then delete k2 (row m k1) else row m k.
Proof. apply row_insert. Qed.

Lemma dget_dinsert {V} k1 k2 (v : V) m a b :
  dget (dinsert k1 k2 v m) a b =
  if decide (k1 = a /\ k2 = b) then Some v else dget m a b.
Proof.
  unfold dget. rewrite row_dinsert. destruct (decide (k1 = a)) as [->|Ha].
  - rewrite lookup_insert. destruct (decide (k2 = b)).
    + by rewrite decide_True.
    + rewrite decide_False by tauto. done.
  - rewrite decide_False by tauto. done.
Qed.

Lemma dget_dremove {V} k1 k2 (m : gmap Z (gmap Z V)) a b :
  dget (dremove k1 k2 m) a b =
  if decide (k1 = a /\ k2 = b) then None else dget m a b.
Proof.
  unfold dget. rewrite row_dremove. destruct (decide (k1 = a)) as [->|Ha].
  - rewrite lookup_delete. destruct (decide (k2 = b)).
    + by rewrite decide_True.
    + rewrite decide_False by tauto. done.
  - rewrite decide_False by tauto. done.
Qed.

Lemma remove_keys_lookup {V} ks (m : gmap Z V) k :
  remove_keys ks m !! k = if decide (k ∈ ks) then None else m !! k.
Proof.
  induction ks as [|k' ks IH]; [by rewrite decide_False by set_solver|].
  change (remove_keys (k' :: ks) m) with (delete k' (remove_keys ks m)).
  rewrite lookup_delete, IH. repeat case_decide; set_solver.
Qed.

Lemma elem_of_map_keys {V} (m : gmap Z V) k : k ∈ map_keys m <-> is_Some (m !! k).
Proof.
  unfold map_keys. rewrite list_elem_of_In, in_map_iff. split.
  - intros ([k' v] & <- & Hin%list_elem_of_In). exists v. by apply elem_of_map_to_list.
  - intros [v Hv]. exists (k, v). split; [done|].
    by apply list_elem_of_In, elem_of_map_to_list.
Qed.

Lemma NoDup_map_keys {V} (m : gmap Z V) : NoDup (map_keys m).
Proof. apply NoDup_fst_map_to_list. Qed.

Lemma elem_of_iter_keys `{FrameStorageLaws Z} {V} it (m : gmap Z V) k :
  k ∈ iter_keys it m <-> is_Some (m !! k).
Proof. unfold iter_keys. rewrite trie_order_perm. apply elem_of_map_keys. Qed.

Lemma NoDup_iter_keys `{FrameStorageLaws Z} {V} it (m : gmap Z V) : NoDup (iter_keys it m).
Proof. unfold iter_keys. rewrite trie_order_perm. apply NoDup_map_keys. Qed.

Lemma length_map_keys {V} (m : gmap Z V) : length (map_keys m) = size m.
Proof. unfold map_keys. by rewrite length_map, length_map_to_list. Qed.
