(* ===== verification/SupportedChains.v ===== *)
(** * The supported-chains pallet

    [src/pallets/supported-chains/src/lib.rs] and [chains_count.rs], with the
    maturity strategies of [src/primitives/supported-chains/src/lib.rs]. The
    pallet is generic over its two listeners, as its [Config] is: the handler
    told of registrations and the one told of removals act on a state of their
    own. The invariant ties the chain table, its counter, the name index and the
    key allocator together; every call preserves it. *)

From stdpp Require Import prelude gmap list sorting strings.
From Stdlib Require Import ZArith Lia.
From S2P Require Import Prelude Primitives Frame.

(** ** Maturity strategies

    A Rust string is the list of its Unicode scalar values. *)

Definition rstring := list Z.

Fixpoint str (s : string) : rstring :=
  match s with
  | EmptyString => []
  | String c s' => Z.of_nat (Ascii.nat_of_ascii c) :: str s'
  end.

Definition MATURITY_EVM_FINALIZED : rstring := str "EvmFinalized".
Definition MATURITY_EVM_SAFE : rstring := str "EvmSafe".
Definition MATURITY_EVM_LATEST : rstring := str "EvmLatest".
Definition MATURITY_FIXED_DELAY : rstring := str "FixedDelay:".
Definition MATURITY_RPC_SAFE : rstring := str "RpcSafe".
Definition MATURITY_RPC_FINALIZED : rstring := str "RpcFinalized".

Inductive MaturityStrategy :=
| EvmFinalized | EvmSafe | EvmLatest | FixedDelay (n : Z) | RpcSafe | RpcFinalized.

Inductive RpcBlockTag := Safe | Finalized.

Inductive StrategyError :=
| InvalidFixedDelay (s : rstring)
| InvalidStrategy (s : rstring).

Definition maturity_delay (m : MaturityStrategy) : option Z :=
  match m with
  | EvmFinalized => Some 64
  | EvmSafe => Some 32
  | EvmLatest => Some 0
  | FixedDelay n => Some n
  | RpcSafe | RpcFinalized => None
  end.

Definition rpc_tag (m : MaturityStrategy) : option RpcBlockTag :=
  match m with
  | RpcSafe => Some Safe
  | RpcFinalized => Some Finalized
  | _ => None
  end.

(** [char::is_whitespace]: Unicode [White_Space]. *)
Definition is_whitespace (c : Z) : bool :=
  ((9 <=? c) && (c <=? 13)) || (c =? 32) || (c =? 133) || (c =? 160) || (c =? 5760) ||
  ((8192 <=? c) && (c <=? 8202)) || (c =? 8232) || (c =? 8233) || (c =? 8239) ||
  (c =? 8287) || (c =? 12288).

Fixpoint trim_start (s : rstring) : rstring :=
  match s with
  | [] => []
  | c :: s' => if is_whitespace c then trim_start s' else s
  end.

(** [str::trim] *)
Definition trim (s : rstring) : rstring := rev (trim_start (rev (trim_start s))).

(** [str::strip_prefix] *)
Fixpoint strip_prefix (p s : rstring) : option rstring :=
  match p, s with
  | [], _ => Some s
  | a :: p', b :: s' => if a =? b then strip_prefix p' s' else None
  | _ :: _, [] => None
  end.

(** [str::starts_with] *)
Definition starts_with (p s : rstring) : bool := bool_decide (take (length p) s = p).

(** [str::parse::<u64>]: an optional plus sign, then at least one decimal digit,
    and no overflow. *)
Fixpoint parse_digits (acc : Z) (s : rstring) : option Z :=
  match s with
  | [] => Some acc
  | c :: s' =>
      if (48 <=? c) && (c <=? 57) then
        d ← checked_mul 64 acc 10;
        d' ← checked_add 64 d (c - 48);
        parse_digits d' s'
      else None
  end.

Definition parse_u64 (s : rstring) : option Z :=
  match s with
  | [] => None
  | c :: s' =>
      if c =? 43 then match s' with [] => None | _ => parse_digits 0 s' end
      else parse_digits 0 s
  end.

(** [MaturityStrategy::try_from] *)
Definition strategy_try_from (s : rstring) : Result StrategyError MaturityStrategy :=
  if bool_decide (s = MATURITY_EVM_FINALIZED) then Ok EvmFinalized
  else if bool_decide (s = MATURITY_EVM_SAFE) then Ok EvmSafe
  else if bool_decide (s = MATURITY_EVM_LATEST) then Ok EvmLatest
  else if bool_decide (s = MATURITY_RPC_SAFE) then Ok RpcSafe
  else if bool_decide (s = MATURITY_RPC_FINALIZED) then Ok RpcFinalized
  else match strip_prefix MATURITY_FIXED_DELAY s with
  | Some rest =>
      match parse_u64 (trim rest) with
      | Some delay => Ok (FixedDelay delay)
      | None => Err (InvalidFixedDelay s)
      end
  | None => Err (InvalidStrategy s)
  end.

(** The pallet's own check. *)
Definition is_valid_maturity_strategy (s : rstring) : bool :=
  if bool_decide (s = MATURITY_EVM_FINALIZED) || bool_decide (s = MATURITY_EVM_SAFE) ||
     bool_decide (s = MATURITY_EVM_LATEST) || bool_decide (s = MATURITY_RPC_SAFE) ||
     bool_decide (s = MATURITY_RPC_FINALIZED) then true
  else if starts_with MATURITY_FIXED_DELAY s then
    match strip_prefix MATURITY_FIXED_DELAY s with
    | Some num_str => match parse_u64 (trim num_str) with Some _ => true | None => false end
    | None => false
    end
  else false.

(** ** Storage, events and errors *)

Record SupportedChain := mkSupportedChain {
  chain_id : Z;
  chain_name : list Z;
  chain_encoding : Z;
  maturity_strategy : rstring;
}.

#[export] Instance SupportedChain_eq_dec : EqDecision SupportedChain.
Proof. solve_decision. Defined.

Inductive ScEvent :=
| ChainRegistered (chain_key : Z) (c : SupportedChain)
| ChainRemoved (chain_key : Z) (c : SupportedChain)
| MaturityStrategySet (chain_key chain_id : Z) (strategy : rstring)
| ChainNameSet (chain_key chain_id : Z) (old_chain_name chain_name : list Z).

Inductive ScError :=
| ChainAlreadyRegistered
| ScChainNotSupported
| Arithmetic
| InvalidMaturityStrategy
| MaturityStrategyUnchanged
| ChainNameUnchanged
| TooManyChains.

Record ScConfig := mkScConfig {
  DefaultMaturityStrategy : rstring;
  MaxSupportedChains : Z;
  ScOperatorsOrigin : Origin -> bool;
}.

Definition GENESIS_CHAIN_KEY : ChainKey := 1.

(** The pallet's storage next to the state [L] of its listeners. *)
Record ScState (L : Type) := mkScState {
  SupportedChains : gmap Z SupportedChain;
  SupportedChainsCount : Z;
  ChainIdAndNameToUniqKey : gmap (Z * list Z) ChainKey;
  ChainKeyValue : ChainKey;
  sc_events : list ScEvent;
  sc_listener : L;
}.
Arguments mkScState {L}.
Arguments SupportedChains {L}.
Arguments SupportedChainsCount {L}.
Arguments ChainIdAndNameToUniqKey {L}.
Arguments ChainKeyValue {L}.
Arguments sc_events {L}.
Arguments sc_listener {L}.

#[export] Instance eta_ScState L : Settable (ScState L) := fun r =>
  mkScState (SupportedChains r) (SupportedChainsCount r) (ChainIdAndNameToUniqKey r)
    (ChainKeyValue r) (sc_events r) (sc_listener r).

(** What a registration passes on to its handler. *)
Record RegisterParams := mkRegisterParams {
  rp_chain_id : Z;
  rp_chain_name : list Z;
  rp_target_sample_size : option Z;
  rp_chain_attestation_interval : option Z;
  rp_attestation_checkpoint_interval : option Z;
  rp_max_attestors : option Z;
  rp_max_invulnerables : option Z;
  rp_genesis_block_number : option Z;
  rp_encoding : Z;
}.

(** The two traits the pallet calls out to. *)
Class OnRegisterChainProvider (L : Type) :=
  on_register_chain : ChainKey -> RegisterParams -> M L string unit.
Class ChainRemovalListener (L : Type) :=
  on_supported_chain_removed : ChainKey -> bool -> L -> L.

(** ** Calls *)

Section Calls.
Context {L : Type} `{!OnRegisterChainProvider L} `{!ChainRemovalListener L}.
Variable cfg : ScConfig.

Abbreviation ScM := (M (ScState L) (DispatchError ScError)).

Definition sc_deposit_event (e : ScEvent) : ScM unit :=
  modify (fun s => s <| sc_events ::= fun es => es ++ [e] |>).

(** Run the registration handler on the listeners' state; its message becomes the
    dispatch error. *)
Definition call_registration_handler (k : ChainKey) (p : RegisterParams) : ScM unit := fun s =>
  match on_register_chain k p (sc_listener s) with
  | (Ok _, l) => (Ok tt, s <| sc_listener := l |>)
  | (Err msg, l) => (Err (Other msg), s <| sc_listener := l |>)
  end.

Definition register_chain (origin : Origin) (p : RegisterParams)
    (strategy : option rstring) : ScM unit :=
  transactional (
    ensure_origin (ScOperatorsOrigin cfg) origin;;
    known ← gets ChainIdAndNameToUniqKey;
    ensure_m (bool_decide (known !! (rp_chain_id p, rp_chain_name p) = None))
      ChainAlreadyRegistered;;
    chains_count ← gets SupportedChainsCount;
    ensure_m (chains_count <? MaxSupportedChains cfg) TooManyChains;;
    strategy ← match strategy with
      | Some st => ensure_m (is_valid_maturity_strategy st) InvalidMaturityStrategy;; mret st
      | None => mret (DefaultMaturityStrategy cfg)
      end;
    chain_key ← gets ChainKeyValue;
    let chain := mkSupportedChain (rp_chain_id p) (rp_chain_name p) (rp_encoding p) strategy in
    modify (fun s => s <| SupportedChains ::= <[chain_key := chain]> |>);;
    modify (fun s => s <| ChainIdAndNameToUniqKey ::=
      <[(rp_chain_id p, rp_chain_name p) := chain_key]> |>);;
    next ← ok_or_m (checked_add 64 chain_key 1) Arithmetic;
    modify (fun s => s <| ChainKeyValue := next |>);;
    modify (fun s => s <| SupportedChainsCount := saturating_add 32 chains_count 1 |>);;
    call_registration_handler chain_key p;;
    sc_deposit_event (ChainRegistered chain_key chain)).

Definition remove_chain (origin : Origin) (chain_key : ChainKey)
    (remove_checkpoints : bool) : ScM unit :=
  transactional (
    ensure_origin (ScOperatorsOrigin cfg) origin;;
    chains ← gets SupportedChains;
    item ← ok_or_m (chains !! chain_key) ScChainNotSupported;
    modify (fun s => s <| ChainIdAndNameToUniqKey ::=
      delete (chain_id item, chain_name item) |>);;
    modify (fun s => s <| SupportedChains ::= delete chain_key |>);;
    modify (fun s => s <| SupportedChainsCount ::= fun n => saturating_sub n 1 |>);;
    modify (fun s => s <| sc_listener ::=
      on_supported_chain_removed chain_key remove_checkpoints |>);;
    sc_deposit_event (ChainRemoved chain_key item)).

Definition set_maturity_strategy (origin : Origin) (chain_key : ChainKey)
    (strategy : rstring) : ScM unit :=
  transactional (
    ensure_origin (ScOperatorsOrigin cfg) origin;;
    ensure_m (is_valid_maturity_strategy strategy) InvalidMaturityStrategy;;
    chains ← gets SupportedChains;
    chain ← ok_or_m (chains !! chain_key) ScChainNotSupported;
    ensure_m (bool_decide (maturity_strategy chain <> strategy)) MaturityStrategyUnchanged;;
    modify (fun s => s <| SupportedChains ::= <[chain_key :=
      mkSupportedChain (chain_id chain) (chain_name chain) (chain_encoding chain) strategy]> |>);;
    sc_deposit_event (MaturityStrategySet chain_key (chain_id chain) strategy)).

Definition set_chain_name (origin : Origin) (chain_key : ChainKey)
    (new_name : list Z) : ScM unit :=
  transactional (
    ensure_origin (ScOperatorsOrigin cfg) origin;;
    chains ← gets SupportedChains;
    chain ← ok_or_m (chains !! chain_key) ScChainNotSupported;
    ensure_m (bool_decide (chain_name chain <> new_name)) ChainNameUnchanged;;
    known ← gets ChainIdAndNameToUniqKey;
    ensure_m (bool_decide (known !! (chain_id chain, new_name) = None)) ChainAlreadyRegistered;;
    modify (fun s => s <| ChainIdAndNameToUniqKey ::=
      delete (chain_id chain, chain_name chain) |>);;
    modify (fun s => s <| ChainIdAndNameToUniqKey ::=
      <[(chain_id chain, new_name) := chain_key]> |>);;
    modify (fun s => s <| SupportedChains ::= <[chain_key :=
      mkSupportedChain (chain_id chain) new_name (chain_encoding chain)
        (maturity_strategy chain)]> |>);;
    sc_deposit_event (ChainNameSet chain_key (chain_id chain) (chain_name chain) new_name)).

(** ** The provider interface *)

Definition is_chain_supported (s : ScState L) (chain_key : ChainKey) : bool :=
  bool_decide (is_Some (SupportedChains s !! chain_key)).

Definition supported_chains `{FrameStorage Z} (s : ScState L) : list ChainKey :=
  iter_keys SupportedChainsItem (SupportedChains s).

Definition chain_key_by_chain_id_and_name (s : ScState L) (id : Z) (name : list Z)
    : option ChainKey :=
  ChainIdAndNameToUniqKey s !! (id, name).

Definition get_supported_chain (s : ScState L) (chain_key : ChainKey) : option SupportedChain :=
  SupportedChains s !! chain_key.

Definition supported_chains_count (s : ScState L) : Z := SupportedChainsCount s.

(** [InitSupportedChainsCount::on_runtime_upgrade] *)
Definition init_supported_chains_count (s : ScState L) : ScState L :=
  let actual := wrap 32 (Z.of_nat (size (SupportedChains s))) in
  if SupportedChainsCount s =? actual then s
  else s <| SupportedChainsCount := actual |>.

(** ** Genesis; [None] is a panic *)

Fixpoint genesis_chains (chains : list SupportedChain) (chain_key : ChainKey)
    (s : ScState L) : option (ChainKey * ScState L) :=
  match chains with
  | [] => Some (chain_key, s)
  | c :: rest =>
      let s := s <| SupportedChains ::= <[chain_key := c]> |> in
      match ChainIdAndNameToUniqKey s !! (chain_id c, chain_name c) with
      | Some _ => None
      | None =>
          let s := s <| ChainIdAndNameToUniqKey ::=
            <[(chain_id c, chain_name c) := chain_key]> |> in
          next ← checked_add 64 chain_key 1;
          genesis_chains rest next s
      end
  end.

Definition sc_genesis_build (chains : list SupportedChain) (l : L) : option (ScState L) :=
  if wrap 32 (zlen chains) <=? MaxSupportedChains cfg then
    r ← genesis_chains chains 1 (mkScState ∅ 0 ∅ GENESIS_CHAIN_KEY [] l);
    Some (r.2 <| ChainKeyValue := r.1 |> <| SupportedChainsCount := wrap 32 (zlen chains) |>)
  else None.

End Calls.

(** ** Maturity strategies: one language, two parsers *)

Lemma strip_prefix_starts_with p s :
  (exists r, strip_prefix p s = Some r) <-> starts_with p s = true.
Proof.
  unfold starts_with. rewrite bool_decide_eq_true. revert s.
  induction p as [|a p IH]; intros s; simpl; [split; [done|by exists s]|].
  destruct s as [|b s]; [split; [by intros [? ?]|done]|].
  destruct (Z.eqb_spec a b) as [->|Hne]; simpl.
  - rewrite IH. split; [by intros ->|by intros [= ?]].
  - split; [by intros [? ?]|congruence].
Qed.

Lemma parse_digits_range acc t d :
  in_range 64 acc -> parse_digits acc t = Some d -> in_range 64 d.
Proof.
  revert acc. induction t as [|c t IH]; intros acc Hacc; simpl; [by intros [= <-]|].
  destruct (Z.leb_spec 48 c), (Z.leb_spec c 57); simpl; try done.
  unfold checked_mul. destruct (Z.leb_spec (acc * 10) (umax 64)); simpl; [|done].
  unfold checked_add. destruct (Z.leb_spec (acc * 10 + (c - 48)) (umax 64)); simpl; [|done].
  apply IH. unfold in_range in *. lia.
Qed.

Lemma parse_u64_range t d : parse_u64 t = Some d -> in_range 64 d.
Proof.
  assert (in_range 64 0) by (unfold in_range; rewrite umax_64; lia).
  unfold parse_u64. destruct t as [|c [|c' t]]; [done|..]; destruct (c =? 43);
    eauto using parse_digits_range; done.
Qed.

(** The pallet accepts a maturity strategy exactly when the off-chain
    parser understands it. The check made at registration and by
    [set_maturity_strategy] and the conversion the attestors run at startup are
    written separately and accept the same strings; a fixed-delay string is
    accepted exactly when its delay parses, and then the parsed delay fits a
    [u64] word. *)
Theorem valid_strategy_iff_parses (s : rstring) :
  (is_valid_maturity_strategy s = true <-> exists m, strategy_try_from s = Ok m) /\
  (forall m, strategy_try_from s = Ok m ->
     match maturity_delay m with Some d => in_range 64 d | None => is_Some (rpc_tag m) end).
Proof.
  pose proof (strip_prefix_starts_with MATURITY_FIXED_DELAY s) as Hp.
  unfold is_valid_maturity_strategy, strategy_try_from.
  repeat (case_bool_decide; cbn [orb];
    [split; [split; [by eauto|done]|intros m [= <-]; cbn [maturity_delay rpc_tag];
       first [by eexists|unfold in_range; rewrite umax_64; lia]]|]).
  destruct (strip_prefix MATURITY_FIXED_DELAY s) as [r|] eqn:Hs.
  - rewrite (proj1 Hp) by eauto. destruct (parse_u64 (trim r)) as [d|] eqn:Hr.
    + split; [split; eauto|]. intros m [= <-]. by eapply parse_u64_range.
    + split; [split; [done|intros [? [=]]]|done].
  - destruct (starts_with MATURITY_FIXED_DELAY s).
    + by destruct (proj2 Hp eq_refl).
    + split; [split; [done|intros [? [=]]]|done].
Qed.

(** ** The chain table, its counter, its name index and its key allocator *)

Section Invariant.
Context {L : Type} `{!OnRegisterChainProvider L} `{!ChainRemovalListener L}.
Variable cfg : ScConfig.
Hypothesis max_u32 : MaxSupportedChains cfg <= umax 32.

Record sc_inv (s : ScState L) : Prop := {
  inv_count : SupportedChainsCount s = Z.of_nat (size (SupportedChains s));
  inv_bound : SupportedChainsCount s <= MaxSupportedChains cfg;
  inv_index : forall id name k,
    ChainIdAndNameToUniqKey s !! (id, name) = Some k <->
    exists c, SupportedChains s !! k = Some c /\ chain_id c = id /\ chain_name c = name;
  inv_fresh : forall k, is_Some (SupportedChains s !! k) -> 1 <= k < ChainKeyValue s;
  inv_next : 1 <= ChainKeyValue s <= umax 64;
}.

Lemma registration_handler_ok k p (s s' : ScState L) u :
  call_registration_handler k p s = (Ok u, s') ->
  exists l v, on_register_chain k p (sc_listener s) = (Ok v, l) /\ s' = s <| sc_listener := l |>.
Proof.
  unfold call_registration_handler. destruct (on_register_chain k p (sc_listener s)) as [[?|?] l];
    intros [=]; subst; eauto.
Qed.

(** The effect of a successful registration. *)
Lemma register_chain_ok o p st (s s' : ScState L) u :
  register_chain cfg o p st s = (Ok u, s') ->
  exists strategy l v,
    let k := ChainKeyValue s in
    let c := mkSupportedChain (rp_chain_id p) (rp_chain_name p) (rp_encoding p) strategy in
    ChainIdAndNameToUniqKey s !! (rp_chain_id p, rp_chain_name p) = None /\
    SupportedChainsCount s < MaxSupportedChains cfg /\ k + 1 <= umax 64 /\
    s' = mkScState (<[k := c]> (SupportedChains s)) (saturating_add 32 (SupportedChainsCount s) 1)
           (<[(rp_chain_id p, rp_chain_name p) := k]> (ChainIdAndNameToUniqKey s)) (k + 1)
           (sc_events s ++ [ChainRegistered k c]) l /\
    on_register_chain k p (sc_listener s) = (Ok v, l).
Proof.
  unfold register_chain, sc_deposit_event. intros Hrun. call_inv.
  match goal with H : checked_add _ _ _ = Some _ |- _ =>
    apply checked_add_Some in H as [-> Hov] end.
  match goal with H : call_registration_handler _ _ _ = _ |- _ =>
    apply registration_handler_ok in H as (l & v & Hl & ->) end.
  destruct st as [st|]; call_inv; eexists _, l, v; (split_and!; [done|lia|done|reflexivity|exact Hl]).
Qed.

Lemma size_insert_fresh (s : ScState L) c :
  sc_inv s -> size (<[ChainKeyValue s := c]> (SupportedChains s)) = S (size (SupportedChains s)).
Proof.
  intros Hinv. apply map_size_insert_None.
  destruct (SupportedChains s !! ChainKeyValue s) eqn:Hk; [|done].
  destruct (inv_fresh s Hinv (ChainKeyValue s)); [by eexists|lia].
Qed.

Lemma register_chain_inv o p st : keeps sc_inv (register_chain cfg o p st : M (ScState L) _ _).
Proof.
  intros s u s' (strategy & l & v & Hnew & Hlt & Hov & -> & _)%register_chain_ok Hinv.
  pose proof (inv_fresh s Hinv) as Hf. pose proof (inv_next s Hinv).
  constructor; cbn [SupportedChains SupportedChainsCount ChainIdAndNameToUniqKey ChainKeyValue].
  - rewrite size_insert_fresh by done. pose proof (inv_count s Hinv).
    unfold saturating_add. lia.
  - unfold saturating_add. lia.
  - intros id name k. rewrite !lookup_insert. repeat case_decide; simplify_eq; cbn.
    + split; [eauto|done].
    + split; [congruence|]. intros Hc%(inv_index s Hinv). congruence.
    + split.
      * intros Hk%(inv_index s Hinv). destruct Hk as (c & Hc & _).
        destruct (Hf (ChainKeyValue s)); [by eexists|lia].
      * intros (c & [= <-] & <- & <-). by cbn in *.
    + apply (inv_index s Hinv).
  - intros k. rewrite lookup_insert. case_decide as Hk; [lia|]. intros ?%Hf. lia.
  - lia.
Qed.

(** The effect of a successful removal. *)
Lemma remove_chain_ok o k b (s s' : ScState L) u :
  remove_chain cfg o k b s = (Ok u, s') ->
  exists c, SupportedChains s !! k = Some c /\
    s' = mkScState (delete k (SupportedChains s)) (saturating_sub (SupportedChainsCount s) 1)
           (delete (chain_id c, chain_name c) (ChainIdAndNameToUniqKey s)) (ChainKeyValue s)
           (sc_events s ++ [ChainRemoved k c]) (on_supported_chain_removed k b (sc_listener s)).
Proof.
  unfold remove_chain, sc_deposit_event. intros Hrun. call_inv. eexists.
  split; [done|reflexivity].
Qed.

Lemma remove_chain_inv o k b : keeps sc_inv (remove_chain cfg o k b : M (ScState L) _ _).
Proof.
  intros s u s' (c & Hc & ->)%remove_chain_ok Hinv.
  pose proof (inv_bound s Hinv). pose proof (inv_count s Hinv) as Hcount.
  assert (size (SupportedChains s) = S (size (delete k (SupportedChains s)))) as Hsize.
  { rewrite map_size_delete_Some by done. symmetry. apply Nat.succ_pred_pos.
    pose proof (map_size_non_empty_iff (SupportedChains s)) as Hne.
    assert (SupportedChains s <> ∅) as Hn by (intros He; rewrite He in Hc; done).
    apply Hne in Hn. lia. }
  constructor; cbn [SupportedChains SupportedChainsCount ChainIdAndNameToUniqKey ChainKeyValue].
  - unfold saturating_sub. lia.
  - unfold saturating_sub. lia.
  - intros id name k'. rewrite !lookup_delete. case_decide as Hk; simplify_eq.
    + split; [done|]. intros (c' & Hc' & Hid & Hname). case_decide; [done|].
      assert (ChainIdAndNameToUniqKey s !! (chain_id c, chain_name c) = Some k) as Hk1
        by (apply (inv_index s Hinv); eauto).
      assert (ChainIdAndNameToUniqKey s !! (chain_id c, chain_name c) = Some k') as Hk2
        by (apply (inv_index s Hinv); eauto).
      congruence.
    + rewrite (inv_index s Hinv). case_decide as Hkk; [subst k'|done].
      split; [|by intros (? & ? & _)].
      intros (c' & Hc' & <- & <-). simplify_eq.
  - intros k'. rewrite lookup_delete. case_decide; [by intros []|]. apply (inv_fresh s Hinv).
  - apply (inv_next s Hinv).
Qed.

Lemma set_maturity_strategy_inv o k st :
  keeps sc_inv (set_maturity_strategy cfg o k st : M (ScState L) _ _).
Proof.
  intros s u s' Hrun Hinv. unfold set_maturity_strategy, sc_deposit_event in Hrun. call_inv.
  match goal with H : SupportedChains s !! k = Some ?x |- _ => rename x into c, H into Hc end.
  constructor; cbn.
  - rewrite map_size_insert_Some by eauto. apply (inv_count s Hinv).
  - apply (inv_bound s Hinv).
  - intros id name k'. rewrite (inv_index s Hinv), lookup_insert.
    case_decide as Hk; [subst k'|done]. rewrite Hc. split; intros (? & [= <-] & <- & <-); eauto.
  - intros k'. rewrite lookup_insert. case_decide; [subst k'|]; intros; apply (inv_fresh s Hinv); eauto.
  - apply (inv_next s Hinv).
Qed.

Lemma set_chain_name_inv o k name :
  keeps sc_inv (set_chain_name cfg o k name : M (ScState L) _ _).
Proof.
  intros s u s' Hrun Hinv. unfold set_chain_name, sc_deposit_event in Hrun. call_inv.
  match goal with H : SupportedChains s !! k = Some ?x |- _ => rename x into c, H into Hc end.
  match goal with H : ChainIdAndNameToUniqKey s !! _ = None |- _ => rename H into Hnew end.
  constructor; cbn.
  - rewrite map_size_insert_Some by eauto. apply (inv_count s Hinv).
  - apply (inv_bound s Hinv).
  - intros id nm k'. pose proof (inv_index s Hinv) as Hi.
    assert (ChainIdAndNameToUniqKey s !! (chain_id c, chain_name c) = Some k) as Hk0
      by (apply Hi; eauto).
    rewrite !lookup_insert, lookup_delete. repeat case_decide; simplify_eq; cbn.
    + split; [eauto|done].
    + split; [congruence|]. intros Hc'%Hi. congruence.
    + split; [done|]. intros (? & [= <-] & ? & ?). by cbn in *.
    + split; [done|]. intros Hc'%Hi. congruence.
    + split; [|intros (? & [= <-] & <- & <-); by cbn in *].
      intros (c' & Hc' & <- & <-)%Hi. simplify_eq.
    + apply Hi.
  - intros k'. rewrite lookup_insert. case_decide; [subst k'|]; intros; apply (inv_fresh s Hinv); eauto.
  - apply (inv_next s Hinv).
Qed.

(** Genesis builds a state that satisfies the invariant. *)
Record gen_inv (n : nat) (k : ChainKey) (s : ScState L) : Prop := {
  gen_size : size (SupportedChains s) = n;
  gen_index : forall id name k,
    ChainIdAndNameToUniqKey s !! (id, name) = Some k <->
    exists c, SupportedChains s !! k = Some c /\ chain_id c = id /\ chain_name c = name;
  gen_fresh : forall k', is_Some (SupportedChains s !! k') -> 1 <= k' < k;
  gen_next : 1 <= k <= umax 64;
}.

Lemma genesis_chains_inv chains n k (s : ScState L) k' s' :
  genesis_chains chains k s = Some (k', s') -> gen_inv n k s ->
  gen_inv (n + length chains) k' s'.
Proof.
  revert n k s. induction chains as [|c chains IH]; intros n k s; simpl.
  - intros [= <- <-] Hg. by rewrite Nat.add_0_r.
  - destruct (ChainIdAndNameToUniqKey s !! (chain_id c, chain_name c)) eqn:Hnew; [done|].
    intros (k1 & Hk1 & Hrest)%bind_Some. apply checked_add_Some in Hk1 as [-> Hov].
    intros Hg. rewrite <- Nat.add_succ_comm. eapply IH; [exact Hrest|].
    assert (SupportedChains s !! k = None) as Hk.
    { destruct (SupportedChains s !! k) eqn:Hk; [|done].
      destruct (gen_fresh _ _ _ Hg k); [by eexists|lia]. }
    destruct Hg as [Hs Hi Hf Hn]. constructor; cbn.
    + rewrite map_size_insert_None by done. by rewrite Hs.
    + intros id name j. rewrite !lookup_insert. repeat case_decide; simplify_eq; cbn.
      * split; [eauto|done].
      * split; [congruence|]. intros Hc%Hi. congruence.
      * split; [intros (? & ? & _)%Hi; congruence|].
        intros (? & [= <-] & <- & <-). by cbn in *.
      * apply Hi.
    + intros j. rewrite lookup_insert. case_decide; [lia|]. intros ?%Hf. lia.
    + lia.
Qed.

Lemma sc_genesis_inv chains l s :
  zlen chains <= umax 32 -> sc_genesis_build cfg chains l = Some s -> sc_inv s.
Proof.
  intros Hlen Hb. unfold sc_genesis_build in Hb. pose proof (zlen_nonneg chains).
  rewrite wrap_small in Hb by (unfold umax in Hlen; lia).
  destruct (Z.leb_spec (zlen chains) (MaxSupportedChains cfg)); [|done].
  apply bind_Some in Hb as ([k s0] & Hg & [= <-]).
  apply (genesis_chains_inv chains 0) in Hg as [Hs Hi Hf Hn].
  - constructor; cbn; [by rewrite Hs|done|done|done|done].
  - constructor; cbn; [done| |by intros ? []|rewrite umax_64; lia].
    intros id name j. rewrite !lookup_empty. split; [done|by intros (? & ? & _)].
Qed.

(** ** Histories of the pallet *)

(** One call, by any origin and with any arguments; a failing call is a step
    that changes nothing. *)
Inductive sc_step : ScState L -> ScState L -> Prop :=
| step_register o p st s : sc_step s (register_chain cfg o p st s).2
| step_remove o k b s : sc_step s (remove_chain cfg o k b s).2
| step_set_maturity o k st s : sc_step s (set_maturity_strategy cfg o k st s).2
| step_set_name o k name s : sc_step s (set_chain_name cfg o k name s).2.

Lemma sc_step_inv s s' : sc_step s s' -> sc_inv s -> sc_inv s'.
Proof.
  intros Hstep Hinv.
  destruct Hstep; (apply rolls_back_invariant; [apply rolls_back_transactional| |done]);
    [apply register_chain_inv|apply remove_chain_inv|apply set_maturity_strategy_inv
    |apply set_chain_name_inv].
Qed.

(** From genesis on, whatever calls are made, the chain table stays
    consistent: the counter is the number of chains and within the configured
    maximum, the (chain id, name) index maps each pair to the one chain carrying
    it and to nothing else, and every key in use was handed out by the key
    allocator. *)
Theorem chain_table_invariant chains l s s' :
  zlen chains <= umax 32 -> sc_genesis_build cfg chains l = Some s ->
  rtc sc_step s s' -> sc_inv s'.
Proof.
  intros Hlen Hg Hsteps. pose proof (sc_genesis_inv _ _ _ Hlen Hg) as Hinv. clear Hg.
  induction Hsteps; eauto using sc_step_inv.
Qed.

(** A key below the allocator's next key that is not in use. *)
Definition retired_key (k : ChainKey) (s : ScState L) : Prop :=
  SupportedChains s !! k = None /\ k < ChainKeyValue s.

Lemma sc_step_retired k s s' : sc_step s s' -> retired_key k s -> retired_key k s'.
Proof.
  intros Hstep [Hk Hlt]. unfold retired_key.
  destruct Hstep as [o p st s|o k0 b s|o k0 st s|o k0 nm s].
  - destruct (register_chain cfg o p st s) as [[u|e] s1] eqn:Hrun.
    + apply register_chain_ok in Hrun as (? & ? & ? & _ & _ & _ & -> & _). cbn.
      rewrite lookup_insert_ne by lia. split; [done|lia].
    + apply transactional_err in Hrun as ->. done.
  - destruct (remove_chain cfg o k0 b s) as [[u|e] s1] eqn:Hrun.
    + apply remove_chain_ok in Hrun as (? & _ & ->). cbn.
      rewrite lookup_delete. split; [by case_decide|done].
    + apply transactional_err in Hrun as ->. done.
  - destruct (set_maturity_strategy cfg o k0 st s) as [[u|e] s1] eqn:Hrun.
    + unfold set_maturity_strategy, sc_deposit_event in Hrun. call_inv. cbn.
      rewrite lookup_insert_ne by congruence. done.
    + apply transactional_err in Hrun as ->. done.
  - destruct (set_chain_name cfg o k0 nm s) as [[u|e] s1] eqn:Hrun.
    + unfold set_chain_name, sc_deposit_event in Hrun. call_inv. cbn.
      rewrite lookup_insert_ne by congruence. done.
    + apply transactional_err in Hrun as ->. done.
Qed.

(** A chain key is never used twice. Once a chain has been removed, no
    later call makes its key supported again, so state another pallet still holds
    under that key can never be taken over by a new chain. *)
Theorem removed_key_never_reused o k b s s1 s2 :
  sc_inv s -> (remove_chain cfg o k b s) = (Ok tt, s1) -> rtc sc_step s1 s2 ->
  SupportedChains s2 !! k = None.
Proof.
  intros Hinv Hrun Hsteps.
  assert (retired_key k s1) as Hr.
  { apply remove_chain_ok in Hrun as (c & Hc & ->). split; cbn.
    - apply lookup_delete_eq.
    - destruct (inv_fresh s Hinv k); [by eexists|done]. }
  cut (retired_key k s2); [by intros []|].
  clear Hrun. induction Hsteps; eauto using sc_step_retired.
Qed.

End Invariant.

(** The upgrade hook repairs the counter and does nothing when it is right. *)
Lemma init_supported_chains_count_spec {L} (s : ScState L) :
  Z.of_nat (size (SupportedChains s)) <= umax 32 ->
  SupportedChainsCount (init_supported_chains_count s) =
    Z.of_nat (size (SupportedChains s)) /\
  init_supported_chains_count (init_supported_chains_count s) = init_supported_chains_count s.
Proof.
  intros Hs. unfold init_supported_chains_count.
  rewrite wrap_small by (unfold umax in Hs; lia).
  destruct (Z.eqb_spec (SupportedChainsCount s) (Z.of_nat (size (SupportedChains s)))) as [Heq|Hne].
  - split; [done|]. rewrite wrap_small by (unfold umax in Hs; lia).
    by rewrite (proj2 (Z.eqb_eq _ _) Heq).
  - split; [done|]. cbn. by rewrite wrap_small, Z.eqb_refl by (unfold umax in Hs; lia).
Qed.

(** ** Example: a registry with listeners that accept everything *)

#[local] Instance ex_register : OnRegisterChainProvider unit := fun _ _ => mret tt.
#[local] Instance ex_removed : ChainRemovalListener unit := fun _ _ l => l.

Definition ex_sc_cfg : ScConfig :=
  mkScConfig (str "FixedDelay: 10") 2 (fun o => bool_decide (o = RootOrigin)).
Definition ex_chain (id : Z) (name : string) : SupportedChain :=
  mkSupportedChain id (str name) 0 (str "EvmSafe").
Definition ex_sc_state : ScState unit :=
  default (mkScState ∅ 0 ∅ 1 [] tt) (sc_genesis_build ex_sc_cfg [ex_chain 1 "eth"] tt).
Definition ex_params : RegisterParams :=
  mkRegisterParams 137 (str "polygon") None None None None None None 0.
Definition ex_sc_next : ScState unit :=
  (register_chain ex_sc_cfg RootOrigin ex_params (Some (str "FixedDelay: +7 ")) ex_sc_state).2.

Lemma valid_strategy_iff_parses_witness :
  is_valid_maturity_strategy (str "FixedDelay: +7 ") = true /\ in_range 64 7.
Proof.
  split.
  - apply (proj1 (valid_strategy_iff_parses (str "FixedDelay: +7 "))).
    exists (FixedDelay 7). vm_compute. reflexivity.
  - apply (proj2 (valid_strategy_iff_parses (str "FixedDelay: +7 ")) (FixedDelay 7)).
    vm_compute. reflexivity.
Defined.

Lemma chain_table_invariant_witness :
  sc_inv ex_sc_cfg ex_sc_next /\ SupportedChainsCount ex_sc_next = 2.
Proof.
  split; [|vm_compute; reflexivity].
  apply (chain_table_invariant ex_sc_cfg ltac:(vm_compute; congruence)
    [ex_chain 1 "eth"] tt ex_sc_state); [vm_compute; congruence|reflexivity|].
  eapply rtc_once. apply step_register.
Defined.

Lemma removed_key_never_reused_witness :
  SupportedChains (register_chain ex_sc_cfg RootOrigin ex_params None
    (remove_chain ex_sc_cfg RootOrigin 1 true ex_sc_state).2).2 !! 1 = None.
Proof.
  apply (removed_key_never_reused ex_sc_cfg
    RootOrigin 1 true ex_sc_state (remove_chain ex_sc_cfg RootOrigin 1 true ex_sc_state).2).
  - apply (sc_genesis_inv ex_sc_cfg [ex_chain 1 "eth"] tt); [vm_compute; congruence|reflexivity].
  - vm_compute. reflexivity.
  - eapply rtc_once. apply step_register.
Defined.
