(* ===== verification/Randomness.v ===== *)
(** * The randomness pallet

    [src/pallets/randomness/src/lib.rs]: at the first block of an epoch the
    pallet stores BABE's randomness under the epoch's index, evicting the oldest
    entry of a full store, and tells its listener. The store is specified against
    the sequence of epochs seen: it holds exactly the latest ones. *)

From stdpp Require Import prelude gmap list sorting strings.
From Stdlib Require Import ZArith Lia.
From S2P Require Import Prelude Primitives Frame.

(** Thirty-two bytes, as a number. *)
Abbreviation Randomness := Z (only parsing).

Inductive RnEvent := StoreRandomnessForEpoch (epoch_index : Z) (randomness : Randomness).

(** The pallet's storage next to the state [L] of its listener. *)
Record RnState (L : Type) := mkRnState {
  LastSeenEpochIndex : Z;
  RandomnessByEpochIndex : gmap Z Randomness;
  rn_events : list RnEvent;
  rn_listener : L;
}.
Arguments mkRnState {L}.
Arguments LastSeenEpochIndex {L}.
Arguments RandomnessByEpochIndex {L}.
Arguments rn_events {L}.
Arguments rn_listener {L}.

#[export] Instance eta_RnState L : Settable (RnState L) := fun r =>
  mkRnState (LastSeenEpochIndex r) (RandomnessByEpochIndex r) (rn_events r) (rn_listener r).

(** [OnRandomnessUpdate] *)
Class OnRandomnessUpdate (L : Type) := notify_epoch : Z -> Randomness -> L -> L.

(** [BoundedBTreeMap::try_insert]; a refused insertion leaves the map. *)
Definition bounded_insert {V} (bound k : Z) (v : V) (m : gmap Z V) : gmap Z V :=
  if (Z.of_nat (size m) <? bound) || bool_decide (is_Some (m !! k)) then <[k := v]> m else m.

(** [keys().next()]: the lowest key. *)
Definition lowest_key {V} (m : gmap Z V) : option Z := head (btree_set (map_keys m)).

Section Pallet.
Context {L : Type} `{!OnRandomnessUpdate L}.
Variable MaxRandomnessEntries : Z.

Definition store_epoch_randomness (epoch_index : Z) (randomness : Randomness) (s : RnState L)
    : RnState L :=
  let s := s <| LastSeenEpochIndex := epoch_index |> in
  let m := RandomnessByEpochIndex s in
  let m := if MaxRandomnessEntries <=? Z.of_nat (size m)
    then match lowest_key m with Some oldest => delete oldest m | None => m end
    else m in
  s <| RandomnessByEpochIndex := bounded_insert MaxRandomnessEntries epoch_index randomness m |>
    <| rn_events ::= fun es => es ++ [StoreRandomnessForEpoch epoch_index randomness] |>.

(** [on_initialize], with the epoch and randomness that BABE holds. *)
Definition rn_on_initialize (epoch_index : Z) (randomness : Randomness) (s : RnState L)
    : RnState L :=
  if LastSeenEpochIndex s <? epoch_index then
    store_epoch_randomness epoch_index randomness s
      <| rn_listener ::= notify_epoch epoch_index randomness |>
  else s.

Definition randomness_by_epoch_id (s : RnState L) (epoch_id : Z) : Randomness :=
  default 0 (RandomnessByEpochIndex s !! epoch_id).

(** ** The store against the epochs seen *)

(** The blocks at which a new epoch is noticed, given BABE's values at each block. *)
Fixpoint new_epochs (last_seen : Z) (blocks : list (Z * Randomness)) : list (Z * Randomness) :=
  match blocks with
  | [] => []
  | (e, r) :: rest =>
      if last_seen <? e then (e, r) :: new_epochs e rest else new_epochs last_seen rest
  end.

(** The latest entries of a list. *)
Definition latest {A} (l : list A) : list A := drop (length l - Z.to_nat MaxRandomnessEntries) l.

(** The epochs recorded, oldest first, and the store that goes with them. *)
Record rn_inv (seen : list (Z * Randomness)) (s : RnState L) : Prop := {
  rn_sorted : StronglySorted Z.lt (map fst seen);
  rn_seen : forall e, e ∈ map fst seen -> e <= LastSeenEpochIndex s;
  rn_store : RandomnessByEpochIndex s = list_to_map (latest seen);
}.

Lemma sorted_drop n (l : list (Z * Randomness)) :
  StronglySorted Z.lt (map fst l) -> StronglySorted Z.lt (map fst (drop n l)).
Proof.
  revert n. induction l as [|x l IH]; intros [|n] Hs; try done. cbn in *.
  apply IH. by inversion Hs.
Qed.

Lemma sorted_nodup l : StronglySorted Z.lt l -> NoDup l.
Proof.
  induction 1 as [|x l Hs IH Hall]; constructor; [|done].
  intros Hin. rewrite Forall_forall in Hall. specialize (Hall x Hin). lia.
Qed.

Lemma size_list_to_map (l : list (Z * Randomness)) :
  StronglySorted Z.lt (map fst l) -> size (list_to_map l : gmap Z Randomness) = length l.
Proof.
  intros Hs. rewrite <- length_map_to_list. apply Permutation_length, map_to_list_to_map.
  by apply sorted_nodup.
Qed.

Lemma lowest_key_sorted e r (l : list (Z * Randomness)) :
  StronglySorted Z.lt (map fst ((e, r) :: l)) ->
  lowest_key (list_to_map ((e, r) :: l) : gmap Z Randomness) = Some e.
Proof.
  intros Hs. unfold lowest_key.
  set (m := list_to_map ((e, r) :: l) : gmap Z Randomness).
  assert (btree_set (map_keys m) = map fst ((e, r) :: l)) as ->; [|done].
  apply (StronglySorted_unique Z.le).
  - apply (StronglySorted_merge_sort Z.le).
  - clear m. induction Hs as [|x k Hs IH Hall]; constructor; [done|].
    eapply Forall_impl; [exact Hall|]. cbn. lia.
  - rewrite btree_set_perm by apply NoDup_map_keys. unfold map_keys, m.
    rewrite map_to_list_to_map by (by apply sorted_nodup). done.
Qed.

Lemma latest_snoc (l : list (Z * Randomness)) x :
  latest (l ++ [x]) = if decide (1 <= MaxRandomnessEntries) then
    (if decide (MaxRandomnessEntries <= zlen l) then tail (latest l) else latest l) ++ [x] else [].
Proof.
  unfold latest, zlen. rewrite length_app. cbn [length]. destruct (decide (1 <= _)) as [Hm|Hm].
  - destruct (decide (_ <= _)) as [Hl|Hl].
    + replace (length l + 1 - Z.to_nat MaxRandomnessEntries)%nat
        with (S (length l - Z.to_nat MaxRandomnessEntries)) by lia.
      rewrite drop_app_le by lia. by rewrite <- Nat.add_1_r, <- drop_drop.
    + rewrite drop_app_le by lia. do 2 f_equal. lia.
  - apply drop_ge. rewrite length_app. cbn. lia.
Qed.

(** Making room and inserting the newest epoch. *)
Lemma evict_insert seen e r :
  StronglySorted Z.lt (map fst seen) -> (forall k, k ∈ map fst seen -> k < e) ->
  let m := list_to_map (latest seen) : gmap Z Randomness in
  bounded_insert MaxRandomnessEntries e r
    (if MaxRandomnessEntries <=? Z.of_nat (size m)
     then match lowest_key m with Some oldest => delete oldest m | None => m end else m) =
  list_to_map (latest (seen ++ [(e, r)])).
Proof.
  intros Hs Hlt m.
  assert (StronglySorted Z.lt (map fst (latest seen))) as Hsl by (by apply sorted_drop).
  assert (forall k, k ∈ map fst (latest seen) -> k < e) as Hll.
  { intros k Hk. apply Hlt. unfold latest in Hk. rewrite <- skipn_map in Hk.
    eapply elem_of_submseteq; [exact Hk|]. apply sublist_submseteq, sublist_drop. }
  assert (forall l : list (Z * Randomness), StronglySorted Z.lt (map fst l) ->
    (forall k, k ∈ map fst l -> k < e) -> zlen l < MaxRandomnessEntries ->
    bounded_insert MaxRandomnessEntries e r (list_to_map l) = list_to_map (l ++ [(e, r)])) as Hput.
  { intros l Hl Hke Hlen. unfold bounded_insert. rewrite size_list_to_map by done.
    unfold zlen in Hlen. rewrite (proj2 (Z.ltb_lt _ _)) by done. cbn [orb].
    rewrite list_to_map_snoc; [done|]. intros Hin. specialize (Hke e Hin). lia. }
  assert (length (latest seen) = Nat.min (length seen) (Z.to_nat MaxRandomnessEntries)) as Hlen
    by (unfold latest; rewrite length_drop; lia).
  rewrite latest_snoc. unfold m. rewrite size_list_to_map by done.
  destruct (decide (1 <= MaxRandomnessEntries)) as [Hm|Hm].
  - destruct (decide (MaxRandomnessEntries <= zlen seen)) as [Hfull|Hroom]; unfold zlen in *.
    + rewrite (proj2 (Z.leb_le _ _)) by lia.
      destruct (latest seen) as [|[e0 r0] rest] eqn:Hkept; [cbn in Hlen; lia|].
      rewrite lowest_key_sorted by done. cbn [list_to_map foldr tail].
      rewrite delete_insert_id.
      * apply Hput; [by inversion Hsl| |cbn in Hlen; lia].
        intros k Hk. apply Hll. by right.
      * apply not_elem_of_list_to_map_1. apply sorted_nodup in Hsl. by inversion Hsl.
    + rewrite (proj2 (Z.leb_gt _ _)) by lia. apply Hput; [done|done|lia].
  - destruct (latest seen) as [|x l] eqn:Hk; [|cbn in Hlen; lia]. cbn.
    unfold bounded_insert. rewrite (proj2 (Z.leb_le _ _)) by lia. cbn.
    rewrite (proj2 (Z.ltb_ge _ _)) by lia. done.
Qed.

Lemma store_inv seen s e r :
  rn_inv seen s -> LastSeenEpochIndex s < e ->
  rn_inv (seen ++ [(e, r)]) (store_epoch_randomness e r s).
Proof.
  intros [Hs Hle Hst] He.
  assert (forall k, k ∈ map fst seen -> k < e) as Hlt by (intros k Hk; specialize (Hle k Hk); lia).
  constructor; cbn [store_epoch_randomness LastSeenEpochIndex].
  - rewrite map_app. apply StronglySorted_app. split_and!; [|done|repeat constructor].
    intros a b Ha Hb%list_elem_of_singleton. subst b. by apply Hlt.
  - intros k. rewrite map_app. intros [Hk|Hk%list_elem_of_singleton]%elem_of_app; cbn in *.
    + specialize (Hlt k Hk). lia.
    + lia.
  - cbn. rewrite Hst. by apply evict_insert.
Qed.

(** A sequence of blocks, with BABE's epoch and randomness at each. *)
Definition run_blocks (blocks : list (Z * Randomness)) (s : RnState L) : RnState L :=
  foldl (fun s '(e, r) => rn_on_initialize e r s) s blocks.

Lemma run_blocks_inv blocks seen s :
  rn_inv seen s ->
  let new := new_epochs (LastSeenEpochIndex s) blocks in
  rn_inv (seen ++ new) (run_blocks blocks s) /\
  rn_listener (run_blocks blocks s) = foldl (fun l '(e, r) => notify_epoch e r l) (rn_listener s) new /\
  rn_events (run_blocks blocks s) =
    rn_events s ++ map (fun '(e, r) => StoreRandomnessForEpoch e r) new.
Proof.
  revert seen s. induction blocks as [|[e r] blocks IH]; intros seen s Hinv.
  { cbn. by rewrite !app_nil_r. }
  cbn [new_epochs run_blocks foldl]. unfold rn_on_initialize at 2 4 6.
  destruct (Z.ltb_spec (LastSeenEpochIndex s) e) as [Hlt|_]; [|by apply IH].
  set (s1 := store_epoch_randomness e r s <| rn_listener ::= notify_epoch e r |>).
  destruct (IH (seen ++ [(e, r)]) s1) as (Hi & Hl & He).
  { destruct (store_inv _ _ e r Hinv Hlt) as [I1 I2 I3]. by constructor. }
  change (LastSeenEpochIndex s1) with e in *. rewrite <- app_assoc in Hi. split_and!; [done|done|].
  fold (run_blocks blocks s1). rewrite He. cbn. by rewrite <- app_assoc.
Qed.

(** Whatever epochs BABE goes through, the store holds the randomness of the
    latest [MaxRandomnessEntries] epochs noticed and of no other, and the listener
    has been told of every noticed epoch once, in order. *)
Theorem store_holds_latest_epochs blocks (l : L) :
  let s := run_blocks blocks (mkRnState 0 ∅ [] l) in
  let seen := new_epochs 0 blocks in
  RandomnessByEpochIndex s = list_to_map (latest seen) /\
  (forall e r, (e, r) ∈ latest seen -> randomness_by_epoch_id s e = r) /\
  rn_listener s = foldl (fun l '(e, r) => notify_epoch e r l) l seen /\
  rn_events s = map (fun '(e, r) => StoreRandomnessForEpoch e r) seen.
Proof.
  destruct (run_blocks_inv blocks [] (mkRnState 0 ∅ [] l)) as ([Hs _ Hst] & Hl & He).
  { constructor; [constructor|by intros ? ?%not_elem_of_nil|].
    unfold latest. by rewrite drop_nil. }
  split_and!; [done| |done|done]. intros e r Hin. unfold randomness_by_epoch_id.
  rewrite Hst, (elem_of_list_to_map_1 _ e r); [done| |done].
  apply sorted_nodup, sorted_drop, Hs.
Qed.
End Pallet.
