(* ===== verification/Types.v ===== *)
(** * The attestation pallet: configuration, storage, events and errors

    [src/pallets/attestation/src/lib.rs]: the constants of [Config] with the
    conditions [integrity_test] asserts on them, every storage item as a field of
    one record under its own name, the events and the errors. What the pallet
    reads of other pallets and of the node is the [Env] record; the balances
    pallet and the BLS library, which are not part of this repository, are the
    classes [Currency] and [Bls]. *)

From stdpp Require Import prelude gmap list sorting strings.
From Stdlib Require Import ZArith Lia.
From S2P Require Import Prelude Primitives Frame.

(** ** Configuration *)

Definition CHECKPOINT_BUCKET_SIZE : Z := 1000.

Class Config := mkConfig {
  DefaultAttestationsPerCheckpoint : Z;
  MaxAttestationCheckpointInterval : Z;
  DefaultAttestationInterval : Z;
  MaxChainAttestationInterval : Z;
  DefaultTargetSampleSize : Z;
  DefaultMaxCatchup : Z;
  MaxCatchupCeiling : Z;
  MaxAttestationNodes : Z;
  DefaultMinBondRequirement : Z;
  MaxUnlockingChunks : Z;
  BondingDuration : Z;
  DefaultAttestationRetentionDuration : Z;
  MaxAttestationsPerBlock : Z;
  MaxCheckpointingQueueLen : Z;
  MaxCheckpointsImportedPerCall : Z;
  DefaultAttestationChainGenesisBlockNumber : Z;
  OperatorsOrigin : Origin -> bool;
}.

(** The assertions of [integrity_test] that are not about weights. *)
Definition integrity_test `{Config} : bool :=
  (0 <? MaxAttestationsPerBlock) &&
  (DefaultAttestationInterval <=? DefaultMaxCatchup) &&
  (saturating_add 32 (saturating_mul 32 MaxAttestationCheckpointInterval 2) 1
     <? MaxCheckpointingQueueLen) &&
  (DefaultMaxCatchup <=? MaxCatchupCeiling).

(** The configuration of [src/runtime/src/lib.rs]; [operators] is the
    membership behind [EnsureRootOrOperators]. *)
Definition runtime_config (operators : AccountId -> bool) : Config := {|
  DefaultAttestationsPerCheckpoint := 10;
  MaxAttestationCheckpointInterval := 1000;
  DefaultAttestationInterval := 10;
  MaxChainAttestationInterval := 10000;
  DefaultTargetSampleSize := 120;
  DefaultMaxCatchup := 500;
  MaxCatchupCeiling := 2000;
  MaxAttestationNodes := 100;
  DefaultMinBondRequirement := 100000000000000000000;
  MaxUnlockingChunks := 5;
  BondingDuration := 2;
  DefaultAttestationRetentionDuration := 10;
  MaxAttestationsPerBlock := 10;
  MaxCheckpointingQueueLen := 2048;
  MaxCheckpointsImportedPerCall := 100;
  DefaultAttestationChainGenesisBlockNumber := 0;
  OperatorsOrigin := fun o =>
    match o with RootOrigin => true | SignedOrigin who => operators who | NoneOrigin => false end;
|}.

(** What the theorems ask of a configuration: the integrity test passes and the
    defaults are settings the setters would accept. *)
Class ConfigOk `{Config} : Prop := {
  cfg_integrity : integrity_test = true;
  cfg_interval : 0 < DefaultAttestationInterval <= MaxChainAttestationInterval;
  cfg_checkpoint : 0 < DefaultAttestationsPerCheckpoint <= MaxAttestationCheckpointInterval;
  cfg_catchup : 0 < DefaultMaxCatchup;
  cfg_sample : 0 < DefaultTargetSampleSize;
  cfg_nodes : 0 < MaxAttestationNodes <= 2 ^ 31 - 1;
  cfg_width : 2 * (MaxChainAttestationInterval * MaxAttestationCheckpointInterval) + 1 <= umax 64;
  cfg_min_bond : in_range 128 DefaultMinBondRequirement;
  cfg_queue : 0 <= MaxCheckpointingQueueLen <= umax 32;
  cfg_retention : 1 <= DefaultAttestationRetentionDuration <= umax 32;
  cfg_ceiling : MaxCatchupCeiling <= umax 32;
}.

#[export] Instance runtime_config_ok operators : @ConfigOk (runtime_config operators).
Proof. constructor; decide_now. Qed.

Lemma per_block_pos `{ConfigOk} : 0 < MaxAttestationsPerBlock.
Proof.
  pose proof cfg_integrity as Hi. unfold integrity_test in Hi. rewrite !andb_true_iff, !Z.ltb_lt in Hi. tauto.
Qed.

(** ** What the pallet reads of its surroundings *)

Record Env := mkEnv {
  env_is_chain_supported : ChainKey -> bool;
  env_supported_chains : list ChainKey;
  env_block_number : Z;
  env_current_era : Z;
  env_current_epoch_index : Z;
}.

(** Balances and consumer references, on an abstract state [C]. A lock is its
    identifier and amount; a failing call returns its error's text. *)
Class Currency (C : Type) := {
  free_balance : C -> AccountId -> Z;
  minimum_balance : Z;
  locks : C -> AccountId -> list (Z * Z);
  transfer_keep_alive : AccountId -> AccountId -> Z -> C -> Result string C;
  set_lock : Z -> AccountId -> Z -> C -> C;
  remove_lock : Z -> AccountId -> C -> C;
  inc_consumers : AccountId -> C -> Result string C;
  dec_consumers : AccountId -> C -> C;
}.

(** The [bls_signatures] crate; [bls_verify] is its [verify] on the hash of one
    message under one key. *)
Class Bls := {
  PublicKey : Type;
  Signature : Type;
  pk_from_bytes : list Z -> option PublicKey;
  pk_as_bytes : PublicKey -> list Z;
  sig_from_bytes : list Z -> option Signature;
  bls_verify : Signature -> list Z -> PublicKey -> bool;
  aggregate_public_keys : list PublicKey -> option PublicKey;
  verify_agg_message : Signature -> list Z -> PublicKey -> bool;
}.

(** ** Stored data *)

Inductive AttestorElectionPolicy := OpenToAny | AuthorizedOnly | DeniedToAll.

#[export] Instance AttestorElectionPolicy_eq_dec : EqDecision AttestorElectionPolicy.
Proof. solve_decision. Defined.

Record RetiredAttestorBlsKeyEntry := mkRetired {
  re_bls_public_key : BlsPublicKey;
  re_purge_at_era : Z;
  re_stash : AccountId;
}.

Record UnlockChunk := mkUnlockChunk { uc_value : Z; uc_era : Z }.

Record AttestorLedger := mkLedger {
  al_stash : AccountId;
  al_total_staked : Z;
  al_active : Z;
  al_unlocking : list UnlockChunk;
}.

(** A removed chain's cleanup; the cursor is the last attestor handled. *)
Inductive RemovedChainCleanupPhase :=
| ChillAttestors (cursor : option AccountId)
| RetiredKeys
| BlsKeyOwners
| InvulnerablesPhase.

Record CheckpointPruningState := mkPruningState {
  ps_stop_height : Z;
  ps_next_pivot : Z;
}.

(** ** Events and errors *)

Inductive Event :=
| AttestorRegistered (ck : ChainKey) (a : AccountId)
| AttestorUnregistered (ck : ChainKey) (a : AccountId)
| InvulnerableRegistered (ck : ChainKey) (a : AccountId)
| InvulnerableUnregistered (ck : ChainKey) (a : AccountId)
| BlockAttested (ck : ChainKey) (h : Height) (d : Digest)
| CheckpointReached (ck : ChainKey) (c : AttestationCheckpoint)
| PendingTargetSampleSizeSet (ck : ChainKey) (n : Z)
| TargetSampleSizeChanged (ck : ChainKey) (n : Z)
| Bonded (stash : AccountId) (amount : Z)
| Unbonded (stash : AccountId) (amount : Z)
| Withdrawn (stash : AccountId) (amount : Z)
| AttestorActivated (ck : ChainKey) (a : AccountId) (k : BlsPublicKey)
| AttestorChilled (ck : ChainKey) (a : AccountId)
| AttestorsElected (epoch : Z) (ck : ChainKey) (attestors : list AccountId)
| MinBondRequirementUpdated (ck : ChainKey) (amount : Z)
| AttestationIntervalChanged (ck : ChainKey) (n : Z)
| PendingAttestationIntervalSet (ck : ChainKey) (n : Z)
| CheckpointsCleared (ck : ChainKey)
| CheckpointIntervalChanged (ck : ChainKey) (n : Z)
| MaxCatchupChanged (ck : ChainKey) (n : Z)
| PendingMaxCatchupSet (ck : ChainKey) (n : Z)
| ClearedStorageForRemovedChain (ck : ChainKey)
| MaxAttestorsChanged (ck : ChainKey) (n : Z)
| AttestationChainGenesisBlockNumberSet (ck : ChainKey) (h : Height)
| ChangedElectionPolicy (ck : ChainKey) (p : AttestorElectionPolicy)
| AuthorizedAttestorAdded (ck : ChainKey) (a : AccountId)
| AuthorizedAttestorRemoved (ck : ChainKey) (a : AccountId)
| ForcedElection (ck : ChainKey) (epoch : Z)
| ForcedUpdatesApplied
| RevertedAttestationChainTo (ck : ChainKey) (h : Height) (d : Digest)
| ForwardCheckpointPatchApplied (ck : ChainKey) (wiped_suffix : bool) (tip : Height).

Inductive Error :=
| AlreadyAttestor | AttestorListFull | AddressNotAttestor | InvulnerableListFull
| MaxInvulnerablesCannotBeChanged | AddressIsNotInvulnerable | InvalidAttestation
| NoPreviousDigest | AttestationExists | ChainNotSupported | InvalidBlsPublicKey
| InvalidBlsSignature | InvalidProofOfPossession | CheckpointCreationError
| LastCheckpointEmpty | CheckpointWidthIsZero | CheckpointingQueueDrained
| AttestationNotFound | CheckpointTargetNotFound | InvalidAttestorAccount
| InsufficientBalance | NotStash | NoMoreChunks | NotYourAttestor | AlreadyBonded
| AttestorNotIdle | NoSupportedChains | InvalidAttestationInterval
| InvalidAttestationsPerCheckpoint | InvalidMaxCatchup | InvalidTargetSampleSize
| InvalidMaxAttestors | TooManyAttestors | AttestationFoundWhileImporting
| InvalidAttestationBlockNumber | InvalidAttestorFound | AttestorNotActive
| AttestorWithInvalidPublicKey | MajorityNotReached | BlsKeyAlreadyRegistered
| InsufficientUniqueSigners | RetiredAttestorPendingFull | AttestorAlreadyAuthorized
| NotPreAuthorizedToRegister | ControllerRetiredByAnotherStash | AttestorNotAuthorized
| NoFinalizedAttestation | AttestationsAlreadyExist | EmptyContinuityProof
| InvalidAttestationContinuityProof | InvalidAttestationContinuityProofTail
| InvalidAttestationContinuityProofHead | InvalidAttestationContinuityProofBlock
| InvalidAttestationContinuityProofBlockGenesis | InvalidAttestationPrevDigest
| TooManyAttestations | NoSuchCheckpoint | LastCheckpointNotSet
| TriedToRevertDuringOngoingReversion | AttestorAlreadyIdle
| AttestorChillAlreadyScheduled | CheckpointMaintenanceInProgress | EmptyCheckpointPatch
| CheckpointSuffixWipeTooLarge | TooManyAttestationsForForwardPatchClear
| OversizedContinuityProof | AttestationCleanupInProgress | TooManyAttestationsInBlock
| InvalidMaxInvulnerables.

(** ** Storage *)

Record State (C : Type) := mkState {
  Attestors : gmap Z (gmap Z Attestor);
  AttestorsCount : gmap Z Z;
  ActiveAttestors : gmap Z (list AccountId);
  RetiredAttestorBlsKeys : gmap Z (gmap Z RetiredAttestorBlsKeyEntry);
  RetiredAttestorKeysByStash : gmap Z (list (ChainKey * AccountId));
  BlsKeyOwner : gmap Z (gmap Z AccountId);
  Invulnerables : gmap Z (gmap Z bool);
  MaxAttestors : gmap Z Z;
  MaxInvulnerables : gmap Z Z;
  Attestations : gmap Z (gmap Z SignedAttestation);
  Checkpoints : gmap Z (gmap Z Digest);
  CheckpointBuckets : gmap Z (gset (Z * Z));
  LastCheckpoint : gmap Z AttestationCheckpoint;
  CheckpointingQueues : gmap Z (list Digest);
  AttestationsInBlock : gmap Z (Z * Z);
  LastDigest : gmap Z (Height * Digest);
  PendingTargetSampleSize : gmap Z Z;
  TargetSampleSize : gmap Z Z;
  ChainAttestationInterval : gmap Z Z;
  PendingAttestationInterval : gmap Z Z;
  AttestationCheckpointInterval : gmap Z Z;
  MaxCatchup : gmap Z Z;
  PendingMaxCatchup : gmap Z Z;
  MinBondRequirement : gmap Z Z;
  AttestorCollateral : gmap Z (gmap Z Z);
  Ledger : gmap Z AttestorLedger;
  CheckpointClearingCursors : gmap Z Z;
  BucketClearingCursors : gmap Z Z;
  AttestationClearingCursors : gmap Z Z;
  RemovedChainCleanup : gmap Z RemovedChainCleanupPhase;
  CheckpointPruningStates : gmap Z CheckpointPruningState;
  AttestationRetentionDuration : gmap Z Z;
  AttestationRemovalQueues : gmap Z (list Digest);
  AttestationChainGenesisBlockNumber : gmap Z Z;
  ChainElectionPolicy : gmap Z AttestorElectionPolicy;
  AuthorizedAttestors : gmap Z (gmap Z unit);
  events : list Event;
  currency : C;
}.
Arguments mkState {C}.
Arguments Attestors {C}.
Arguments AttestorsCount {C}.
Arguments ActiveAttestors {C}.
Arguments RetiredAttestorBlsKeys {C}.
Arguments RetiredAttestorKeysByStash {C}.
Arguments BlsKeyOwner {C}.
Arguments Invulnerables {C}.
Arguments MaxAttestors {C}.
Arguments MaxInvulnerables {C}.
Arguments Attestations {C}.
Arguments Checkpoints {C}.
Arguments CheckpointBuckets {C}.
Arguments LastCheckpoint {C}.
Arguments CheckpointingQueues {C}.
Arguments AttestationsInBlock {C}.
Arguments LastDigest {C}.
Arguments PendingTargetSampleSize {C}.
Arguments TargetSampleSize {C}.
Arguments ChainAttestationInterval {C}.
Arguments PendingAttestationInterval {C}.
Arguments AttestationCheckpointInterval {C}.
Arguments MaxCatchup {C}.
Arguments PendingMaxCatchup {C}.
Arguments MinBondRequirement {C}.
Arguments AttestorCollateral {C}.
Arguments Ledger {C}.
Arguments CheckpointClearingCursors {C}.
Arguments BucketClearingCursors {C}.
Arguments AttestationClearingCursors {C}.
Arguments RemovedChainCleanup {C}.
Arguments CheckpointPruningStates {C}.
Arguments AttestationRetentionDuration {C}.
Arguments AttestationRemovalQueues {C}.
Arguments AttestationChainGenesisBlockNumber {C}.
Arguments ChainElectionPolicy {C}.
Arguments AuthorizedAttestors {C}.
Arguments events {C}.
Arguments currency {C}.

#[export] Instance eta_State C : Settable (State C) := fun r =>
  mkState (Attestors r) (AttestorsCount r) (ActiveAttestors r) 
    (RetiredAttestorBlsKeys r) (RetiredAttestorKeysByStash r) (BlsKeyOwner r) 
    (Invulnerables r) (MaxAttestors r) (MaxInvulnerables r) (Attestations r) 
    (Checkpoints r) (CheckpointBuckets r) (LastCheckpoint r) 
    (CheckpointingQueues r) (AttestationsInBlock r) (LastDigest r) 
    (PendingTargetSampleSize r) (TargetSampleSize r) 
    (ChainAttestationInterval r) (PendingAttestationInterval r) 
    (AttestationCheckpointInterval r) (MaxCatchup r) (PendingMaxCatchup r) 
    (MinBondRequirement r) (AttestorCollateral r) (Ledger r) 
    (CheckpointClearingCursors r) (BucketClearingCursors r) 
    (AttestationClearingCursors r) (RemovedChainCleanup r) 
    (CheckpointPruningStates r) (AttestationRetentionDuration r) 
    (AttestationRemovalQueues r) (AttestationChainGenesisBlockNumber r) 
    (ChainElectionPolicy r) (AuthorizedAttestors r) (events r) (currency r).

#[export] Instance set_Attestors C : Setter (@Attestors C) := ltac:(solve_setter (State C) (@Attestors C)).
#[export] Instance set_AttestorsCount C : Setter (@AttestorsCount C) := ltac:(solve_setter (State C) (@AttestorsCount C)).
#[export] Instance set_ActiveAttestors C : Setter (@ActiveAttestors C) := ltac:(solve_setter (State C) (@ActiveAttestors C)).
#[export] Instance set_RetiredAttestorBlsKeys C : Setter (@RetiredAttestorBlsKeys C) := ltac:(solve_setter (State C) (@RetiredAttestorBlsKeys C)).
#[export] Instance set_RetiredAttestorKeysByStash C : Setter (@RetiredAttestorKeysByStash C) := ltac:(solve_setter (State C) (@RetiredAttestorKeysByStash C)).
#[export] Instance set_BlsKeyOwner C : Setter (@BlsKeyOwner C) := ltac:(solve_setter (State C) (@BlsKeyOwner C)).
#[export] Instance set_Invulnerables C : Setter (@Invulnerables C) := ltac:(solve_setter (State C) (@Invulnerables C)).
#[export] Instance set_MaxAttestors C : Setter (@MaxAttestors C) := ltac:(solve_setter (State C) (@MaxAttestors C)).
#[export] Instance set_MaxInvulnerables C : Setter (@MaxInvulnerables C) := ltac:(solve_setter (State C) (@MaxInvulnerables C)).
#[export] Instance set_Attestations C : Setter (@Attestations C) := ltac:(solve_setter (State C) (@Attestations C)).
#[export] Instance set_Checkpoints C : Setter (@Checkpoints C) := ltac:(solve_setter (State C) (@Checkpoints C)).
#[export] Instance set_CheckpointBuckets C : Setter (@CheckpointBuckets C) := ltac:(solve_setter (State C) (@CheckpointBuckets C)).
#[export] Instance set_LastCheckpoint C : Setter (@LastCheckpoint C) := ltac:(solve_setter (State C) (@LastCheckpoint C)).
#[export] Instance set_CheckpointingQueues C : Setter (@CheckpointingQueues C) := ltac:(solve_setter (State C) (@CheckpointingQueues C)).
#[export] Instance set_AttestationsInBlock C : Setter (@AttestationsInBlock C) := ltac:(solve_setter (State C) (@AttestationsInBlock C)).
#[export] Instance set_LastDigest C : Setter (@LastDigest C) := ltac:(solve_setter (State C) (@LastDigest C)).
#[export] Instance set_PendingTargetSampleSize C : Setter (@PendingTargetSampleSize C) := ltac:(solve_setter (State C) (@PendingTargetSampleSize C)).
#[export] Instance set_TargetSampleSize C : Setter (@TargetSampleSize C) := ltac:(solve_setter (State C) (@TargetSampleSize C)).
#[export] Instance set_ChainAttestationInterval C : Setter (@ChainAttestationInterval C) := ltac:(solve_setter (State C) (@ChainAttestationInterval C)).
#[export] Instance set_PendingAttestationInterval C : Setter (@PendingAttestationInterval C) := ltac:(solve_setter (State C) (@PendingAttestationInterval C)).
#[export] Instance set_AttestationCheckpointInterval C : Setter (@AttestationCheckpointInterval C) := ltac:(solve_setter (State C) (@AttestationCheckpointInterval C)).
#[export] Instance set_MaxCatchup C : Setter (@MaxCatchup C) := ltac:(solve_setter (State C) (@MaxCatchup C)).
#[export] Instance set_PendingMaxCatchup C : Setter (@PendingMaxCatchup C) := ltac:(solve_setter (State C) (@PendingMaxCatchup C)).
#[export] Instance set_MinBondRequirement C : Setter (@MinBondRequirement C) := ltac:(solve_setter (State C) (@MinBondRequirement C)).
#[export] Instance set_AttestorCollateral C : Setter (@AttestorCollateral C) := ltac:(solve_setter (State C) (@AttestorCollateral C)).
#[export] Instance set_Ledger C : Setter (@Ledger C) := ltac:(solve_setter (State C) (@Ledger C)).
#[export] Instance set_CheckpointClearingCursors C : Setter (@CheckpointClearingCursors C) := ltac:(solve_setter (State C) (@CheckpointClearingCursors C)).
#[export] Instance set_BucketClearingCursors C : Setter (@BucketClearingCursors C) := ltac:(solve_setter (State C) (@BucketClearingCursors C)).
#[export] Instance set_AttestationClearingCursors C : Setter (@AttestationClearingCursors C) := ltac:(solve_setter (State C) (@AttestationClearingCursors C)).
#[export] Instance set_RemovedChainCleanup C : Setter (@RemovedChainCleanup C) := ltac:(solve_setter (State C) (@RemovedChainCleanup C)).
#[export] Instance set_CheckpointPruningStates C : Setter (@CheckpointPruningStates C) := ltac:(solve_setter (State C) (@CheckpointPruningStates C)).
#[export] Instance set_AttestationRetentionDuration C : Setter (@AttestationRetentionDuration C) := ltac:(solve_setter (State C) (@AttestationRetentionDuration C)).
#[export] Instance set_AttestationRemovalQueues C : Setter (@AttestationRemovalQueues C) := ltac:(solve_setter (State C) (@AttestationRemovalQueues C)).
#[export] Instance set_AttestationChainGenesisBlockNumber C : Setter (@AttestationChainGenesisBlockNumber C) := ltac:(solve_setter (State C) (@AttestationChainGenesisBlockNumber C)).
#[export] Instance set_ChainElectionPolicy C : Setter (@ChainElectionPolicy C) := ltac:(solve_setter (State C) (@ChainElectionPolicy C)).
#[export] Instance set_AuthorizedAttestors C : Setter (@AuthorizedAttestors C) := ltac:(solve_setter (State C) (@AuthorizedAttestors C)).
#[export] Instance set_events C : Setter (@events C) := ltac:(solve_setter (State C) (@events C)).
#[export] Instance set_currency C : Setter (@currency C) := ltac:(solve_setter (State C) (@currency C)).

(** The pallet's storage before any block. *)
Definition empty_state {C} (c : C) : State C :=
  mkState ∅ ∅ ∅ ∅ ∅ ∅ ∅ ∅ ∅ ∅ ∅ ∅ ∅ ∅ ∅ ∅ ∅ ∅ ∅ ∅ ∅ ∅ ∅ ∅ ∅ ∅ ∅ ∅ ∅ ∅ ∅ ∅ ∅ ∅ ∅ ∅ [] c.

(** ** Reading and writing *)

(** The monad of the pallet's functions. *)
Abbreviation PM C := (M (State C) (DispatchError Error)).

Definition deposit_event {C E} (e : Event) : M (State C) E unit :=
  modify (fun s => s <| events ::= fun es => es ++ [e] |>).

Section Getters.
Context {C : Type} `{Config}.
Implicit Types (s : State C) (ck : Z).

Definition max_attestors s ck : Z := default MaxAttestationNodes (MaxAttestors s !! ck).
Definition max_invulnerables s ck : Z := default MaxAttestationNodes (MaxInvulnerables s !! ck).
Definition target_sample_size s ck : Z :=
  default DefaultTargetSampleSize (TargetSampleSize s !! ck).
Definition chain_attestation_interval s ck : Z :=
  default DefaultAttestationInterval (ChainAttestationInterval s !! ck).
Definition attestation_checkpoint_interval s ck : Z :=
  default DefaultAttestationsPerCheckpoint (AttestationCheckpointInterval s !! ck).
Definition max_catchup s ck : Z := default DefaultMaxCatchup (MaxCatchup s !! ck).
Definition min_bond_requirement s ck : Z :=
  default DefaultMinBondRequirement (MinBondRequirement s !! ck).
Definition attestation_retention_duration s ck : Z :=
  default DefaultAttestationRetentionDuration (AttestationRetentionDuration s !! ck).
Definition attestation_chain_genesis_block_number s ck : Z :=
  default DefaultAttestationChainGenesisBlockNumber
    (AttestationChainGenesisBlockNumber s !! ck).
Definition chain_election_policy s ck : AttestorElectionPolicy :=
  default OpenToAny (ChainElectionPolicy s !! ck).
Definition attestors_count s ck : Z := default 0 (AttestorsCount s !! ck).
Definition active_attestor_set s ck : list AccountId := default [] (ActiveAttestors s !! ck).
Definition checkpointing_queue s ck : list Digest := default [] (CheckpointingQueues s !! ck).
Definition attestation_removal_queue s ck : list Digest :=
  default [] (AttestationRemovalQueues s !! ck).
Definition bucket_row s ck : gset (Z * Z) := default ∅ (CheckpointBuckets s !! ck).

(** The effective values once pending updates apply. *)
Definition effective_max_catchup s ck : Z := default (max_catchup s ck) (PendingMaxCatchup s !! ck).
Definition effective_attestation_interval s ck : Z :=
  default (chain_attestation_interval s ck) (PendingAttestationInterval s !! ck).

Definition working_set_size s ck : Z := wrap 32 (zlen (active_attestor_set s ck)).
Definition quorum_threshold s ck : Z := calculate_quorum (working_set_size s ck).
Definition is_attestor s ck (a : AccountId) : bool := bool_decide (a ∈ active_attestor_set s ck).
Definition attestor_status s ck (a : AccountId) : option AttestorStatus :=
  at_status <$> dget (Attestors s) ck a.
Definition attestor_is_registered s ck (a : AccountId) : bool :=
  bool_decide (is_Some (dget (Attestors s) ck a)).
Definition last_digest s ck : option Digest :=
  match LastDigest s !! ck with
  | Some (_, d) => Some d
  | None => cp_digest <$> LastCheckpoint s !! ck
  end.
Definition attestor_bls_pubkey s ck (a : AccountId) : option BlsPublicKey :=
  dget (Attestors s) ck a ≫= at_bls_public_key.
Definition attestor_list_has_space s ck : bool := attestors_count s ck <? max_attestors s ck.
Definition attestations_stable s ck : bool :=
  bool_decide (AttestationClearingCursors s !! ck = None).
Definition commit_blocked_by_cleanup s ck : bool :=
  bool_decide (is_Some (AttestationClearingCursors s !! ck)) ||
  bool_decide (is_Some (CheckpointPruningStates s !! ck)).

Definition compute_block_index_for (block_number : Z) : Z :=
  block_number - block_number mod CHECKPOINT_BUCKET_SIZE.

Definition checkpoint_if_stable s ck (block_number : Height) : option Digest :=
  match CheckpointPruningStates s !! ck with
  | Some st =>
      if ps_next_pivot st <=? compute_block_index_for block_number then None
      else dget (Checkpoints s) ck block_number
  | None => dget (Checkpoints s) ck block_number
  end.

(** [Pallet::get] *)
Definition get_attestation s ck (d : Digest) : option SignedAttestation :=
  if attestations_stable s ck then dget (Attestations s) ck d else None.

Definition contains_digest s ck (d : Digest) (block_number : Height) : bool :=
  bool_decide (is_Some (get_attestation s ck d)) ||
  bool_decide (checkpoint_if_stable s ck block_number = Some d).

(** Store a checkpoint in [Checkpoints] and [CheckpointBuckets]. *)
Definition insert_checkpoint {E} ck (c : AttestationCheckpoint) : M (State C) E unit :=
  modify (fun s => s <| Checkpoints ::= dinsert ck (cp_block_number c) (cp_digest c) |>);;
  modify (fun s => s <| CheckpointBuckets ::= <[ck :=
    {[ (compute_block_index_for (cp_block_number c), cp_block_number c) ]} ∪ bucket_row s ck]> |>).

End Getters.

Lemma pivot_spec h : 0 <= h ->
  0 <= compute_block_index_for h <= h /\ h < compute_block_index_for h + CHECKPOINT_BUCKET_SIZE /\
  compute_block_index_for h mod CHECKPOINT_BUCKET_SIZE = 0.
Proof.
  intros Hh. unfold compute_block_index_for, CHECKPOINT_BUCKET_SIZE.
  pose proof (Z.mod_pos_bound h 1000 ltac:(lia)). pose proof (Z.div_mod h 1000 ltac:(lia)).
  split_and!; [lia..|]. replace (h - h mod 1000) with ((h / 1000) * 1000) by lia.
  apply Z.mod_mul. lia.
Qed.
