(* ===== verification/Ledger.v ===== *)
(** * Bonded stakes

    [src/pallets/attestation/src/ledger.rs] and the balance helpers of
    [impls.rs]: the ledger of a stash, the lock that backs it and the free
    balance left over. A ledger's total is its active stake plus what is
    unlocking, and the lock on the stash's account is that total. *)

From stdpp Require Import prelude gmap list sorting strings.
From Stdlib Require Import ZArith Lia.
From S2P Require Import Prelude Primitives Frame Types.

(** The bytes ["b0ndl0ck"]. *)
Definition BOND_LOCK_ID : Z := 7075276392189944683.

Definition ledger_new (stash : AccountId) (stake : Z) : AttestorLedger :=
  mkLedger stash stake stake [].

(** Chunks whose era has come leave the ledger, and the total with them. *)
Definition consolidate_unlocked (l : AttestorLedger) (current_era : Z) : AttestorLedger :=
  mkLedger (al_stash l)
    (foldl (fun total chunk =>
        if current_era <? uc_era chunk then total else saturating_sub total (uc_value chunk))
      (al_total_staked l) (al_unlocking l))
    (al_active l)
    (List.filter (fun chunk => current_era <? uc_era chunk) (al_unlocking l)).

Section Ops.
Context {C : Type} `{!Currency C} `{Config}.

(** [AttestorLedger::update]: store the ledger and set the lock. *)
Definition ledger_update (l : AttestorLedger) : PM C unit :=
  ledgers ← gets Ledger;
  ensure_m (bool_decide (is_Some (ledgers !! al_stash l))) NotStash;;
  modify (fun s => s <| currency ::= set_lock BOND_LOCK_ID (al_stash l) (al_total_staked l) |>);;
  modify (fun s => s <| Ledger ::= <[al_stash l := l]> |>).

(** [AttestorLedger::bond] *)
Definition ledger_bond (l : AttestorLedger) : PM C unit :=
  ledgers ← gets Ledger;
  ensure_m (bool_decide (ledgers !! al_stash l = None)) AlreadyBonded;;
  modify (fun s => s <| Ledger ::= <[al_stash l := l]> |>);;
  ledger_update l.

(** [AttestorLedger::kill] *)
Definition ledger_kill (stash : AccountId) : PM C unit :=
  ledgers ← gets Ledger;
  ensure_m (bool_decide (is_Some (ledgers !! stash))) NotStash;;
  modify (fun s => s <| currency ::= remove_lock BOND_LOCK_ID stash |>);;
  modify (fun s => s <| Ledger ::= delete stash |>).

Definition kill_stash (stash : AccountId) : PM C unit :=
  ledger_kill stash;;
  modify (fun s => s <| currency ::= dec_consumers stash |>).

(** The amounts of the pallet's own locks, summed. *)
Definition get_locked_balance (c : C) (account_id : AccountId) : Z :=
  foldl (fun locked_balance lock =>
      if lock.1 =? BOND_LOCK_ID then wrap 128 (locked_balance + lock.2) else locked_balance)
    0 (locks c account_id).

Definition get_free_balance (c : C) (account_id : AccountId) : Z :=
  saturating_sub (saturating_sub (free_balance c account_id) minimum_balance)
    (get_locked_balance c account_id).

Definition overflow : DispatchError Error := Other "ArithmeticError::Overflow".

Definition bond_extra (chain_key : ChainKey) (stash : AccountId) : PM C unit :=
  bond ← gets (fun s => min_bond_requirement s chain_key);
  ledgers ← gets Ledger;
  ledger ← ok_or_m (ledgers !! stash) NotStash;
  c ← gets currency;
  available ← lift (ok_or overflow (checked_sub (free_balance c stash) (al_total_staked ledger)));
  ensure_m (bond <=? available) InsufficientBalance;;
  total ← lift (ok_or overflow (checked_add 128 (al_total_staked ledger) bond));
  active ← lift (ok_or overflow (checked_add 128 (al_active ledger) bond));
  ledger_update (mkLedger (al_stash ledger) total active (al_unlocking ledger));;
  deposit_event (Bonded stash bond).

End Ops.

(** ** Ledgers are balanced *)

Definition chunks_sum (cs : list UnlockChunk) : Z := foldr (fun c n => uc_value c + n) 0 cs.

Definition ledger_wf (l : AttestorLedger) : Prop :=
  al_total_staked l = al_active l + chunks_sum (al_unlocking l) /\
  0 <= al_active l /\ Forall (fun c => 0 < uc_value c) (al_unlocking l).

Lemma chunks_sum_app a b : chunks_sum (a ++ b) = chunks_sum a + chunks_sum b.
Proof. induction a as [|c a IH]; simpl; lia. Qed.

Lemma chunks_sum_one c : chunks_sum [c] = uc_value c.
Proof. unfold chunks_sum. simpl. lia. Qed.

Lemma chunks_sum_nonneg cs : Forall (fun c => 0 < uc_value c) cs -> 0 <= chunks_sum cs.
Proof. induction 1; simpl; lia. Qed.

(** The chunks of an era that has come. *)
Definition matured (current_era : Z) (cs : list UnlockChunk) : list UnlockChunk :=
  List.filter (fun c => uc_era c <=? current_era) cs.

Lemma consolidate_total era total cs :
  chunks_sum (matured era cs) <= total -> Forall (fun c => 0 < uc_value c) cs ->
  foldl (fun t c => if era <? uc_era c then t else saturating_sub t (uc_value c)) total cs =
  total - chunks_sum (matured era cs).
Proof.
  intros Hle Hpos. revert total Hle. induction Hpos as [|c cs Hc Hpos IH]; intros total Hle; simpl.
  - lia.
  - assert (0 <= chunks_sum (matured era cs)).
    { apply chunks_sum_nonneg. clear -Hpos. induction Hpos; simpl; [done|].
      destruct (uc_era x <=? era); [by constructor|done]. }
    simpl in Hle. destruct (Z.ltb_spec era (uc_era c)), (Z.leb_spec (uc_era c) era);
      simpl in *; try lia.
    + by apply IH.
    + rewrite IH; unfold saturating_sub; lia.
Qed.

Lemma chunks_split era cs :
  chunks_sum cs = chunks_sum (matured era cs) +
    chunks_sum (List.filter (fun c => era <? uc_era c) cs).
Proof.
  induction cs as [|c cs IH]; simpl; [done|].
  destruct (Z.ltb_spec era (uc_era c)), (Z.leb_spec (uc_era c) era); simpl; lia.
Qed.

Lemma Forall_List_filter {A} (P : A -> Prop) (f : A -> bool) l :
  Forall P l -> Forall P (List.filter f l).
Proof. induction 1; simpl; [done|]. by destruct (f x); [constructor|]. Qed.

(** Consolidation releases exactly the matured chunks and keeps the ledger
    balanced. *)
Lemma consolidate_unlocked_spec l era :
  ledger_wf l ->
  ledger_wf (consolidate_unlocked l era) /\
  al_total_staked (consolidate_unlocked l era) =
    al_total_staked l - chunks_sum (matured era (al_unlocking l)) /\
  Forall (fun c => era < uc_era c) (al_unlocking (consolidate_unlocked l era)).
Proof.
  intros (Htot & Hact & Hpos).
  pose proof (chunks_split era (al_unlocking l)) as Hsplit.
  pose proof (chunks_sum_nonneg _ (Forall_List_filter _ (fun c => era <? uc_era c) _ Hpos)).
  assert (al_total_staked (consolidate_unlocked l era) =
    al_total_staked l - chunks_sum (matured era (al_unlocking l))) as Ht.
  { unfold consolidate_unlocked. cbn [al_total_staked]. apply consolidate_total; [lia|done]. }
  split_and!; [|done|].
  - split_and!; [rewrite Ht; cbn [consolidate_unlocked al_active al_unlocking]; lia|done|].
    by apply Forall_List_filter.
  - unfold consolidate_unlocked. cbn [al_unlocking]. apply Forall_forall. intros c Hc.
    apply list_elem_of_In, filter_In in Hc as [_ Hc]. lia.
Qed.

Lemma consolidate_unlocked_le l era :
  ledger_wf l -> al_total_staked (consolidate_unlocked l era) <= al_total_staked l.
Proof.
  intros Hwf. destruct (consolidate_unlocked_spec l era Hwf) as (_ & -> & _).
  destruct Hwf as (_ & _ & Hpos).
  apply (Forall_List_filter _ (fun c => uc_era c <=? era)), chunks_sum_nonneg in Hpos.
  fold (matured era (al_unlocking l)) in Hpos. lia.
Qed.

(** ** The lock is the total *)

(** What [pallet_balances] documents of locks: setting a lock replaces the one
    with the same identifier (a zero amount is ignored), removing it leaves none,
    and moving funds or counting references does not touch locks. *)
Class CurrencyLaws (C : Type) `{!Currency C} : Prop := {
  locked_set : forall a n c b, 0 < n <= umax 128 ->
    get_locked_balance (set_lock BOND_LOCK_ID a n c) b =
    if decide (a = b) then n else get_locked_balance c b;
  locked_set_zero : forall a c b,
    get_locked_balance (set_lock BOND_LOCK_ID a 0 c) b = get_locked_balance c b;
  locked_remove : forall a c b,
    get_locked_balance (remove_lock BOND_LOCK_ID a c) b =
    if decide (a = b) then 0 else get_locked_balance c b;
  locked_transfer : forall a b n c c' x,
    transfer_keep_alive a b n c = Ok c' -> get_locked_balance c' x = get_locked_balance c x;
  locked_inc : forall a c c' x,
    inc_consumers a c = Ok c' -> get_locked_balance c' x = get_locked_balance c x;
  locked_dec : forall a c x, get_locked_balance (dec_consumers a c) x = get_locked_balance c x;
}.

Section Locks.
Context {C : Type} `{!Currency C} `{Config} `{!CurrencyLaws C}.
Implicit Types s : State C.

Definition stored_ledger_ok (a : AccountId) (l : AttestorLedger) : Prop :=
  al_stash l = a /\ ledger_wf l /\ al_total_staked l <= umax 128.

Definition ledger_total s (a : AccountId) : Z :=
  match Ledger s !! a with Some l => al_total_staked l | None => 0 end.

(** Every stored ledger is balanced, and the lock on an account is the total of
    its ledger. *)
Record ledger_inv s : Prop := {
  ledgers_ok : forall a l, Ledger s !! a = Some l -> stored_ledger_ok a l;
  locks_ok : forall a, get_locked_balance (currency s) a = ledger_total s a;
}.

(** The invariant reads [Ledger] and [currency] only. *)
Lemma ledger_inv_frame s s' :
  Ledger s' = Ledger s -> currency s' = currency s -> ledger_inv s -> ledger_inv s'.
Proof.
  intros Hl Hc [H1 H2]. constructor.
  - rewrite Hl. exact H1.
  - intros a. unfold ledger_total. rewrite Hl, Hc. apply H2.
Qed.

Lemma ledger_inv_events s f : ledger_inv s -> ledger_inv (s <| events ::= f |>).
Proof. by apply ledger_inv_frame. Qed.

Lemma ledger_inv_currency s c' :
  (forall x, get_locked_balance c' x = get_locked_balance (currency s) x) ->
  ledger_inv s -> ledger_inv (s <| currency := c' |>).
Proof.
  intros Hc [H1 H2]. constructor; [exact H1|]. intros a. cbn. rewrite Hc. apply H2.
Qed.

(** Storing a balanced ledger and its lock. A zero total is only stored over a
    zero total. *)
Lemma set_ledger_inv s l :
  ledger_inv s -> ledger_wf l -> al_total_staked l <= umax 128 ->
  (0 < al_total_staked l \/ ledger_total s (al_stash l) = 0) ->
  ledger_inv (s <| currency ::= set_lock BOND_LOCK_ID (al_stash l) (al_total_staked l) |>
                <| Ledger ::= <[al_stash l := l]> |>).
Proof.
  intros [H1 H2] Hwf Hmax Hz. constructor.
  - cbn. intros a l'. rewrite lookup_insert. case_decide as Ha; [|apply H1].
    intros [= <-]. by split_and!.
  - intros a. unfold ledger_total. cbn. rewrite lookup_insert.
    destruct (decide (0 < al_total_staked l)) as [Hp|Hp].
    + rewrite locked_set by lia. case_decide; [done|apply H2].
    + assert (al_total_staked l = 0) as Hzero.
      { destruct Hwf as (? & ? & Hpos). pose proof (chunks_sum_nonneg _ Hpos). lia. }
      rewrite Hzero, locked_set_zero, H2. case_decide as Ha; [|done]. subst a.
      destruct Hz; lia.
Qed.

Lemma ledger_update_ok l s u s' :
  ledger_update l s = (Ok u, s') ->
  is_Some (Ledger s !! al_stash l) /\
  s' = s <| currency ::= set_lock BOND_LOCK_ID (al_stash l) (al_total_staked l) |>
         <| Ledger ::= <[al_stash l := l]> |>.
Proof. unfold ledger_update. intros Hrun. call_inv. by split. Qed.

Lemma ledger_bond_ok l s u s' :
  ledger_bond l s = (Ok u, s') ->
  Ledger s !! al_stash l = None /\
  s' = s <| Ledger ::= <[al_stash l := l]> |>
         <| currency ::= set_lock BOND_LOCK_ID (al_stash l) (al_total_staked l) |>
         <| Ledger ::= <[al_stash l := l]> |>.
Proof.
  unfold ledger_bond. intros Hrun. call_inv.
  match goal with H : ledger_update _ _ = _ |- _ => apply ledger_update_ok in H as [_ ->] end.
  done.
Qed.

Lemma ledger_bond_err l s e s' : ledger_bond l s = (Err e, s') -> s' = s.
Proof.
  unfold ledger_bond, ledger_update, ensure_m, ensure, gets, modify, mbind, M_bind.
  destruct (bool_decide (Ledger s !! al_stash l = None)) eqn:Hb; [|by intros [=]].
  cbn [mret M_ret]. rewrite bool_decide_true; [by intros [=]|]. cbn. rewrite lookup_insert_eq. by eexists.
Qed.

Lemma ledger_bond_inv stash stake s u s' :
  0 <= stake <= umax 128 -> ledger_bond (ledger_new stash stake) s = (Ok u, s') ->
  ledger_inv s -> ledger_inv s'.
Proof.
  intros Hst [Hnone ->]%ledger_bond_ok [H1 H2].
  assert (ledger_wf (ledger_new stash stake)) as Hwf.
  { split_and!; cbn; [lia|lia|done]. }
  eapply ledger_inv_frame with
    (s := s <| currency ::= set_lock BOND_LOCK_ID stash stake |>
            <| Ledger ::= <[stash := ledger_new stash stake]> |>).
  - cbn. by rewrite insert_insert_eq.
  - done.
  - apply (set_ledger_inv s (ledger_new stash stake)); [done|done|cbn; lia|right].
    unfold ledger_total. cbn in *. by rewrite Hnone.
Qed.

Lemma kill_stash_inv stash : keeps ledger_inv (kill_stash stash : PM C unit).
Proof.
  intros s u s' Hrun [H1 H2]. unfold kill_stash, ledger_kill in Hrun. call_inv. constructor.
  - cbn. intros x l. rewrite lookup_delete. case_decide; [done|apply H1].
  - intros x. unfold ledger_total. cbn. rewrite locked_dec, locked_remove, lookup_delete.
    case_decide; [done|apply H2].
Qed.

Lemma bond_extra_inv ck stash s u s' :
  0 <= min_bond_requirement s ck -> bond_extra ck stash s = (Ok u, s') ->
  ledger_inv s -> ledger_inv s'.
Proof.
  intros Hmin Hrun Hinv. unfold bond_extra, deposit_event in Hrun. call_inv.
  match goal with H : Ledger s !! stash = Some ?x |- _ => rename x into l, H into Hl end.
  repeat match goal with H : checked_add _ _ _ = Some _ |- _ =>
    apply checked_add_Some in H as [-> ?] end.
  match goal with H : ledger_update _ _ = _ |- _ => apply ledger_update_ok in H as [_ ->] end.
  destruct (ledgers_ok s Hinv _ _ Hl) as (Hst & (Htot & Hact & Hpos) & Hmax).
  apply ledger_inv_events.
  apply (set_ledger_inv s (mkLedger (al_stash l) (al_total_staked l + min_bond_requirement s ck)
    (al_active l + min_bond_requirement s ck) (al_unlocking l)));
    cbn [al_total_staked al_stash]; [done| |lia|].
  - split_and!; cbn [al_total_staked al_active al_unlocking]; [lia|lia|done].
  - pose proof (chunks_sum_nonneg _ Hpos).
    destruct (decide (0 < al_total_staked l + min_bond_requirement s ck)) as [|Hz]; [by left|right].
    unfold ledger_total. rewrite Hst, Hl. lia.
Qed.

End Locks.
