(* ===== verification/Roster.v ===== *)
(** * The attestor roster

    The part of [src/pallets/attestation/src/impls.rs] and of the calls in
    [lib.rs] that decides who may attest: registration and unregistration with
    their bonds, BLS keys and the retired keys kept for pending attestations,
    activation with a proof of possession, chilling, the election of the active
    set, authorisations and invulnerables. *)

From stdpp Require Import prelude gmap list sorting strings.
From Stdlib Require Import ZArith Lia.
From S2P Require Import Prelude Primitives Frame Types Ledger.

(** One tenth of a CTC in micro units. *)
Definition ONE_TENTH_CTC : Z := 100000000000000000.

(** The capacity of [RetiredAttestorKeysByStash] entries. *)
Definition RETIRED_KEYS_PER_STASH : Z := 64.

(** [AccountId32::encode]: its 32 bytes. *)
Definition encode_account (a : AccountId) : list Z := to_be_bytes 32 a.

Section Roster.
Context {C : Type} `{!Currency C} `{Config} `{Bls} `{FrameStorage Z}.
Variable env : Env.

Definition ensure_supported (chain_key : ChainKey) : PM C unit :=
  ensure_m (env_is_chain_supported env chain_key) ChainNotSupported.

(** A balances or system call whose error is propagated with [?]. *)
Definition currency_call (f : C -> Result string C) : PM C unit :=
  c ← gets currency;
  c' ← lift (match f c with Ok c' => Ok c' | Err msg => Err (Other msg) end);
  modify (fun s => s <| currency := c' |>).

(** ** The active set *)

Definition remove_active_attestor_from_set (chain_key : ChainKey) (attestor_id : AccountId)
    : PM C unit :=
  modify (fun s => s <| ActiveAttestors ::= <[chain_key :=
    match list_find (eq attestor_id) (active_attestor_set s chain_key) with
    | Some (pos, _) => swap_remove pos (active_attestor_set s chain_key)
    | None => active_attestor_set s chain_key
    end]> |>).

(** [Attestors::mutate] setting the status of an entry that exists. *)
Definition set_attestor_status (chain_key : ChainKey) (attestor_id : AccountId)
    (status : AttestorStatus) : PM C unit :=
  modify (fun s =>
    match dget (Attestors s) chain_key attestor_id with
    | Some a => s <| Attestors ::= dinsert chain_key attestor_id (a <| at_status := status |>) |>
    | None => s
    end).

(** ** Retired BLS keys *)

Definition remove_stash_retired_index_pair (stash : AccountId) (chain_key : ChainKey)
    (attestor_id : AccountId) : PM C unit :=
  modify (fun s =>
    match RetiredAttestorKeysByStash s !! stash with
    | None => s
    | Some pairs =>
        let pairs := match list_find (eq (chain_key, attestor_id)) pairs with
          | Some (pos, _) => swap_remove pos pairs
          | None => pairs
          end in
        match pairs with
        | [] => s <| RetiredAttestorKeysByStash ::= delete stash |>
        | _ => s <| RetiredAttestorKeysByStash ::= <[stash := pairs]> |>
        end
    end).

(** Release a key's claim if it still points at this controller. *)
Definition release_bls_key (chain_key : ChainKey) (key : BlsPublicKey) (attestor_id : AccountId)
    : PM C unit :=
  owner ← gets (fun s => dget (BlsKeyOwner s) chain_key key);
  when (bool_decide (owner = Some attestor_id))
    (modify (fun s => s <| BlsKeyOwner ::= dremove chain_key key |>)).

Definition clear_retired_bls_entry_for_controller (chain_key : ChainKey)
    (attestor_id registering_stash : AccountId) : PM C unit :=
  retired ← gets (fun s => dget (RetiredAttestorBlsKeys s) chain_key attestor_id);
  match retired with
  | None => mret tt
  | Some entry =>
      ensure_m (re_stash entry =? registering_stash) ControllerRetiredByAnotherStash;;
      modify (fun s => s <| RetiredAttestorBlsKeys ::= dremove chain_key attestor_id |>);;
      remove_stash_retired_index_pair (re_stash entry) chain_key attestor_id;;
      release_bls_key chain_key (re_bls_public_key entry) attestor_id
  end.

(** One indexed pair: [true] when it is kept. *)
Definition purge_retired_pair (stash : AccountId) (current_era : Z) (chain_key : ChainKey)
    (attestor_id : AccountId) : PM C bool :=
  retired ← gets (fun s => dget (RetiredAttestorBlsKeys s) chain_key attestor_id);
  match retired with
  | None => mret false
  | Some entry =>
      if negb (re_stash entry =? stash) then mret false
      else if re_purge_at_era entry <=? current_era then
        release_bls_key chain_key (re_bls_public_key entry) attestor_id;;
        modify (fun s => s <| RetiredAttestorBlsKeys ::= dremove chain_key attestor_id |>);;
        mret false
      else mret true
  end.

Definition purge_retired_bls_keys_for_stash (stash : AccountId) (current_era : Z) : PM C unit :=
  pairs ← gets (fun s => default [] (RetiredAttestorKeysByStash s !! stash));
  match pairs with
  | [] => mret tt
  | _ =>
      kept ← filter_map_m (fun pair : ChainKey * AccountId =>
        keep ← purge_retired_pair stash current_era pair.1 pair.2;
        mret (if keep : bool then Some pair else None)) pairs;
      match kept with
      | [] => modify (fun s => s <| RetiredAttestorKeysByStash ::= delete stash |>)
      | _ => modify (fun s => s <| RetiredAttestorKeysByStash ::= <[stash := kept]> |>)
      end
  end.

(** ** Registration *)

Definition try_insert_attestor_and_emit_event (chain_key : ChainKey)
    (stash attestor_id : AccountId) : PM C unit :=
  ensure_supported chain_key;;
  policy ← gets (fun s => chain_election_policy s chain_key);
  authorized ← gets (fun s => dget (AuthorizedAttestors s) chain_key attestor_id);
  when (bool_decide (policy = AuthorizedOnly))
    (ensure_m (bool_decide (is_Some authorized)) NotPreAuthorizedToRegister);;
  registered ← gets (fun s => attestor_is_registered s chain_key attestor_id);
  ensure_m (negb registered) AlreadyAttestor;;
  clear_retired_bls_entry_for_controller chain_key attestor_id stash;;
  has_space ← gets (fun s => attestor_list_has_space s chain_key);
  ensure_m has_space AttestorListFull;;
  ensure_m (negb (attestor_id =? stash)) InvalidAttestorAccount;;
  modify (fun s => s <| Attestors ::= dinsert chain_key attestor_id (mkAttestor None Idle stash) |>);;
  modify (fun s => s <| AttestorsCount ::=
    <[chain_key := saturating_add 32 (attestors_count s chain_key) 1]> |>);;
  min_bond ← gets (fun s => min_bond_requirement s chain_key);
  c ← gets currency;
  ensure_m (saturating_add 128 min_bond ONE_TENTH_CTC <=? get_free_balance c stash)
    InsufficientBalance;;
  currency_call (transfer_keep_alive stash attestor_id ONE_TENTH_CTC);;
  bonded ← attempt (ledger_bond (ledger_new stash min_bond));
  (if is_ok bonded then
     currency_call (inc_consumers stash);; deposit_event (Bonded stash min_bond)
   else bond_extra chain_key stash);;
  modify (fun s => s <| AttestorCollateral ::= dinsert chain_key attestor_id min_bond |>);;
  deposit_event (AttestorRegistered chain_key attestor_id).

(** Move [value] of the active stake to the chunk that unlocks at [era]. *)
Definition unlock_stake (ledger : AttestorLedger) (value era : Z)
    : Result (DispatchError Error) (AttestorLedger * Z) :=
  let active := al_active ledger - value in
  let '(active, value) :=
    if active <? minimum_balance then (0, value + active) else (active, value) in
  match last (al_unlocking ledger) with
  | Some chunk =>
      if uc_era chunk =? era then
        Ok (mkLedger (al_stash ledger) (al_total_staked ledger) active
              (removelast (al_unlocking ledger) ++
               [mkUnlockChunk (saturating_add 128 (uc_value chunk) value) era]), value)
      else if zlen (al_unlocking ledger) <? MaxUnlockingChunks then
        Ok (mkLedger (al_stash ledger) (al_total_staked ledger) active
              (al_unlocking ledger ++ [mkUnlockChunk value era]), value)
      else Err (ModuleError NoMoreChunks)
  | None =>
      if 0 <? MaxUnlockingChunks then
        Ok (mkLedger (al_stash ledger) (al_total_staked ledger) active
              [mkUnlockChunk value era], value)
      else Err (ModuleError NoMoreChunks)
  end.

(** Unbond [value] of the stash's active stake. *)
Definition unbond_stake (stash : AccountId) (ledger : AttestorLedger) (value purge_at_era : Z)
    : PM C unit :=
  ledger ←
    (if MaxUnlockingChunks <=? zlen (al_unlocking ledger) then
       let consolidated := consolidate_unlocked ledger (env_current_era env) in
       let released := saturating_sub (al_total_staked ledger) (al_total_staked consolidated) in
       when (negb (released =? 0)) (deposit_event (Withdrawn stash released));;
       mret consolidated
     else mret ledger);
  unlocked ← lift (unlock_stake ledger value purge_at_era);
  ledger_update unlocked.1;;
  deposit_event (Unbonded stash unlocked.2).

Definition remove_attestor_and_emit_event (chain_key : ChainKey)
    (stash attestor_id : AccountId) : PM C unit :=
  found ← gets (fun s => dget (Attestors s) chain_key attestor_id);
  attestor ← ok_or_m found AddressNotAttestor;
  ensure_m (at_stash attestor =? stash) NotYourAttestor;;
  ensure_m (bool_decide (at_status attestor = Idle)) AttestorNotIdle;;
  collateral ← gets (fun s => dget (AttestorCollateral s) chain_key attestor_id);
  modify (fun s => s <| AttestorCollateral ::= dremove chain_key attestor_id |>);;
  min_bond ← gets (fun s => min_bond_requirement s chain_key);
  let bond := default min_bond collateral in
  ledgers ← gets Ledger;
  ledger ← ok_or_m (ledgers !! stash) NotStash;
  let value := Z.min bond (al_active ledger) in
  let purge_at_era := saturating_add 32 (env_current_era env) BondingDuration in
  when (negb (value =? 0)) (unbond_stake stash ledger value purge_at_era);;
  match at_bls_public_key attestor with
  | Some bls_public_key =>
      modify (fun s => s <| RetiredAttestorBlsKeys ::= dinsert chain_key attestor_id
        (mkRetired bls_public_key purge_at_era stash) |>);;
      pairs ← gets (fun s => default [] (RetiredAttestorKeysByStash s !! stash));
      ensure_m (zlen pairs <? RETIRED_KEYS_PER_STASH) RetiredAttestorPendingFull;;
      modify (fun s => s <| RetiredAttestorKeysByStash ::=
        <[stash := pairs ++ [(chain_key, attestor_id)]]> |>)
  | None => mret tt
  end;;
  remove_active_attestor_from_set chain_key attestor_id;;
  modify (fun s => s <| Attestors ::= dremove chain_key attestor_id |>);;
  modify (fun s => s <| AttestorsCount ::=
    <[chain_key := saturating_sub (attestors_count s chain_key) 1]> |>);;
  deposit_event (AttestorUnregistered chain_key attestor_id).

(** ** Activation and chilling *)

Definition start_attesting (chain_key : ChainKey) (attestor_id : AccountId)
    (bls_public_key : BlsPublicKey) (proof_of_possession : BlsSignature) : PM C unit :=
  ensure_supported chain_key;;
  found ← gets (fun s => dget (Attestors s) chain_key attestor_id);
  attestor ← ok_or_m found AddressNotAttestor;
  when (bool_decide (is_Some (at_bls_public_key attestor)))
    (ensure_m (bool_decide (at_status attestor = Idle)) AttestorNotIdle);;
  public_key ← ok_or_m (pk_from_bytes (to_be_bytes 48 bls_public_key)) InvalidBlsPublicKey;
  signature ← ok_or_m (sig_from_bytes (to_be_bytes 96 proof_of_possession)) InvalidBlsSignature;
  let pop_message := proof_of_possession_message chain_key (encode_account attestor_id)
    bls_public_key in
  ensure_m (bls_verify signature pop_message public_key) InvalidProofOfPossession;;
  owner ← gets (fun s => dget (BlsKeyOwner s) chain_key bls_public_key);
  ensure_m (match owner with None => true | Some o => o =? attestor_id end)
    BlsKeyAlreadyRegistered;;
  match at_bls_public_key attestor with
  | Some old_key =>
      when (negb (old_key =? bls_public_key))
        (modify (fun s => s <| BlsKeyOwner ::= dremove chain_key old_key |>))
  | None => mret tt
  end;;
  modify (fun s => s <| BlsKeyOwner ::= dinsert chain_key bls_public_key attestor_id |>);;
  modify (fun s => s <| Attestors ::= dinsert chain_key attestor_id
    (mkAttestor (Some bls_public_key) Waiting (at_stash attestor)) |>);;
  deposit_event (AttestorActivated chain_key attestor_id bls_public_key).

Definition schedule_voluntary_chill (chain_key : ChainKey) (attestor_id : AccountId) : PM C unit :=
  set_attestor_status chain_key attestor_id Leaving.

Definition do_chill_attestor_immediate (chain_key : ChainKey) (attestor_id : AccountId)
    : PM C unit :=
  set_attestor_status chain_key attestor_id Idle;;
  remove_active_attestor_from_set chain_key attestor_id;;
  deposit_event (AttestorChilled chain_key attestor_id).

(** ** Withdrawing *)

Definition do_withdraw_unbonded (stash : AccountId) : PM C unit :=
  ledgers ← gets Ledger;
  ledger ← ok_or_m (ledgers !! stash) NotStash;
  let old_total := al_total_staked ledger in
  let stash := al_stash ledger in
  let current_era := env_current_era env in
  let ledger := if 0 <? current_era then consolidate_unlocked ledger current_era else ledger in
  purge_retired_bls_keys_for_stash stash current_era;;
  let new_total := al_total_staked ledger in
  (if match al_unlocking ledger with [] => true | _ => false end &&
      ((al_active ledger <? minimum_balance) || (al_active ledger =? 0))
   then kill_stash (al_stash ledger)
   else ledger_update ledger);;
  when (new_total <? old_total)
    (deposit_event (Withdrawn stash (saturating_sub old_total new_total))).

(** ** Elections *)

(** One registered attestor: [Some] when it is elected. *)
Definition elect_one (chain_key : ChainKey) (policy : AttestorElectionPolicy)
    (entry : AccountId * Attestor) : PM C (option AccountId) :=
  let '(account, attestor) := entry in
  let promote : PM C (option AccountId) :=
    modify (fun s => s <| Attestors ::=
      dinsert chain_key account (attestor <| at_status := Active |>) |>);;
    mret (Some account) in
  match at_status attestor with
  | Active => mret (Some account)
  | Waiting =>
      match policy with
      | OpenToAny => promote
      | AuthorizedOnly =>
          authorized ← gets (fun s => dget (AuthorizedAttestors s) chain_key account);
          if bool_decide (is_Some authorized) then promote else mret None
      | DeniedToAll => mret None
      end
  | Idle => mret None
  | Leaving =>
      modify (fun s => s <| Attestors ::=
        dinsert chain_key account (attestor <| at_status := Idle |>) |>);;
      deposit_event (AttestorChilled chain_key account);;
      mret None
  end.

(** [Attestors::iter_prefix(chain_key).collect()] *)
Definition attestor_entries (s : State C) (chain_key : ChainKey) : list (AccountId * Attestor) :=
  omap (fun a => pair a <$> dget (Attestors s) chain_key a)
    (iter_keys AttestorsItem (row (Attestors s) chain_key)).

Definition same_membership (a b : list AccountId) : bool :=
  (zlen a =? zlen b) && forallb (fun x => bool_decide (x ∈ b)) a.

Definition elect_attestors_for_chain (chain_key : ChainKey) (epoch : Z) : PM C unit :=
  policy ← gets (fun s => chain_election_policy s chain_key);
  entries ← gets (fun s => attestor_entries s chain_key);
  attestors ← filter_map_m (elect_one chain_key policy) entries;
  current ← gets (fun s => active_attestor_set s chain_key);
  if same_membership attestors current then mret tt
  else
    modify (fun s => s <| ActiveAttestors ::= <[chain_key := attestors]> |>);;
    deposit_event (AttestorsElected epoch chain_key attestors).

Definition do_start_election (epoch : Z) : PM C unit :=
  for_each (fun chain_key => elect_attestors_for_chain chain_key epoch)
    (env_supported_chains env).

(** ** Invulnerables *)

Definition vulnerable_list_has_space (s : State C) (chain_key : ChainKey) : bool :=
  wrap 32 (Z.of_nat (size (row (Invulnerables s) chain_key))) <? max_invulnerables s chain_key.

Definition address_is_invulnerable (s : State C) (chain_key : ChainKey) (a : AccountId) : bool :=
  bool_decide (is_Some (dget (Invulnerables s) chain_key a)).

Definition try_insert_invulnerable_and_emit_event (chain_key : ChainKey) (address : AccountId)
    : PM C unit :=
  ensure_supported chain_key;;
  has_space ← gets (fun s => vulnerable_list_has_space s chain_key);
  ensure_m has_space InvulnerableListFull;;
  modify (fun s => s <| Invulnerables ::= dinsert chain_key address true |>);;
  deposit_event (InvulnerableRegistered chain_key address).

Definition remove_invulnerable_and_emit_event (chain_key : ChainKey) (address : AccountId)
    : PM C unit :=
  modify (fun s => s <| Invulnerables ::= dremove chain_key address |>);;
  deposit_event (InvulnerableUnregistered chain_key address).

(** ** Calls *)

Definition register_attestor (origin : Origin) (chain_key : ChainKey) (attestor_id : AccountId)
    : PM C unit :=
  transactional (
    who ← ensure_signed origin;
    try_insert_attestor_and_emit_event chain_key who attestor_id).

Definition unregister_attestor (origin : Origin) (chain_key : ChainKey) (attestor_id : AccountId)
    : PM C unit :=
  transactional (
    who ← ensure_signed origin;
    remove_attestor_and_emit_event chain_key who attestor_id).

Definition register_invulnerable (origin : Origin) (chain_key : ChainKey) (attestor : AccountId)
    : PM C unit :=
  transactional (
    ensure_origin OperatorsOrigin origin;;
    try_insert_invulnerable_and_emit_event chain_key attestor).

Definition unregister_invulnerable (origin : Origin) (chain_key : ChainKey) (attestor : AccountId)
    : PM C unit :=
  transactional (
    ensure_origin OperatorsOrigin origin;;
    known ← gets (fun s => address_is_invulnerable s chain_key attestor);
    ensure_m known AddressIsNotInvulnerable;;
    remove_invulnerable_and_emit_event chain_key attestor).

Definition attest (origin : Origin) (chain_key : ChainKey) (bls_public_key : BlsPublicKey)
    (proof_of_possession : BlsSignature) : PM C unit :=
  transactional (
    who ← ensure_signed origin;
    start_attesting chain_key who bls_public_key proof_of_possession).

Definition chill (origin : Origin) (chain_key : ChainKey) (attestor_id : AccountId) : PM C unit :=
  transactional (
    who ← ensure_signed origin;
    found ← gets (fun s => dget (Attestors s) chain_key attestor_id);
    attestor ← ok_or_m found AddressNotAttestor;
    ensure_m (at_stash attestor =? who) NotYourAttestor;;
    match at_status attestor with
    | Idle => fail (ModuleError AttestorAlreadyIdle)
    | Leaving => fail (ModuleError AttestorChillAlreadyScheduled)
    | Waiting => do_chill_attestor_immediate chain_key attestor_id
    | Active => schedule_voluntary_chill chain_key attestor_id
    end).

Definition withdraw_unbonded (origin : Origin) : PM C unit :=
  transactional (who ← ensure_signed origin; do_withdraw_unbonded who).

Definition authorize_attestor (origin : Origin) (chain_key : ChainKey) (attestor_id : AccountId)
    : PM C unit :=
  transactional (
    ensure_origin OperatorsOrigin origin;;
    ensure_supported chain_key;;
    known ← gets (fun s => dget (AuthorizedAttestors s) chain_key attestor_id);
    ensure_m (bool_decide (known = None)) AttestorAlreadyAuthorized;;
    modify (fun s => s <| AuthorizedAttestors ::= dinsert chain_key attestor_id tt |>);;
    deposit_event (AuthorizedAttestorAdded chain_key attestor_id)).

Definition remove_authorized_attestor (origin : Origin) (chain_key : ChainKey)
    (attestor_id : AccountId) : PM C unit :=
  transactional (
    ensure_origin OperatorsOrigin origin;;
    known ← gets (fun s => dget (AuthorizedAttestors s) chain_key attestor_id);
    ensure_m (bool_decide (is_Some known)) AttestorNotAuthorized;;
    modify (fun s => s <| AuthorizedAttestors ::= dremove chain_key attestor_id |>);;
    deposit_event (AuthorizedAttestorRemoved chain_key attestor_id)).

Definition kick_active_attestor (origin : Origin) (chain_key : ChainKey) (attestor_id : AccountId)
    (unregister : bool) : PM C unit :=
  transactional (
    ensure_origin OperatorsOrigin origin;;
    found ← gets (fun s => dget (Attestors s) chain_key attestor_id);
    attestor ← ok_or_m found AddressNotAttestor;
    do_chill_attestor_immediate chain_key attestor_id;;
    when unregister
      (remove_attestor_and_emit_event chain_key (at_stash attestor) attestor_id)).

Definition force_election (origin : Origin) (chain_key : ChainKey) : PM C unit :=
  transactional (
    ensure_origin OperatorsOrigin origin;;
    ensure_supported chain_key;;
    elect_attestors_for_chain chain_key (env_current_epoch_index env);;
    deposit_event (ForcedElection chain_key (env_current_epoch_index env))).

End Roster.
