(* ===== verification/RosterSpec.v ===== *)
(** * The roster's contract

    What the rest of the pallet relies on of the roster, as an abstract machine
    over one chain's roster: registered attestors and their counter, the active
    set, retired keys and key ownership. Its invariant says that the counter is
    exact, that the active set has no duplicates and consists of registered
    attestors that hold a key, and that no two controllers, registered or
    retired, hold the same key. Every operation of [Roster] refines the machine:
    on each chain it performs a sequence of its steps. *)

From stdpp Require Import prelude gmap list sorting strings.
From Stdlib Require Import ZArith Lia.
From S2P Require Import Prelude Primitives Frame Types Ledger Roster.

Record Roster := mkRoster {
  r_attestors : gmap Z Attestor;
  r_count : Z;
  r_active : list AccountId;
  r_retired : gmap Z RetiredAttestorBlsKeyEntry;
  r_owner : gmap Z AccountId;
  r_max : Z;
}.

(** The roster of one chain in the pallet's storage. *)
Definition roster_of {C} `{Config} (ck : ChainKey) (s : State C) : Roster :=
  mkRoster (row (Attestors s) ck) (attestors_count s ck) (active_attestor_set s ck)
    (row (RetiredAttestorBlsKeys s) ck) (row (BlsKeyOwner s) ck) (max_attestors s ck).

(** ** Steps *)

Definition with_status (st : AttestorStatus) (a : Attestor) : Attestor :=
  mkAttestor (at_bls_public_key a) st (at_stash a).

(** Release [key] if [a] owns it. *)
Definition release (key : BlsPublicKey) (a : AccountId) (owner : gmap Z AccountId)
    : gmap Z AccountId :=
  if decide (owner !! key = Some a) then delete key owner else owner.

(** An election: waiting attestors that are admitted become active, leaving ones
    idle. *)
Definition elected_status (adm : AccountId -> bool) (a : AccountId) (at_ : Attestor) : Attestor :=
  match at_status at_ with
  | Waiting => if adm a then with_status Active at_ else at_
  | Leaving => with_status Idle at_
  | _ => at_
  end.

(** [active'] is [active] without [a], in some order. *)
Definition dropped (a : AccountId) (active active' : list AccountId) : Prop :=
  (a ∈ active /\ ((a :: active') ≡ₚ active)) \/ ((a ∉ active) /\ active' = active).

Inductive roster_step `{Config} : Roster -> Roster -> Prop :=
| rs_register r a stash :
    r_attestors r !! a = None -> r_retired r !! a = None -> r_count r < r_max r ->
    roster_step r (mkRoster (<[a := mkAttestor None Idle stash]> (r_attestors r))
      (saturating_add 32 (r_count r) 1) (r_active r) (r_retired r) (r_owner r) (r_max r))
| rs_forget r a e :
    r_retired r !! a = Some e ->
    roster_step r (mkRoster (r_attestors r) (r_count r) (r_active r) (delete a (r_retired r))
      (release (re_bls_public_key e) a (r_owner r)) (r_max r))
| rs_unregister r a at_ active' era :
    r_attestors r !! a = Some at_ -> at_status at_ = Idle -> dropped a (r_active r) active' ->
    roster_step r (mkRoster (delete a (r_attestors r)) (saturating_sub (r_count r) 1) active'
      (match at_bls_public_key at_ with
       | Some k => <[a := mkRetired k era (at_stash at_)]> (r_retired r)
       | None => r_retired r
       end) (r_owner r) (r_max r))
| rs_activate r a at_ key :
    r_attestors r !! a = Some at_ ->
    (is_Some (at_bls_public_key at_) -> at_status at_ = Idle) ->
    (forall o, r_owner r !! key = Some o -> o = a) ->
    roster_step r (mkRoster (<[a := mkAttestor (Some key) Waiting (at_stash at_)]> (r_attestors r))
      (r_count r) (r_active r) (r_retired r)
      (<[key := a]> (match at_bls_public_key at_ with
        | Some old => if old =? key then r_owner r else delete old (r_owner r)
        | None => r_owner r
        end)) (r_max r))
| rs_leave r a at_ :
    r_attestors r !! a = Some at_ -> at_status at_ = Active ->
    roster_step r (mkRoster (<[a := with_status Leaving at_]> (r_attestors r))
      (r_count r) (r_active r) (r_retired r) (r_owner r) (r_max r))
| rs_chill r a at_ active' :
    r_attestors r !! a = Some at_ ->
    dropped a (r_active r) active' ->
    roster_step r (mkRoster (<[a := with_status Idle at_]> (r_attestors r))
      (r_count r) active' (r_retired r) (r_owner r) (r_max r))
| rs_elect r adm active' :
    NoDup active' ->
    (forall a, a ∈ active' <-> exists at_, r_attestors r !! a = Some at_ /\
       at_status (elected_status adm a at_) = Active) ->
    roster_step r (mkRoster (map_imap (fun a at_ => Some (elected_status adm a at_)) (r_attestors r))
      (r_count r) active' (r_retired r) (r_owner r) (r_max r))
| rs_set_max r max' :
    max' <= MaxAttestationNodes ->
    roster_step r (mkRoster (r_attestors r) (r_count r) (r_active r) (r_retired r) (r_owner r)
      max').

(** Taking a removed chain's roster down: nobody is active any more, and retired
    keys and key ownership are dropped while the attestors keep their records. *)
Inductive teardown_step `{Config} : Roster -> Roster -> Prop :=
| td_close r max' :
    max' <= MaxAttestationNodes ->
    teardown_step r (mkRoster (r_attestors r) (r_count r) [] (r_retired r) (r_owner r) max')
| td_chill r a at_ :
    r_attestors r !! a = Some at_ -> r_active r = [] ->
    teardown_step r (mkRoster (<[a := with_status Idle at_]> (r_attestors r)) (r_count r)
      (r_active r) (r_retired r) (r_owner r) (r_max r))
| td_retired r a :
    teardown_step r (mkRoster (r_attestors r) (r_count r) (r_active r) (delete a (r_retired r))
      (r_owner r) (r_max r))
| td_owner r owner' :
    owner' ⊆ r_owner r ->
    teardown_step r (mkRoster (r_attestors r) (r_count r) (r_active r) (r_retired r) owner'
      (r_max r)).

(** ** Invariant *)

Record roster_inv `{Config} (r : Roster) : Prop := {
  ri_max : r_max r <= MaxAttestationNodes;
  ri_bound : r_count r <= MaxAttestationNodes;
  ri_count : r_count r = Z.of_nat (size (r_attestors r));
  ri_nodup : NoDup (r_active r);
  ri_active : forall a, a ∈ r_active r -> exists at_, r_attestors r !! a = Some at_ /\
    (at_status at_ = Active \/ at_status at_ = Leaving);
  ri_keyed : forall a at_, r_attestors r !! a = Some at_ ->
    at_bls_public_key at_ = None -> at_status at_ = Idle;
  ri_retired : forall a, is_Some (r_attestors r !! a) -> r_retired r !! a = None;
}.

(** Ownership is exact: a registered or retired controller owns its key. *)
Record keys_inv (r : Roster) : Prop := {
  ki_attestor : forall a at_ k, r_attestors r !! a = Some at_ ->
    at_bls_public_key at_ = Some k -> r_owner r !! k = Some a;
  ki_retired : forall a e, r_retired r !! a = Some e ->
    r_owner r !! re_bls_public_key e = Some a;
}.

Section Invariants.
Context `{Config} `{!ConfigOk}.

Lemma dropped_spec a l l' : NoDup l -> dropped a l l' ->
  NoDup l' /\ forall b, b ∈ l' <-> b ∈ l /\ b <> a.
Proof.
  intros Hnd [[Ha Hp]|[Ha ->]].
  - rewrite <- Hp in Hnd. apply NoDup_cons in Hnd as [Hna Hnd]. split; [done|].
    intros b. rewrite <- Hp, elem_of_cons. split; [|tauto].
    intros Hb. split; [by right|]. by intros ->.
  - split; [done|]. intros b. split; [|tauto]. intros Hb. split; [done|]. by intros ->.
Qed.

Lemma release_lookup key a owner k :
  release key a owner !! k =
  if decide (k = key /\ owner !! key = Some a) then None else owner !! k.
Proof.
  unfold release. destruct (decide (owner !! key = Some a)) as [Ho|Ho].
  - rewrite lookup_delete. destruct (decide (key = k)) as [->|].
    + by rewrite decide_True.
    + rewrite decide_False by naive_solver. done.
  - rewrite decide_False by tauto. done.
Qed.

Lemma elected_key adm a at_ :
  at_bls_public_key (elected_status adm a at_) = at_bls_public_key at_.
Proof. unfold elected_status. destruct (at_status at_), (adm a); done. Qed.

Lemma register_inv r a stash :
  roster_inv r -> r_attestors r !! a = None -> r_retired r !! a = None -> r_count r < r_max r ->
  roster_inv (mkRoster (<[a := mkAttestor None Idle stash]> (r_attestors r))
    (saturating_add 32 (r_count r) 1) (r_active r) (r_retired r) (r_owner r) (r_max r)).
Proof.
  intros [Hm Hbd Hc Hnd Ha Hk Hr] Hnew Hnr Hlt. pose proof cfg_nodes.
  constructor; cbn; auto.
  - unfold saturating_add. lia.
  - rewrite map_size_insert_None by done. unfold saturating_add.
    rewrite umax_32. lia.
  - intros b Hb. destruct (Ha b Hb) as (at_ & Hat & ?). exists at_.
    rewrite lookup_insert_ne by congruence. done.
  - intros b at_. rewrite lookup_insert. case_decide; [intros [= <-]; done|apply Hk].
  - intros b. rewrite lookup_insert. case_decide as Hab; [by subst b|apply Hr].
Qed.

Lemma unregister_inv r a at_ active' era :
  roster_inv r -> r_attestors r !! a = Some at_ -> at_status at_ = Idle ->
  dropped a (r_active r) active' ->
  roster_inv (mkRoster (delete a (r_attestors r)) (saturating_sub (r_count r) 1) active'
    (match at_bls_public_key at_ with
     | Some k => <[a := mkRetired k era (at_stash at_)]> (r_retired r)
     | None => r_retired r
     end) (r_owner r) (r_max r)).
Proof.
  intros [Hm Hbd Hc Hnd Ha Hk Hr] Hat Hidle Hdrop.
  destruct (dropped_spec _ _ _ Hnd Hdrop) as [Hnd' Hel].
  constructor; cbn; auto.
  - pose proof cfg_nodes. unfold saturating_sub. lia.
  - rewrite map_size_delete_Some by eauto. rewrite Hc. unfold saturating_sub.
    assert (size (r_attestors r) <> O); [|lia].
    apply map_size_non_empty_iff. intros He. by rewrite He in Hat.
  - intros b [Hb Hne]%Hel. destruct (Ha b Hb) as (x & Hx & ?). exists x.
    by rewrite lookup_delete_ne.
  - intros b x. rewrite lookup_delete. case_decide; [done|apply Hk].
  - intros b. rewrite lookup_delete. case_decide as Hab; [by intros []|]. intros Hb.
    destruct (at_bls_public_key at_); [rewrite lookup_insert_ne by done|]; by apply Hr.
Qed.

(** Changing one attestor's record, keeping key presence in line with status. *)
Lemma replace_attestor_inv r a at_ at' active' owner' :
  roster_inv r -> r_attestors r !! a = Some at_ ->
  NoDup active' ->
  (forall b, b ∈ active' -> b ∈ r_active r) ->
  (a ∈ active' -> at_status at' = Active \/ at_status at' = Leaving) ->
  (at_bls_public_key at' = None -> at_status at' = Idle) ->
  roster_inv (mkRoster (<[a := at']> (r_attestors r)) (r_count r) active' (r_retired r)
    owner' (r_max r)).
Proof.
  intros [Hm Hbd Hc Hnd Ha Hk Hr] Hat Hnd' Hsub Hst Hkey. constructor; cbn; auto.
  - by rewrite map_size_insert_Some by eauto.
  - intros b Hb. rewrite lookup_insert. case_decide as Hab; [subst b; eauto|]. by apply Ha, Hsub.
  - intros b x. rewrite lookup_insert. case_decide; [intros [= <-]; done|apply Hk].
  - intros b. rewrite lookup_insert. case_decide as Hab; [subst b|]; intros; apply Hr; eauto.
Qed.

Lemma elect_inv r adm active' :
  roster_inv r -> NoDup active' ->
  (forall a, a ∈ active' <-> exists at_, r_attestors r !! a = Some at_ /\
     at_status (elected_status adm a at_) = Active) ->
  roster_inv (mkRoster (map_imap (fun a at_ => Some (elected_status adm a at_)) (r_attestors r))
    (r_count r) active' (r_retired r) (r_owner r) (r_max r)).
Proof.
  intros [Hm Hbd Hc Hnd Ha Hk Hr] Hnd' Hel. constructor; cbn; auto.
  - rewrite Hc. f_equal. rewrite <- !(size_dom (D := gset Z)). f_equal. symmetry.
    apply set_eq. intros b. rewrite !elem_of_dom, map_lookup_imap.
    destruct (r_attestors r !! b); simpl; split; intros [? ?]; eauto; done.
  - intros b (x & Hx & Hst)%Hel. exists (elected_status adm b x).
    rewrite map_lookup_imap, Hx. cbn. auto.
  - intros b x. rewrite map_lookup_imap. intros (y & Hy & [= <-])%bind_Some.
    rewrite elected_key. intros Hn. pose proof (Hk _ _ Hy Hn) as Hi.
    unfold elected_status. by rewrite Hi.
  - intros b. rewrite map_lookup_imap. intros [x (y & Hy & _)%bind_Some]. apply Hr. eauto.
Qed.

Lemma roster_step_inv r r' : roster_step r r' -> roster_inv r -> roster_inv r'.
Proof.
  intros Hstep Hinv. pose proof (ri_nodup r Hinv) as Hnd.
  destruct Hstep as [r a stash|r a e He|r a at_ active' era|r a at_ key Hat Hidle Hown
    |r a at_ Hat Hst|r a at_ active' Hat Hdrop|r adm active'|r max' Hmax].
  - by apply register_inv.
  - destruct Hinv as [Hm Hbd Hc _ Ha Hk Hr]. constructor; cbn; auto.
    intros b Hb. rewrite lookup_delete. case_decide; [done|by apply Hr].
  - by apply unregister_inv.
  - eapply replace_attestor_inv; eauto; [|done].
    intros Hin. exfalso. destruct (ri_active r Hinv a Hin) as (x & Hx & Hs). simplify_eq.
    assert (at_status at_ = Idle) as Hi.
    { destruct (at_bls_public_key at_) eqn:Hkey; [by apply Hidle|by eapply ri_keyed]. }
    rewrite Hi in Hs. naive_solver.
  - eapply replace_attestor_inv; eauto. cbn. intros Hn.
    pose proof (ri_keyed r Hinv _ _ Hat Hn). congruence.
  - destruct (dropped_spec _ _ _ Hnd Hdrop) as [Hnd' Hel].
    eapply replace_attestor_inv; eauto; [|by naive_solver..].
    intros b Hb. by apply Hel.
  - by apply elect_inv.
  - by destruct Hinv.
Qed.

Lemma teardown_step_inv r r' : teardown_step r r' -> roster_inv r -> roster_inv r'.
Proof.
  intros Hstep Hinv. pose proof Hinv as [Hm Hbd Hc Hnd Ha Hk Hr].
  destruct Hstep as [r max' Hmax|r a at_ Hat Hact|r a|r owner' _].
  - constructor; cbn; auto; [constructor|]. intros a []%not_elem_of_nil.
  - eapply replace_attestor_inv; eauto. rewrite Hact. by intros []%not_elem_of_nil.
  - constructor; cbn; auto. intros b Hb. rewrite lookup_delete. case_decide; auto.
  - by constructor.
Qed.

Lemma activate_keys_inv r a at_ key attestors' :
  keys_inv r -> roster_inv r -> r_attestors r !! a = Some at_ ->
  (forall o, r_owner r !! key = Some o -> o = a) ->
  attestors' = <[a := mkAttestor (Some key) Waiting (at_stash at_)]> (r_attestors r) ->
  keys_inv (mkRoster attestors' (r_count r) (r_active r) (r_retired r)
    (<[key := a]> (match at_bls_public_key at_ with
      | Some old => if old =? key then r_owner r else delete old (r_owner r)
      | None => r_owner r
      end)) (r_max r)).
Proof.
  intros [Ha Hr] Hinv Hat Hown ->.
  assert (forall k b, b <> a -> r_owner r !! k = Some b ->
    <[key := a]> (match at_bls_public_key at_ with
      | Some old => if old =? key then r_owner r else delete old (r_owner r)
      | None => r_owner r
      end) !! k = Some b) as Hkeep.
  { intros k b Hb Hk. rewrite lookup_insert. case_decide as He.
    - subst k. by apply Hown in Hk.
    - destruct (at_bls_public_key at_) as [old|] eqn:Hold; [|done].
      destruct (Z.eqb_spec old key); [done|].
      rewrite lookup_delete_ne; [done|]. intros ->.
      pose proof (Ha _ _ _ Hat Hold). congruence. }
  constructor; cbn.
  - intros b x k. rewrite lookup_insert. case_decide as Hab.
    + intros [= <-] [= <-]. subst b. apply lookup_insert_eq.
    + intros Hx Hk. apply Hkeep; [done|by eapply Ha].
  - intros b e He. apply Hkeep; [|by apply Hr]. intros ->.
    rewrite (ri_retired r Hinv a) in He; [done|by eexists].
Qed.

Lemma roster_step_keys_inv r r' :
  roster_step r r' -> roster_inv r -> keys_inv r -> keys_inv r'.
Proof.
  intros Hstep Hinv Hkeys. pose proof Hkeys as [Ha Hr].
  destruct Hstep as [r a stash Hnew Hnr _|r a e He|r a at_ active' era Hat _ _
    |r a at_ key Hat Hidle Hown|r a at_ Hat Hst|r a at_ active' Hat Hdrop|r adm active'|r max' _].
  - constructor; cbn; [|exact Hr]. intros b x k. rewrite lookup_insert.
    case_decide; [by intros [= <-]|apply Ha].
  - assert (forall b k, b <> a -> r_owner r !! k = Some b ->
      release (re_bls_public_key e) a (r_owner r) !! k = Some b) as Hkeep.
    { intros b k Hb Hk. rewrite release_lookup, decide_False; [done|].
      intros [-> Ho]. congruence. }
    constructor; cbn.
    + intros b x k Hx Hk. apply Hkeep; [|by eapply Ha]. intros ->.
      rewrite (ri_retired r Hinv a) in He; [done|by eexists].
    + intros b e'. rewrite lookup_delete. case_decide as Hab; [done|].
      intros He'. apply Hkeep; [done|by apply Hr].
  - constructor; cbn.
    + intros b x k. rewrite lookup_delete. case_decide; [done|apply Ha].
    + intros b e. destruct (at_bls_public_key at_) as [k|] eqn:Hk; [|apply Hr].
      rewrite lookup_insert. case_decide as Hab; [|apply Hr].
      intros [= <-]. subst b. by eapply Ha.
  - by eapply activate_keys_inv.
  - constructor; cbn; [|exact Hr]. intros b x k. rewrite lookup_insert.
    case_decide as Hab; [|apply Ha]. subst b. intros [= <-]. cbn. exact (Ha _ _ _ Hat).
  - constructor; cbn; [|exact Hr]. intros b x k. rewrite lookup_insert.
    case_decide as Hab; [|apply Ha]. subst b. intros [= <-]. cbn. exact (Ha _ _ _ Hat).
  - constructor; cbn; [|exact Hr]. intros b x k. rewrite map_lookup_imap.
    intros (y & Hy & [= <-])%bind_Some. rewrite elected_key. exact (Ha _ _ _ Hy).
  - by constructor.
Qed.

(** Sequences of steps. *)
Lemma roster_steps_inv r r' : rtc roster_step r r' -> roster_inv r -> roster_inv r'.
Proof. induction 1; eauto using roster_step_inv. Qed.

Lemma teardown_steps_inv r r' : rtc teardown_step r r' -> roster_inv r -> roster_inv r'.
Proof. induction 1; eauto using teardown_step_inv. Qed.

Lemma roster_steps_keys_inv r r' :
  rtc roster_step r r' -> roster_inv r -> keys_inv r -> keys_inv r'.
Proof. induction 1; eauto using roster_step_inv, roster_step_keys_inv. Qed.

(** Two controllers that hold the same key are the same controller. *)
Lemma keys_inv_unique r a b x y k :
  keys_inv r -> r_attestors r !! a = Some x -> r_attestors r !! b = Some y ->
  at_bls_public_key x = Some k -> at_bls_public_key y = Some k -> a = b.
Proof.
  intros [Ha _] Hx Hy Hkx Hky.
  pose proof (Ha _ _ _ Hx Hkx). pose proof (Ha _ _ _ Hy Hky). congruence.
Qed.

Lemma active_bound r : roster_inv r -> zlen (r_active r) <= MaxAttestationNodes.
Proof.
  intros Hr. etrans; [|apply (ri_bound r Hr)]. rewrite (ri_count r Hr). unfold zlen.
  rewrite <- length_map_to_list, <- (length_map fst). apply Nat2Z.inj_le, submseteq_length.
  apply NoDup_submseteq; [apply Hr|]. intros a (at_ & Ha & _)%(ri_active r Hr).
  by apply elem_of_map_keys.
Qed.
End Invariants.
