(* ===== verification/RosterRefine.v ===== *)
(** * The roster operations refine the contract

    Every operation of [Roster], run to success, performs a sequence of
    [roster_step]s on each chain's roster, so the contract's invariants hold of
    the pallet's storage after it. *)

From stdpp Require Import prelude gmap list sorting strings.
From Stdlib Require Import ZArith Lia.
From S2P Require Import Prelude Primitives Frame Types Ledger Roster RosterSpec.

Section Refines.
Context {C : Type} `{Config} `{!ConfigOk}.
Implicit Types (s : State C) (ck : Z).

Definition rosters_ok s : Prop := forall ck, roster_inv (roster_of ck s).

(** A successful run from rosters in order is a sequence of steps on each. *)
Definition refines {A} (m : PM C A) : Prop :=
  forall s a s', m s = (Ok a, s') -> rosters_ok s ->
  forall ck, rtc roster_step (roster_of ck s) (roster_of ck s').

Lemma refines_ok {A} (m : PM C A) : refines m -> keeps rosters_ok m.
Proof. intros Hm s a s' Hs Hok ck. eapply roster_steps_inv; [by eapply Hm|done]. Qed.

Lemma refines_bind {A B} (m : PM C A) (k : A -> PM C B) :
  refines m -> (forall a, refines (k a)) -> refines (m ≫= k).
Proof.
  intros Hm Hk s b s' (a & s1 & H1 & H2)%bind_ok Hok ck.
  etrans; [by eapply Hm|]. eapply Hk; [done|]. by eapply refines_ok.
Qed.

Lemma refines_leaves {A} (m : PM C A) : (forall ck, leaves (roster_of ck) m) -> refines m.
Proof. intros Hm s a s' Hs _ ck. by rewrite (Hm ck _ _ _ Hs). Qed.

Lemma refines_transactional {A} (m : PM C A) : refines m -> refines (transactional m).
Proof. intros Hm s a s' Hs%transactional_ok. by eapply Hm. Qed.

Lemma refines_when b (m : PM C unit) : refines m -> refines (when b m).
Proof. intros Hm. destruct b; [done|]. apply refines_leaves. intros ck. apply leaves_ret. Qed.

Lemma refines_for_each {A} (f : A -> PM C unit) l :
  (forall x, refines (f x)) -> refines (for_each f l).
Proof.
  intros Hf. induction l as [|x l IH]; simpl; [apply refines_leaves; leaves|].
  apply refines_bind; auto.
Qed.

Lemma refines_filter_map_m {A B} (f : A -> PM C (option B)) l :
  (forall x, refines (f x)) -> refines (filter_map_m f l).
Proof.
  intros Hf. induction l as [|x l IH]; simpl; [apply refines_leaves; leaves|].
  apply refines_bind; [done|intros o]. apply refines_bind; [done|intros r].
  apply refines_leaves. leaves.
Qed.

(** One step on one chain, nothing on the others. *)
Lemma refines_at ck s s' :
  rtc roster_step (roster_of ck s) (roster_of ck s') ->
  (forall k, k <> ck -> roster_of k s' = roster_of k s) ->
  forall k, rtc roster_step (roster_of k s) (roster_of k s').
Proof. intros Hck Hne k. destruct (decide (k = ck)) as [->|Hk]; [done|]. by rewrite Hne. Qed.
End Refines.

(** Evaluate the rosters of a state written as a sequence of updates. *)
Ltac roster_eval :=
  unfold roster_of, attestors_count, active_attestor_set, max_attestors; cbn;
  rewrite ?row_dinsert, ?row_dremove, ?lookup_insert;
  repeat first [rewrite decide_True by done | rewrite decide_False by done]; cbn.

(** The steps left in [H] leave the rosters alone. *)
Ltac rest_leaves H Hrest :=
  lazymatch type of H with
  | ?m ?x = (_, ?y) =>
      assert (forall k, roster_of k y = roster_of k x) as Hrest;
      [intros k; refine ((_ : leaves (roster_of k) m) _ _ _ H); clear; leaves|]
  end.

Section Ops.
Context {C : Type} `{!Currency C} `{Config} `{!ConfigOk} `{Bls} `{FrameStorage Z} `{!FrameStorageLaws Z}.
Variable env : Env.
Implicit Types (s : State C) (ck : Z).

(** ** The active set *)

Lemma swap_remove_dropped a (l : list AccountId) :
  dropped a l (match list_find (eq a) l with
    | Some (pos, _) => swap_remove pos l
    | None => l
    end).
Proof.
  destruct (list_find (eq a) l) as [[pos x]|] eqn:Hf.
  - apply list_find_Some in Hf as (Hx & <- & _). left.
    split; [by eapply list_elem_of_lookup_2|by apply swap_remove_perm].
  - right. split; [|done]. apply list_find_None in Hf. rewrite Forall_forall in Hf.
    intros Hin. by eapply Hf.
Qed.

Lemma do_chill_refines ck a s u s' at_ :
  dget (Attestors s) ck a = Some at_ ->
  do_chill_attestor_immediate ck a s = (Ok u, s') ->
  forall k, rtc roster_step (roster_of k s) (roster_of k s').
Proof.
  intros Hat Hrun. unfold do_chill_attestor_immediate, set_attestor_status,
    remove_active_attestor_from_set, deposit_event in Hrun. call_inv. rewrite Hat.
  apply (refines_at ck).
  - apply rtc_once. roster_eval.
    apply (rs_chill (roster_of ck s) a at_); [done|]. apply swap_remove_dropped.
  - intros k Hk. by roster_eval.
Qed.
Lemma schedule_chill_refines ck a s u s' at_ :
  dget (Attestors s) ck a = Some at_ -> at_status at_ = Active ->
  schedule_voluntary_chill ck a s = (Ok u, s') ->
  forall k, rtc roster_step (roster_of k s) (roster_of k s').
Proof.
  intros Hat Hst Hrun. unfold schedule_voluntary_chill, set_attestor_status in Hrun.
  call_inv. rewrite Hat. apply (refines_at ck).
  - apply rtc_once. roster_eval. by apply (rs_leave (roster_of ck s) a at_).
  - intros k Hk. by roster_eval.
Qed.

(** ** Retired keys *)

Lemma index_pair_leaves_rosters k stash ck a :
  leaves (@roster_of C _ k) (remove_stash_retired_index_pair stash ck a).
Proof. unfold remove_stash_retired_index_pair. leaves. Qed.

(** [release_bls_key] changes the ownership map of one chain only. *)
Lemma release_bls_key_ok ck key a s u s' :
  release_bls_key ck key a s = (Ok u, s') ->
  (forall k, roster_of k s' = if decide (k = ck) then
     let r := roster_of k s in mkRoster (r_attestors r) (r_count r) (r_active r) (r_retired r)
       (release key a (r_owner r)) (r_max r)
   else roster_of k s) /\
  RetiredAttestorBlsKeys s' = RetiredAttestorBlsKeys s.
Proof.
  intros Hrun. unfold release_bls_key in Hrun. call_inv.
  when_inv Hb; run_inv; (split; [|done]); intros k;
    destruct (decide (k = ck)) as [->|Hk]; roster_eval; f_equal; unfold release.
  - apply bool_decide_eq_true in Hb. by rewrite decide_True.
  - apply bool_decide_eq_false in Hb. by rewrite decide_False.
Qed.

Lemma clear_retired_refines ck a stash s u s' :
  clear_retired_bls_entry_for_controller ck a stash s = (Ok u, s') ->
  (forall k, rtc roster_step (roster_of k s) (roster_of k s')) /\
  (forall k, r_attestors (roster_of k s') = r_attestors (roster_of k s)) /\
  dget (RetiredAttestorBlsKeys s') ck a = None.
Proof.
  intros Hrun. unfold clear_retired_bls_entry_for_controller in Hrun. call_inv.
  destruct (dget (RetiredAttestorBlsKeys s) ck a) as [e|] eqn:He; call_inv; [|done].
  match goal with H : remove_stash_retired_index_pair _ _ _ _ = (_, ?x) |- _ =>
    rename H into Hp, x into s1 end.
  match goal with H : release_bls_key _ _ _ _ = _ |- _ =>
    apply release_bls_key_ok in H as [Hrel Hret] end.
  pose proof (fun k => index_pair_leaves_rosters k _ _ _ _ _ _ Hp) as Hp'.
  assert (RetiredAttestorBlsKeys s1 = dremove ck a (RetiredAttestorBlsKeys s)) as Hd.
  { refine ((_ : leaves RetiredAttestorBlsKeys _) _ _ _ Hp).
    unfold remove_stash_retired_index_pair. leaves. }
  split_and!.
  - apply (refines_at ck).
    + apply rtc_once. rewrite Hrel, decide_True by done. rewrite Hp'. roster_eval.
      by apply (rs_forget (roster_of ck s) a e).
    + intros k Hk. rewrite Hrel, decide_False, Hp' by done. by roster_eval.
  - intros k. rewrite Hrel. case_decide; rewrite Hp'; done.
  - rewrite Hret, Hd, dget_dremove. by rewrite decide_True.
Qed.
Lemma roster_retired_remove k ck a s :
  roster_of k (s <| RetiredAttestorBlsKeys ::= dremove ck a |>) =
  if decide (k = ck) then
    let r := roster_of k s in mkRoster (r_attestors r) (r_count r) (r_active r)
      (delete a (r_retired r)) (r_owner r) (r_max r)
  else roster_of k s.
Proof. destruct (decide (k = ck)) as [->|]; by roster_eval. Qed.

Lemma purge_pair_refines stash era ck a : refines (purge_retired_pair stash era ck a : PM C bool).
Proof.
  intros s b s' Hrun _. unfold purge_retired_pair in Hrun. step_inv Hrun.
  destruct (dget (RetiredAttestorBlsKeys s) ck a) as [e|] eqn:He; [|by run_inv].
  destruct (negb _); [by run_inv|]. destruct (_ <=? _); run_inv; [|done].
  match goal with H : release_bls_key _ _ _ _ = _ |- _ =>
    apply release_bls_key_ok in H as [Hrel Hret] end.
  apply (refines_at ck).
  - apply rtc_once. rewrite roster_retired_remove, Hrel, !decide_True by done.
    by apply (rs_forget (roster_of ck s) a e).
  - intros k Hk. by rewrite roster_retired_remove, Hrel, !decide_False by done.
Qed.

Lemma purge_refines stash era : refines (purge_retired_bls_keys_for_stash stash era : PM C unit).
Proof.
  apply refines_bind; [apply refines_leaves; leaves|]. intros [|p ps].
  { apply refines_leaves. leaves. }
  apply refines_bind; [|intros kept; apply refines_leaves; leaves].
  apply refines_filter_map_m. intros x. apply refines_bind; [apply purge_pair_refines|].
  intros b. apply refines_leaves. leaves.
Qed.

(** ** Registration *)

(** A conditional check does not change the state. *)
Lemma when_ensure_ok {S E} b c (e : E) (s s' : S) u :
  when b (ensure c e) s = (Ok u, s') -> s' = s.
Proof. intros [[_ [_ ->]%ensure_ok]|[_ ->]]%when_ok; done. Qed.

Lemma register_refines ck stash a :
  refines (try_insert_attestor_and_emit_event env ck stash a : PM C unit).
Proof.
  intros s u s' Hrun _. unfold try_insert_attestor_and_emit_event, ensure_supported in Hrun.
  do 3 step_inv Hrun. step_inv Hrun. apply when_ensure_ok in Hstep as ->.
  step_inv Hrun. step_inv Hrun. step_inv Hrun.
  match goal with H : clear_retired_bls_entry_for_controller _ _ _ _ = (_, ?x) |- _ =>
    rename x into s1; apply clear_retired_refines in H as (Hclear & Hat & Hret) end.
  do 5 step_inv Hrun. rest_leaves Hrun Hrest.
  intros k. etrans; [apply Hclear|]. revert k. apply (refines_at ck).
  - apply rtc_once. rewrite Hrest. roster_eval.
    apply (rs_register (roster_of ck s1) a stash); [|done|].
    + rewrite Hat. apply negb_true_iff, bool_decide_eq_false in Hens0.
      by apply eq_None_not_Some.
    + unfold attestor_list_has_space in Hens1. cbn. lia.
  - intros k Hk. rewrite Hrest. by roster_eval.
Qed.
Lemma unregister_refines ck stash a :
  refines (remove_attestor_and_emit_event env ck stash a : PM C unit).
Proof.
  intros s u s' Hrun _. unfold remove_attestor_and_emit_event in Hrun.
  do 9 step_inv Hrun. cbv zeta in Hrun. step_inv Hrun. rename x into at_.
  match goal with H : when _ _ _ = _ |- _ => rest_leaves H Hbond end.
  match type of Hrun with _ ?x = _ => rename x into s1 end.
  assert (forall k, roster_of k s1 = roster_of k s) as Hs1 by (intros k; by rewrite Hbond).
  assert (r_attestors (roster_of ck s1) !! a = Some at_) as Hat by (by rewrite Hs1).
  pose proof (fun act => rs_unregister (roster_of ck s1) a at_ act
    (saturating_add 32 (env_current_era env) BondingDuration) Hat Hens0) as Hst.
  apply Z.eqb_eq in Hens. subst stash.
  unfold remove_active_attestor_from_set, deposit_event in Hrun.
  destruct (at_bls_public_key at_) as [key|]; call_inv; apply (refines_at ck).
  1, 3: apply rtc_once; rewrite <- Hs1; roster_eval; apply Hst, swap_remove_dropped.
  all: intros k Hk; rewrite <- Hs1; by roster_eval.
Qed.
(** ** Activation *)

Lemma start_attesting_refines ck a key pop :
  refines (start_attesting env ck a key pop : PM C unit).
Proof.
  intros s u s' Hrun _. unfold start_attesting, ensure_supported, deposit_event in Hrun.
  do 3 step_inv Hrun. step_inv Hrun. rename x0 into at_.
  match type of Hrun with _ ?x = _ => rename x into s1 end.
  assert (s1 = s /\ (is_Some (at_bls_public_key at_) -> at_status at_ = Idle)) as [-> Hidle].
  { when_inv Hb.
    - apply ensure_ok in Hstep0 as [?%bool_decide_eq_true ->]. done.
    - split; [done|]. by apply bool_decide_eq_false in Hb. }
  do 2 step_inv Hrun. cbv zeta in Hrun. do 3 step_inv Hrun.
  assert (forall o, r_owner (roster_of ck s) !! key = Some o -> o = a) as Hown.
  { intros o Ho. cbn in Ho. unfold dget in Hens1. rewrite Ho in Hens1. lia. }
  pose proof (rs_activate (roster_of ck s) a at_ key Hstep Hidle Hown) as Hst.
  destruct (at_bls_public_key at_) as [old|]; [destruct (old =? key)|];
    cbn [negb when] in Hrun; call_inv; apply (refines_at ck).
  1, 3, 5: apply rtc_once; roster_eval; apply Hst.
  all: intros k Hk; by roster_eval.
Qed.

(** ** Withdrawing *)

Lemma withdraw_refines stash : refines (do_withdraw_unbonded env stash : PM C unit).
Proof.
  unfold do_withdraw_unbonded.
  do 2 (apply refines_bind; [apply refines_leaves; leaves|intros ?]). cbv zeta.
  apply refines_bind; [apply purge_refines|intros _]. apply refines_leaves. leaves.
Qed.
(** ** Elections *)

(** Whether the chain's policy admits a waiting attestor. *)
Definition admits s ck (policy : AttestorElectionPolicy) (a : AccountId) : bool :=
  match policy with
  | OpenToAny => true
  | AuthorizedOnly => bool_decide (is_Some (dget (AuthorizedAttestors s) ck a))
  | DeniedToAll => false
  end.

Definition set_attestors (m : gmap Z Attestor) (r : Roster) : Roster :=
  mkRoster m (r_count r) (r_active r) (r_retired r) (r_owner r) (r_max r).

(** The election's effect on the attestors [ks]. *)
Definition elect_row (adm : AccountId -> bool) (ks : list AccountId) (m : gmap Z Attestor)
    : gmap Z Attestor :=
  map_imap (fun a at_ => Some (if decide (a ∈ ks) then elected_status adm a at_ else at_)) m.

Definition elected (adm : AccountId -> bool) (e : AccountId * Attestor) : option AccountId :=
  match at_status (elected_status adm e.1 e.2) with Active => Some e.1 | _ => None end.

Lemma elect_row_cons adm a ks m at_ :
  m !! a = Some at_ -> a ∉ ks ->
  elect_row adm (a :: ks) m = elect_row adm ks (<[a := elected_status adm a at_]> m).
Proof.
  intros Ha Hks. apply map_eq. intros b. unfold elect_row. rewrite !map_lookup_imap.
  rewrite lookup_insert. destruct (decide (a = b)) as [<-|Hab].
  - rewrite Ha. cbn. rewrite decide_True by (by left). by rewrite decide_False.
  - destruct (m !! b) as [x|]; [cbn|done]. do 2 f_equal.
    destruct (decide (b ∈ ks)); [rewrite decide_True by (by right); done|].
    rewrite decide_False; [done|]. intros [?|?]%elem_of_cons; congruence.
Qed.

Lemma elect_row_nil adm m : elect_row adm [] m = m.
Proof.
  apply map_eq. intros b. unfold elect_row. rewrite map_lookup_imap.
  destruct (m !! b); [cbn|done]. rewrite decide_False; [done|]. apply not_elem_of_nil.
Qed.

Lemma elect_one_run ck policy s a at_ :
  dget (Attestors s) ck a = Some at_ ->
  exists s', elect_one ck policy (a, at_) s = (Ok (elected (admits s ck policy) (a, at_)), s') /\
  roster_of ck s' = set_attestors (<[a := elected_status (admits s ck policy) a at_]>
    (r_attestors (roster_of ck s))) (roster_of ck s) /\
  (forall k, k <> ck -> roster_of k s' = roster_of k s) /\
  AuthorizedAttestors s' = AuthorizedAttestors s.
Proof.
  intros Hat.
  assert (roster_of ck s = set_attestors (<[a := at_]> (r_attestors (roster_of ck s)))
    (roster_of ck s)) as Hid.
  { unfold set_attestors. rewrite insert_id; done. }
  unfold elect_one, elected, elected_status. cbn [fst snd].
  destruct (at_status at_) eqn:Hst.
  all: try destruct policy.
  all: try (unfold gets, mbind, M_bind; cbn [admits]; destruct (bool_decide _)).
  all: cbn; rewrite ?Hst; eauto;
    (eexists; split; [done|split_and!; [by roster_eval|intros; by roster_eval|done]]).
Qed.
Lemma admits_frame s s' ck policy :
  AuthorizedAttestors s' = AuthorizedAttestors s -> admits s' ck policy = admits s ck policy.
Proof. intros Ha. unfold admits. by rewrite Ha. Qed.

Lemma elect_loop_run ck policy es s :
  NoDup es.*1 -> (forall a at_, (a, at_) ∈ es -> dget (Attestors s) ck a = Some at_) ->
  exists s', filter_map_m (elect_one ck policy) es s =
    (Ok (omap (elected (admits s ck policy)) es), s') /\
  roster_of ck s' = set_attestors (elect_row (admits s ck policy) es.*1
    (r_attestors (roster_of ck s))) (roster_of ck s) /\
  (forall k, k <> ck -> roster_of k s' = roster_of k s).
Proof.
  revert s. induction es as [|[a at_] es IH]; intros s Hnd Hes.
  { exists s. split; [done|]. cbn. by rewrite elect_row_nil. }
  apply NoDup_cons in Hnd as [Hna Hnd]. cbn in Hna.
  pose proof (Hes a at_ ltac:(by left)) as Hat.
  destruct (elect_one_run ck policy s a at_ Hat) as (s1 & Hrun1 & Hck1 & Hne1 & Hau).
  pose proof (f_equal r_attestors Hck1) as Hrow. cbn [r_attestors set_attestors] in Hrow.
  destruct (IH s1 Hnd) as (s' & Hrun & Hck & Hne).
  { intros b x Hb. change (r_attestors (roster_of ck s1) !! b = Some x). rewrite Hrow.
    rewrite lookup_insert_ne; [by apply Hes; right|]. intros ->.
    apply Hna. by apply (list_elem_of_fmap_2 fst) in Hb. }
  rewrite (admits_frame s s1) in Hrun, Hck by done.
  exists s'. split_and!.
  - cbn [filter_map_m]. unfold mbind, M_bind. rewrite Hrun1, Hrun. cbn [omap list_omap].
    by destruct (elected _ (a, at_)).
  - rewrite Hck, Hck1. cbn. by erewrite elect_row_cons.
  - intros k Hk. by rewrite Hne, Hne1.
Qed.
Lemma attestor_entries_spec s ck :
  NoDup (attestor_entries s ck).*1 /\
  forall a at_, (a, at_) ∈ attestor_entries s ck <-> dget (Attestors s) ck a = Some at_.
Proof.
  unfold attestor_entries.
  pose proof (NoDup_iter_keys AttestorsItem (row (Attestors s) ck)) as Hnd.
  assert (forall a, a ∈ iter_keys AttestorsItem (row (Attestors s) ck) <->
    is_Some (dget (Attestors s) ck a)) as Hel by (intros; apply elem_of_iter_keys).
  split.
  - replace (omap _ _).*1 with (iter_keys AttestorsItem (row (Attestors s) ck)); [done|].
    revert Hel. generalize (iter_keys AttestorsItem (row (Attestors s) ck)). clear Hnd.
    intros l Hel. assert (forall a, a ∈ l -> is_Some (dget (Attestors s) ck a)) as Hl
      by (intros a; apply Hel). clear Hel.
    induction l as [|a l IH]; [done|]. cbn.
    destruct (Hl a ltac:(by left)) as [x Hx]. rewrite Hx. cbn. f_equal.
    apply IH. intros b Hb. apply Hl. by right.
  - intros a at_. rewrite list_elem_of_omap. split.
    + intros (b & _ & (x & Hx & [= -> ->])%fmap_Some). done.
    + intros Hat. exists a. rewrite Hel, Hat. eauto.
Qed.

Lemma same_membership_perm a b : NoDup a -> same_membership a b = true -> a ≡ₚ b.
Proof.
  unfold same_membership, zlen. intros Hnd [Hlen Hin]%andb_true_iff.
  apply submseteq_length_Permutation; [|lia]. apply NoDup_submseteq; [done|].
  intros x Hx. rewrite forallb_forall in Hin. apply list_elem_of_In, Hin in Hx.
  by apply bool_decide_eq_true in Hx.
Qed.

Lemma elected_all_spec s ck policy :
  let l := omap (elected (admits s ck policy)) (attestor_entries s ck) in
  NoDup l /\ forall a, a ∈ l <-> exists at_, r_attestors (roster_of ck s) !! a = Some at_ /\
    at_status (elected_status (admits s ck policy) a at_) = Active.
Proof.
  destruct (attestor_entries_spec s ck) as [Hnd Hes]. split.
  - eapply sublist_NoDup; [exact Hnd|]. generalize (attestor_entries s ck). clear. intros es.
    induction es as [|e es IH]; cbn [omap list_omap fmap list_fmap]; [constructor|].
    unfold elected at 1. destruct (at_status _); by constructor.
  - intros a. cbv zeta. rewrite list_elem_of_omap. unfold elected. split.
    + intros ([b x] & Hb%Hes & Hel). cbn in Hel.
      destruct (at_status _) eqn:Hst; simplify_eq. eauto.
    + intros (x & Hx & Hst). exists (a, x). cbn. rewrite Hst. split; [|done]. by apply Hes.
Qed.

Lemma elect_row_all s ck adm :
  elect_row adm (attestor_entries s ck).*1 (r_attestors (roster_of ck s)) =
  map_imap (fun a at_ => Some (elected_status adm a at_)) (r_attestors (roster_of ck s)).
Proof.
  destruct (attestor_entries_spec s ck) as [_ Hes].
  apply map_eq. intros a. unfold elect_row. rewrite !map_lookup_imap.
  destruct (r_attestors (roster_of ck s) !! a) as [x|] eqn:Hx; [cbn|done].
  rewrite decide_True; [done|]. apply (list_elem_of_fmap_2' fst _ (a, x)); [|done].
  by apply Hes.
Qed.

(** An election never fails, and is one election step of its chain. *)
Lemma elect_run ck epoch s :
  exists s' active', elect_attestors_for_chain ck epoch s = (Ok tt, s') /\
  let adm := admits s ck (chain_election_policy s ck) in
  NoDup active' /\
  (forall a, a ∈ active' <-> exists at_, r_attestors (roster_of ck s) !! a = Some at_ /\
     at_status (elected_status adm a at_) = Active) /\
  roster_of ck s' =
    (let r := roster_of ck s in
     mkRoster (map_imap (fun a at_ => Some (elected_status adm a at_)) (r_attestors r))
       (r_count r) active' (r_retired r) (r_owner r) (r_max r)) /\
  (forall k, k <> ck -> roster_of k s' = roster_of k s).
Proof.
  destruct (attestor_entries_spec s ck) as [Hnd Hes].
  destruct (elected_all_spec s ck (chain_election_policy s ck)) as [Hndl Hl].
  destruct (elect_loop_run ck (chain_election_policy s ck) (attestor_entries s ck) s Hnd)
    as (s1 & Hrun & Hck & Hne); [by intros; apply Hes|].
  set (l := omap _ _) in *. rewrite elect_row_all in Hck.
  unfold elect_attestors_for_chain, mbind, M_bind, gets. rewrite Hrun.
  destruct (same_membership l (active_attestor_set s1 ck)) eqn:Hsame.
  - exists s1, (r_active (roster_of ck s)). split; [done|]. cbv zeta.
    assert (l ≡ₚ r_active (roster_of ck s)) as Hperm.
    { apply same_membership_perm; [done|]. apply (f_equal r_active) in Hck.
      change (active_attestor_set s1 ck = r_active (roster_of ck s)) in Hck. by rewrite <- Hck. }
    split_and!; [|  |done|done].
    { revert Hndl. by rewrite Hperm. }
    intros a. rewrite <- (Hl a). by rewrite Hperm.
  - eexists _, l. split; [reflexivity|]. cbv zeta. split_and!; [done|done| |].
    + revert Hck. clear. roster_eval. intros [=]. by f_equal.
    + intros k Hk. rewrite <- Hne by done. by roster_eval.
Qed.

Lemma elect_refines ck epoch : refines (elect_attestors_for_chain ck epoch : PM C unit).
Proof.
  intros s u s' Hrun _.
  destruct (elect_run ck epoch s) as (s1 & act & Hrun' & Hnd & Hact & Hck & Hne).
  rewrite Hrun in Hrun'. injection Hrun' as -> ->. apply (refines_at ck); [|done].
  rewrite Hck. apply rtc_once. by apply (rs_elect (roster_of ck s)).
Qed.

Lemma start_election_refines epoch : refines (do_start_election env epoch : PM C unit).
Proof. apply refines_for_each. intros ck. apply elect_refines. Qed.

(** ** Calls *)

Lemma chill_call_refines origin ck a : refines (chill origin ck a : PM C unit).
Proof.
  intros s u s' Hrun _. unfold chill in Hrun. apply transactional_ok in Hrun.
  do 4 step_inv Hrun. rename x0 into at_.
  destruct (at_status at_) eqn:Hst; try discriminate.
  - by eapply schedule_chill_refines.
  - by eapply do_chill_refines.
Qed.

Lemma kick_call_refines origin ck a unregister :
  refines (kick_active_attestor env origin ck a unregister : PM C unit).
Proof.
  intros s u s' Hrun Hok. unfold kick_active_attestor in Hrun. apply transactional_ok in Hrun.
  do 3 step_inv Hrun. step_inv Hrun.
  pose proof (do_chill_refines _ _ _ _ _ _ Hstep Hstep0) as Hchill.
  intros k. etrans; [apply Hchill|].
  eapply (refines_when unregister); [apply unregister_refines|exact Hrun|].
  intros k'. eapply roster_steps_inv; [apply Hchill|apply Hok].
Qed.

Lemma force_election_call_refines origin ck : refines (force_election env origin ck : PM C unit).
Proof.
  apply refines_transactional.
  do 2 (apply refines_bind; [apply refines_leaves; leaves|intros ?]).
  apply refines_bind; [apply elect_refines|]. intros _. apply refines_leaves. leaves.
Qed.

Lemma signed_refines {A} origin (f : AccountId -> PM C A) :
  (forall who, refines (f who)) -> refines (transactional (who ← ensure_signed origin; f who)).
Proof.
  intros Hf. apply refines_transactional, refines_bind; [|done].
  apply refines_leaves. unfold ensure_signed. leaves.
Qed.

Lemma roster_calls_refine origin ck a key pop unregister :
  refines (register_attestor env origin ck a : PM C unit) /\
  refines (unregister_attestor env origin ck a : PM C unit) /\
  refines (register_invulnerable env origin ck a : PM C unit) /\
  refines (unregister_invulnerable origin ck a : PM C unit) /\
  refines (attest env origin ck key pop : PM C unit) /\
  refines (chill origin ck a : PM C unit) /\
  refines (withdraw_unbonded env origin : PM C unit) /\
  refines (authorize_attestor env origin ck a : PM C unit) /\
  refines (remove_authorized_attestor origin ck a : PM C unit) /\
  refines (kick_active_attestor env origin ck a unregister : PM C unit) /\
  refines (force_election env origin ck : PM C unit).
Proof.
  split_and!; try (apply refines_leaves; leaves; fail).
  - apply signed_refines. intros who. apply register_refines.
  - apply signed_refines. intros who. apply unregister_refines.
  - apply signed_refines. intros who. apply start_attesting_refines.
  - apply chill_call_refines.
  - apply signed_refines. intros who. apply withdraw_refines.
  - apply kick_call_refines.
  - apply force_election_call_refines.
Qed.
End Ops.
