(* ===== verification/Bonds.v ===== *)
(** * Bonds behind the roster

    The ledgers and locks of [Ledger] under the roster's operations: whatever is
    registered, unregistered or withdrawn, every ledger stays balanced and the
    lock on a stash is the total of its ledger; withdrawing releases exactly the
    chunks whose era has come. *)

From stdpp Require Import prelude gmap list sorting strings.
From Stdlib Require Import ZArith Lia.
From S2P Require Import Prelude Primitives Frame Types Ledger Roster.

Section Bonds.
Context {C : Type} `{!Currency C} `{Config} `{Bls} `{FrameStorage Z} `{!CurrencyLaws C}.
Variable env : Env.
Implicit Types (s : State C) (ck : Z).

Record bonds_inv s : Prop := {
  bi_ledger : ledger_inv s;
  bi_min : forall ck, in_range 128 (min_bond_requirement s ck);
  bi_collateral : forall ck a v, dget (AttestorCollateral s) ck a = Some v -> 0 <= v;
}.

(** What the invariant reads. *)
Definition bonds_view s := (Ledger s, currency s, MinBondRequirement s, AttestorCollateral s).

Lemma bonds_inv_frame s s' : bonds_view s' = bonds_view s -> bonds_inv s -> bonds_inv s'.
Proof.
  intros [= Hl Hc Hm Ha] [I1 I2 I3]. constructor.
  - by eapply ledger_inv_frame.
  - intros ck. unfold min_bond_requirement. rewrite Hm. apply I2.
  - rewrite Ha. exact I3.
Qed.

Lemma bonds_keeps_leaves {A} (m : PM C A) : leaves bonds_view m -> keeps bonds_inv m.
Proof. apply keeps_leaves, bonds_inv_frame. Qed.

(** An operation on [Ledger] and [currency] only. *)
Lemma bonds_ledger_run {A} (m : PM C A) s a s' :
  leaves (fun s => (MinBondRequirement s, AttestorCollateral s)) m ->
  m s = (Ok a, s') -> bonds_inv s -> ledger_inv s' -> bonds_inv s'.
Proof.
  intros Hl Hs Hb Hi. pose proof (Hl _ _ _ Hs) as [= Hm Ha]. constructor; [done| |].
  - intros ck. unfold min_bond_requirement. rewrite Hm. apply Hb.
  - rewrite Ha. apply Hb.
Qed.

Lemma currency_call_keeps (f : C -> Result string C) :
  (forall c c' x, f c = Ok c' -> get_locked_balance c' x = get_locked_balance c x) ->
  keeps bonds_inv (currency_call f : PM C unit).
Proof.
  intros Hf s u s' Hrun Hb. eapply bonds_ledger_run; [|exact Hrun|done|].
  { unfold currency_call. leaves. }
  destruct Hb as [Hl _ _]. unfold currency_call in Hrun. call_inv.
  destruct (f (currency s)) as [c'|] eqn:Hc; simplify_eq.
  apply ledger_inv_currency; [|done]. intros x. by eapply Hf.
Qed.

(** ** Unbonding *)

Lemma unlock_stake_spec l v era l' v' :
  0 < v <= al_active l -> ledger_wf l -> al_total_staked l <= umax 128 ->
  unlock_stake l v era = Ok (l', v') ->
  ledger_wf l' /\ al_stash l' = al_stash l /\ al_total_staked l' = al_total_staked l /\
  v <= v' <= al_active l /\ al_active l' = al_active l - v'.
Proof.
  intros Hv (Htot & Hact & Hpos) Hmax Hrun. unfold unlock_stake in Hrun.
  destruct (if al_active l - v <? minimum_balance then _ else _) as [act val] eqn:Hav.
  assert (v <= val <= al_active l /\ act = al_active l - val) as [Hval ->].
  { destruct (_ <? _); injection Hav as <- <-; lia. }
  assert (forall c cs, al_unlocking l = cs ++ [c] ->
    saturating_add 128 (uc_value c) val = uc_value c + val) as Hsat.
  { intros c cs Hcs. rewrite Hcs in Htot, Hpos. rewrite chunks_sum_app in Htot. cbn in Htot.
    apply Forall_app in Hpos as [Hpos _]. apply chunks_sum_nonneg in Hpos.
    unfold saturating_add. lia. }
  assert (forall cs, al_active l + chunks_sum (al_unlocking l) = al_active l - val + chunks_sum cs ->
    Forall (fun c => 0 < uc_value c) cs ->
    Ok (mkLedger (al_stash l) (al_total_staked l) (al_active l - val) cs, val) =
      (Ok (l', v') : Result (DispatchError Error) _) ->
    ledger_wf l' /\ al_stash l' = al_stash l /\ al_total_staked l' = al_total_staked l /\
    v <= v' <= al_active l /\ al_active l' = al_active l - v') as Hdone.
  { intros cs Hsum Hcs [= <- <-]. split; [|cbn; lia].
    split_and!; cbn [al_total_staked al_active al_unlocking]; [lia|lia|done]. }
  assert (Forall (fun c => 0 < uc_value c) [mkUnlockChunk val era]) as Hnew
    by (apply Forall_singleton; cbn; lia).
  destruct (last (al_unlocking l)) as [c|] eqn:Hlast.
  - apply last_Some in Hlast as [cs Hcs]. rewrite (Hsat c cs Hcs) in Hrun.
    destruct (Z.eqb_spec (uc_era c) era); [|destruct (_ <? _); [|done]];
      (eapply Hdone; [| |exact Hrun]); rewrite Hcs in *.
    + rewrite removelast_last, !chunks_sum_app, !chunks_sum_one. cbn [uc_value]. lia.
    + rewrite removelast_last. apply Forall_app in Hpos as [Hpos Hc]. apply Forall_app. split; [done|].
      rewrite Forall_singleton in Hc. apply Forall_singleton. cbn in *. lia.
    + rewrite !chunks_sum_app, !chunks_sum_one. cbn [uc_value]. lia.
    + apply Forall_app. by split.
  - apply last_None in Hlast. destruct (_ <? _); [|done].
    eapply Hdone; [|exact Hnew|exact Hrun]. rewrite Hlast, chunks_sum_one. cbn. lia.
Qed.
Lemma unbond_stake_inv stash l v era s u s' :
  0 < v <= al_active l -> Ledger s !! stash = Some l ->
  unbond_stake env stash l v era s = (Ok u, s') -> ledger_inv s -> ledger_inv s'.
Proof.
  intros Hv Hl Hrun Hinv. destruct (ledgers_ok s Hinv _ _ Hl) as (Hst & Hwf & Hmax).
  unfold unbond_stake, deposit_event in Hrun. step_inv Hrun.
  assert (ledger_wf x /\ al_stash x = stash /\ al_active x = al_active l /\
    al_total_staked x <= al_total_staked l /\ ledger_inv x0 /\
    Ledger x0 = Ledger s) as (Hwfx & Hstx & Hactx & Htotx & Hinv0 & Hled).
  { destruct (MaxUnlockingChunks <=? _); [|by run_inv; split_and!].
    destruct (consolidate_unlocked_spec l (env_current_era env) Hwf) as (Hwf' & _ & _).
    pose proof (consolidate_unlocked_le l (env_current_era env) Hwf).
    run_inv. when_inv Hb; run_inv; split_and!; try done. by apply ledger_inv_events. }
  do 2 step_inv Hrun. destruct x1 as [l' v']. cbn [fst] in *.
  destruct (unlock_stake_spec _ _ _ _ _ ltac:(rewrite Hactx; exact Hv) Hwfx ltac:(lia) Hstep0)
    as (Hwf' & Hst' & Htot' & Hv' & Hact').
  apply ledger_update_ok in Hstep1 as [_ ->]. run_inv. apply ledger_inv_events.
  apply set_ledger_inv; [done|done|lia|left].
  destruct Hwfx as (Hx & _ & Hpos). apply chunks_sum_nonneg in Hpos. lia.
Qed.

Lemma unregister_keeps_bonds ck stash a :
  keeps bonds_inv (remove_attestor_and_emit_event env ck stash a : PM C unit).
Proof.
  intros s u s' Hrun Hinv. unfold remove_attestor_and_emit_event in Hrun.
  do 6 step_inv Hrun.
  match type of Hrun with _ ?x = _ => assert (bonds_inv x) as Hinv1 end.
  { destruct Hinv as [I1 I2 I3]. constructor; [by apply (ledger_inv_frame s)|done|].
    cbn. intros ck' a' w. rewrite dget_dremove. case_decide; [done|apply I3]. }
  do 3 step_inv Hrun. cbv zeta in Hrun. step_inv Hrun.
  match type of Hrun with _ ?x = _ => assert (bonds_inv x) as Hinv2 end.
  { eapply bonds_ledger_run; [|exact Hstep1|exact Hinv1|]; [unfold unbond_stake; leaves|].
    when_inv Hz; [|apply Hinv1].
    eapply unbond_stake_inv; [|exact Hstep0|exact Hstep1|apply Hinv1].
    enough (0 <= default (min_bond_requirement s ck) (dget (AttestorCollateral s) ck a)) as Hnn.
    { destruct (ledgers_ok _ (bi_ledger s Hinv) _ _ Hstep0) as (_ & (_ & Hact & _) & _).
      clear Hstep1. change (min_bond_requirement (_ <| _ ::= _ |>) ck) with (min_bond_requirement s ck) in *. lia. }
    destruct (dget (AttestorCollateral s) ck a) as [w|] eqn:Hw; [by apply (bi_collateral s Hinv ck a)|apply (bi_min s Hinv)]. }
  revert Hrun Hinv2. apply bonds_keeps_leaves. leaves.
Qed.

Lemma register_keeps_bonds ck stash a :
  keeps bonds_inv (try_insert_attestor_and_emit_event env ck stash a : PM C unit).
Proof.
  unfold try_insert_attestor_and_emit_event.
  do 12 (apply keeps_bind; [apply bonds_keeps_leaves; leaves|intros ?]).
  intros s u s' Hrun Hinv. do 3 step_inv Hrun.
  apply bind_ok in Hrun as (x1 & s1 & Htr & Hrun). apply bind_ok in Hrun as (x2 & s2 & Hbond & Hrun).
  apply bind_ok in Hrun as (x3 & s3 & Hextra & Hrun).
  assert (bonds_inv s1) as Hinv1.
  { revert Htr Hinv. apply currency_call_keeps. apply locked_transfer. }
  assert (bonds_inv s3) as Hinv3.
  { pose proof (bi_min s Hinv ck) as Hmin. unfold attempt in Hbond.
    destruct (ledger_bond _ s1) as [[[]|e] t] eqn:Hb; injection Hbond as <- <-; cbn in Hextra.
    - assert (bonds_inv t) as Hinv2.
      { eapply bonds_ledger_run; [|exact Hb|done|]; [unfold ledger_bond; leaves|].
        eapply ledger_bond_inv; [|exact Hb|apply Hinv1]. exact Hmin. }
      revert Hextra Hinv2. apply keeps_bind; [|intros; apply bonds_keeps_leaves; leaves].
      apply currency_call_keeps, locked_inc.
    - apply ledger_bond_err in Hb as ->.
      eapply bonds_ledger_run; [|exact Hextra|done|]; [unfold bond_extra; leaves|].
      eapply bond_extra_inv; [apply (bi_min s1 Hinv1)|exact Hextra|apply Hinv1]. }
  unfold deposit_event in Hrun. call_inv. destruct Hinv3 as [I1 I2 I3].
  constructor; [by apply (ledger_inv_frame s3)|done|].
  cbn. intros ck' a' w. rewrite dget_dinsert. case_decide; [|apply I3].
  intros [= <-]. apply (bi_min s Hinv).
Qed.

Lemma purge_leaves_bonds stash era :
  leaves bonds_view (purge_retired_bls_keys_for_stash stash era : PM C unit).
Proof. unfold purge_retired_bls_keys_for_stash, purge_retired_pair, release_bls_key. leaves. Qed.

(** ** Withdrawing *)

(** What withdrawing leaves of a ledger: its matured chunks are gone, and so is
    the ledger when nothing but dust is left. *)
Definition withdrawn_ledger (era : Z) (l : AttestorLedger) : option AttestorLedger :=
  let l' := if 0 <? era then consolidate_unlocked l era else l in
  match al_unlocking l' with
  | [] => if (al_active l' <? minimum_balance) || (al_active l' =? 0) then None else Some l'
  | _ => Some l'
  end.

(** Storing a settled ledger, or dropping it. *)
Lemma settle_spec l s u s' :
  bonds_inv s -> ledger_wf l -> al_total_staked l <= umax 128 ->
  (if match al_unlocking l with [] => true | _ => false end &&
      ((al_active l <? minimum_balance) || (al_active l =? 0))
   then kill_stash (al_stash l) else ledger_update l) s = (Ok u, s') ->
  bonds_inv s' /\
  Ledger s' = match match al_unlocking l with
      | [] => if (al_active l <? minimum_balance) || (al_active l =? 0) then None else Some l
      | _ => Some l
      end with
    | Some l' => <[al_stash l := l']> (Ledger s)
    | None => delete (al_stash l) (Ledger s)
    end.
Proof.
  intros Hinv Hwf Hmax Hrun.
  assert (kill_stash (al_stash l) s = (Ok u, s') ->
    bonds_inv s' /\ Ledger s' = delete (al_stash l) (Ledger s)) as Hkill.
  { clear Hrun. intros Hrun. split.
    - eapply bonds_ledger_run; [|exact Hrun|done|]; [unfold kill_stash; leaves|].
      by eapply kill_stash_inv, Hinv.
    - unfold kill_stash, ledger_kill in Hrun. by call_inv. }
  assert (0 < al_total_staked l -> ledger_update l s = (Ok u, s') ->
    bonds_inv s' /\ Ledger s' = <[al_stash l := l]> (Ledger s)) as Hupd.
  { clear Hrun. intros Hpos Hrun. split; [|by apply ledger_update_ok in Hrun as [_ ->]].
    eapply bonds_ledger_run; [|exact Hrun|done|]; [unfold ledger_update; leaves|].
    apply ledger_update_ok in Hrun as [_ ->]. apply set_ledger_inv; [apply Hinv|done|done|auto]. }
  destruct Hwf as (Htot & Hact & Hpos). destruct (al_unlocking l) as [|c cs]; cbn [andb] in Hrun.
  - destruct (_ || _) eqn:Hd; [by apply Hkill|]. apply orb_false_iff in Hd.
    apply Hupd; [cbn in Htot; lia|done].
  - apply Hupd; [|done]. inversion Hpos as [|? ? Hc Hcs]. apply chunks_sum_nonneg in Hcs.
    cbn [chunks_sum foldr] in Htot. fold (chunks_sum cs) in Htot. lia.
Qed.

Lemma withdraw_spec stash s u s' :
  bonds_inv s -> do_withdraw_unbonded env stash s = (Ok u, s') ->
  exists l, Ledger s !! stash = Some l /\ bonds_inv s' /\
    Ledger s' = match withdrawn_ledger (env_current_era env) l with
      | Some l' => <[stash := l']> (Ledger s)
      | None => delete stash (Ledger s)
      end.
Proof.
  intros Hinv Hrun. unfold do_withdraw_unbonded in Hrun. do 2 step_inv Hrun. cbv zeta in Hrun.
  rename x into l. exists l. split; [done|]. step_inv Hrun. rename x0 into s1.
  pose proof (purge_leaves_bonds _ _ _ _ _ Hstep0) as Hv.
  assert (bonds_inv s1) as Hinv1 by (by apply (bonds_inv_frame s)).
  injection Hv as Hled _ _ _.
  destruct (ledgers_ok s (bi_ledger s Hinv) _ _ Hstep) as (Hst & Hwf & Hmax).
  unfold withdrawn_ledger. set (l' := if 0 <? env_current_era env then _ else l) in *.
  assert (ledger_wf l' /\ al_stash l' = stash /\ al_total_staked l' <= umax 128)
    as (Hwf' & Hst' & Hmax').
  { unfold l'. destruct (0 <? _); [|done].
    destruct (consolidate_unlocked_spec l (env_current_era env) Hwf) as (? & _ & _).
    pose proof (consolidate_unlocked_le l (env_current_era env) Hwf). split_and!; [done|done|lia]. }
  apply bind_ok in Hrun as (x1 & s2 & Hupd & Hrun).
  assert (bonds_view s' = bonds_view s2) as Hv2.
  { refine ((_ : leaves bonds_view _) _ _ _ Hrun). leaves. }
  destruct (settle_spec l' s1 x1 s2 Hinv1 Hwf' Hmax' Hupd) as [Hinv2 Hs2].
  split; [by apply (bonds_inv_frame s2)|].
  injection Hv2 as -> _ _ _. by rewrite Hs2, Hled, Hst'.
Qed.

Lemma withdraw_keeps_bonds stash : keeps bonds_inv (do_withdraw_unbonded env stash : PM C unit).
Proof. intros s u s' Hrun Hinv. by destruct (withdraw_spec _ _ _ _ Hinv Hrun) as (? & _ & ? & _). Qed.
End Bonds.
