(* ===== verification/Settings.v ===== *)
(** * Per-chain settings

    The operators' setters of [src/pallets/attestation/src/lib.rs], the pending
    updates that an epoch change applies, and the parameters a chain is
    registered with. The theorems' invariant says that every chain's settings,
    now and once pending updates apply, stay within the configured bounds, and
    that an attestation interval never exceeds the catch-up bound. *)

From stdpp Require Import prelude gmap list sorting strings.
From Stdlib Require Import ZArith Lia.
From S2P Require Import Prelude Primitives Frame SupportedChains Types Roster.

Section Settings.
Context {C : Type} `{Config} `{FrameStorage Z}.
Variable env : Env.

(** ** Setters *)

Definition set_chain_attestation_interval (origin : Origin) (chain_key : ChainKey)
    (chain_attestation_interval : Z) : PM C unit :=
  transactional (
    ensure_origin OperatorsOrigin origin;;
    ensure_m (0 <? chain_attestation_interval) InvalidAttestationInterval;;
    ensure_m (chain_attestation_interval <=? MaxChainAttestationInterval)
      InvalidAttestationInterval;;
    catchup ← gets (fun s => effective_max_catchup s chain_key);
    ensure_m (chain_attestation_interval <=? catchup) InvalidAttestationInterval;;
    ensure_supported env chain_key;;
    modify (fun s => s <| PendingAttestationInterval ::=
      <[chain_key := chain_attestation_interval]> |>);;
    deposit_event (PendingAttestationIntervalSet chain_key chain_attestation_interval)).

Definition set_target_sample_size (origin : Origin) (chain_key : ChainKey)
    (new_target_sample_size : Z) : PM C unit :=
  transactional (
    ensure_origin OperatorsOrigin origin;;
    ensure_m (0 <? new_target_sample_size) InvalidTargetSampleSize;;
    ensure_supported env chain_key;;
    modify (fun s => s <| PendingTargetSampleSize ::= <[chain_key := new_target_sample_size]> |>);;
    deposit_event (PendingTargetSampleSizeSet chain_key new_target_sample_size)).

Definition set_max_attestors (origin : Origin) (chain_key : ChainKey) (new_max : Z) : PM C unit :=
  transactional (
    ensure_origin OperatorsOrigin origin;;
    ensure_m (0 <? new_max) InvalidMaxAttestors;;
    ensure_m (new_max <=? MaxAttestationNodes) InvalidMaxAttestors;;
    ensure_supported env chain_key;;
    roster ← gets (fun s => Z.max (attestors_count s chain_key) (working_set_size s chain_key));
    ensure_m (roster <=? new_max) InvalidMaxAttestors;;
    modify (fun s => s <| MaxAttestors ::= <[chain_key := new_max]> |>);;
    deposit_event (MaxAttestorsChanged chain_key new_max)).

Definition set_max_invulnerables (origin : Origin) (chain_key : ChainKey) (new_max : Z)
    : PM C unit :=
  transactional (
    ensure_origin OperatorsOrigin origin;;
    ensure_m (0 <? new_max) InvalidMaxInvulnerables;;
    ensure_m (new_max <=? MaxAttestationNodes) InvalidMaxInvulnerables;;
    count ← gets (fun s => wrap 32 (Z.of_nat (size (row (Invulnerables s) chain_key))));
    ensure_m (count <=? new_max) MaxInvulnerablesCannotBeChanged;;
    modify (fun s => s <| MaxInvulnerables ::= <[chain_key := new_max]> |>)).

Definition set_attestations_per_checkpoint (origin : Origin) (chain_key : ChainKey)
    (attestations_per_checkpoint : Z) : PM C unit :=
  transactional (
    ensure_origin OperatorsOrigin origin;;
    ensure_m (0 <? attestations_per_checkpoint) InvalidAttestationsPerCheckpoint;;
    ensure_m (attestations_per_checkpoint <=? MaxAttestationCheckpointInterval)
      InvalidAttestationsPerCheckpoint;;
    ensure_supported env chain_key;;
    modify (fun s => s <| AttestationCheckpointInterval ::=
      <[chain_key := attestations_per_checkpoint]> |>);;
    deposit_event (CheckpointIntervalChanged chain_key attestations_per_checkpoint)).

Definition set_min_bond_requirement (origin : Origin) (chain_key : ChainKey)
    (min_bond_requirement : Z) : PM C unit :=
  transactional (
    ensure_origin OperatorsOrigin origin;;
    modify (fun s => s <| MinBondRequirement ::= <[chain_key := min_bond_requirement]> |>);;
    deposit_event (MinBondRequirementUpdated chain_key min_bond_requirement)).

Definition set_attestation_chain_genesis_block_number (origin : Origin) (chain_key : ChainKey)
    (genesis_block_number : Z) : PM C unit :=
  transactional (
    ensure_origin OperatorsOrigin origin;;
    ensure_supported env chain_key;;
    empty ← gets (fun s => bool_decide (row (Attestations s) chain_key = ∅) &&
      bool_decide (row (Checkpoints s) chain_key = ∅));
    ensure_m empty AttestationsAlreadyExist;;
    modify (fun s => s <| AttestationChainGenesisBlockNumber ::=
      <[chain_key := genesis_block_number]> |>);;
    deposit_event (AttestationChainGenesisBlockNumberSet chain_key genesis_block_number)).

Definition set_election_policy (origin : Origin) (chain_key : ChainKey)
    (new_policy : AttestorElectionPolicy) : PM C unit :=
  transactional (
    ensure_origin OperatorsOrigin origin;;
    ensure_supported env chain_key;;
    modify (fun s => s <| ChainElectionPolicy ::= <[chain_key := new_policy]> |>);;
    deposit_event (ChangedElectionPolicy chain_key new_policy)).

Definition set_max_catchup (origin : Origin) (chain_key : ChainKey) (max_catchup : Z) : PM C unit :=
  transactional (
    ensure_origin OperatorsOrigin origin;;
    ensure_m (0 <? max_catchup) InvalidMaxCatchup;;
    ensure_m (max_catchup <=? MaxCatchupCeiling) InvalidMaxCatchup;;
    interval ← gets (fun s => effective_attestation_interval s chain_key);
    ensure_m (interval <=? max_catchup) InvalidMaxCatchup;;
    ensure_supported env chain_key;;
    modify (fun s => s <| PendingMaxCatchup ::= <[chain_key := max_catchup]> |>);;
    deposit_event (PendingMaxCatchupSet chain_key max_catchup)).

(** ** Pending updates *)

(** [StorageMap::drain().for_each(..)]: each row is removed and applied, and
    counted in [applied]. *)
Fixpoint drain_rows {V} (pending : State C -> gmap Z V) `{!Setter pending}
    (apply : ChainKey -> V -> PM C unit) (keys : list ChainKey) (applied : Z) : PM C Z :=
  match keys with
  | [] => mret applied
  | ck :: keys' =>
      rows ← gets pending;
      match rows !! ck with
      | Some v =>
          modify (fun s => s <| pending ::= delete ck |>);;
          apply ck v;;
          drain_rows pending apply keys' (saturating_add 32 applied 1)
      | None => drain_rows pending apply keys' applied
      end
  end.

Definition drain {V} (it : StorageItem) (pending : State C -> gmap Z V) `{!Setter pending}
    (apply : ChainKey -> V -> PM C unit) (applied : Z) : PM C Z :=
  keys ← gets (fun s => iter_keys it (pending s));
  drain_rows pending apply keys applied.

Definition apply_interval (chain_key : ChainKey) (new_attestation_interval : Z) : PM C unit :=
  modify (fun s => s <| ChainAttestationInterval ::=
    <[chain_key := new_attestation_interval]> |>);;
  deposit_event (AttestationIntervalChanged chain_key new_attestation_interval).

Definition apply_sample_size (chain_key : ChainKey) (new_target_sample_size : Z) : PM C unit :=
  modify (fun s => s <| TargetSampleSize ::= <[chain_key := new_target_sample_size]> |>);;
  deposit_event (TargetSampleSizeChanged chain_key new_target_sample_size).

Definition apply_max_catchup (chain_key : ChainKey) (new_max_catchup : Z) : PM C unit :=
  modify (fun s => s <| MaxCatchup ::= <[chain_key := new_max_catchup]> |>);;
  deposit_event (MaxCatchupChanged chain_key new_max_catchup).

Definition apply_interval_updates : PM C Z :=
  applied ← drain PendingIntervalItem PendingAttestationInterval apply_interval 0;
  applied ← drain PendingSampleSizeItem PendingTargetSampleSize apply_sample_size applied;
  drain PendingMaxCatchupItem PendingMaxCatchup apply_max_catchup applied.

Definition force_apply_updates (origin : Origin) : PM C unit :=
  transactional (
    ensure_origin OperatorsOrigin origin;;
    apply_interval_updates;;
    deposit_event ForcedUpdatesApplied).

(** ** Registration parameters *)

(** A parameter that was given must pass its check. *)
Definition check_param (o : option Z) (bad : Z -> bool) (msg : string)
    : M (State C) string unit :=
  match o with
  | Some v => ensure (negb (bad v)) msg
  | None => mret tt
  end.

(** [<Pallet as OnRegisterChainProvider>::on_register_chain] *)
Definition on_chain_registered (chain_key : ChainKey) (p : RegisterParams)
    : M (State C) string unit :=
  check_param (rp_target_sample_size p) (fun v => v =? 0) "InvalidTargetSampleSize";;
  catchup ← gets (fun s => max_catchup s chain_key);
  check_param (rp_chain_attestation_interval p)
    (fun v => (v =? 0) || (MaxChainAttestationInterval <? v) || (catchup <? v))
    "InvalidAttestationInterval";;
  check_param (rp_attestation_checkpoint_interval p)
    (fun v => (v =? 0) || (MaxAttestationCheckpointInterval <? v))
    "InvalidAttestationsPerCheckpoint";;
  check_param (rp_max_attestors p) (fun v => (v =? 0) || (MaxAttestationNodes <? v))
    "InvalidMaxAttestors";;
  check_param (rp_max_invulnerables p) (fun v => (v =? 0) || (MaxAttestationNodes <? v))
    "InvalidMaxInvulnerables";;
  let sample := default DefaultTargetSampleSize (rp_target_sample_size p) in
  let interval := default DefaultAttestationInterval (rp_chain_attestation_interval p) in
  let per_checkpoint :=
    default DefaultAttestationsPerCheckpoint (rp_attestation_checkpoint_interval p) in
  let max_att := default MaxAttestationNodes (rp_max_attestors p) in
  let max_inv := default MaxAttestationNodes (rp_max_invulnerables p) in
  let genesis := default DefaultAttestationChainGenesisBlockNumber (rp_genesis_block_number p) in
  modify (fun s => s <| TargetSampleSize ::= <[chain_key := sample]> |>);;
  deposit_event (TargetSampleSizeChanged chain_key sample);;
  modify (fun s => s <| ChainAttestationInterval ::= <[chain_key := interval]> |>);;
  deposit_event (AttestationIntervalChanged chain_key interval);;
  modify (fun s => s <| AttestationCheckpointInterval ::= <[chain_key := per_checkpoint]> |>);;
  deposit_event (CheckpointIntervalChanged chain_key per_checkpoint);;
  modify (fun s => s <| MaxAttestors ::= <[chain_key := max_att]> |>);;
  deposit_event (MaxAttestorsChanged chain_key max_att);;
  modify (fun s => s <| MaxInvulnerables ::= <[chain_key := max_inv]> |>);;
  modify (fun s => s <| AttestationChainGenesisBlockNumber ::= <[chain_key := genesis]> |>);;
  deposit_event (AttestationChainGenesisBlockNumberSet chain_key genesis).

End Settings.

(** ** Draining a pending map *)

Section Drain.
Context {C : Type} `{Config} `{FrameStorage Z} `{!FrameStorageLaws Z}.
Context {V : Type} (pending target : State C -> gmap Z V) `{!Setter pending}.
Variable apply : ChainKey -> V -> PM C unit.
Hypothesis pending_set : forall s f, pending (s <| pending ::= f |>) = f (pending s).
Hypothesis target_kept : forall s f, target (s <| pending ::= f |>) = target s.
Hypothesis apply_run : forall ck v s, exists s',
  apply ck v s = (Ok tt, s') /\ pending s' = pending s /\ target s' = <[ck := v]> (target s).

Lemma drain_rows_run keys n s :
  NoDup keys -> (forall k, k ∈ keys -> is_Some (pending s !! k)) -> n <= umax 32 ->
  exists s', drain_rows pending apply keys n s = (Ok (Z.min (n + zlen keys) (umax 32)), s') /\
  (forall k, pending s' !! k = if decide (k ∈ keys) then None else pending s !! k) /\
  (forall k, target s' !! k = if decide (k ∈ keys) then pending s !! k else target s !! k).
Proof.
  revert n s. induction keys as [|ck keys IH]; intros n s Hnd Hin Hn.
  { exists s. change (zlen []) with 0. rewrite Z.add_0_r, Z.min_l by done. split_and!; [done|..];
      intros k; rewrite decide_False by apply not_elem_of_nil; done. }
  apply NoDup_cons in Hnd as [Hck Hnd]. destruct (Hin ck ltac:(by left)) as [v Hv].
  destruct (apply_run ck v (s <| pending ::= delete ck |>)) as (s1 & Happ & Hp1 & Ht1).
  rewrite pending_set in Hp1. rewrite target_kept in Ht1.
  destruct (IH (saturating_add 32 n 1) s1 Hnd) as (s' & Hrun & Hp & Ht).
  { intros k Hk. rewrite Hp1, lookup_delete_ne by (by intros ->). apply Hin. by right. }
  { unfold saturating_add. lia. }
  exists s'. split_and!.
  - cbn [drain_rows]. unfold gets, modify, mbind, M_bind. rewrite Hv, Happ, Hrun.
    do 2 f_equal. rewrite zlen_cons. unfold saturating_add.
    pose proof (zlen_nonneg keys). lia.
  - intros k. rewrite Hp, Hp1, lookup_delete.
    repeat case_decide; try done; exfalso; set_solver.
  - intros k. rewrite Ht, Ht1, Hp1, lookup_delete, lookup_insert.
    repeat case_decide; try done; subst; try done; exfalso; set_solver.
Qed.

Lemma drain_run it n s :
  n <= umax 32 ->
  exists s', drain it pending apply n s =
    (Ok (Z.min (n + Z.of_nat (size (pending s))) (umax 32)), s') /\
  pending s' = ∅ /\ target s' = pending s ∪ target s.
Proof.
  intros Hn. unfold drain. unfold gets at 1, mbind, M_bind.
  destruct (drain_rows_run (iter_keys it (pending s)) n s) as (s' & Hrun & Hp & Ht); [|..|done|].
  { apply NoDup_iter_keys. }
  { intros k. apply elem_of_iter_keys. }
  exists s'. rewrite Hrun. split_and!.
  - do 3 f_equal. unfold zlen, iter_keys. by rewrite trie_order_perm, length_map_keys.
  - apply map_eq. intros k. rewrite Hp, lookup_empty. case_decide as Hk; [done|].
    rewrite elem_of_iter_keys in Hk. by apply eq_None_not_Some.
  - apply map_eq. intros k. rewrite Ht. case_decide as Hk.
    + apply elem_of_iter_keys in Hk as [v Hv]. rewrite Hv. symmetry.
      by apply lookup_union_Some_l.
    + rewrite elem_of_iter_keys in Hk. symmetry. apply lookup_union_r.
      by apply eq_None_not_Some.
Qed.
End Drain.

Lemma leaves_drain {C V T} `{FrameStorage Z} (w : State C -> T) it (pending : State C -> gmap Z V)
    `{!Setter pending} (apply : ChainKey -> V -> PM C unit) n :
  (forall s f, w (s <| pending ::= f |>) = w s) -> (forall ck v, leaves w (apply ck v)) ->
  leaves w (drain it pending apply n).
Proof.
  intros Hset Happ. apply leaves_bind; [leaves|]. intros keys. revert n.
  induction keys as [|ck keys IH]; intros n; cbn [drain_rows]; [leaves|].
  apply leaves_bind; [leaves|]. intros rows. destruct (rows !! ck); [|apply IH].
  apply leaves_bind; [by apply leaves_modify|]. intros _. by apply leaves_bind.
Qed.

Lemma updates_leave {C T} `{FrameStorage Z} (w : State C -> T) :
  (forall s f, w (s <| PendingAttestationInterval ::= f |>) = w s) ->
  (forall s f, w (s <| PendingTargetSampleSize ::= f |>) = w s) ->
  (forall s f, w (s <| PendingMaxCatchup ::= f |>) = w s) ->
  (forall s f, w (s <| ChainAttestationInterval ::= f |>) = w s) ->
  (forall s f, w (s <| TargetSampleSize ::= f |>) = w s) ->
  (forall s f, w (s <| MaxCatchup ::= f |>) = w s) ->
  (forall s f, w (s <| events ::= f |>) = w s) ->
  leaves w (apply_interval_updates : PM C Z).
Proof.
  intros. unfold apply_interval_updates.
  apply leaves_bind; [|intros; apply leaves_bind; [|intros]]; apply leaves_drain; try done;
    intros; (apply leaves_bind; [by apply leaves_modify|intros; by apply leaves_modify]).
Qed.

#[export] Hint Resolve updates_leave : leaves.
#[export] Hint Extern 2 (_ = _) => reflexivity : leaves.

Section Updates.
Context {C : Type} `{Config} `{FrameStorage Z} `{!FrameStorageLaws Z}.
Implicit Types (s : State C) (ck : Z).

Lemma apply_updates_run s :
  exists n s', apply_interval_updates s = (Ok n, s') /\
  n = Z.min (Z.of_nat (size (PendingAttestationInterval s)) +
    Z.of_nat (size (PendingTargetSampleSize s)) + Z.of_nat (size (PendingMaxCatchup s))) (umax 32) /\
  PendingAttestationInterval s' = ∅ /\ PendingTargetSampleSize s' = ∅ /\
  PendingMaxCatchup s' = ∅ /\
  ChainAttestationInterval s' = PendingAttestationInterval s ∪ ChainAttestationInterval s /\
  TargetSampleSize s' = PendingTargetSampleSize s ∪ TargetSampleSize s /\
  MaxCatchup s' = PendingMaxCatchup s ∪ MaxCatchup s.
Proof.
  destruct (drain_run PendingAttestationInterval ChainAttestationInterval apply_interval
    ltac:(done) ltac:(done) ltac:(by eexists) PendingIntervalItem 0 s ltac:(done))
    as (s1 & R1 & P1 & T1).
  assert (leaves (fun s => (PendingTargetSampleSize s, TargetSampleSize s, PendingMaxCatchup s,
    MaxCatchup s)) (drain PendingIntervalItem PendingAttestationInterval apply_interval 0))
    as L1 by (apply leaves_drain; [done|leaves]).
  apply L1 in R1 as V1. injection V1 as Vps Vts Vpm Vm.
  set (n1 := Z.min _ _) in R1.
  destruct (drain_run PendingTargetSampleSize TargetSampleSize apply_sample_size
    ltac:(done) ltac:(done) ltac:(by eexists) PendingSampleSizeItem n1 s1 ltac:(unfold n1; lia))
    as (s2 & R2 & P2 & T2).
  assert (leaves (fun s => (PendingAttestationInterval s, ChainAttestationInterval s,
    PendingMaxCatchup s, MaxCatchup s)) (drain PendingSampleSizeItem PendingTargetSampleSize
    apply_sample_size n1)) as L2 by (apply leaves_drain; [done|leaves]).
  apply L2 in R2 as V2. injection V2 as Wpi Wi Wpm Wm.
  set (n2 := Z.min (n1 + _) _) in R2.
  destruct (drain_run PendingMaxCatchup MaxCatchup apply_max_catchup
    ltac:(done) ltac:(done) ltac:(by eexists) PendingMaxCatchupItem n2 s2 ltac:(unfold n2; lia))
    as (s3 & R3 & P3 & T3).
  assert (leaves (fun s => (PendingAttestationInterval s, ChainAttestationInterval s,
    PendingTargetSampleSize s, TargetSampleSize s)) (drain PendingMaxCatchupItem PendingMaxCatchup
    apply_max_catchup n2)) as L3 by (apply leaves_drain; [done|leaves]).
  apply L3 in R3 as V3. injection V3 as Xpi Xi Xps Xs.
  eexists _, s3. split; [|split].
  - unfold apply_interval_updates, mbind, M_bind. rewrite R1, R2. exact R3.
  - unfold n2, n1. rewrite Wpm, Vpm, Vps. lia.
  - rewrite Xpi, Wpi, P1, Xps, P2, P3, Xi, Wi, T1, Xs, T2, T3, Vps, Vts, Wpm, Vpm, Wm, Vm. done.
Qed.

(** What pending updates announce is what they bring. *)
Lemma apply_updates_effective s n s' ck :
  apply_interval_updates s = (Ok n, s') ->
  chain_attestation_interval s' ck = effective_attestation_interval s ck /\
  max_catchup s' ck = effective_max_catchup s ck /\
  target_sample_size s' ck = default (target_sample_size s ck) (PendingTargetSampleSize s !! ck) /\
  PendingAttestationInterval s' = ∅ /\ PendingMaxCatchup s' = ∅ /\ PendingTargetSampleSize s' = ∅.
Proof.
  intros Hrun. destruct (apply_updates_run s) as (m & t & Hrun' & _ & P1 & P2 & P3 & T1 & T2 & T3).
  rewrite Hrun in Hrun'. injection Hrun' as -> ->.
  unfold effective_attestation_interval, effective_max_catchup, chain_attestation_interval,
    max_catchup, target_sample_size. rewrite T1, T2, T3, !lookup_union.
  split_and!; try done.
  - destruct (PendingAttestationInterval s !! ck), (ChainAttestationInterval s !! ck); reflexivity.
  - destruct (PendingMaxCatchup s !! ck), (MaxCatchup s !! ck); reflexivity.
  - destruct (PendingTargetSampleSize s !! ck), (TargetSampleSize s !! ck); reflexivity.
Qed.
End Updates.

(** ** Bounds *)

Section Bounds.
Context {C : Type} `{Config} `{!ConfigOk} `{FrameStorage Z} `{!FrameStorageLaws Z}.
Variable env : Env.
Implicit Types (s : State C) (ck : Z).

Definition effective_sample_size s ck : Z :=
  default (target_sample_size s ck) (PendingTargetSampleSize s !! ck).

(** One chain's settings, now and once pending updates apply. *)
Record settings_ok s ck : Prop := {
  so_interval : 0 < chain_attestation_interval s ck <= MaxChainAttestationInterval;
  so_catchup : 0 < max_catchup s ck <= MaxCatchupCeiling;
  so_reachable : chain_attestation_interval s ck <= max_catchup s ck;
  so_next_interval : 0 < effective_attestation_interval s ck <= MaxChainAttestationInterval;
  so_next_catchup : 0 < effective_max_catchup s ck <= MaxCatchupCeiling;
  so_next_reachable : effective_attestation_interval s ck <= effective_max_catchup s ck;
  so_checkpoint :
    0 < attestation_checkpoint_interval s ck <= MaxAttestationCheckpointInterval;
  so_attestors : 0 < max_attestors s ck <= MaxAttestationNodes;
  so_invulnerables : 0 < max_invulnerables s ck <= MaxAttestationNodes;
  so_sample : 0 < target_sample_size s ck;
  so_next_sample : 0 < effective_sample_size s ck;
}.

Definition settings_inv s : Prop := forall ck, settings_ok s ck.

(** What a chain's settings are read from. *)
Definition settings_view ck s :=
  (ChainAttestationInterval s !! ck, PendingAttestationInterval s !! ck, MaxCatchup s !! ck,
   PendingMaxCatchup s !! ck, AttestationCheckpointInterval s !! ck, MaxAttestors s !! ck,
   MaxInvulnerables s !! ck, TargetSampleSize s !! ck, PendingTargetSampleSize s !! ck).

Lemma settings_ok_frame ck s s' :
  settings_view ck s' = settings_view ck s -> settings_ok s ck -> settings_ok s' ck.
Proof.
  unfold settings_view. intros [= V1 V2 V3 V4 V5 V6 V7 V8 V9] [].
  constructor; unfold effective_sample_size, effective_attestation_interval, effective_max_catchup,
    chain_attestation_interval, max_catchup, attestation_checkpoint_interval, max_attestors,
    max_invulnerables, target_sample_size in *; rewrite ?V1, ?V2, ?V3, ?V4, ?V5, ?V6, ?V7, ?V8, ?V9;
    done.
Qed.

Lemma settings_inv_frame s s' :
  (forall ck, settings_view ck s' = settings_view ck s) -> settings_inv s -> settings_inv s'.
Proof. intros Hv Hs ck. eapply settings_ok_frame; [apply Hv|apply Hs]. Qed.

Lemma settings_keeps_leaves {E A} (m : M (State C) E A) :
  (forall ck, leaves (settings_view ck) m) -> keeps settings_inv m.
Proof. intros Hm s a s' Hs. apply settings_inv_frame. intros ck. by eapply Hm. Qed.

(** A chain nothing is stored for has the configured defaults. *)
Lemma settings_ok_default ck s :
  settings_view ck s = (None, None, None, None, None, None, None, None, None) -> settings_ok s ck.
Proof.
  unfold settings_view. intros [= V1 V2 V3 V4 V5 V6 V7 V8 V9].
  pose proof cfg_integrity as Hint. unfold integrity_test in Hint.
  apply andb_true_iff in Hint as [[[_ Hle]%andb_true_iff _]%andb_true_iff Hceil].
  pose proof cfg_interval. pose proof cfg_checkpoint. pose proof cfg_catchup.
  pose proof cfg_sample. pose proof cfg_nodes.
  constructor; unfold effective_sample_size, effective_attestation_interval, effective_max_catchup,
    chain_attestation_interval, max_catchup, attestation_checkpoint_interval, max_attestors,
    max_invulnerables, target_sample_size; rewrite ?V1, ?V2, ?V3, ?V4, ?V5, ?V6, ?V7, ?V8, ?V9;
    cbn [default from_option id]; lia.
Qed.

Lemma updates_keep_settings : keeps settings_inv (apply_interval_updates : PM C Z).
Proof.
  intros s n s' Hrun Hs ck.
  assert (leaves (fun s => (AttestationCheckpointInterval s, MaxAttestors s, MaxInvulnerables s))
    apply_interval_updates) as Hl.
  { leaves. }
  apply Hl in Hrun as Hv. injection Hv as V1 V2 V3.
  apply (apply_updates_effective _ _ _ ck) in Hrun as (E1 & E2 & E3 & P1 & P2 & P3).
  destruct (Hs ck). fold (effective_sample_size s ck) in E3.
  assert (effective_attestation_interval s' ck = chain_attestation_interval s' ck)
    as E4 by (unfold effective_attestation_interval; by rewrite P1, lookup_empty).
  assert (effective_max_catchup s' ck = max_catchup s' ck)
    as E5 by (unfold effective_max_catchup; by rewrite P2, lookup_empty).
  assert (effective_sample_size s' ck = target_sample_size s' ck)
    as E6 by (unfold effective_sample_size; by rewrite P3, lookup_empty).
  constructor; rewrite ?E4, ?E5, ?E6, ?E1, ?E2, ?E3; try done;
    unfold attestation_checkpoint_interval, max_attestors, max_invulnerables in *;
    by rewrite ?V1, ?V2, ?V3.
Qed.

(** An update of one chain's settings. *)
Lemma settings_at ck s s' :
  (forall k, k <> ck -> settings_view k s' = settings_view k s) -> settings_ok s' ck ->
  settings_inv s -> settings_inv s'.
Proof.
  intros Hne Hck Hs k. destruct (decide (k = ck)) as [->|Hk]; [done|].
  eapply settings_ok_frame; [by apply Hne|apply Hs].
Qed.

(** Evaluate the settings of an updated state. *)
Ltac settings_eval :=
  constructor;
  unfold effective_sample_size, effective_attestation_interval, effective_max_catchup,
    chain_attestation_interval, max_catchup, attestation_checkpoint_interval, max_attestors,
    max_invulnerables, target_sample_size in *;
  cbn [PendingAttestationInterval PendingMaxCatchup PendingTargetSampleSize MaxAttestors
    MaxInvulnerables AttestationCheckpointInterval ChainAttestationInterval MaxCatchup
    TargetSampleSize upd set_PendingAttestationInterval set_PendingMaxCatchup
    set_PendingTargetSampleSize set_MaxAttestors set_MaxInvulnerables set_TargetSampleSize
    set_ChainAttestationInterval set_AttestationChainGenesisBlockNumber
    set_AttestationCheckpointInterval set_events];
  rewrite ?lookup_insert_eq; cbn [default from_option id].

Ltac setter_proof s ck Hrun Hs :=
  cbv beta delta [set_chain_attestation_interval set_target_sample_size set_max_attestors
    set_max_invulnerables set_attestations_per_checkpoint set_max_catchup ensure_supported
    deposit_event] in Hrun;
  call_inv; apply (settings_at ck s); [| |done];
  [intros k Hk; unfold settings_view; cbn; by rewrite lookup_insert_ne by done|];
  destruct (Hs ck); settings_eval; lia.

Lemma setters_keep_settings origin ck v :
  keeps settings_inv (set_chain_attestation_interval env origin ck v : PM C unit) /\
  keeps settings_inv (set_max_catchup env origin ck v : PM C unit) /\
  keeps settings_inv (set_target_sample_size env origin ck v : PM C unit) /\
  keeps settings_inv (set_max_attestors env origin ck v : PM C unit) /\
  keeps settings_inv (set_max_invulnerables origin ck v : PM C unit) /\
  keeps settings_inv (set_attestations_per_checkpoint env origin ck v : PM C unit).
Proof. split_and!; intros s u s' Hrun Hs; setter_proof s ck Hrun Hs. Qed.

(** The parameters of a registration are unsigned. *)
Definition unsigned_params (p : RegisterParams) : Prop :=
  Forall (fun o => forall v, o = Some v -> 0 <= v)
    [rp_target_sample_size p; rp_chain_attestation_interval p;
     rp_attestation_checkpoint_interval p; rp_max_attestors p; rp_max_invulnerables p;
     rp_genesis_block_number p].

Lemma check_param_ok o bad msg s u s' :
  (check_param o bad msg : M (State C) string unit) s = (Ok u, s') ->
  s' = s /\ forall v, o = Some v -> bad v = false.
Proof.
  unfold check_param. destruct o as [v|]; intros Hrun; run_inv; [|done].
  apply negb_true_iff in Hens. split; [done|]. by intros ? [= <-].
Qed.

Lemma default_param (o : option Z) d (P : Z -> Prop) :
  P d -> (forall v, o = Some v -> P v) -> P (default d o).
Proof. destruct o; cbn; auto. Qed.

Lemma registration_keeps_settings ck p s u s' :
  unsigned_params p -> PendingMaxCatchup s !! ck = None ->
  PendingAttestationInterval s !! ck = None -> PendingTargetSampleSize s !! ck = None ->
  MaxCatchup s !! ck = None ->
  on_chain_registered ck p s = (Ok u, s') -> settings_inv s -> settings_inv s'.
Proof.
  intros Hp F1 F2 F3 F4 Hrun Hs. unfold on_chain_registered, deposit_event in Hrun.
  unfold unsigned_params in Hp. rewrite !Forall_cons in Hp. destruct Hp as (U1 & U2 & U3 & U4 & U5 & _).
  run_inv.
  repeat match goal with H : check_param _ _ _ _ = _ |- _ =>
    let K := fresh "K" in apply check_param_ok in H as [-> K] end.
  apply (settings_at ck s); [| |done].
  { intros k Hk. unfold settings_view. cbn. by rewrite !lookup_insert_ne by done. }
  pose proof cfg_integrity as Hint. unfold integrity_test in Hint.
  apply andb_true_iff in Hint as [[[_ Hle]%andb_true_iff _]%andb_true_iff _].
  pose proof cfg_interval. pose proof cfg_checkpoint. pose proof cfg_sample. pose proof cfg_nodes.
  assert (0 < default DefaultTargetSampleSize (rp_target_sample_size p)) as D1.
  { apply default_param; [lia|]. intros v Hv. specialize (U1 v Hv). specialize (K3 v Hv). lia. }
  assert (0 < default DefaultAttestationInterval (rp_chain_attestation_interval p) <=
    MaxChainAttestationInterval /\ default DefaultAttestationInterval
      (rp_chain_attestation_interval p) <= max_catchup s ck) as D2.
  { apply default_param.
    - unfold max_catchup. rewrite F4. cbn [default from_option id]. lia.
    - intros v Hv. specialize (U2 v Hv). specialize (K2 v Hv). lia. }
  assert (0 < default DefaultAttestationsPerCheckpoint (rp_attestation_checkpoint_interval p) <=
    MaxAttestationCheckpointInterval) as D3.
  { apply default_param; [lia|]. intros v Hv. specialize (U3 v Hv). specialize (K1 v Hv). lia. }
  assert (0 < default MaxAttestationNodes (rp_max_attestors p) <= MaxAttestationNodes) as D4.
  { apply default_param; [lia|]. intros v Hv. specialize (U4 v Hv). specialize (K0 v Hv). lia. }
  assert (0 < default MaxAttestationNodes (rp_max_invulnerables p) <= MaxAttestationNodes) as D5.
  { apply default_param; [lia|]. intros v Hv. specialize (U5 v Hv). specialize (K v Hv). lia. }
  destruct (Hs ck). settings_eval; rewrite ?F1, ?F2, ?F3 in *; cbn [default from_option id] in *; lia.
Qed.
End Bounds.
