(* ===== verification/Validate.v ===== *)
(** * Validating an attestation

    [validate_attestation] of [src/pallets/attestation/src/impls.rs] and
    [validate_attestation_continuity] of [continuity.rs]: everything a commit
    must pass before the pallet writes anything. *)

From stdpp Require Import prelude gmap list sorting strings.
From Stdlib Require Import ZArith Lia.
From S2P Require Import Prelude Primitives Frame Types Ledger Roster.

Section Validate.
Context {C : Type} `{Config} `{Keccak} `{Arch} `{Bls}.
Variable env : Env.
Implicit Types s : State C.

(** ** Continuity *)

(** The height of a finalized digest: a stored attestation's, or the last
    checkpoint's. *)
Definition finalized_header_number s (chain_key : ChainKey) (d : Digest) : option Height :=
  match get_attestation s chain_key d with
  | Some prev_attestation => Some (sa_header_number prev_attestation)
  | None =>
      match LastCheckpoint s !! chain_key with
      | Some checkpoint =>
          if cp_digest checkpoint =? d then Some (cp_block_number checkpoint) else None
      | None => None
      end
  end.

Definition is_empty_proof (p : ContinuityProof) : bool :=
  match roots p with [] => true | _ => false end.

Definition validate_attestation_continuity (attestation : SignedAttestation) : PM C unit :=
  let chain_key := sa_chain_key attestation in
  let header_number := sa_header_number attestation in
  let proof := sa_continuity_proof attestation in
  genesis ← gets (fun s => attestation_chain_genesis_block_number s chain_key);
  if header_number =? genesis then
    ensure_m (bool_decide (sa_prev_digest attestation = None)) InvalidAttestationPrevDigest;;
    ensure_m (is_empty_proof proof) OversizedContinuityProof
  else
    prev_digest ← ok_or_m (sa_prev_digest attestation) InvalidAttestationPrevDigest;
    ensure_m (negb (prev_digest =? 0)) InvalidAttestationPrevDigest;;
    last ← gets (fun s => last_digest s chain_key);
    last_finalized_digest ← ok_or_m last NoFinalizedAttestation;
    if (prev_digest =? last_finalized_digest) && is_empty_proof proof then
      prev_header ← gets (fun s => finalized_header_number s chain_key prev_digest);
      prev_header_number ← ok_or_m prev_header InvalidAttestationPrevDigest;
      ensure_m (header_number =? wrap 64 (prev_header_number + 1)) InvalidAttestationPrevDigest
    else
      ensure_m (negb (is_empty_proof proof)) EmptyContinuityProof;;
      max_roots ← gets (fun s => wrap usize_bits
        (Z.max (max_catchup s chain_key) (chain_attestation_interval s chain_key)));
      ensure_m (zlen (roots proof) <=? max_roots) OversizedContinuityProof;;
      let tail_block_number := start_block_number proof header_number in
      tail_prev ← ok_or_m (tail_prev_digest proof) InvalidAttestationContinuityProofTail;
      ensure_m (tail_prev =? last_finalized_digest) InvalidAttestationContinuityProofTail;;
      tail_prev_header ← gets (fun s => finalized_header_number s chain_key tail_prev);
      tail_prev_header_number ← ok_or_m tail_prev_header InvalidAttestationContinuityProofTail;
      expected ← ok_or_m (checked_sub tail_block_number 1) InvalidAttestationContinuityProofTail;
      ensure_m (tail_prev_header_number =? expected) InvalidAttestationContinuityProofTail;;
      ensure_m (compute_continuity_digest proof tail_block_number =? prev_digest)
        InvalidAttestationContinuityProofHead.

(** ** Signers *)

Definition attestors_within_bound s (chain_key : ChainKey) (attestation : SignedAttestation)
    : bool :=
  wrap 32 (zlen (sa_attestors attestation)) <=? max_attestors s chain_key.

Definition check_duplicate s (attestation : SignedAttestation) : bool :=
  let chain_key := sa_chain_key attestation in
  let header_number := sa_header_number attestation in
  bool_decide (is_Some (dget (Attestations s) chain_key (sa_digest attestation))) ||
  match LastDigest s !! chain_key with
  | Some (last_height, _) => header_number <=? last_height
  | None => false
  end ||
  match LastCheckpoint s !! chain_key with
  | Some checkpoint => header_number <=? cp_block_number checkpoint
  | None => false
  end.

Definition extract_agg_signature (signature : BlsSignature) : Result (DispatchError Error) Signature :=
  ok_or (ModuleError InvalidBlsSignature) (sig_from_bytes (to_be_bytes 96 signature)).

(** The key of one attestor: its current one, or the retired one. *)
Definition gather_attestor_public_key s (chain_key : ChainKey) (attestor_id : AccountId)
    : Result (DispatchError Error) PublicKey :=
  let attestor_rec := dget (Attestors s) chain_key attestor_id in
  let retired := dget (RetiredAttestorBlsKeys s) chain_key attestor_id in
  let maybe_key :=
    match attestor_rec ≫= at_bls_public_key with
    | Some k => Some k
    | None => re_bls_public_key <$> retired
    end in
  match maybe_key with
  | Some key => ok_or (ModuleError AttestorWithInvalidPublicKey) (pk_from_bytes (to_be_bytes 48 key))
  | None =>
      if bool_decide (is_Some attestor_rec) || bool_decide (is_Some retired)
      then Err (ModuleError AttestorWithInvalidPublicKey)
      else Err (ModuleError InvalidAttestorFound)
  end.

Fixpoint gather_attestor_public_keys s (chain_key : ChainKey) (attestors : list AccountId)
    : Result (DispatchError Error) (list PublicKey) :=
  match attestors with
  | [] => Ok []
  | a :: attestors' =>
      match gather_attestor_public_key s chain_key a with
      | Ok pk =>
          match gather_attestor_public_keys s chain_key attestors' with
          | Ok pks => Ok (pk :: pks)
          | Err e => Err e
          end
      | Err e => Err e
      end
  end.

(** Keep the first occurrence of each key. *)
Fixpoint dedup_public_keys (pks : list PublicKey) (seen_key_bytes : gset (list Z))
    : Result (DispatchError Error) (list PublicKey) :=
  match pks with
  | [] => Ok []
  | pk :: pks' =>
      if zlen (pk_as_bytes pk) =? 48 then
        match dedup_public_keys pks' ({[pk_as_bytes pk]} ∪ seen_key_bytes) with
        | Ok rest => if bool_decide (pk_as_bytes pk ∈ seen_key_bytes) then Ok rest else Ok (pk :: rest)
        | Err e => Err e
        end
      else Err (ModuleError InvalidBlsPublicKey)
  end.

Definition verify_agg_signature (agg_signature : Signature) (message : list Z)
    (agg_public_key : PublicKey) : PM C unit :=
  ensure_m (verify_agg_message agg_signature message agg_public_key) InvalidBlsSignature.

(** The attestors of the list that are active, without duplicates. *)
Definition eligible_attestors (active : list AccountId) (attestation : SignedAttestation)
    : list AccountId :=
  btree_set (List.filter (fun a => bool_decide (a ∈ active)) (sa_attestors attestation)).

Definition validate_attestation (chain_key : ChainKey) (attestation : SignedAttestation)
    : PM C unit :=
  ensure_supported env chain_key;;
  blocked ← gets (fun s => commit_blocked_by_cleanup s chain_key);
  ensure_m (negb blocked) AttestationCleanupInProgress;;
  within ← gets (fun s => attestors_within_bound s chain_key attestation);
  ensure_m within TooManyAttestors;;
  duplicate ← gets (fun s => check_duplicate s attestation);
  ensure_m (negb duplicate) AttestationExists;;
  spaced ← gets (fun s => match LastDigest s !! chain_key with
    | Some (last_height, _) =>
        saturating_add 64 last_height (chain_attestation_interval s chain_key) <=?
          sa_header_number attestation
    | None => true
    end);
  ensure_m spaced InvalidAttestationBlockNumber;;
  active_attestors ← gets (fun s => btree_set (active_attestor_set s chain_key));
  let eligible := eligible_attestors active_attestors attestation in
  let threshold := calculate_quorum (wrap 32 (zlen active_attestors)) in
  ensure_m (threshold <=? wrap 32 (zlen eligible)) MajorityNotReached;;
  agg_signature ← lift (extract_agg_signature (sa_signature attestation));
  s ← gets id;
  attestor_public_keys ←
    lift (gather_attestor_public_keys s (sa_chain_key attestation) eligible);
  deduped_public_keys ← lift (dedup_public_keys attestor_public_keys ∅);
  ensure_m (threshold <=? wrap 32 (zlen deduped_public_keys)) InsufficientUniqueSigners;;
  aggregated_public_key ← ok_or_m (aggregate_public_keys deduped_public_keys) InvalidBlsSignature;
  verify_agg_signature agg_signature (serialize (sa_attestation attestation))
    aggregated_public_key;;
  validate_attestation_continuity attestation.

End Validate.

(** ** What a valid attestation satisfies *)

Section Accepted.
Context {C : Type} `{Config} `{Keccak} `{Arch} `{!ArchOk} `{Bls}.
Variable env : Env.
Implicit Types s : State C.

Lemma validate_leaves {T} (v : State C -> T) ck att : leaves v (validate_attestation env ck att).
Proof. unfold validate_attestation, validate_attestation_continuity. leaves. Qed.

Lemma gather_keys_ok s ck l pks :
  gather_attestor_public_keys s ck l = Ok pks ->
  Forall2 (fun a pk => gather_attestor_public_key s ck a = Ok pk) l pks.
Proof.
  revert pks. induction l as [|a l IH]; intros pks; cbn; [by intros [= <-]|].
  destruct (gather_attestor_public_key s ck a) as [pk|] eqn:Hpk; [|done].
  destruct (gather_attestor_public_keys s ck l) as [rest|]; [|done].
  intros [= <-]. constructor; auto.
Qed.

Lemma dedup_keys_ok pks seen l :
  dedup_public_keys pks seen = Ok l ->
  l ⊆ pks /\ NoDup (pk_as_bytes <$> l) /\ Forall (fun pk => pk_as_bytes pk ∉ seen) l.
Proof.
  revert seen l. induction pks as [|pk pks IH]; intros seen l; cbn [dedup_public_keys].
  { intros [= <-]. split_and!; [done|constructor|constructor]. }
  destruct (_ =? 48); [|done].
  destruct (dedup_public_keys pks _) as [rest|] eqn:Hrest; [|done].
  apply IH in Hrest as (Hsub & Hnd & Hfresh).
  assert (Forall (fun pk => pk_as_bytes pk ∉ seen) rest) as Hseen.
  { eapply Forall_impl; [exact Hfresh|]. cbn. set_solver. }
  case_bool_decide as Hin; intros [= <-].
  - split_and!; [set_solver|done|done].
  - split_and!.
    + set_solver.
    + cbn. apply NoDup_cons. split; [|done]. intros (x & Hx & Hxr)%list_elem_of_fmap.
      rewrite Forall_forall in Hfresh. apply (Hfresh x Hxr). rewrite <- Hx. set_solver.
    + by constructor.
Qed.

(** The signers whose keys were aggregated over, and the aggregate that verified
    the attestation. *)
Record accepted_by s ck (att : SignedAttestation) (signers : list AccountId)
    (pks : list PublicKey) : Prop := {
  ab_nodup : NoDup signers;
  ab_active : signers ⊆ active_attestor_set s ck;
  ab_listed : signers ⊆ sa_attestors att;
  ab_quorum : calculate_quorum (wrap 32 (zlen (btree_set (active_attestor_set s ck))))
    <= zlen signers;
  ab_keys : forall pk, pk ∈ pks -> exists a, a ∈ signers /\
    gather_attestor_public_key s ck a = Ok pk;
  ab_distinct : NoDup (pk_as_bytes <$> pks);
  ab_enough : calculate_quorum (wrap 32 (zlen (btree_set (active_attestor_set s ck))))
    <= zlen pks;
  ab_signature : exists sig agg, sig_from_bytes (to_be_bytes 96 (sa_signature att)) = Some sig /\
    aggregate_public_keys pks = Some agg /\
    verify_agg_message sig (serialize (sa_attestation att)) agg = true;
}.

Lemma wrap_le w n : 0 <= n -> 0 < w -> wrap w n <= n.
Proof. intros. unfold wrap. apply Z.mod_le; [done|]. apply Z.pow_pos_nonneg; lia. Qed.

Lemma eligible_spec (l : list AccountId) att :
  NoDup (eligible_attestors (btree_set l) att) /\
  eligible_attestors (btree_set l) att ⊆ l /\
  eligible_attestors (btree_set l) att ⊆ sa_attestors att.
Proof.
  unfold eligible_attestors. split_and!; [apply NoDup_btree_set|..];
    intros a Ha; apply elem_of_btree_set, list_elem_of_In, filter_In in Ha as [Hin Hb].
  - apply bool_decide_eq_true in Hb. by rewrite elem_of_btree_set in Hb.
  - by apply list_elem_of_In.
Qed.

Lemma validate_ok ck att s u s' :
  sa_chain_key att = ck -> validate_attestation env ck att s = (Ok u, s') ->
  s' = s /\ env_is_chain_supported env ck = true /\ commit_blocked_by_cleanup s ck = false /\
  check_duplicate s att = false /\
  match LastDigest s !! ck with
  | Some (last_height, _) =>
      saturating_add 64 last_height (chain_attestation_interval s ck) <= sa_header_number att
  | None => True
  end /\
  (exists signers pks, accepted_by s ck att signers pks) /\
  validate_attestation_continuity att s = (Ok u, s).
Proof.
  intros Hck Hrun. pose proof (validate_leaves id _ _ _ _ _ Hrun) as Hs. cbn in Hs. subst s'.
  unfold validate_attestation, ensure_supported, verify_agg_signature, extract_agg_signature in Hrun.
  do 10 step_inv Hrun. cbv zeta in Hrun. do 4 step_inv Hrun. do 3 step_inv Hrun. step_inv Hrun.
  cbn [id] in *. split_and!; [done|done|by apply negb_true_iff|by apply negb_true_iff| | |done].
  { destruct (LastDigest s !! ck) as [[h d]|]; [lia|done]. }
  exists (eligible_attestors (btree_set (active_attestor_set s ck)) att), x7.
  destruct (eligible_spec (active_attestor_set s ck) att) as (Hnd & Hact & Hlist).
  apply dedup_keys_ok in Hstep1 as (Hsub & Hdist & _). rewrite Hck in Hstep0.
  apply gather_keys_ok in Hstep0.
  pose proof (wrap_le 32 (zlen x7) (zlen_nonneg _) ltac:(done)).
  pose proof (wrap_le 32 (zlen (eligible_attestors (btree_set (active_attestor_set s ck)) att))
    (zlen_nonneg _) ltac:(done)).
  constructor; try done; [lia| |lia|by exists x5, x9].
  intros pk Hpk. apply Hsub in Hpk. apply list_elem_of_lookup in Hpk as [i Hi].
  destruct (Forall2_lookup_r _ _ _ _ _ Hstep0 Hi) as (a & Ha & Hpk).
  exists a. split; [by eapply list_elem_of_lookup_2|done].
Qed.

(** Two attestations accepted against the same active set share more than a third
    of it as signers. *)
Lemma accepted_overlap s1 s2 ck att1 att2 signers1 signers2 pks1 pks2 :
  active_attestor_set s1 ck = active_attestor_set s2 ck ->
  NoDup (active_attestor_set s1 ck) -> zlen (active_attestor_set s1 ck) <= 2 ^ 31 - 1 ->
  accepted_by s1 ck att1 signers1 pks1 -> accepted_by s2 ck att2 signers2 pks2 ->
  zlen (active_attestor_set s1 ck) <
    3 * Z.of_nat (size (list_to_set signers1 ∩ list_to_set signers2 : gset AccountId)).
Proof.
  intros Hact Hnd Hlen A1 A2.
  assert (forall l : list AccountId, NoDup l ->
    Z.of_nat (size (list_to_set l : gset AccountId)) = zlen l) as Hsize.
  { intros l Hl. unfold zlen. by rewrite size_list_to_set. }
  assert (wrap 32 (zlen (btree_set (active_attestor_set s1 ck))) = zlen (active_attestor_set s1 ck))
    as Hw.
  { unfold zlen. rewrite btree_set_perm by done. apply wrap_small.
    unfold zlen in Hlen. change (2 ^ 32) with 4294967296. lia. }
  rewrite <- (Hsize _ Hnd). apply quorum_overlap.
  - by rewrite Hsize.
  - pose proof (ab_active _ _ _ _ _ A1). set_solver.
  - rewrite Hact. pose proof (ab_active _ _ _ _ _ A2). set_solver.
  - rewrite !Hsize by (done || apply A1). rewrite <- Hw. apply A1.
  - rewrite !Hsize by (done || apply A2). rewrite <- Hw, Hact. apply A2.
Qed.

(** ** Continuity *)

(** A valid attestation is the genesis one, or extends the last digest: it sits
    above it by one block for each root of its proof and one for itself, and its
    previous digest is the one those roots lead to. *)
Lemma continuity_ok att s u s' :
  0 <= sa_header_number att -> validate_attestation_continuity att s = (Ok u, s') ->
  let ck := sa_chain_key att in
  let rs := roots (sa_continuity_proof att) in
  zlen rs <= 2 ^ usize_bits /\
  ((sa_header_number att = attestation_chain_genesis_block_number s ck /\
   sa_prev_digest att = None /\ rs = []) \/
  exists d h, last_digest s ck = Some d /\ finalized_header_number s ck d = Some h /\
    (rs <> [] -> lower_endpoint_digest (sa_continuity_proof att) = d) /\
    sa_prev_digest att = Some (continuity_digest_loop (h + 1) 0 d rs) /\
    (0 <= h < sa_header_number att -> sa_header_number att = h + 1 + zlen rs) /\
    (rs <> [] -> 0 <= h /\ sa_header_number att = h + 1 + zlen rs)).
Proof.
  intros Hpos Hrun. cbv zeta. unfold validate_attestation_continuity in Hrun. step_inv Hrun.
  destruct (Z.eqb_spec (sa_header_number att)
    (attestation_chain_genesis_block_number s (sa_chain_key att))) as [Hg|Hg].
  { step_inv Hrun. call_inv. unfold is_empty_proof in *. destruct (roots _); [|done].
    split; [|by left]. change (zlen []) with 0. by apply Z.pow_nonneg. }
  do 4 step_inv Hrun. rename x into prev, x1 into d.
  unfold is_empty_proof in Hrun.
  destruct ((prev =? d) && _) eqn:Hdirect.
  - apply andb_true_iff in Hdirect as [->%Z.eqb_eq Hempty].
    destruct (roots (sa_continuity_proof att)) as [|r rs]; [|done].
    do 2 step_inv Hrun. call_inv. split; [change (zlen []) with 0; by apply Z.pow_nonneg|].
    right. eexists d, _. split_and!; try done. intros Hh. change (zlen []) with 0. apply Z.eqb_eq in Hens0.
    assert (x + 1 < 2 ^ 64); [|rewrite wrap_small in Hens0; lia].
    pose proof (Z.mod_pos_bound (x + 1) (2 ^ 64) ltac:(done)). unfold wrap in Hens0. lia.
  - do 3 step_inv Hrun. cbv zeta in Hrun. do 6 step_inv Hrun. call_inv.
    unfold tail_prev_digest in Hstep1.
    destruct (roots (sa_continuity_proof att)) as [|r rs] eqn:Hrs; [done|].
    injection Hstep1 as <-. apply checked_sub_Some in Hstep3 as [-> Htail].
    apply Z.eqb_eq in Hens2, Hens3, Hens4. split.
    { apply Z.leb_le in Hens1. pose proof usize_ok. etrans; [exact Hens1|].
      apply Z.lt_le_incl, Z.mod_pos_bound, Z.pow_pos_nonneg; lia. }
    right. exists d, x4.
    assert (x4 + 1 = start_block_number (sa_continuity_proof att) (sa_header_number att)) as Hx
      by lia.
    unfold compute_continuity_digest in Hens4. rewrite Hrs, Hens2, <- Hx in Hens4.
    assert (sa_header_number att = x4 + 1 + zlen (r :: rs)) as Hh.
    { unfold start_block_number, saturating_sub in Hx, Htail. rewrite Hrs in Hx, Htail. lia. }
    rewrite <- Hens2 at 2. split_and!; try done.
    + rewrite Hstep. by rewrite Hens4.
    + intros _. split; [lia|done].
Qed.
End Accepted.
