(* ===== verification/Checkpoints.v ===== *)
(** * Committing attestations and making checkpoints

    [do_commit_attestation] of [src/pallets/attestation/src/impls.rs] with the
    three ways it condenses attestations into checkpoints: the queue, the
    catch-up over a long continuity proof, and the off-grid checkpoint of a full
    queue; and the retention of condensed attestations. *)

From stdpp Require Import prelude gmap list sorting strings.
From Stdlib Require Import ZArith Lia.
From S2P Require Import Prelude Primitives Frame Types Ledger Roster Validate.

Section Commit.
Context {C : Type} `{Config} `{Keccak} `{Arch} `{Bls}.
Variable env : Env.
Implicit Types s : State C.

(** Store a checkpoint as the last one and announce it. *)
Definition record_checkpoint (chain_key : ChainKey) (cp : AttestationCheckpoint) : PM C unit :=
  deposit_event (CheckpointReached chain_key cp);;
  insert_checkpoint chain_key cp;;
  modify (fun s => s <| LastCheckpoint ::= <[chain_key := cp]> |>).

(** ** Retention *)

Fixpoint remove_oldest (chain_key : ChainKey) (retention_duration : Z) (queue : list Digest)
    : PM C (list Digest) :=
  if retention_duration <? zlen queue then
    match queue with
    | to_remove :: queue' =>
        modify (fun s => s <| Attestations ::= dremove chain_key to_remove |>);;
        remove_oldest chain_key retention_duration queue'
    | [] => fail (ModuleError CheckpointCreationError)
    end
  else mret queue.

Definition remove_attestations (chain_key : ChainKey) (attestation_removal_queue : list Digest)
    : PM C unit :=
  transactional (
    retention_duration ← gets (fun s => attestation_retention_duration s chain_key);
    queue ← remove_oldest chain_key retention_duration attestation_removal_queue;
    modify (fun s => s <| AttestationRemovalQueues ::= <[chain_key := queue]> |>)).

(** ** Checkpoints from the queue *)

Definition checkpoint_width s (chain_key : ChainKey) : Z :=
  saturating_mul 64 (chain_attestation_interval s chain_key)
    (attestation_checkpoint_interval s chain_key).

(** Put popped digests back at the front, oldest first. *)
Definition restore (rollback queue : list Digest) : list Digest :=
  foldl (fun q d => d :: q) queue (rev rollback).

(** The loop of [try_make_checkpoint] over the queue: the new checkpoint, the
    rest of the queue and the removal queue; or an error with the queue as the
    rollback leaves it. *)
Fixpoint condense_queue s (chain_key : ChainKey) (target_block : Height)
    (queue rollback removal_queue : list Digest)
    : Result (DispatchError Error * list Digest)
        (AttestationCheckpoint * list Digest * list Digest) :=
  match queue with
  | [] => Err (ModuleError CheckpointingQueueDrained, restore rollback [])
  | attestation_digest :: queue' =>
      let rollback := rollback ++ [attestation_digest] in
      match dget (Attestations s) chain_key attestation_digest with
      | None => Err (ModuleError AttestationNotFound, restore rollback queue')
      | Some attestation =>
          match sa_header_number attestation ?= target_block with
          | Lt => condense_queue s chain_key target_block queue' rollback
                    (removal_queue ++ [attestation_digest])
          | Eq => Ok (mkCheckpoint (sa_header_number attestation) (sa_digest attestation),
                    queue', removal_queue ++ [attestation_digest])
          | Gt =>
              let proof := sa_continuity_proof attestation in
              let start := start_block_number proof (sa_header_number attestation) in
              match digest_for_block proof start target_block with
              | Some digest =>
                  Ok (mkCheckpoint target_block digest, attestation_digest :: queue', removal_queue)
              | None => Err (ModuleError CheckpointTargetNotFound, restore rollback queue')
              end
          end
      end
  end.

(** Errors carry the queue, which the caller keeps. *)
Definition with_queue {A} (queue : list Digest) (m : PM C A)
    : M (State C) (DispatchError Error * list Digest) A := fun s =>
  match m s with
  | (Ok a, s') => (Ok a, s')
  | (Err e, s') => (Err (e, queue), s')
  end.

Definition try_make_checkpoint (queue : list Digest) (chain_key : ChainKey)
    (attestation_header : Height) : M (State C) (DispatchError Error * list Digest) (list Digest) :=
  transactional (
    last ← gets (fun s => LastCheckpoint s !! chain_key);
    last ← with_queue queue (ok_or_m last LastCheckpointEmpty);
    let last_checkpoint_header := cp_block_number last in
    width ← gets (fun s => checkpoint_width s chain_key);
    with_queue queue (ensure_m (0 <? width) CheckpointWidthIsZero);;
    let attestation_block_span := saturating_sub attestation_header last_checkpoint_header in
    if attestation_block_span <? wrap 64 (wrap 64 (width * 2) + 1) then mret queue
    else
      let next_checkpoint_block := saturating_add 64 last_checkpoint_header width in
      let target_block := next_checkpoint_block - next_checkpoint_block mod width in
      removal_queue ← gets (fun s => attestation_removal_queue s chain_key);
      s ← gets id;
      condensed ← lift (condense_queue s chain_key target_block queue [] removal_queue);
      let '(new_checkpoint, queue, removal_queue) := condensed in
      with_queue queue (record_checkpoint chain_key new_checkpoint);;
      with_queue queue (remove_attestations chain_key removal_queue);;
      mret queue).

Definition checkpoint_at_attestation (chain_key : ChainKey) (block_number : Height)
    (digest : Digest) (condensed : list Digest) : PM C unit :=
  record_checkpoint chain_key (mkCheckpoint block_number digest);;
  modify (fun s => s <| CheckpointingQueues ::= delete chain_key |>);;
  removal_queue ← gets (fun s => attestation_removal_queue s chain_key);
  remove_attestations chain_key (removal_queue ++ condensed).

(** ** Catch-up *)

(** The digests of the heights between the last checkpoint and the attestation:
    the attestation's own block and proof, then those of the queued ones. *)
Definition queued_digests s (chain_key : ChainKey) (queue : list Digest) (m : gmap Z Digest)
    : gmap Z Digest :=
  foldl (fun m queued_digest =>
    match dget (Attestations s) chain_key queued_digest with
    | Some queued =>
        let proof := sa_continuity_proof queued in
        (m ∪ {[sa_header_number queued := sa_digest queued]}) ∪
          block_digests proof (start_block_number proof (sa_header_number queued))
    | None => m
    end) m queue.

(** The loop over checkpoint boundaries up to the attestation's height; it
    returns the last checkpoint's height. *)
Fixpoint boundary_loop (fuel : nat) (chain_key : ChainKey) (width head_block : Z)
    (digests : gmap Z Digest) (last_checkpoint_block : Z) : PM C Z :=
  match fuel with
  | O => fail (Other "boundary_loop")
  | S fuel' =>
      let next := saturating_add 64 last_checkpoint_block width in
      let target_block := saturating_sub next (next mod width) in
      if head_block <? target_block then mret last_checkpoint_block
      else
        digest ← ok_or_m (digests !! target_block) CheckpointCreationError;
        record_checkpoint chain_key (mkCheckpoint target_block digest);;
        boundary_loop fuel' chain_key width head_block digests target_block
  end.

Definition boundary_fuel (width head_block : Z) : nat := S (S (Z.to_nat (head_block / width))).

Definition create_checkpoints_from_queue (chain_key : ChainKey) (attestation : SignedAttestation)
    (attestation_digest : Digest) (checkpointing_queue : list Digest) : PM C bool :=
  transactional (
    last ← gets (fun s => LastCheckpoint s !! chain_key);
    last_checkpoint ← ok_or_m last LastCheckpointEmpty;
    width ← gets (fun s => checkpoint_width s chain_key);
    ensure_m (0 <? width) CheckpointWidthIsZero;;
    let proof := sa_continuity_proof attestation in
    let start := start_block_number proof (sa_header_number attestation) in
    digests ← gets (fun s => queued_digests s chain_key checkpointing_queue
      (<[sa_header_number attestation := attestation_digest]> (block_digests proof start)));
    let head_block := sa_header_number attestation in
    removal_queue ← gets (fun s => attestation_removal_queue s chain_key);
    last_checkpoint_block ← boundary_loop (boundary_fuel width head_block) chain_key width
      head_block digests (cp_block_number last_checkpoint);
    if negb (last_checkpoint_block =? cp_block_number last_checkpoint) then
      remove_attestations chain_key (removal_queue ++ checkpointing_queue ++ [attestation_digest]);;
      modify (fun s => s <| CheckpointingQueues ::= delete chain_key |>);;
      mret true
    else mret false).

Definition create_checkpoints_from_continuity_proof (chain_key : ChainKey)
    (attestation : SignedAttestation) (attestation_digest : Digest) : PM C bool :=
  if is_empty_proof (sa_continuity_proof attestation) then mret false
  else
    width ← gets (fun s => checkpoint_width s chain_key);
    ensure_m (0 <? width) CheckpointWidthIsZero;;
    if zlen (roots (sa_continuity_proof attestation)) <? wrap usize_bits (2 * wrap usize_bits width)
    then mret false
    else
      queue ← gets (fun s => checkpointing_queue s chain_key);
      create_checkpoints_from_queue chain_key attestation attestation_digest queue.

(** ** Commit *)

(** Count the attestation, store it as the last digest and announce it. *)
Definition store_attestation (attestation : SignedAttestation) : PM C unit :=
  let chain_key := sa_chain_key attestation in
  let now := env_block_number env in
  committed_this_block ← gets (fun s => match AttestationsInBlock s !! chain_key with
    | Some (block, count) => if block =? now then count else 0
    | None => 0
    end);
  ensure_m (committed_this_block <? MaxAttestationsPerBlock) TooManyAttestationsInBlock;;
  modify (fun s => s <| AttestationsInBlock ::=
    <[chain_key := (now, saturating_add 32 committed_this_block 1)]> |>);;
  let digest := sa_digest attestation in
  let header_number := sa_header_number attestation in
  modify (fun s => s <| Attestations ::= dinsert chain_key digest attestation |>);;
  modify (fun s => match LastDigest s !! chain_key with
    | Some (h, _) =>
        if h <? header_number
        then s <| LastDigest ::= <[chain_key := (header_number, digest)]> |> else s
    | None => s <| LastDigest ::= <[chain_key := (header_number, digest)]> |>
    end);;
  deposit_event (BlockAttested chain_key header_number digest).

(** The first attestation is its own checkpoint, with nothing to condense. *)
Definition first_checkpoint (chain_key : ChainKey) (header_number : Height) (digest : Digest)
    : PM C unit :=
  genesis_block_number ← gets (fun s => attestation_chain_genesis_block_number s chain_key);
  ensure_m (genesis_block_number =? header_number) InvalidAttestationBlockNumber;;
  record_checkpoint chain_key (mkCheckpoint header_number digest);;
  modify (fun s => s <| AttestationRemovalQueues ::=
    <[chain_key := attestation_removal_queue s chain_key ++ [digest]]> |>).

(** Queue the attestation; a checkpoint that cannot be made is not an error, and
    a queue over its bound is condensed at the attestation. *)
Definition queue_attestation (chain_key : ChainKey) (header_number : Height) (digest : Digest)
    : PM C unit :=
  queue ← gets (fun s => checkpointing_queue s chain_key ++ [digest]);
  queue ← (fun s =>
    match try_make_checkpoint queue chain_key header_number s with
    | (Ok queue, s') => (Ok queue, s')
    | (Err (_, queue), s') => (Ok queue, s')
    end);
  if MaxCheckpointingQueueLen <? zlen queue then
    checkpoint_at_attestation chain_key header_number digest queue
  else
    modify (fun s => s <| CheckpointingQueues ::= <[chain_key := queue]> |>).

Definition do_commit_attestation (attestation : SignedAttestation) : PM C unit :=
  let chain_key := sa_chain_key attestation in
  validate_attestation env chain_key attestation;;
  store_attestation attestation;;
  let digest := sa_digest attestation in
  let header_number := sa_header_number attestation in
  first ← gets (fun s => bool_decide (row (Checkpoints s) chain_key = ∅));
  if first : bool then first_checkpoint chain_key header_number digest
  else
    caught_up ← create_checkpoints_from_continuity_proof chain_key attestation digest;
    if caught_up : bool then mret tt
    else queue_attestation chain_key header_number digest.

Definition commit_attestation (origin : Origin) (attestation : SignedAttestation) : PM C unit :=
  transactional (
    account ← ensure_signed origin;
    active_attestors ← gets (fun s =>
      btree_set (active_attestor_set s (sa_chain_key attestation)));
    ensure_m (bool_decide (account ∈ active_attestors)) AttestorNotActive;;
    do_commit_attestation attestation).

End Commit.
