(* ===== verification/Maintenance.v ===== *)
(** * Reverts, imports, pruning and the cleanup of removed chains

    [src/pallets/attestation/src/clear_or_revert.rs], the operator calls that
    rewrite checkpoints ([revert_to], [import_checkpoints],
    [forward_patch_checkpoints] of [lib.rs] with their bodies in [impls.rs]),
    and the hooks that finish what those calls only start. *)

From stdpp Require Import prelude gmap list sorting strings.
From Stdlib Require Import ZArith Lia.
From S2P Require Import Prelude Primitives Frame Types Ledger Roster.

Definition MAX_CHECKPOINTS_CLEARED_PER_BLOCK : Z := 40.
Definition MAX_ATTESTATIONS_CLEARED_PER_BLOCK : Z := 40.
Definition MAX_REMOVAL_CLEANUP_ITEMS_PER_BLOCK : Z := 40.

Section Maintenance.
Context {C : Type} `{Config} `{FrameStorage Z} `{FrameStorage (Z * Z)}.
Variable env : Env.
Implicit Types s : State C.

(** [StorageMap::set] *)
Definition set_or_remove {V} (ck : Z) (o : option V) (m : gmap Z V) : gmap Z V :=
  match o with Some v => <[ck := v]> m | None => delete ck m end.

(** A bounded clear of the chain's attestations, the rest left to a cursor. *)
Definition clear_attestations (chain_key : ChainKey) (cursor : option Z) : PM C unit :=
  modify (fun s =>
    let '(rows, _, maybe_cursor) :=
      clear_row AttestationsItem chain_key MAX_ATTESTATIONS_CLEARED_PER_BLOCK cursor
        (Attestations s) in
    s <| Attestations := rows |>
      <| AttestationClearingCursors ::= set_or_remove chain_key maybe_cursor |>).

(** [CheckpointBuckets::iter_key_prefix((chain_key, pivot))] *)
Definition bucket_heights s (chain_key : ChainKey) (pivot : Z) : list Z :=
  trie_order CheckpointBucketsItem
    (map snd (filter (fun ph => ph.1 = pivot) (elements (bucket_row s chain_key)))).

Definition remove_checkpoint (chain_key : ChainKey) (pivot block_number : Z) : PM C unit :=
  modify (fun s => s <| Checkpoints ::= dremove chain_key block_number |>);;
  modify (fun s => s <| CheckpointBuckets ::=
    <[chain_key := bucket_row s chain_key ∖ {[(pivot, block_number)]}]> |>).

Definition purge_bucket_above (chain_key : ChainKey) (height : Height) : PM C Z :=
  let pivot := compute_block_index_for height in
  block_heights ← gets (fun s => bucket_heights s chain_key pivot);
  for_each (fun block_number =>
    when (height <? block_number) (remove_checkpoint chain_key pivot block_number)) block_heights;;
  mret pivot.

(** ** Reverting *)

Definition do_revert_to (chain_key : ChainKey) (checkpoint_height : Height) : PM C Digest :=
  stored ← gets (fun s => dget (Checkpoints s) chain_key checkpoint_height);
  digest ← ok_or_m stored NoSuchCheckpoint;
  last ← gets (fun s => LastCheckpoint s !! chain_key);
  last_checkpoint ← ok_or_m last LastCheckpointNotSet;
  clear_attestations chain_key None;;
  modify (fun s => s <| CheckpointingQueues ::= delete chain_key |>);;
  modify (fun s => s <| AttestationRemovalQueues ::= delete chain_key |>);;
  checkpoint_pivot ← purge_bucket_above chain_key checkpoint_height;
  let pruning_state := mkPruningState (cp_block_number last_checkpoint)
    (saturating_add 64 checkpoint_pivot CHECKPOINT_BUCKET_SIZE) in
  modify (fun s => s <| CheckpointPruningStates ::= <[chain_key := pruning_state]> |>);;
  modify (fun s => s <| LastCheckpoint ::=
    <[chain_key := mkCheckpoint checkpoint_height digest]> |>);;
  modify (fun s => s <| LastDigest ::= <[chain_key := (checkpoint_height, digest)]> |>);;
  mret digest.

Definition revert_to (origin : Origin) (chain_key : ChainKey) (checkpoint_height : Height)
    : PM C unit :=
  transactional (
    ensure_origin OperatorsOrigin origin;;
    ensure_supported env chain_key;;
    idle ← gets (fun s => bool_decide (CheckpointPruningStates s !! chain_key = None) &&
      bool_decide (AttestationClearingCursors s !! chain_key = None));
    ensure_m idle TriedToRevertDuringOngoingReversion;;
    checkpoint_digest ← do_revert_to chain_key checkpoint_height;
    deposit_event (RevertedAttestationChainTo chain_key checkpoint_height checkpoint_digest)).

(** ** Importing *)

(** One checkpoint of an import: whether the last checkpoint to set moves. *)
Definition import_one (chain_key : ChainKey) (has_attestations : bool)
    (maybe_last_checkpoint : option AttestationCheckpoint)
    (maybe_new_last_checkpoint : option AttestationCheckpoint) (checkpoint : AttestationCheckpoint)
    : PM C (option AttestationCheckpoint) :=
  known ← gets (fun s =>
    bool_decide (is_Some (dget (Checkpoints s) chain_key (cp_block_number checkpoint))));
  let store new_last :=
    insert_checkpoint chain_key checkpoint;;
    deposit_event (CheckpointReached chain_key checkpoint);;
    mret new_last in
  if known : bool then mret maybe_new_last_checkpoint
  else
    match has_attestations, maybe_last_checkpoint with
    | _, Some last_checkpoint =>
        if cp_block_number last_checkpoint <=? cp_block_number checkpoint
        then mret maybe_new_last_checkpoint else store maybe_new_last_checkpoint
    | true, None => fail (ModuleError LastCheckpointNotSet)
    | false, None =>
        match maybe_new_last_checkpoint with
        | Some last_checkpoint =>
            if cp_block_number last_checkpoint <? cp_block_number checkpoint
            then store (Some checkpoint) else store maybe_new_last_checkpoint
        | None => store (Some checkpoint)
        end
    end.

Fixpoint import_loop (chain_key : ChainKey) (has_attestations : bool)
    (maybe_last_checkpoint maybe_new_last_checkpoint : option AttestationCheckpoint)
    (checkpoints : list AttestationCheckpoint) : PM C (option AttestationCheckpoint) :=
  match checkpoints with
  | [] => mret maybe_new_last_checkpoint
  | checkpoint :: rest =>
      new_last ← import_one chain_key has_attestations maybe_last_checkpoint
        maybe_new_last_checkpoint checkpoint;
      import_loop chain_key has_attestations maybe_last_checkpoint new_last rest
  end.

Definition do_import_checkpoints (chain_key : ChainKey)
    (checkpoints : list AttestationCheckpoint) : PM C unit :=
  transactional (
    ensure_supported env chain_key;;
    has_attestations ← gets (fun s => bool_decide (is_Some (LastDigest s !! chain_key)));
    maybe_last_checkpoint ← gets (fun s => LastCheckpoint s !! chain_key);
    let initial_block_number := default 0 (cp_block_number <$> maybe_last_checkpoint) in
    maybe_new_last_checkpoint ← import_loop chain_key has_attestations maybe_last_checkpoint
      maybe_last_checkpoint checkpoints;
    match maybe_new_last_checkpoint with
    | Some checkpoint =>
        when ((initial_block_number <? cp_block_number checkpoint) ||
              bool_decide (maybe_last_checkpoint = None))
          (modify (fun s => s <| LastCheckpoint ::= <[chain_key := checkpoint]> |>))
    | None => mret tt
    end).

Definition import_checkpoints (origin : Origin) (chain_key : ChainKey)
    (checkpoints : list AttestationCheckpoint) : PM C unit :=
  transactional (
    ensure_origin OperatorsOrigin origin;;
    do_import_checkpoints chain_key checkpoints).

(** ** Forward patches *)

Definition purge_attestations_for_forward_patch (chain_key : ChainKey) : PM C unit :=
  modify (fun s => s <| CheckpointingQueues ::= delete chain_key |>);;
  modify (fun s => s <| AttestationRemovalQueues ::= delete chain_key |>);;
  modify (fun s => s <| LastDigest ::= delete chain_key |>);;
  clear_attestations chain_key None.

(** The [BTreeMap] of a batch, a later entry replacing an earlier one. *)
Definition merge_batch (checkpoints : list AttestationCheckpoint) : gmap Z Digest :=
  foldl (fun m c => <[cp_block_number c := cp_digest c]> m) ∅ checkpoints.

(** Its entries in increasing order of height. *)
Definition batch_entries (merged : gmap Z Digest) : list AttestationCheckpoint :=
  omap (fun h => mkCheckpoint h <$> merged !! h) (btree_set (map_keys merged)).

Definition patch_suffix (chain_key : ChainKey) (batch_max : Height) : PM C unit :=
  tip_pivot ← purge_bucket_above chain_key batch_max;
  let next_pivot := saturating_add 64 tip_pivot CHECKPOINT_BUCKET_SIZE in
  last ← gets (fun s => LastCheckpoint s !! chain_key);
  match last with
  | Some last =>
      when (next_pivot <=? cp_block_number last)
        (modify (fun s => s <| CheckpointPruningStates ::=
          <[chain_key := mkPruningState (cp_block_number last) next_pivot]> |>))
  | None => mret tt
  end.

Definition do_forward_patch_checkpoints (chain_key : ChainKey) (wipe_suffix : bool)
    (checkpoints : list AttestationCheckpoint) : PM C unit :=
  transactional (
    ensure_supported env chain_key;;
    idle ← gets (fun s => bool_decide (CheckpointPruningStates s !! chain_key = None) &&
      bool_decide (CheckpointClearingCursors s !! chain_key = None) &&
      bool_decide (BucketClearingCursors s !! chain_key = None) &&
      bool_decide (AttestationClearingCursors s !! chain_key = None));
    ensure_m idle CheckpointMaintenanceInProgress;;
    ensure_m (negb (bool_decide (checkpoints = []))) EmptyCheckpointPatch;;
    purge_attestations_for_forward_patch chain_key;;
    let merged := batch_entries (merge_batch checkpoints) in
    batch_tip ← ok_or_m (last merged) EmptyCheckpointPatch;
    when wipe_suffix (patch_suffix chain_key (cp_block_number batch_tip));;
    for_each (fun checkpoint =>
      insert_checkpoint chain_key checkpoint;;
      deposit_event (CheckpointReached chain_key checkpoint)) merged;;
    current ← gets (fun s => LastCheckpoint s !! chain_key);
    let new_last := match current with
      | Some lc =>
          if negb wipe_suffix && (cp_block_number batch_tip <? cp_block_number lc)
          then lc else batch_tip
      | None => batch_tip
      end in
    modify (fun s => s <| LastCheckpoint ::= <[chain_key := new_last]> |>);;
    deposit_event (ForwardCheckpointPatchApplied chain_key wipe_suffix (cp_block_number new_last))).

Definition forward_patch_checkpoints (origin : Origin) (chain_key : ChainKey)
    (wipe_suffix : bool) (checkpoints : list AttestationCheckpoint) : PM C unit :=
  transactional (
    ensure_origin OperatorsOrigin origin;;
    do_forward_patch_checkpoints chain_key wipe_suffix checkpoints).

(** ** Pruning *)

(** The loop of [prune_checkpoints_impl]; an iteration either finishes a pivot or
    spends the remaining entries, so it ends within [remaining_pivots + 1] turns. *)
Fixpoint prune_loop (fuel : nat) (chain_key : ChainKey) (remaining_entries remaining_pivots : Z)
    (state : CheckpointPruningState) : PM C unit :=
  let persist :=
    modify (fun s => s <| CheckpointPruningStates ::= <[chain_key := state]> |>) in
  match fuel with
  | O => persist
  | S fuel' =>
      if (0 <? remaining_entries) && (0 <? remaining_pivots) then
        let current_pivot := ps_next_pivot state in
        if ps_stop_height state <? current_pivot then
          modify (fun s => s <| CheckpointPruningStates ::= delete chain_key |>)
        else
          removal_heights ← gets (fun s =>
            take (Z.to_nat (MAX_CHECKPOINTS_CLEARED_PER_BLOCK + 1))
              (bucket_heights s chain_key current_pivot));
          let removal_limit := Z.min (zlen removal_heights) remaining_entries in
          for_each (remove_checkpoint chain_key current_pivot)
            (take (Z.to_nat removal_limit) removal_heights);;
          let remaining_entries := saturating_sub remaining_entries removal_limit in
          if zlen removal_heights =? removal_limit then
            prune_loop fuel' chain_key remaining_entries (remaining_pivots - 1)
              (mkPruningState (ps_stop_height state)
                 (saturating_add 64 current_pivot CHECKPOINT_BUCKET_SIZE))
          else prune_loop fuel' chain_key remaining_entries remaining_pivots state
      else persist
  end.

Definition MAX_PIVOTS_PER_BLOCK : Z := MAX_CHECKPOINTS_CLEARED_PER_BLOCK * 2.

Definition prune_checkpoints_impl (chain_key : ChainKey) (state : CheckpointPruningState)
    : PM C unit :=
  prune_loop (S (S (Z.to_nat MAX_PIVOTS_PER_BLOCK))) chain_key MAX_CHECKPOINTS_CLEARED_PER_BLOCK
    MAX_PIVOTS_PER_BLOCK state.

(** The first entry of a map, in iteration order: [iter().next()]. *)
Definition first_entry {V} (it : StorageItem) (m : gmap Z V) : option (Z * V) :=
  k ← head (iter_keys it m);
  v ← m !! k;
  Some (k, v).

(** Run the work on the first pending entry, if there is one. *)
Definition on_first {V} (it : StorageItem) (items : State C -> gmap Z V)
    (work : ChainKey -> V -> PM C unit) : PM C unit :=
  pending ← gets (fun s => first_entry it (items s));
  match pending with Some (chain_key, v) => work chain_key v | None => mret tt end.

Definition on_init_prune_checkpoints : PM C unit :=
  on_first PruningStatesItem CheckpointPruningStates prune_checkpoints_impl.

(** ** Continued clears *)

Definition clear_checkpoints (chain_key : ChainKey) (cursor : option Z) : PM C (option Z) :=
  cleared ← gets (fun s => clear_row CheckpointsItem chain_key MAX_CHECKPOINTS_CLEARED_PER_BLOCK
    cursor (Checkpoints s));
  let '(rows, _, maybe_cursor) := cleared in
  modify (fun s => s <| Checkpoints := rows |>);;
  mret maybe_cursor.

Definition clear_buckets (chain_key : ChainKey) (cursor : option Z) : PM C (option Z) :=
  cleared ← gets (fun s => clear_prefix CheckpointBucketsItem
    (elements (bucket_row s chain_key)) MAX_CHECKPOINTS_CLEARED_PER_BLOCK cursor);
  let '(removed, maybe_cursor) := cleared in
  modify (fun s => s <| CheckpointBuckets ::=
    <[chain_key := bucket_row s chain_key ∖ list_to_set removed]> |>);;
  mret maybe_cursor.

Definition on_init_clear_checkpoints : PM C unit :=
  on_first CheckpointCursorsItem CheckpointClearingCursors (fun chain_key cursor =>
    maybe_cursor ← clear_checkpoints chain_key (Some cursor);
    modify (fun s => s <| CheckpointClearingCursors ::= set_or_remove chain_key maybe_cursor |>);;
    deposit_event (CheckpointsCleared chain_key)).

Definition on_init_clear_buckets : PM C unit :=
  on_first BucketCursorsItem BucketClearingCursors (fun chain_key cursor =>
    maybe_cursor ← clear_buckets chain_key (Some cursor);
    modify (fun s => s <| BucketClearingCursors ::= set_or_remove chain_key maybe_cursor |>)).

Definition on_init_clear_attestations : PM C unit :=
  on_first AttestationCursorsItem AttestationClearingCursors (fun chain_key cursor =>
    clear_attestations chain_key (Some cursor)).

(** ** The cleanup of a removed chain *)

(** Set up to [budget] attestors after the cursor to idle; whether none are left,
    the new cursor and the budget. *)
Definition chill_attestors_batch (chain_key : ChainKey) (cursor : option AccountId) (budget : Z)
    : PM C (bool * option AccountId * Z) :=
  ids ← gets (fun s =>
    let keys := map_keys (row (Attestors s) chain_key) in
    take (Z.to_nat (budget + 1))
      (match cursor with
       | Some c => iter_from AttestorsItem c keys
       | None => trie_order AttestorsItem keys
       end));
  let finished := zlen ids <=? budget in
  let batch := take (Z.to_nat budget) ids in
  for_each (fun attestor_id =>
    set_attestor_status chain_key attestor_id Idle;;
    deposit_event (AttestorChilled chain_key attestor_id)) batch;;
  mret (finished, match last batch with Some a => Some a | None => cursor end,
    saturating_sub budget (zlen batch)).

(** Remove up to [budget] retired keys with their index pairs. *)
Definition clear_retired_keys_batch (chain_key : ChainKey) (budget : Z) : PM C (bool * Z) :=
  rows ← gets (fun s =>
    let retired := row (RetiredAttestorBlsKeys s) chain_key in
    take (Z.to_nat (budget + 1))
      (omap (fun a => (fun e => (a, e)) <$> retired !! a) (iter_keys RetiredKeysItem retired)));
  let finished := zlen rows <=? budget in
  let batch := take (Z.to_nat budget) rows in
  for_each (fun '(attestor_id, entry) =>
    modify (fun s => s <| RetiredAttestorBlsKeys ::= dremove chain_key attestor_id |>);;
    remove_stash_retired_index_pair (re_stash entry) chain_key attestor_id) batch;;
  mret (finished, saturating_sub budget (zlen batch)).

(** The phases in the order the loop goes through them, each ending the batch
    when it is not finished. *)
Definition cleanup_invulnerables (chain_key : ChainKey) (budget : Z)
    : PM C (option RemovedChainCleanupPhase) :=
  cleared ← gets (fun s => clear_row InvulnerablesItem chain_key budget None (Invulnerables s));
  let '(rows, _, maybe_cursor) := cleared in
  modify (fun s => s <| Invulnerables := rows |>);;
  mret ((fun _ => InvulnerablesPhase) <$> maybe_cursor).

Definition cleanup_owners (chain_key : ChainKey) (budget : Z)
    : PM C (option RemovedChainCleanupPhase) :=
  cleared ← gets (fun s => clear_row BlsKeyOwnerItem chain_key budget None (BlsKeyOwner s));
  let '(rows, removed, maybe_cursor) := cleared in
  modify (fun s => s <| BlsKeyOwner := rows |>);;
  match maybe_cursor with
  | Some _ => mret (Some BlsKeyOwners)
  | None => cleanup_invulnerables chain_key (saturating_sub budget (zlen removed))
  end.

Definition cleanup_retired (chain_key : ChainKey) (budget : Z)
    : PM C (option RemovedChainCleanupPhase) :=
  cleared ← clear_retired_keys_batch chain_key budget;
  let '(finished, budget) := cleared in
  if finished : bool then cleanup_owners chain_key budget else mret (Some RetiredKeys).

Definition run_removed_chain_cleanup (chain_key : ChainKey) (phase : RemovedChainCleanupPhase)
    : PM C (option RemovedChainCleanupPhase) :=
  let budget := MAX_REMOVAL_CLEANUP_ITEMS_PER_BLOCK in
  match phase with
  | ChillAttestors cursor =>
      chilled ← chill_attestors_batch chain_key cursor budget;
      let '(finished, cursor, budget) := chilled in
      if finished : bool then cleanup_retired chain_key budget
      else mret (Some (ChillAttestors cursor))
  | RetiredKeys => cleanup_retired chain_key budget
  | BlsKeyOwners => cleanup_owners chain_key budget
  | InvulnerablesPhase => cleanup_invulnerables chain_key budget
  end.

Definition continue_removed_chain_cleanup (chain_key : ChainKey)
    (phase : RemovedChainCleanupPhase) : PM C unit :=
  next ← run_removed_chain_cleanup chain_key phase;
  modify (fun s => s <| RemovedChainCleanup ::= set_or_remove chain_key next |>).

Definition on_init_cleanup_removed_chains : PM C unit :=
  on_first RemovedChainCleanupItem RemovedChainCleanup continue_removed_chain_cleanup.

(** ** Hooks *)

Definition on_initialize : PM C unit :=
  on_init_prune_checkpoints;;
  on_init_clear_checkpoints;;
  on_init_clear_buckets;;
  on_init_clear_attestations;;
  on_init_cleanup_removed_chains.

(** Per-chain values dropped with the chain. *)
Definition drop_settings (chain_key : ChainKey) : PM C unit :=
  modify (fun s => s <| AttestationsInBlock ::= delete chain_key |>);;
  modify (fun s => s <| LastCheckpoint ::= delete chain_key |>);;
  modify (fun s => s <| LastDigest ::= delete chain_key |>);;
  modify (fun s => s <| PendingTargetSampleSize ::= delete chain_key |>);;
  modify (fun s => s <| TargetSampleSize ::= delete chain_key |>);;
  modify (fun s => s <| ChainAttestationInterval ::= delete chain_key |>);;
  modify (fun s => s <| PendingAttestationInterval ::= delete chain_key |>);;
  modify (fun s => s <| AttestationCheckpointInterval ::= delete chain_key |>);;
  modify (fun s => s <| MaxCatchup ::= delete chain_key |>);;
  modify (fun s => s <| PendingMaxCatchup ::= delete chain_key |>);;
  modify (fun s => s <| AttestationRetentionDuration ::= delete chain_key |>).

Definition start_clearing_checkpoints (chain_key : ChainKey) : PM C unit :=
  maybe_cursor ← clear_checkpoints chain_key None;
  match maybe_cursor with
  | Some c => modify (fun s => s <| CheckpointClearingCursors ::= <[chain_key := c]> |>)
  | None => deposit_event (CheckpointsCleared chain_key)
  end;;
  maybe_buckets_cursor ← clear_buckets chain_key None;
  match maybe_buckets_cursor with
  | Some c => modify (fun s => s <| BucketClearingCursors ::= <[chain_key := c]> |>)
  | None => mret tt
  end.

Definition on_chain_removed (chain_key : ChainKey) (remove_checkpoints : bool)
    : PM C unit :=
  modify (fun s => s <| ActiveAttestors ::= delete chain_key |>);;
  continue_removed_chain_cleanup chain_key (ChillAttestors None);;
  modify (fun s => s <| MaxAttestors ::= delete chain_key |>);;
  modify (fun s => s <| MaxInvulnerables ::= delete chain_key |>);;
  clear_attestations chain_key None;;
  modify (fun s => s <| CheckpointingQueues ::= delete chain_key |>);;
  modify (fun s => s <| AttestationRemovalQueues ::= delete chain_key |>);;
  drop_settings chain_key;;
  when remove_checkpoints (start_clearing_checkpoints chain_key);;
  modify (fun s => s <| CheckpointPruningStates ::= delete chain_key |>);;
  deposit_event (ClearedStorageForRemovedChain chain_key).
End Maintenance.
