(* ===== verification/LadderFrame.v ===== *)
(** * What the ladder's operations leave alone

    A view of the storage that does not read the ladder's items is left as it was
    by commits, by the operator calls on checkpoints and by the hooks. *)

From stdpp Require Import prelude gmap list sorting strings.
From Stdlib Require Import ZArith Lia.
From S2P Require Import Prelude Primitives Frame Types Ledger Roster Validate Checkpoints.
From S2P Require Import Maintenance.

(** A view that does not depend on the ladder's items or the events. *)
Class LadderFree {C T} (v : State C -> T) : Prop := {
  lf_attestations : forall s f, v (s <| Attestations ::= f |>) = v s;
  lf_checkpoints : forall s f, v (s <| Checkpoints ::= f |>) = v s;
  lf_buckets : forall s f, v (s <| CheckpointBuckets ::= f |>) = v s;
  lf_last : forall s f, v (s <| LastCheckpoint ::= f |>) = v s;
  lf_queues : forall s f, v (s <| CheckpointingQueues ::= f |>) = v s;
  lf_removal : forall s f, v (s <| AttestationRemovalQueues ::= f |>) = v s;
  lf_in_block : forall s f, v (s <| AttestationsInBlock ::= f |>) = v s;
  lf_digest : forall s f, v (s <| LastDigest ::= f |>) = v s;
  lf_pruning : forall s f, v (s <| CheckpointPruningStates ::= f |>) = v s;
  lf_cursors : forall s f, v (s <| AttestationClearingCursors ::= f |>) = v s;
  lf_events : forall s f, v (s <| events ::= f |>) = v s;
}.

(** Drop the updates a view does not read. *)
Ltac ladder_free :=
  repeat first [rewrite lf_attestations | rewrite lf_checkpoints | rewrite lf_buckets
    | rewrite lf_last | rewrite lf_queues | rewrite lf_removal | rewrite lf_in_block
    | rewrite lf_digest | rewrite lf_pruning | rewrite lf_cursors | rewrite lf_events];
  reflexivity.

#[export] Hint Extern 2 (_ = _) => ladder_free : leaves.

Lemma leaves_with_queue {C T A} (v : State C -> T) queue (m : PM C A) :
  leaves v m -> leaves v (with_queue queue m).
Proof.
  intros Hm s r s'. unfold with_queue.
  destruct (m s) as [[a|e] s1] eqn:Hs; intros [= _ <-]; by eapply Hm.
Qed.

Section Frame.
Context {C T : Type} (v : State C -> T) `{!LadderFree v}.
Context `{!Currency C} `{Config} `{Keccak} `{Arch} `{Bls} `{FrameStorage Z} `{FrameStorage (Z * Z)}.
Variable env : Env.

Lemma record_checkpoint_free ck cp : leaves v (record_checkpoint ck cp).
Proof. leaves. Qed.

Lemma remove_attestations_free ck queue : leaves v (remove_attestations ck queue).
Proof.
  apply leaves_transactional, leaves_bind; [leaves|intros ret]. apply leaves_bind; [|leaves].
  induction queue as [|d queue IH]; cbn [remove_oldest]; leaves.
Qed.

#[local] Hint Resolve record_checkpoint_free remove_attestations_free : leaves.

Lemma try_make_free queue ck header : leaves v (try_make_checkpoint queue ck header).
Proof.
  unfold try_make_checkpoint. apply leaves_transactional.
  repeat first
    [ progress cbv zeta
    | apply leaves_bind; [|intros]
    | apply leaves_with_queue
    | apply remove_attestations_free
    | solve [unfold ok_or_m, ensure_m; leaves]
    | match goal with |- leaves _ (match ?x with _ => _ end) => destruct x end ].
Qed.

Lemma boundary_loop_free fuel ck w head digests b :
  leaves v (boundary_loop fuel ck w head digests b).
Proof. revert b. induction fuel as [|fuel IH]; intros b; cbn [boundary_loop]; leaves. Qed.

#[local] Hint Resolve boundary_loop_free : leaves.

Lemma queue_attestation_free ck header digest : leaves v (queue_attestation ck header digest).
Proof.
  apply leaves_bind; [leaves|intros q]. apply leaves_bind; [|leaves].
  intros s r s'. destruct (try_make_checkpoint q ck header s) as [[q'|[e q']] s1] eqn:Hs;
    intros [= _ <-]; by eapply try_make_free.
Qed.

#[local] Hint Resolve queue_attestation_free : leaves.

Lemma commit_free origin att : leaves v (commit_attestation env origin att).
Proof.
  assert (leaves v (validate_attestation env (sa_chain_key att) att : PM C unit)) as Hval.
  { apply validate_leaves. }
  leaves.
Qed.

(** ** Operators *)

Lemma revert_free origin ck h : leaves v (revert_to env origin ck h).
Proof. leaves. Qed.

Lemma import_free origin ck cps : leaves v (import_checkpoints env origin ck cps).
Proof.
  assert (forall has last new, leaves v (import_loop ck has last new cps)) as Hl.
  { induction cps as [|cp cps IH]; intros; cbn [import_loop]; leaves. }
  leaves.
Qed.

Lemma patch_free origin ck wipe cps : leaves v (forward_patch_checkpoints env origin ck wipe cps).
Proof. leaves. Qed.

(** ** Hooks *)

Lemma prune_free : leaves v (on_init_prune_checkpoints : PM C unit).
Proof.
  assert (forall fuel ck entries pivots st,
    leaves v (prune_loop fuel ck entries pivots st : PM C unit)) as Hl.
  { intros fuel. induction fuel as [|fuel IH]; intros; cbn [prune_loop]; leaves. }
  leaves.
Qed.

Lemma clear_attestations_free : leaves v (on_init_clear_attestations : PM C unit).
Proof. leaves. Qed.
End Frame.

#[export] Hint Resolve commit_free revert_free import_free patch_free prune_free
  clear_attestations_free : leaves.

#[export] Hint Extern 1 (LadderFree _) => constructor; intros; reflexivity
  : typeclass_instances leaves.
