(* ===== verification/LadderSpec.v ===== *)
(** * The checkpoint ladder's contract

    One chain's attestations and checkpoints as an abstract machine: the last
    digest grows by attestations that extend it, heights the attestations vouch
    for become checkpoints, condensed attestations are dropped oldest first, and
    checkpoints above a reverted height are pruned. The invariant says that the
    buckets index exactly the stored checkpoints, that nothing is stored above
    the last checkpoint except what is about to be pruned, and that the queues
    list exactly the stored attestations, the newest of which is the last
    digest. *)

From stdpp Require Import prelude gmap list sorting strings.
From Stdlib Require Import ZArith Lia.
From S2P Require Import Prelude Primitives Frame Types Validate.

Record Ladder := mkLadder {
  l_attestations : gmap Z SignedAttestation;
  l_checkpoints : gmap Z Digest;
  l_buckets : gset (Z * Z);
  l_last : option AttestationCheckpoint;
  l_head : option (Height * Digest);
  l_queue : list Digest;
  l_removal : list Digest;
  l_pruning : option CheckpointPruningState;
  l_cursor : option Z;
}.

#[export] Instance eta_Ladder : Settable Ladder := fun r =>
  mkLadder (l_attestations r) (l_checkpoints r) (l_buckets r) (l_last r) (l_head r) (l_queue r)
    (l_removal r) (l_pruning r) (l_cursor r).

(** One chain's ladder in the pallet's storage. *)
Definition ladder_of {C} (ck : ChainKey) (s : State C) : Ladder :=
  mkLadder (row (Attestations s) ck) (row (Checkpoints s) ck) (bucket_row s ck)
    (LastCheckpoint s !! ck) (LastDigest s !! ck) (checkpointing_queue s ck)
    (attestation_removal_queue s ck) (CheckpointPruningStates s !! ck)
    (AttestationClearingCursors s !! ck).

(** The finalized head: the last digest, or the last checkpoint if there is none. *)
Definition head_of (l : Ladder) : option (Height * Digest) :=
  match l_head l with
  | Some hd => Some hd
  | None => (fun cp => (cp_block_number cp, cp_digest cp)) <$> l_last l
  end.

(** The attestations that are stored, oldest first. *)
Definition retained (l : Ladder) : list Digest := l_removal l ++ l_queue l.

Section Ladder.
Context `{Keccak} `{Arch} `{FrameStorage Z}.

Definition proof_start (att : SignedAttestation) : Z :=
  start_block_number (sa_continuity_proof att) (sa_header_number att).

(** The digests a stored attestation proves: its own and those of its proof. *)
Definition proves (att : SignedAttestation) (h : Height) (d : Digest) : Prop :=
  (h = sa_header_number att /\ d = sa_digest att) \/
  block_digests (sa_continuity_proof att) (proof_start att) !! h = Some d \/
  (h < sa_header_number att /\
   digest_for_block (sa_continuity_proof att) (proof_start att) h = Some d).

Definition vouched (l : Ladder) (h : Height) (d : Digest) : Prop :=
  exists att, l_attestations l !! sa_digest att = Some att /\ proves att h d.

(** [att] is the first attestation, or extends the finalized head by the blocks
    of its proof and its own. *)
Definition extends (l : Ladder) (att : SignedAttestation) : Prop :=
  let rs := roots (sa_continuity_proof att) in
  zlen rs <= 2 ^ usize_bits /\
  ((sa_prev_digest att = None /\ rs = []) \/
   exists h d, head_of l = Some (h, d) /\
     sa_header_number att = h + 1 + zlen rs /\
     sa_prev_digest att = Some (continuity_digest_loop (h + 1) 0 d rs) /\
     (rs <> [] -> lower_endpoint_digest (sa_continuity_proof att) = d)).

Definition put_checkpoint (h : Height) (d : Digest) (l : Ladder) : Ladder :=
  mkLadder (l_attestations l) (<[h := d]> (l_checkpoints l))
    ({[(compute_block_index_for h, h)]} ∪ l_buckets l) (l_last l) (l_head l) (l_queue l)
    (l_removal l) (l_pruning l) (l_cursor l).

Definition drop_checkpoint (h : Height) (l : Ladder) : Ladder :=
  mkLadder (l_attestations l) (delete h (l_checkpoints l))
    (l_buckets l ∖ {[(compute_block_index_for h, h)]}) (l_last l) (l_head l) (l_queue l)
    (l_removal l) (l_pruning l) (l_cursor l).

(** What a bounded clear leaves of the attestations. *)
Definition cleared (before after : gmap Z SignedAttestation) (c : option Z) : Prop :=
  after ⊆ before /\
  match c with
  | Some c => forall d, is_Some (after !! d) -> reachable AttestationsItem (Some c) d
  | None => after = ∅
  end.

(** ** Steps *)

Inductive ladder_step : Ladder -> Ladder -> Prop :=
| ls_first l att :
    is_u64 (sa_header_number att) -> l_cursor l = None -> l_last l = None ->
    sa_prev_digest att = None -> roots (sa_continuity_proof att) = [] ->
    ladder_step l (put_checkpoint (sa_header_number att) (sa_digest att) l
      <| l_attestations ::= <[sa_digest att := att]> |>
      <| l_last := Some (mkCheckpoint (sa_header_number att) (sa_digest att)) |>
      <| l_head := Some (sa_header_number att, sa_digest att) |>
      <| l_removal := l_removal l ++ [sa_digest att] |>)
| ls_attest l att cp :
    is_u64 (sa_header_number att) ->
    l_cursor l = None -> l_pruning l = None ->
    l_attestations l !! sa_digest att = None ->
    l_last l = Some cp -> cp_block_number cp < sa_header_number att ->
    (forall h d, l_head l = Some (h, d) -> h < sa_header_number att) ->
    extends l att ->
    ladder_step l (mkLadder (<[sa_digest att := att]> (l_attestations l)) (l_checkpoints l)
      (l_buckets l) (l_last l) (Some (sa_header_number att, sa_digest att))
      (l_queue l ++ [sa_digest att]) (l_removal l) (l_pruning l) (l_cursor l))
| ls_checkpoint l h d hh hd :
    is_u64 h -> l_cursor l = None -> l_pruning l = None ->
    l_head l = Some (hh, hd) -> h <= hh ->
    (forall cp, l_last l = Some cp -> cp_block_number cp < h) ->
    vouched l h d ->
    ladder_step l (put_checkpoint h d l <| l_last := Some (mkCheckpoint h d) |>)
| ls_condense l d q :
    l_queue l = d :: q ->
    ladder_step l (l <| l_queue := q |> <| l_removal := l_removal l ++ [d] |>)
| ls_trim l d r :
    l_cursor l = None -> l_removal l = d :: r -> r ++ l_queue l <> [] ->
    ladder_step l (l <| l_removal := r |> <| l_attestations := delete d (l_attestations l) |>)
| ls_prune l st h :
    l_pruning l = Some st -> compute_block_index_for h = ps_next_pivot st ->
    ladder_step l (drop_checkpoint h l)
| ls_prune_next l st :
    l_pruning l = Some st -> ps_next_pivot st <= ps_stop_height st ->
    (forall h, is_Some (l_checkpoints l !! h) -> compute_block_index_for h <> ps_next_pivot st) ->
    ladder_step l (l <| l_pruning := Some (mkPruningState (ps_stop_height st)
      (saturating_add 64 (ps_next_pivot st) CHECKPOINT_BUCKET_SIZE)) |>)
| ls_prune_done l st :
    l_pruning l = Some st -> ps_stop_height st < ps_next_pivot st ->
    ladder_step l (l <| l_pruning := None |>)
| ls_clear l c attestations' c' :
    l_cursor l = Some c -> cleared (l_attestations l) attestations' c' ->
    ladder_step l (l <| l_attestations := attestations' |> <| l_cursor := c' |>).

(** The checkpoints that [purge_bucket_above] keeps: all but those above [h] in
    the bucket of [h]. *)
Definition kept_below (h k : Height) : Prop :=
  ~ (compute_block_index_for k = compute_block_index_for h /\ h < k).

#[export] Instance kept_below_dec h k : Decision (kept_below h k).
Proof. unfold kept_below. apply _. Defined.

Definition purge_above (h : Height) (l : Ladder) : Ladder :=
  l <| l_checkpoints := filter (fun kd => kept_below h kd.1) (l_checkpoints l) |>
    <| l_buckets := filter (fun pk => kept_below h pk.2) (l_buckets l) |>.

(** Steps of the operators: imports, reversions and patches. *)
Inductive operator_step : Ladder -> Ladder -> Prop :=
| os_put l h d cp :
    is_u64 h -> l_last l = Some cp -> h < cp_block_number cp ->
    operator_step l (put_checkpoint h d l)
| os_start l h d :
    is_u64 h -> l_last l = None -> l_head l = None ->
    operator_step l (put_checkpoint h d l <| l_last := Some (mkCheckpoint h d) |>)
| os_raise l h d cp :
    is_u64 h -> l_head l = None -> l_pruning l = None -> l_last l = Some cp ->
    cp_block_number cp <= h ->
    operator_step l (put_checkpoint h d l <| l_last := Some (mkCheckpoint h d) |>)
| os_revert l h d cp attestations' c' :
    l_cursor l = None -> l_pruning l = None -> l_checkpoints l !! h = Some d ->
    l_last l = Some cp -> cleared (l_attestations l) attestations' c' ->
    operator_step l (purge_above h l <| l_attestations := attestations' |>
      <| l_last := Some (mkCheckpoint h d) |> <| l_head := Some (h, d) |> <| l_queue := [] |>
      <| l_removal := [] |> <| l_pruning := Some (mkPruningState (cp_block_number cp)
           (saturating_add 64 (compute_block_index_for h) CHECKPOINT_BUCKET_SIZE)) |>
      <| l_cursor := c' |>)
| os_purge l attestations' c' :
    l_cursor l = None -> cleared (l_attestations l) attestations' c' ->
    operator_step l (l <| l_attestations := attestations' |> <| l_head := None |>
      <| l_queue := [] |> <| l_removal := [] |> <| l_cursor := c' |>)
| os_wipe l h d cp :
    is_u64 h -> l_head l = None -> l_pruning l = None -> l_last l = Some cp ->
    let next := saturating_add 64 (compute_block_index_for h) CHECKPOINT_BUCKET_SIZE in
    operator_step l (put_checkpoint h d (purge_above h l) <| l_last := Some (mkCheckpoint h d) |>
      <| l_pruning := if next <=? cp_block_number cp
           then Some (mkPruningState (cp_block_number cp) next) else None |>).

(** ** Invariant *)

(** The next pivot is a pivot, or past them all. *)
Definition pivot_ok (next : Z) : Prop :=
  0 <= next /\ (next mod CHECKPOINT_BUCKET_SIZE = 0 \/ next = umax 64).

(** Each attestation of a list starts after the one before it. *)
Definition in_order (attestations : gmap Z SignedAttestation) (ds : list Digest) : Prop :=
  forall i d1 d2 a1 a2, ds !! i = Some d1 -> ds !! S i = Some d2 ->
    attestations !! d1 = Some a1 -> attestations !! d2 = Some a2 ->
    sa_header_number a1 < proof_start a2 <= sa_header_number a2.

Record ladder_inv (l : Ladder) : Prop := {
  li_u64 : forall h, is_Some (l_checkpoints l !! h) -> is_u64 h;
  li_buckets : forall p h, (p, h) ∈ l_buckets l <->
    p = compute_block_index_for h /\ is_Some (l_checkpoints l !! h);
  li_last : forall cp, l_last l = Some cp ->
    l_checkpoints l !! cp_block_number cp = Some (cp_digest cp);
  li_none : l_last l = None ->
    l_checkpoints l = ∅ /\ l_head l = None /\ l_queue l = [] /\ l_removal l = [] /\
    l_pruning l = None;
  li_above : forall cp h, l_last l = Some cp -> is_Some (l_checkpoints l !! h) ->
    cp_block_number cp < h -> exists st, l_pruning l = Some st /\
    ps_next_pivot st <= compute_block_index_for h /\ h <= ps_stop_height st;
  li_pivot : forall cp st, l_last l = Some cp -> l_pruning l = Some st ->
    pivot_ok (ps_next_pivot st) /\
    (cp_block_number cp < ps_next_pivot st \/ ps_next_pivot st = umax 64);
  li_head : forall cp h d, l_last l = Some cp -> l_head l = Some (h, d) ->
    cp_block_number cp <= h;
  li_key : forall d att, l_attestations l !! d = Some att -> sa_digest att = d;
  li_queue : l_cursor l = None -> NoDup (retained l) /\
    forall d, is_Some (l_attestations l !! d) <-> d ∈ retained l;
  li_known : forall h d, l_head l = Some (h, d) ->
    (last (retained l) = Some d /\ exists att, l_attestations l !! d = Some att /\
       sa_header_number att = h) \/
    (l_last l = Some (mkCheckpoint h d) /\ retained l = []);
  li_headless : l_head l = None -> retained l = [];
  li_cursor : forall c, l_cursor l = Some c -> retained l = [] /\
    forall d, is_Some (l_attestations l !! d) -> reachable AttestationsItem (Some c) d;
  li_order : in_order (l_attestations l) (retained l);
}.

(** ** Pivots *)

Lemma pivot_eq h : compute_block_index_for h = CHECKPOINT_BUCKET_SIZE * (h / CHECKPOINT_BUCKET_SIZE).
Proof.
  unfold compute_block_index_for, CHECKPOINT_BUCKET_SIZE.
  pose proof (Z.div_mod h 1000 ltac:(done)). lia.
Qed.

Lemma next_pivot_spec h :
  is_u64 h ->
  let next := saturating_add 64 (compute_block_index_for h) CHECKPOINT_BUCKET_SIZE in
  pivot_ok next /\ (h < next \/ next = umax 64) /\
  forall k, is_u64 k -> h < k -> kept_below h k -> next <= compute_block_index_for k.
Proof.
  unfold is_u64. intros Hh. cbv zeta. destruct (pivot_spec h) as (Hp & Hlt & Hmod); [lia|].
  unfold pivot_ok, saturating_add. split_and!.
  - unfold CHECKPOINT_BUCKET_SIZE. rewrite umax_64. lia.
  - destruct (Z.min_spec (compute_block_index_for h + CHECKPOINT_BUCKET_SIZE) (umax 64))
      as [[_ ->]|[_ ->]]; [left|by right].
    rewrite Z.add_mod, Hmod by done. done.
  - lia.
  - intros k Hk Hhk Hkept. unfold kept_below in Hkept. rewrite !pivot_eq in *.
    unfold CHECKPOINT_BUCKET_SIZE in *.
    assert (h / 1000 <= k / 1000) by (apply Z.div_le_mono; lia). lia.
Qed.

(** Nothing lies strictly between a pivot and the next one. *)
Lemma advance_pivot next h :
  pivot_ok next -> is_u64 h -> next <= compute_block_index_for h ->
  compute_block_index_for h <> next ->
  saturating_add 64 next CHECKPOINT_BUCKET_SIZE <= compute_block_index_for h.
Proof.
  unfold is_u64. intros [Hn [Hmod|Hmax]] Hh Hle Hne; rewrite pivot_eq in *;
    unfold saturating_add, CHECKPOINT_BUCKET_SIZE in *.
  - apply Z.mod_divide in Hmod as [q ->]; [|done]. lia.
  - pose proof (Z.mul_div_le h 1000 ltac:(done)). rewrite pow2_64, umax_64 in *. lia.
Qed.

(** ** Preservation *)

Definition indexed (cps : gmap Z Digest) (buckets : gset (Z * Z)) : Prop :=
  forall p h, (p, h) ∈ buckets <-> p = compute_block_index_for h /\ is_Some (cps !! h).

Lemma put_indexed cps buckets h d :
  indexed cps buckets -> indexed (<[h := d]> cps) ({[(compute_block_index_for h, h)]} ∪ buckets).
Proof.
  intros Hi p k. rewrite elem_of_union, elem_of_singleton, (Hi p k), lookup_insert.
  destruct (decide (h = k)) as [->|Hne].
  - split; [|intros [-> _]; by left]. intros [[= ->]|[-> _]]; eauto.
  - split; [|by right]. by intros [[= _ ->]|?].
Qed.

Lemma drop_indexed cps buckets h :
  indexed cps buckets -> indexed (delete h cps) (buckets ∖ {[(compute_block_index_for h, h)]}).
Proof.
  intros Hi p k. rewrite elem_of_difference, elem_of_singleton, (Hi p k), lookup_delete.
  destruct (decide (h = k)) as [->|Hne].
  - split; [|intros [_ []]; done]. intros [[-> _] Hn]. done.
  - split; [tauto|]. intros [-> Hs]. split; [done|]. by intros [= _ ->].
Qed.

Lemma purge_indexed cps buckets h :
  indexed cps buckets ->
  indexed (filter (fun kd => kept_below h kd.1) cps) (filter (fun pk => kept_below h pk.2) buckets).
Proof.
  intros Hi p k. rewrite elem_of_filter, (Hi p k). cbn.
  enough (is_Some (filter (fun kd : Z * Digest => kept_below h kd.1) cps !! k) <->
    kept_below h k /\ is_Some (cps !! k)) as -> by tauto.
  split.
  - intros [x [Hx Hk]%map_lookup_filter_Some]. cbn in Hk. eauto.
  - intros [Hk [x Hx]]. exists x. by apply map_lookup_filter_Some.
Qed.

Lemma put_lookup (cps : gmap Z Digest) h d k :
  is_Some (<[h := d]> cps !! k) -> k = h \/ is_Some (cps !! k).
Proof. rewrite lookup_insert. case_decide; auto. Qed.

(** A checkpoint above all others. *)
Lemma top_checkpoint_inv l h d :
  ladder_inv l -> is_u64 h -> l_pruning l = None ->
  (forall cp, l_last l = Some cp -> cp_block_number cp <= h) ->
  (forall hh hd, l_head l = Some (hh, hd) -> h <= hh /\ exists att,
     last (retained l) = Some hd /\ l_attestations l !! hd = Some att /\ sa_header_number att = hh) ->
  ladder_inv (put_checkpoint h d l <| l_last := Some (mkCheckpoint h d) |>).
Proof.
  intros [Hu Hb Hl Hn Ha Hp Hh Hk Hq Hw Hhl Hc Ho] Hhu Hpr Hlast Hhead.
  constructor; cbn; auto; try done.
  - intros k [->|Hs]%put_lookup; [done|auto].
  - by apply put_indexed.
  - intros cp [= <-]. cbn. apply lookup_insert_eq.
  - intros cp k [= <-] [->|Hs]%put_lookup Hlt; cbn in Hlt; [lia|].
    destruct (l_last l) as [cp|] eqn:Hcp.
    + destruct (Ha cp k eq_refl Hs) as (st & Hst & _); [|congruence].
      specialize (Hlast cp eq_refl). lia.
    + destruct (Hn eq_refl) as [He _]. rewrite He in Hs. by destruct Hs.
  - intros cp st _. congruence.
  - intros cp hh hd [= <-] Hhd. cbn. by apply Hhead in Hhd as [? _].
  - intros hh hd Hhd. destruct (Hhead hh hd Hhd) as (_ & att & Hlst & Hat & Hnum). left. eauto.
Qed.

(** Order is kept by dropping attestations or the oldest digest, and by adding a
    digest whose attestation starts after the last one. *)
Lemma in_order_sub (m m' : gmap Z SignedAttestation) ds : m' ⊆ m -> in_order m ds -> in_order m' ds.
Proof. intros Hsub Ho i d1 d2 a1 a2 Hi1 Hi2 Ha1 Ha2. apply (Ho i d1 d2); [done|done|by eapply lookup_weaken..]. Qed.

Lemma in_order_tail m d ds : in_order m (d :: ds) -> in_order m ds.
Proof. intros Ho i d1 d2 a1 a2 Hi1 Hi2. by apply (Ho (S i) d1 d2). Qed.

Lemma in_order_short (m : gmap Z SignedAttestation) ds : (length ds <= 1)%nat -> in_order m ds.
Proof. intros Hl i d1 d2 a1 a2 _ Hi2%lookup_lt_Some. lia. Qed.

Lemma in_order_snoc m ds att :
  in_order m ds -> m !! sa_digest att = None -> NoDup (ds ++ [sa_digest att]) ->
  proof_start att <= sa_header_number att ->
  (forall d a, last ds = Some d -> m !! d = Some a -> sa_header_number a < proof_start att) ->
  in_order (<[sa_digest att := att]> m) (ds ++ [sa_digest att]).
Proof.
  intros Ho Hfresh Hnd Hstart Hlast i d1 d2 a1 a2 Hi1 Hi2 Ha1 Ha2.
  apply lookup_lt_Some in Hi2 as Hlen. rewrite length_app in Hlen. cbn in Hlen.
  rewrite lookup_app_l in Hi1 by lia.
  assert (forall j d, ds !! j = Some d -> sa_digest att <> d) as Hne.
  { intros j d Hj <-. apply NoDup_app in Hnd as (_ & Hnd & _).
    apply (Hnd (sa_digest att)); [by eapply list_elem_of_lookup_2|by left]. }
  rewrite lookup_insert_ne in Ha1 by (by eapply Hne).
  destruct (decide (S i < length ds)%nat) as [Hlt|Hge].
  - rewrite lookup_app_l in Hi2 by lia. rewrite lookup_insert_ne in Ha2 by (by eapply Hne).
    by apply (Ho i d1 d2).
  - rewrite list_lookup_middle in Hi2 by lia. injection Hi2 as <-. rewrite lookup_insert_eq in Ha2.
    injection Ha2 as <-. split; [|done]. eapply Hlast; [|done]. rewrite last_lookup.
    by replace (pred (length ds)) with i by lia.
Qed.

(** A new attestation at the end of the queues. *)
Lemma new_attestation_queue l att :
  ladder_inv l -> l_cursor l = None -> l_attestations l !! sa_digest att = None ->
  NoDup (retained l ++ [sa_digest att]) /\
  forall d, is_Some (<[sa_digest att := att]> (l_attestations l) !! d) <->
    d ∈ retained l ++ [sa_digest att].
Proof.
  intros Hinv Hcur Hfresh. destruct (li_queue l Hinv Hcur) as [Hnd Hin]. split.
  - apply NoDup_app. split_and!; [done| |apply NoDup_singleton].
    intros d Hd ->%list_elem_of_singleton. apply Hin in Hd as [? Hd]. congruence.
  - intros d. rewrite elem_of_app, list_elem_of_singleton, lookup_insert, <- Hin.
    case_decide as Hd; [subst; split; eauto|]. split; [by left|]. by intros [?| ->].
Qed.

Lemma new_attestation_key l att :
  ladder_inv l -> forall d x, <[sa_digest att := att]> (l_attestations l) !! d = Some x ->
  sa_digest x = d.
Proof.
  intros Hinv d x. rewrite lookup_insert. case_decide as Hd; [intros [= <-]; done|].
  by apply (li_key l Hinv).
Qed.

(** What extends the ladder starts after its last attestation. *)
Lemma extends_after l att d a :
  ladder_inv l -> extends l att -> (forall h d, l_head l = Some (h, d) -> h < sa_header_number att) ->
  last (retained l) = Some d -> l_attestations l !! d = Some a -> sa_header_number a < proof_start att.
Proof.
  intros Hinv [_ Hext] Hhead Hlast Ha. pose proof (zlen_nonneg (roots (sa_continuity_proof att))).
  destruct (l_head l) as [[h hd]|] eqn:Hhd; [|by rewrite (li_headless l Hinv Hhd) in Hlast].
  destruct (li_known l Hinv h hd Hhd) as [[Hl (a' & Ha' & <-)]|[_ Hr]]; [|by rewrite Hr in Hlast].
  simplify_eq. specialize (Hhead _ _ eq_refl). unfold proof_start, start_block_number, saturating_sub.
  destruct Hext as [[_ Hrs]|(h' & d' & Hh & Hnum & _)]; [rewrite Hrs; change (zlen []) with 0; lia|].
  unfold head_of in Hh. rewrite Hhd in Hh. injection Hh as <- <-. lia.
Qed.

Lemma attest_inv l att cp :
  ladder_inv l -> extends l att -> is_u64 (sa_header_number att) ->
  (forall h d, l_head l = Some (h, d) -> h < sa_header_number att) -> l_cursor l = None -> l_pruning l = None ->
  l_attestations l !! sa_digest att = None ->
  l_last l = Some cp -> cp_block_number cp < sa_header_number att ->
  ladder_inv (mkLadder (<[sa_digest att := att]> (l_attestations l)) (l_checkpoints l)
      (l_buckets l) (l_last l) (Some (sa_header_number att, sa_digest att))
      (l_queue l ++ [sa_digest att]) (l_removal l) (l_pruning l) (l_cursor l)).
Proof.
  intros Hinv Hext Hu64 Hhead Hcur Hpr Hfresh Hcp Hlt.
  pose proof (new_attestation_queue l att Hinv Hcur Hfresh) as Hq'.
  assert (in_order (<[sa_digest att := att]> (l_attestations l)) (retained l ++ [sa_digest att])) as Ho'.
  { apply in_order_snoc; [apply Hinv|done|apply Hq'| |].
    - unfold is_u64 in Hu64. pose proof (zlen_nonneg (roots (sa_continuity_proof att))).
      unfold proof_start, start_block_number, saturating_sub. lia.
    - intros d a. by apply extends_after. }
  pose proof (new_attestation_key l att Hinv) as Hk'.
  destruct Hinv as [Hu Hb Hl Hn Ha Hp Hh Hk Hq Hw Hhl Hc Ho].
  assert (retained (mkLadder (<[sa_digest att := att]> (l_attestations l)) (l_checkpoints l)
    (l_buckets l) (l_last l) (Some (sa_header_number att, sa_digest att))
    (l_queue l ++ [sa_digest att]) (l_removal l) (l_pruning l) (l_cursor l)) =
    retained l ++ [sa_digest att]) as Hret by apply app_assoc.
  constructor; rewrite ?Hret; cbn; auto; try congruence.
  intros h d [= <- <-]. left. split; [apply last_snoc|]. exists att.
  split; [apply lookup_insert_eq|done].
Qed.

Lemma empty_attestations l :
  ladder_inv l -> l_cursor l = None -> l_last l = None -> l_attestations l = ∅ /\ retained l = [].
Proof.
  intros Hinv Hcur Hnone. destruct (li_none l Hinv Hnone) as (_ & _ & Hq & Hr & _).
  assert (retained l = []) as Hret by (unfold retained; by rewrite Hq, Hr).
  split; [|done]. apply map_empty. intros d. apply eq_None_not_Some. intros Hd.
  apply (li_queue l Hinv Hcur) in Hd. rewrite Hret in Hd. by apply not_elem_of_nil in Hd.
Qed.

Lemma first_inv l att :
  ladder_inv l -> is_u64 (sa_header_number att) -> l_cursor l = None -> l_last l = None ->
  ladder_inv (put_checkpoint (sa_header_number att) (sa_digest att) l
      <| l_attestations ::= <[sa_digest att := att]> |>
      <| l_last := Some (mkCheckpoint (sa_header_number att) (sa_digest att)) |>
      <| l_head := Some (sa_header_number att, sa_digest att) |>
      <| l_removal := l_removal l ++ [sa_digest att] |>).
Proof.
  intros Hinv Hu64 Hcur Hnone.
  destruct (empty_attestations l Hinv Hcur Hnone) as [Hat Hret].
  destruct (li_none l Hinv Hnone) as (Hcps & Hhd & Hqu & Hrem & Hpr).
  destruct Hinv as [Hu Hb Hl Hn Ha Hp Hh Hk Hq Hw Hhl Hc Ho].
  constructor; cbn; unfold retained; cbn; rewrite ?Hcps, ?Hat, ?Hqu, ?Hrem, ?Hpr, ?Hcur;
    try done.
  - intros h [->|Hs]%put_lookup; [done|by destruct Hs].
  - rewrite <- Hcps. by apply put_indexed.
  - intros cp [= <-]. cbn. apply lookup_insert_eq.
  - intros cp h [= <-] [->|Hs]%put_lookup Hlt; cbn in Hlt; [lia|by destruct Hs].
  - intros cp h d [= <-] [= <- <-]. done.
  - intros d x. rewrite lookup_insert. case_decide; [|done]. by intros [= <-].
  - intros _. cbn. split; [apply NoDup_singleton|]. intros d.
    rewrite list_elem_of_singleton, lookup_insert. case_decide; split; eauto; [|done..].
    by intros [].
  - intros h d [= <- <-]. left. split; [done|]. exists att. split; [apply lookup_insert_eq|done].
Qed.

Lemma condense_inv l d q :
  l_queue l = d :: q -> ladder_inv l ->
  ladder_inv (l <| l_queue := q |> <| l_removal := l_removal l ++ [d] |>).
Proof.
  intros Hd [Hu Hb Hl Hn Ha Hp Hh Hk Hq Hw Hhl Hc Ho].
  assert (retained (l <| l_queue := q |> <| l_removal := l_removal l ++ [d] |>) = retained l)
    as Hret by (unfold retained; rewrite Hd; cbn; by rewrite <- app_assoc).
  constructor; rewrite ?Hret; cbn; auto.
  intros Hnone. destruct (Hn Hnone) as (_ & _ & Hq' & _). congruence.
Qed.

Lemma trim_inv l d r :
  l_cursor l = None -> l_removal l = d :: r -> r ++ l_queue l <> [] -> ladder_inv l ->
  ladder_inv (l <| l_removal := r |> <| l_attestations := delete d (l_attestations l) |>).
Proof.
  intros Hcur Hr Hne [Hu Hb Hl Hn Ha Hp Hh Hk Hq Hw Hhl Hc Ho].
  assert (retained l = d :: (r ++ l_queue l)) as Hret by (unfold retained; by rewrite Hr).
  destruct (Hq Hcur) as [Hnd Hin]. rewrite Hret in Hnd. apply NoDup_cons in Hnd as [Hnd Hnd'].
  constructor; cbn; unfold retained; cbn; auto; try congruence.
  - intros Hnone. destruct (Hn Hnone) as (_ & _ & _ & Hr' & _). congruence.
  - intros x att. rewrite lookup_delete. case_decide; [done|apply Hk].
  - intros _. split; [done|]. intros x. rewrite lookup_delete.
    case_decide as Hx; [subst x; split; [by intros []|done]|].
    rewrite Hin, Hret, elem_of_cons. split; [|by right]. by intros [->|?].
  - intros h x Hhd. destruct (Hw h x Hhd) as [[Hlst (att & Hat & Hnum)]|[_ Hemp]]; [|congruence].
    assert (last (r ++ l_queue l) = Some x) as Hlst'.
    { rewrite Hret in Hlst. by destruct (r ++ l_queue l). }
    left. split; [done|]. exists att. rewrite lookup_delete_ne; [done|]. intros ->.
    apply Hnd. apply last_Some in Hlst' as [k ->]. apply elem_of_app. right.
    by apply list_elem_of_singleton.
  - intros Hhd. specialize (Hhl Hhd). congruence.
  - rewrite Hret in Ho. eapply in_order_sub; [apply delete_subseteq|]. by eapply in_order_tail.
Qed.

(** The last checkpoint is below every pivot that is still pruned. *)
Lemma prune_above_last l cp st h :
  ladder_inv l -> l_last l = Some cp -> l_pruning l = Some st -> is_u64 h ->
  compute_block_index_for h = ps_next_pivot st -> cp_block_number cp < h.
Proof.
  intros Hinv Hcp Hst Hu Hp. destruct (li_pivot l Hinv cp st Hcp Hst) as [_ [Hlt|Hmax]].
  - destruct (pivot_spec h) as ((_ & Hle) & _ & _); [unfold is_u64 in Hu; lia|]. lia.
  - rewrite Hmax, pivot_eq in Hp. unfold CHECKPOINT_BUCKET_SIZE in Hp. rewrite umax_64 in Hp. lia.
Qed.

Lemma prune_inv l st h :
  l_pruning l = Some st -> compute_block_index_for h = ps_next_pivot st -> ladder_inv l ->
  ladder_inv (drop_checkpoint h l).
Proof.
  intros Hst Hpiv Hinv.
  assert (forall cp, l_last l = Some cp -> cp_block_number cp <> h) as Hne.
  { intros cp Hcp <-. pose proof (li_last l Hinv cp Hcp) as Hs.
    enough (cp_block_number cp < cp_block_number cp) by lia.
    eapply prune_above_last; try done. apply (li_u64 l Hinv). by eexists. }
  destruct Hinv as [Hu Hb Hl Hn Ha Hp Hh Hk Hq Hw Hhl Hc Ho].
  assert (forall k, is_Some (delete h (l_checkpoints l) !! k) -> is_Some (l_checkpoints l !! k)) as Hsub.
  { intros k. rewrite lookup_delete. case_decide; [by intros []|done]. }
  constructor; cbn; auto.
  - by apply drop_indexed.
  - intros cp Hcp. rewrite lookup_delete_ne; auto. apply not_eq_sym. auto.
  - intros Hnone. destruct (Hn Hnone) as (_ & _ & _ & _ & Hpr). congruence.
  - intros cp k Hcp Hs Hlt. eauto.
Qed.

Lemma prune_next_inv l st :
  l_pruning l = Some st ->
  (forall h, is_Some (l_checkpoints l !! h) -> compute_block_index_for h <> ps_next_pivot st) ->
  ladder_inv l ->
  ladder_inv (l <| l_pruning := Some (mkPruningState (ps_stop_height st)
      (saturating_add 64 (ps_next_pivot st) CHECKPOINT_BUCKET_SIZE)) |>).
Proof.
  intros Hst Hempty [Hu Hb Hl Hn Ha Hp Hh Hk Hq Hw Hhl Hc Ho]. constructor; cbn; auto.
  - intros Hnone. destruct (Hn Hnone) as (_ & _ & _ & _ & Hpr). congruence.
  - intros cp h Hcp Hs Hlt. destruct (Ha cp h Hcp Hs Hlt) as (st' & Hst' & Hle & Hstop).
    rewrite Hst in Hst'. injection Hst' as <-. eexists. split; [done|]. cbn. split; [|done].
    apply advance_pivot; auto. by destruct (Hp cp st Hcp Hst).
  - intros cp st' Hcp [= <-]. cbn. destruct (Hp cp st Hcp Hst) as [[Hnn Hok] Hlt].
    unfold pivot_ok, saturating_add, CHECKPOINT_BUCKET_SIZE in *.
    destruct (Z.min_spec (ps_next_pivot st + 1000) (umax 64)) as [[Hm ->]|[Hm ->]];
      rewrite ?umax_64 in *; split; try lia.
    split; [lia|]. left. destruct Hok as [Hok|Hok]; [|lia]. by rewrite Z.add_mod, Hok.
Qed.

Lemma prune_done_inv l st :
  l_pruning l = Some st -> ps_stop_height st < ps_next_pivot st -> ladder_inv l ->
  ladder_inv (l <| l_pruning := None |>).
Proof.
  intros Hst Hdone [Hu Hb Hl Hn Ha Hp Hh Hk Hq Hw Hhl Hc Ho]. constructor; cbn; auto; try done.
  - intros Hnone. by destruct (Hn Hnone) as (? & ? & ? & ? & _).
  - intros cp h Hcp Hs Hlt. destruct (Ha cp h Hcp Hs Hlt) as (st' & Hst' & Hle & Hstop).
    rewrite Hst in Hst'. injection Hst' as <-.
    destruct (pivot_spec h) as ((_ & Hph) & _ & _); [|lia]. apply Hu in Hs. unfold is_u64 in Hs. lia.
Qed.

(** The attestation half of the invariant, when a clear has emptied the queues. *)
Lemma cleared_key l attestations' c' :
  ladder_inv l -> cleared (l_attestations l) attestations' c' ->
  forall d att, attestations' !! d = Some att -> sa_digest att = d.
Proof.
  intros Hinv [Hsub _] d att Hd. apply (li_key l Hinv). by eapply lookup_weaken.
Qed.

Lemma cleared_none attestations attestations' d :
  cleared attestations attestations' None -> is_Some (attestations' !! d) <-> d ∈ ([] : list Digest).
Proof.
  intros [_ ->]. rewrite lookup_empty. split; [by intros []|by intros ?%not_elem_of_nil].
Qed.

Lemma cleared_cursor attestations attestations' c d :
  cleared attestations attestations' (Some c) -> is_Some (attestations' !! d) ->
  reachable AttestationsItem (Some c) d.
Proof. intros [_ Hc]. apply Hc. Qed.

Lemma clear_inv l c attestations' c' :
  l_cursor l = Some c -> cleared (l_attestations l) attestations' c' -> ladder_inv l ->
  ladder_inv (l <| l_attestations := attestations' |> <| l_cursor := c' |>).
Proof.
  intros Hcur Hcl Hinv. pose proof (cleared_key _ _ _ Hinv Hcl) as Hk'.
  destruct (li_cursor l Hinv c Hcur) as [Hret _].
  destruct Hinv as [Hu Hb Hl Hn Ha Hp Hh Hk Hq Hw Hhl Hc Ho].
  constructor; cbn; unfold retained in *; cbn; rewrite ?Hret; auto.
  - intros ->. split; [constructor|]. intros d. by eapply cleared_none.
  - intros h d Hhd. destruct (Hw h d Hhd) as [[Hlst _]|[Hlast _]]; [|by right].
    by rewrite Hret in Hlst.
  - intros x ->. split; [done|]. intros d. by eapply cleared_cursor.
  - apply in_order_short. cbn. lia.
Qed.

Lemma ladder_step_inv l l' : ladder_step l l' -> ladder_inv l -> ladder_inv l'.
Proof.
  destruct 1 as [l att Hu Hcur Hnone _ _|l att cp Hu Hcur Hpr Hfresh Hcp Hlt Hhead Hext
    |l h d hh hd Hu Hcur Hpr Hhd Hle Hlast Hv|l d q Hd|l d r Hcur Hr Hne|l st h Hst Hp
    |l st Hst _ Hempty|l st Hst Hdone|l c attestations' c' Hcur Hcl]; intros Hinv.
  - by apply first_inv.
  - by eapply attest_inv.
  - apply top_checkpoint_inv; try done; [intros cp Hcp; specialize (Hlast cp Hcp); lia|].
    intros hh' hd' Hhd'. rewrite Hhd in Hhd'. injection Hhd' as <- <-. split; [done|].
    destruct (li_known l Hinv hh hd Hhd) as [[Hlst (att & Hat & Hnum)]|[Hl _]]; [eauto|].
    specialize (Hlast _ Hl). cbn in Hlast. lia.
  - by apply condense_inv.
  - by apply trim_inv.
  - by eapply prune_inv.
  - by apply prune_next_inv.
  - by eapply prune_done_inv.
  - by eapply clear_inv.
Qed.

(** ** Operators *)

Lemma put_below_inv l h d cp :
  is_u64 h -> l_last l = Some cp -> h < cp_block_number cp -> ladder_inv l ->
  ladder_inv (put_checkpoint h d l).
Proof.
  intros Hhu Hcp Hlt [Hu Hb Hl Hn Ha Hp Hh Hk Hq Hw Hhl Hc Ho]. constructor; cbn; auto; try congruence.
  - intros k [->|Hs]%put_lookup; auto.
  - by apply put_indexed.
  - intros cp' Hcp'. rewrite Hcp in Hcp'. injection Hcp' as <-.
    rewrite lookup_insert_ne by lia. auto.
  - intros cp' k Hcp' [->|Hs]%put_lookup Hk'; [|eauto]. simplify_eq. lia.
Qed.

Lemma purge_inv l attestations' c' :
  cleared (l_attestations l) attestations' c' -> ladder_inv l ->
  ladder_inv (l <| l_attestations := attestations' |> <| l_head := None |>
      <| l_queue := [] |> <| l_removal := [] |> <| l_cursor := c' |>).
Proof.
  intros Hcl Hinv. pose proof (cleared_key _ _ _ Hinv Hcl) as Hk'.
  destruct Hinv as [Hu Hb Hl Hn Ha Hp Hh Hk Hq Hw Hhl Hc Ho].
  constructor; cbn; unfold retained; cbn; auto; try done.
  - intros Hnone. by destruct (Hn Hnone) as (? & _ & _ & _ & ?).
  - intros ->. split; [constructor|]. intros d. by eapply cleared_none.
  - intros x ->. split; [done|]. intros d. by eapply cleared_cursor.
Qed.

Lemma purged_lookup h (cps : gmap Z Digest) k :
  is_Some (filter (fun kd => kept_below h kd.1) cps !! k) -> is_Some (cps !! k) /\ kept_below h k.
Proof. intros [x [Hx Hk]%map_lookup_filter_Some]. eauto. Qed.

(** What is left above [h] once its bucket is purged is what pruning covers. *)
Lemma purged_above l h cp k :
  ladder_inv l -> l_pruning l = None -> l_last l = Some cp -> is_u64 h ->
  is_Some (l_checkpoints l !! k) -> kept_below h k -> h < k ->
  saturating_add 64 (compute_block_index_for h) CHECKPOINT_BUCKET_SIZE
    <= compute_block_index_for k /\ k <= cp_block_number cp.
Proof.
  intros Hinv Hpr Hcp Hu Hs Hkept Hlt. pose proof (li_u64 l Hinv k Hs) as Hku.
  split; [by apply next_pivot_spec|].
  destruct (decide (cp_block_number cp < k)) as [Hgt|]; [|lia].
  destruct (li_above l Hinv cp k Hcp Hs Hgt) as (st & Hst & _). congruence.
Qed.

Lemma revert_inv l h d cp attestations' c' :
  l_cursor l = None -> l_pruning l = None -> l_checkpoints l !! h = Some d ->
  l_last l = Some cp -> cleared (l_attestations l) attestations' c' -> ladder_inv l ->
  ladder_inv (purge_above h l <| l_attestations := attestations' |>
      <| l_last := Some (mkCheckpoint h d) |> <| l_head := Some (h, d) |> <| l_queue := [] |>
      <| l_removal := [] |> <| l_pruning := Some (mkPruningState (cp_block_number cp)
           (saturating_add 64 (compute_block_index_for h) CHECKPOINT_BUCKET_SIZE)) |>
      <| l_cursor := c' |>).
Proof.
  intros Hcur Hpr Hh Hcp Hcl Hinv. pose proof (cleared_key _ _ _ Hinv Hcl) as Hk'.
  assert (is_u64 h) as Hhu by (apply (li_u64 l Hinv); by eexists).
  pose proof (fun k => purged_above l h cp k Hinv Hpr Hcp Hhu) as Habove.
  destruct Hinv as [Hu Hb Hl Hn Ha Hp Hhd Hk Hq Hw Hhl Hc Ho].
  constructor; cbn; unfold retained; cbn; try done.
  - intros k [Hs _]%purged_lookup. auto.
  - by apply purge_indexed.
  - intros x [= <-]. cbn. apply map_lookup_filter_Some. split; [done|]. cbn.
    unfold kept_below. lia.
  - intros x k [= <-] [Hs Hkept]%purged_lookup Hlt. eexists. split; [done|]. cbn in *. auto.
  - intros x st [= <-] [= <-]. cbn. by destruct (next_pivot_spec h Hhu) as (? & ? & _).
  - intros x k e [= <-] [= <- _]. done.
  - intros ->. split; [constructor|]. intros x. by eapply cleared_none.
  - intros k e [= <- <-]. by right.
  - intros x ->. split; [done|]. intros y. by eapply cleared_cursor.
Qed.

Lemma wipe_inv l h d cp :
  is_u64 h -> l_head l = None -> l_pruning l = None -> l_last l = Some cp -> ladder_inv l ->
  let next := saturating_add 64 (compute_block_index_for h) CHECKPOINT_BUCKET_SIZE in
  ladder_inv (put_checkpoint h d (purge_above h l) <| l_last := Some (mkCheckpoint h d) |>
      <| l_pruning := if next <=? cp_block_number cp
           then Some (mkPruningState (cp_block_number cp) next) else None |>).
Proof.
  intros Hhu Hhd Hpr Hcp Hinv next.
  pose proof (fun k => purged_above l h cp k Hinv Hpr Hcp Hhu) as Habove.
  assert (forall k, is_Some (l_checkpoints l !! k) -> 0 <= k) as Hnn.
  { intros k Hk. apply (li_u64 l Hinv) in Hk. unfold is_u64 in Hk. lia. }
  destruct Hinv as [Hu Hb Hl Hn Ha Hp Hh Hk Hq Hw Hhl Hc Ho].
  constructor; cbn; rewrite ?Hhd; try done.
  - intros k [->|[Hs _]%purged_lookup]%put_lookup; auto.
  - by apply put_indexed, purge_indexed.
  - intros x [= <-]. cbn. apply lookup_insert_eq.
  - intros x k [= <-] [->|[Hs Hkept]%purged_lookup]%put_lookup Hlt; cbn in Hlt; [lia|].
    destruct (Habove k Hs Hkept Hlt) as [Hnext Hle].
    destruct (pivot_spec k) as ((_ & Hpk) & _ & _); [auto|].
    destruct (Z.leb_spec next (cp_block_number cp)); [eauto|]. fold next in Hnext. lia.
  - intros x st [= <-]. destruct (_ <=? _); intros [= <-]. cbn.
    by destruct (next_pivot_spec h Hhu) as (? & ? & _).
  - intros _. by apply Hhl.
Qed.

Lemma operator_step_inv l l' : operator_step l l' -> ladder_inv l -> ladder_inv l'.
Proof.
  destruct 1 as [l h d cp Hu Hcp Hlt|l h d Hu Hnone Hhd|l h d cp Hu Hhd Hpr Hcp Hle
    |l h d cp attestations' c' Hcur Hpr Hh Hcp Hcl|l attestations' c' _ Hcl
    |l h d cp Hu Hhd Hpr Hcp]; intros Hinv.
  - by eapply put_below_inv.
  - apply top_checkpoint_inv; try done; [|congruence..].
    by destruct (li_none l Hinv Hnone) as (_ & _ & _ & _ & ?).
  - apply top_checkpoint_inv; try done; [|congruence]. intros x Hx. simplify_eq. done.
  - by eapply revert_inv.
  - by eapply purge_inv.
  - by eapply wipe_inv.
Qed.

Definition any_step (l l' : Ladder) : Prop := ladder_step l l' \/ operator_step l l'.

Lemma any_steps_inv l l' : rtc any_step l l' -> ladder_inv l -> ladder_inv l'.
Proof.
  induction 1 as [|l1 l2 l3 [Hs|Hs] _ IH]; eauto using ladder_step_inv, operator_step_inv.
Qed.

Lemma ladder_steps_inv l l' : rtc ladder_step l l' -> ladder_inv l -> ladder_inv l'.
Proof. induction 1; eauto using ladder_step_inv. Qed.
End Ladder.
