(* ===== verification/History.v ===== *)
(** * One history

    A chain's attested history is a single hash chain: from some first height on,
    every height has a root and a digest that commits to it and to the digest
    below. Whatever is attested, condensed, trimmed or pruned, the last digest is
    the top of that chain, every checkpoint read from it is the chain's digest at
    its height, and every stored attestation and continuity proof lies on it. *)

From stdpp Require Import prelude gmap list sorting strings.
From Stdlib Require Import ZArith Lia.
From S2P Require Import Prelude Primitives Frame Types Validate LadderSpec.

Record History := mkHistory {
  hs_lo : Height;
  hs_hi : Height;
  hs_root : Height -> H256;
  hs_digest : Height -> Digest;
}.

Section History.
Context `{Keccak} `{Arch} `{FrameStorage Z}.

(** Every height above the first commits to its root and to the digest below. *)
Definition hash_chain (hs : History) : Prop :=
  0 <= hs_lo hs <= hs_hi hs /\ hs_hi hs < 2 ^ 64 /\
  forall n, hs_lo hs < n <= hs_hi hs ->
    hs_digest hs n = hash_payload n (hs_root hs n) (hs_digest hs (n - 1)).

Record on_history (hs : History) (l : Ladder) : Prop := {
  oh_chain : hash_chain hs;
  oh_head : head_of l = Some (hs_hi hs, hs_digest hs (hs_hi hs));
  oh_checkpoints : forall h d, hs_lo hs <= h <= hs_hi hs -> l_checkpoints l !! h = Some d ->
    d = hs_digest hs h;
  oh_attestations : l_cursor l = None -> forall d att, l_attestations l !! d = Some att ->
    forall h e, proves att h e -> h <= hs_hi hs /\ (hs_lo hs <= h -> e = hs_digest hs h);
}.

(** [hs'] continues [hs]: the heights of [hs] keep their digests and roots. *)
Definition continues (hs hs' : History) : Prop :=
  hs_lo hs' = hs_lo hs /\ hs_hi hs <= hs_hi hs' /\
  (forall n, hs_lo hs <= n <= hs_hi hs -> hs_digest hs' n = hs_digest hs n) /\
  (forall n, hs_lo hs < n <= hs_hi hs -> hs_root hs' n = hs_root hs n).

(** [hs'] starts over above [hs]. *)
Definition restarts (hs hs' : History) : Prop :=
  hs_lo hs' = hs_hi hs' /\ hs_hi hs < hs_lo hs'.

(** ** Extending a history by an attestation *)

(** The digest the proof of [att] leads to at height [n], above head [(h, d)]. *)
Definition walk (h : Height) (d : Digest) (rs : list H256) (n : Height) : Digest :=
  continuity_digest_loop (h + 1) 0 d (take (Z.to_nat (n - h)) rs).

Lemma walk_start h d rs : walk h d rs h = d.
Proof. unfold walk. by rewrite Z.sub_diag. Qed.

Lemma walk_step h d rs n :
  0 <= h -> h < n <= h + zlen rs -> n < 2 ^ 64 ->
  walk h d rs n = hash_payload n (nth (Z.to_nat (n - h - 1)) rs 0) (walk h d rs (n - 1)).
Proof.
  intros Hh Hn Hu. unfold walk, zlen in *.
  replace (Z.to_nat (n - h)) with (S (Z.to_nat (n - h - 1))) by lia.
  replace (Z.to_nat (n - 1 - h)) with (Z.to_nat (n - h - 1)) by lia.
  set (i := Z.to_nat (n - h - 1)).
  destruct (lookup_lt_is_Some_2 rs i) as [r Hr]; [unfold i; lia|].
  rewrite (take_S_r _ _ _ Hr), continuity_digest_loop_app. cbn [continuity_digest_loop].
  rewrite length_take_le by (unfold i; lia). unfold chain_step.
  rewrite (nth_lookup_Some _ _ _ _ Hr), wrap_small by (unfold i; lia).
  f_equal. unfold i. lia.
Qed.

Definition extend (hs : History) (att : SignedAttestation) : History :=
  let rs := roots (sa_continuity_proof att) in
  let h := hs_hi hs in
  mkHistory (hs_lo hs) (sa_header_number att)
    (fun n => if n <=? h then hs_root hs n
      else if n =? sa_header_number att then ad_root (sa_attestation att)
      else nth (Z.to_nat (n - h - 1)) rs 0)
    (fun n => if n <=? h then hs_digest hs n
      else if n =? sa_header_number att then sa_digest att
      else walk h (hs_digest hs h) rs n).

Section Extend.
Variables (hs : History) (att : SignedAttestation).
Let rs := roots (sa_continuity_proof att).
Hypothesis chain : hash_chain hs.
Hypothesis header : sa_header_number att = hs_hi hs + 1 + zlen rs.
Hypothesis header_u64 : is_u64 (sa_header_number att).
Hypothesis prev : sa_prev_digest att =
  Some (continuity_digest_loop (hs_hi hs + 1) 0 (hs_digest hs (hs_hi hs)) rs).
Hypothesis roots_usize : zlen rs <= 2 ^ usize_bits.
Hypothesis lower : rs <> [] ->
  lower_endpoint_digest (sa_continuity_proof att) = hs_digest hs (hs_hi hs).

Lemma extend_below n : n <= hs_hi hs -> hs_digest (extend hs att) n = hs_digest hs n.
Proof. intros Hn. cbn. by rewrite (proj2 (Z.leb_le _ _) Hn). Qed.

Lemma extend_header : hs_digest (extend hs att) (sa_header_number att) = sa_digest att.
Proof.
  cbn. pose proof (zlen_nonneg rs).
  rewrite (proj2 (Z.leb_gt _ _)) by lia. by rewrite Z.eqb_refl.
Qed.

Lemma extend_walk n :
  hs_hi hs <= n < sa_header_number att ->
  hs_digest (extend hs att) n = walk (hs_hi hs) (hs_digest hs (hs_hi hs)) rs n.
Proof.
  intros Hn. cbn. destruct (Z.leb_spec n (hs_hi hs)) as [Hle|Hgt].
  - replace n with (hs_hi hs) by lia. by rewrite walk_start.
  - by rewrite (proj2 (Z.eqb_neq _ _)) by lia.
Qed.

Lemma extend_chain : hash_chain (extend hs att) /\ continues hs (extend hs att).
Proof.
  destruct chain as (Hlo & Hhi & Hlink). pose proof (zlen_nonneg rs). unfold is_u64 in header_u64.
  split; [|split_and!; cbn; [done|lia|..]; intros n Hn; by rewrite (proj2 (Z.leb_le _ _)) by lia].
  split_and!; cbn [hs_lo hs_hi extend]; [lia|lia|lia|]. intros n Hn.
  destruct (decide (n <= hs_hi hs)) as [Hle|Hgt].
  { rewrite !extend_below by lia. rewrite Hlink by lia. cbn. by rewrite (proj2 (Z.leb_le _ _)) by lia. }
  cbn [hs_root extend]. rewrite (proj2 (Z.leb_gt _ _)) by lia.
  destruct (Z.eqb_spec n (sa_header_number att)) as [->|Hne].
  - rewrite extend_header, extend_walk by lia. unfold sa_digest, digest.
    change (ad_prev_digest (sa_attestation att)) with (sa_prev_digest att). rewrite prev.
    unfold hash_payload, walk. rewrite take_ge by (unfold zlen in *; lia). done.
  - rewrite !extend_walk by lia. apply walk_step; lia.
Qed.

Lemma extend_proves h e :
  proves att h e -> hs_hi hs < h <= sa_header_number att /\ e = hs_digest (extend hs att) h.
Proof.
  pose proof (zlen_nonneg rs). unfold is_u64 in header_u64. destruct chain as (Hlo & Hhi & _).
  intros [[-> ->]|Hb]; [rewrite extend_header; split; [lia|done]|].
  assert (proof_start att = hs_hi hs + 1) as Hst.
  { unfold proof_start, start_block_number, saturating_sub. fold rs. lia. }
  assert (hs_hi hs < h < sa_header_number att /\
    e = continuity_digest_loop (hs_hi hs + 1) 0 (lower_endpoint_digest (sa_continuity_proof att))
      (take (S (Z.to_nat (h - (hs_hi hs + 1)))) rs)) as [Hh ->].
  { rewrite Hst in Hb. destruct Hb as [Hb|[Hlt Hb]].
    - unfold block_digests in Hb. fold rs in Hb. rewrite block_digests_loop_lookup in Hb by lia.
      case_bool_decide as Hr; [|by rewrite lookup_empty in Hb]. rewrite Nat.sub_0_r in Hb.
      injection Hb as <-. split; [lia|done].
    - assert (hs_hi hs + 1 <= h) as Hge.
      { unfold digest_for_block in Hb. destruct (Z.ltb_spec h (hs_hi hs + 1)); [done|lia]. }
      rewrite digest_for_block_loop in Hb by (fold rs; lia). injection Hb as <-. split; [lia|done]. }
  rewrite lower by (intros Hnil; rewrite Hnil in header; unfold zlen in header; cbn in header; lia).
  split; [lia|]. rewrite extend_walk by lia. unfold walk. do 2 f_equal. lia.
Qed.
End Extend.

(** ** Steps *)

Lemma on_history_sub hs l l' :
  on_history hs l -> head_of l' = head_of l -> l_checkpoints l' ⊆ l_checkpoints l ->
  (l_cursor l' = None -> l_attestations l' = ∅ \/
     (l_cursor l = None /\ l_attestations l' ⊆ l_attestations l)) ->
  on_history hs l'.
Proof.
  intros [Hc Hh Hcp Ha] Hhead Hsub Hat. constructor; [done|by rewrite Hhead|..].
  - intros h d Hr Hd. eapply Hcp; [done|]. by eapply lookup_weaken.
  - intros Hcur d att Hd. destruct (Hat Hcur) as [He|[Hcur' Hs]].
    + by rewrite He in Hd.
    + eapply Ha; [done|]. by eapply lookup_weaken.
Qed.

Lemma last_below_head l hs cp :
  ladder_inv l -> on_history hs l -> l_last l = Some cp -> cp_block_number cp <= hs_hi hs.
Proof.
  intros Hinv Hoh Hcp. pose proof (oh_head hs l Hoh) as Hhd. unfold head_of in Hhd. rewrite Hcp in Hhd.
  destruct (l_head l) as [[hh hd]|] eqn:Hlh; cbn in Hhd; injection Hhd as -> _; [|done].
  by eapply li_head.
Qed.

(** Nothing is stored above the head while no pruning is under way. *)
Lemma stored_below_head l hs h :
  ladder_inv l -> on_history hs l -> l_pruning l = None -> is_Some (l_checkpoints l !! h) ->
  h <= hs_hi hs.
Proof.
  intros Hinv Hoh Hpr Hs. destruct (l_last l) as [cp|] eqn:Hcp.
  - pose proof (last_below_head l hs cp Hinv Hoh Hcp).
    destruct (decide (cp_block_number cp < h)) as [Hgt|]; [|lia].
    destruct (li_above l Hinv cp h Hcp Hs Hgt) as (st & Hst & _). congruence.
  - destruct (li_none l Hinv Hcp) as [He _]. rewrite He in Hs. by destruct Hs.
Qed.

Definition attested (l : Ladder) (att : SignedAttestation) : Ladder :=
  mkLadder (<[sa_digest att := att]> (l_attestations l)) (l_checkpoints l)
    (l_buckets l) (l_last l) (Some (sa_header_number att, sa_digest att))
    (l_queue l ++ [sa_digest att]) (l_removal l) (l_pruning l) (l_cursor l).

Lemma attest_extends hs l att :
  ladder_inv l -> on_history hs l -> is_u64 (sa_header_number att) ->
  l_cursor l = None -> l_pruning l = None ->
  let rs := roots (sa_continuity_proof att) in
  zlen rs <= 2 ^ usize_bits -> sa_header_number att = hs_hi hs + 1 + zlen rs ->
  sa_prev_digest att =
    Some (continuity_digest_loop (hs_hi hs + 1) 0 (hs_digest hs (hs_hi hs)) rs) ->
  (rs <> [] -> lower_endpoint_digest (sa_continuity_proof att) = hs_digest hs (hs_hi hs)) ->
  on_history (extend hs att) (attested l att) /\ continues hs (extend hs att).
Proof.
  intros Hinv Hoh Hu Hcur Hpr rs Husz Hnum Hprev Hlow. pose proof (zlen_nonneg rs).
  pose proof (oh_chain hs l Hoh) as Hchain.
  destruct (extend_chain hs att) as [Hchain' Hcont]; try done.
  pose proof (extend_proves hs att Hchain Hnum Hu Husz Hlow) as Hpv'.
  split; [constructor|done]; try done.
  - change (hs_hi (extend hs att)) with (sa_header_number att). by rewrite extend_header.
  - cbn. intros k e Hk He. assert (k <= hs_hi hs) as Hle by (eapply stored_below_head; eauto).
    rewrite (proj2 (Z.leb_le _ _)) by done. apply (oh_checkpoints hs l Hoh); [lia|done].
  - intros _ e x. cbn [attested l_attestations]. rewrite lookup_insert. case_decide.
    + intros [= <-] k f Hf. destruct (Hpv' k f Hf) as [? ->]. cbn. split; [lia|done].
    + intros Hx k f Hf. destruct (oh_attestations hs l Hoh Hcur _ _ Hx _ _ Hf) as [Hle Heq].
      cbn [hs_hi hs_lo extend]. rewrite extend_below by lia. split; [lia|done].
Qed.

Lemma attest_history hs l att :
  ladder_inv l -> on_history hs l -> is_u64 (sa_header_number att) ->
  l_cursor l = None -> l_pruning l = None -> hs_hi hs < sa_header_number att -> extends l att ->
  exists hs', on_history hs' (attested l att) /\ (continues hs hs' \/ restarts hs hs').
Proof.
  intros Hinv Hoh Hu Hcur Hpr Hlt [Husz [[Hprev Hrs]|(h & d & Hhd & Hnum & Hprev & Hlow)]].
  - exists (mkHistory (sa_header_number att) (sa_header_number att)
      (fun _ => ad_root (sa_attestation att)) (fun _ => sa_digest att)).
    split; [constructor; cbn|by right].
    + unfold is_u64 in Hu. split_and!; cbn; lia.
    + done.
    + intros k e Hk He. assert (k <= hs_hi hs); [|lia].
      eapply stored_below_head; eauto.
    + intros _ e x. rewrite lookup_insert. case_decide.
      * intros [= <-] k f [[-> ->]|[Hb|[_ Hb]]]; [done|..].
        { unfold block_digests in Hb. by rewrite Hrs in Hb. }
        { unfold digest_for_block, digest_at in Hb. rewrite Hrs in Hb. by destruct (_ <? _). }
      * intros Hx k f Hpv. destruct (oh_attestations hs l Hoh Hcur _ _ Hx _ _ Hpv). lia.
  - rewrite (oh_head hs l Hoh) in Hhd. injection Hhd as <- <-.
    exists (extend hs att). destruct (attest_extends hs l att); eauto.
Qed.

Lemma ladder_step_history hs l l' :
  ladder_step l l' -> ladder_inv l -> on_history hs l ->
  exists hs', on_history hs' l' /\ (continues hs hs' \/ restarts hs hs').
Proof.
  assert (continues hs hs) as Hrefl by (split_and!; [done|lia|done|done]).
  intros Hstep Hinv Hoh.
  destruct Hstep as [l att Hu Hcur Hnone _ _|l att cp Hu Hcur Hpr Hfresh Hcp Hlt Hhead Hext
    |l h d hh hd Hu Hcur Hpr Hhd Hle Hlast Hv|l d q Hd|l d r Hcur Hr Hne|l st h Hst Hp
    |l st Hst _ Hempty|l st Hst Hdone|l c attestations' c' Hcur Hcl].
  - exfalso. pose proof (oh_head hs l Hoh) as Hhd. unfold head_of in Hhd.
    destruct (li_none l Hinv Hnone) as (_ & Hn & _). by rewrite Hn, Hnone in Hhd.
  - apply attest_history; try done. pose proof (oh_head hs l Hoh) as Hhd. unfold head_of in Hhd.
    destruct (l_head l) as [[hh hd]|]; [injection Hhd as -> _; eauto|].
    rewrite Hcp in Hhd. by injection Hhd as <- _.
  - exists hs. split; [constructor|by left]; try apply Hoh.
    + pose proof (oh_head hs l Hoh) as Hh. unfold head_of in *. cbn. by rewrite Hhd in *.
    + cbn. intros k e Hk. rewrite lookup_insert. case_decide as Hkh; [|by apply Hoh].
      subst k. intros [= <-]. destruct Hv as (att & Hat & Hpv).
      destruct (oh_attestations hs l Hoh Hcur _ _ Hat _ _ Hpv) as [_ Heq]. apply Heq. lia.
  - exists hs. split; [|by left]. apply (on_history_sub hs l); try done. by right.
  - exists hs. split; [|by left]. apply (on_history_sub hs l); try done. intros _. right.
    split; [done|]. cbn. apply delete_subseteq.
  - exists hs. split; [|by left]. apply (on_history_sub hs l); try done; [|by right].
    cbn. apply delete_subseteq.
  - exists hs. split; [|by left]. apply (on_history_sub hs l); try done. by right.
  - exists hs. split; [|by left]. apply (on_history_sub hs l); try done. by right.
  - exists hs. split; [|by left]. apply (on_history_sub hs l); try done. cbn. intros ->.
    left. apply Hcl.
Qed.

(** A reversion keeps the history below the height it reverts to. *)
Definition truncate (hs : History) (h : Height) : History :=
  mkHistory (Z.min (hs_lo hs) h) h (hs_root hs) (hs_digest hs).

Lemma revert_history hs l h d cp attestations' c' l' :
  ladder_inv l -> on_history hs l -> l_pruning l = None -> l_checkpoints l !! h = Some d ->
  hs_lo hs <= h -> cleared (l_attestations l) attestations' c' ->
  l' = purge_above h l <| l_attestations := attestations' |>
      <| l_last := Some (mkCheckpoint h d) |> <| l_head := Some (h, d) |> <| l_queue := [] |>
      <| l_removal := [] |> <| l_pruning := Some (mkPruningState (cp_block_number cp)
           (saturating_add 64 (compute_block_index_for h) CHECKPOINT_BUCKET_SIZE)) |>
      <| l_cursor := c' |> ->
  on_history (truncate hs h) l'.
Proof.
  intros Hinv Hoh Hpr Hh Hlo Hcl ->.
  assert (h <= hs_hi hs) as Hle by (eapply stored_below_head; eauto).
  destruct (oh_chain hs l Hoh) as (Hr & Hu & Hlink).
  assert (Z.min (hs_lo hs) h = hs_lo hs) as Hmin by lia.
  constructor; cbn; rewrite ?Hmin.
  - split_and!; cbn; rewrite ?Hmin; [lia..|]. intros n Hn. apply Hlink. lia.
  - do 2 f_equal. apply (oh_checkpoints hs l Hoh); [lia|done].
  - intros k e Hk [Hs _]%map_lookup_filter_Some. apply (oh_checkpoints hs l Hoh); [lia|done].
  - intros -> e att. destruct Hcl as [_ ->]. by rewrite lookup_empty.
Qed.

(** ** Stable reads *)

(** [checkpoint_if_stable] on a ladder. *)
Definition stable_read (l : Ladder) (h : Height) : option Digest :=
  match l_pruning l with
  | Some st => if ps_next_pivot st <=? compute_block_index_for h then None else l_checkpoints l !! h
  | None => l_checkpoints l !! h
  end.

Lemma stable_read_some l h d :
  stable_read l h = Some d <-> l_checkpoints l !! h = Some d /\
  forall st, l_pruning l = Some st -> compute_block_index_for h < ps_next_pivot st.
Proof.
  unfold stable_read. destruct (l_pruning l) as [st|]; [|naive_solver].
  destruct (Z.leb_spec (ps_next_pivot st) (compute_block_index_for h)).
  - split; [done|]. intros [_ Hst]. specialize (Hst st eq_refl). lia.
  - split; [intros ?; split; [done|by intros ? [= <-]]|by intros [? _]].
Qed.

Lemma stable_below_head hs l h d :
  ladder_inv l -> on_history hs l -> stable_read l h = Some d -> h <= hs_hi hs.
Proof.
  intros Hinv Hoh [Hh Hst]%stable_read_some. destruct (l_last l) as [cp|] eqn:Hcp.
  - pose proof (last_below_head l hs cp Hinv Hoh Hcp).
    destruct (decide (cp_block_number cp < h)) as [Hgt|]; [|lia].
    destruct (li_above l Hinv cp h Hcp ltac:(eauto) Hgt) as (st & Hs & Hle & _).
    specialize (Hst st Hs). lia.
  - destruct (li_none l Hinv Hcp) as [He _]. by rewrite He in Hh.
Qed.

(** No step of the chain's own takes a stable checkpoint away or changes it. *)
Lemma stable_read_step l l' h d :
  ladder_step l l' -> ladder_inv l -> stable_read l h = Some d -> stable_read l' h = Some d.
Proof.
  intros Hstep Hinv. rewrite !stable_read_some. intros [Hh Hst].
  assert (l_last l = None -> False) as Hsome.
  { intros Hn. destruct (li_none l Hinv Hn) as [He _]. by rewrite He in Hh. }
  destruct Hstep as [| |l h' d' hh hd _ _ Hpr _ _ Hlast _|  | |l st h' Hpr Hidx|l st Hpr Hle _| |]; try done.
  - split; [|done]. cbn. rewrite lookup_insert_ne; [done|]. intros <-.
    destruct (l_last l) as [cp|] eqn:Hl; [|by destruct Hsome].
    destruct (li_above l Hinv cp h') as (st & Hs & _); [done|eauto|by apply Hlast|congruence].
  - split; [|done]. cbn. rewrite lookup_delete_ne; [done|]. intros <-. specialize (Hst st Hpr). lia.
  - split; [done|]. cbn. intros ? [= <-]. specialize (Hst st Hpr). cbn. unfold saturating_add, CHECKPOINT_BUCKET_SIZE.
    destruct (l_last l) as [cp|] eqn:Hl; [|by destruct Hsome].
    pose proof (li_u64 l Hinv h ltac:(eauto)) as Hu. unfold is_u64 in Hu.
    pose proof (pivot_spec h ltac:(lia)) as (Hle' & _). rewrite pivot_eq in *.
    unfold CHECKPOINT_BUCKET_SIZE in *. rewrite umax_64. rewrite pow2_64 in Hu. lia.
Qed.
End History.
