(* ===== verification/LadderRefine.v ===== *)
(** * Commits refine the ladder's contract

    A successful [do_commit_attestation] is a sequence of [ladder_step]s of its
    chain, and leaves the other chains' ladders alone. *)

From stdpp Require Import prelude gmap list sorting strings.
From Stdlib Require Import ZArith Lia.
From S2P Require Import Prelude Primitives Frame Types Settings Validate Checkpoints Maintenance.
From S2P Require Import LadderFrame LadderSpec.

(** A recorded checkpoint. *)
Definition record (cp : AttestationCheckpoint) (l : Ladder) : Ladder :=
  put_checkpoint (cp_block_number cp) (cp_digest cp) l
    <| l_last := Some (mkCheckpoint (cp_block_number cp) (cp_digest cp)) |>.

Ltac ladder_eval :=
  unfold ladder_of, bucket_row, checkpointing_queue, attestation_removal_queue; cbn;
  rewrite ?row_dinsert, ?row_dremove, ?lookup_insert, ?lookup_delete;
  repeat first [rewrite decide_True by done | rewrite decide_False by done]; cbn.

Section Refine.
Context {C : Type} `{Config} `{!ConfigOk} `{Keccak} `{Arch} `{!ArchOk} `{Bls} `{FrameStorage Z}.
Variable env : Env.
Implicit Types (s : State C) (ck : Z).

Lemma record_checkpoint_run ck cp s :
  exists s', record_checkpoint ck cp s = (Ok tt, s') /\
  ladder_of ck s' = record cp (ladder_of ck s) /\
  (forall k, k <> ck -> ladder_of k s' = ladder_of k s).
Proof.
  destruct cp as [h d]. eexists. split; [reflexivity|]. split; [by ladder_eval|].
  intros k Hk. by ladder_eval.
Qed.

(** ** Retention *)

Lemma remove_oldest_run ck ret queue s q s' :
  remove_oldest ck ret queue s = (Ok q, s') -> 1 <= ret ->
  (forall k, k <> ck -> ladder_of k s' = ladder_of k s) /\
  ladder_of ck s' = ladder_of ck s <| l_attestations := l_attestations (ladder_of ck s') |> /\
  zlen q <= Z.max ret 0 /\
  forall l, l_removal l = queue -> l_cursor l = None ->
    l_attestations l = l_attestations (ladder_of ck s) ->
    rtc ladder_step l (l <| l_removal := q |> <| l_attestations := l_attestations (ladder_of ck s') |>).
Proof.
  intros Hrun Hret. revert s Hrun. induction queue as [|d queue IH]; intros s Hrun;
    cbn [remove_oldest] in Hrun.
  { change (zlen []) with 0 in Hrun. rewrite (proj2 (Z.ltb_ge _ _)) in Hrun by lia. run_inv.
    split_and!; [done|done|change (zlen []) with 0; lia|]. intros l Hl Hc Hat. rewrite <- Hat, <- Hl. by destruct l. }
  destruct (Z.ltb_spec ret (zlen (d :: queue))) as [Hlt|Hge]; run_inv.
  - match goal with Hq : remove_oldest _ _ _ _ = _ |- _ =>
      apply IH in Hq as (Hne & Hck & Hlen & Hsteps) end.
    split_and!; [| |done|].
    + intros k Hk. rewrite Hne by done. by ladder_eval.
    + rewrite Hck. by ladder_eval.
    + intros l Hl Hc Hat. eapply rtc_l.
      * eapply (ls_trim l d queue); [done|done|]. rewrite zlen_cons in Hlt. intros He.
        apply app_eq_nil in He as [-> _]. change (zlen []) with 0 in Hlt. lia.
      * refine (Hsteps (l <| l_removal := queue |>
          <| l_attestations := delete d (l_attestations l) |>) _ _ _); [done|done|].
        cbn. rewrite Hat. by ladder_eval.
  - split_and!; [done|done|lia|]. intros l Hl Hc Hat. rewrite <- Hat, <- Hl. by destruct l.
Qed.

(** Moving attestations from the queue to the removal queue. *)
Lemma condense_steps l moved q :
  l_queue l = moved ++ q ->
  rtc ladder_step l (l <| l_queue := q |> <| l_removal := l_removal l ++ moved |>).
Proof.
  revert l. induction moved as [|d moved IH]; intros l Hl.
  { cbn in Hl. rewrite app_nil_r, <- Hl. by destruct l. }
  eapply rtc_l; [by apply (ls_condense l d (moved ++ q))|].
  etrans; [apply IH; done|]. cbn. by rewrite <- app_assoc.
Qed.

Lemma remove_attestations_run ck queue s u s' :
  remove_attestations ck queue s = (Ok u, s') -> 1 <= attestation_retention_duration s ck ->
  (forall k, k <> ck -> ladder_of k s' = ladder_of k s) /\
  ladder_of ck s' = ladder_of ck s <| l_attestations := l_attestations (ladder_of ck s') |>
    <| l_removal := l_removal (ladder_of ck s') |> /\
  zlen (l_removal (ladder_of ck s')) <= attestation_retention_duration s ck /\
  forall l, l_removal l = queue -> l_cursor l = None ->
    l_attestations l = l_attestations (ladder_of ck s) ->
    rtc ladder_step l (l <| l_removal := l_removal (ladder_of ck s') |>
      <| l_attestations := l_attestations (ladder_of ck s') |>).
Proof.
  intros Hrun Hret. unfold remove_attestations in Hrun. apply transactional_ok in Hrun.
  step_inv Hrun. step_inv Hrun. run_inv. rename x into q.
  apply remove_oldest_run in Hstep as (Hne & Hck & Hlen & Hsteps); [|done].
  split_and!.
  - intros k Hk. rewrite <- Hne by done. by ladder_eval.
  - revert Hck. clear. ladder_eval. intros [=]. congruence.
  - ladder_eval. lia.
  - ladder_eval. exact Hsteps.
Qed.

(** ** The queue *)

Lemma restore_app rollback q : restore rollback q = rollback ++ q.
Proof.
  unfold restore. revert q. induction rollback as [|d rollback IH] using rev_ind; intros q; [done|].
  rewrite rev_app_distr. cbn. by rewrite IH, <- app_assoc.
Qed.

Definition keyed ck s : Prop :=
  forall d att, dget (Attestations s) ck d = Some att -> sa_digest att = d.

Lemma keyed_vouched ck s d att h e :
  keyed ck s -> dget (Attestations s) ck d = Some att -> proves att h e ->
  vouched (ladder_of ck s) h e.
Proof. intros Hk Hd Hp. exists att. split; [|done]. by rewrite (Hk d att Hd). Qed.

Lemma condense_queue_ok s ck target queue rollback removal cp q' removal' :
  keyed ck s -> condense_queue s ck target queue rollback removal = Ok (cp, q', removal') ->
  exists moved, queue = moved ++ q' /\ removal' = removal ++ moved /\
    cp_block_number cp = target /\ vouched (ladder_of ck s) target (cp_digest cp).
Proof.
  intros Hk. revert rollback removal. induction queue as [|d queue IH]; intros rollback removal;
    cbn [condense_queue]; [done|].
  destruct (dget (Attestations s) ck d) as [att|] eqn:Hd; [|done].
  destruct (Z.compare_spec (sa_header_number att) target) as [<-|Hlt|Hgt].
  - intros [= <- <- <-]. exists [d]. split_and!; [done|done|done|].
    eapply keyed_vouched; [done|done|]. by left.
  - intros (moved & -> & -> & Hcp)%IH. exists (d :: moved). by rewrite <- app_assoc.
  - destruct (digest_for_block _ _ _) as [e|] eqn:He; [|done].
    intros [= <- <- <-]. exists []. rewrite app_nil_r. split_and!; [done|done|done|].
    eapply keyed_vouched; [done|done|]. right. right. by split.
Qed.

(** An error puts the queue back as it was. *)
Lemma condense_queue_err s ck target queue rollback removal e q' :
  condense_queue s ck target queue rollback removal = Err (e, q') -> q' = rollback ++ queue.
Proof.
  revert rollback removal. induction queue as [|d queue IH]; intros rollback removal;
    cbn [condense_queue].
  { intros [= _ <-]. apply restore_app. }
  assert (forall q, restore (rollback ++ [d]) q = rollback ++ d :: q) as Hr
    by (intros q; by rewrite restore_app, <- app_assoc).
  destruct (dget (Attestations s) ck d) as [att|]; [|intros [= _ <-]; apply Hr].
  destruct (_ ?= _); [done| |].
  - intros Hq%IH. by rewrite <- app_assoc in Hq.
  - destruct (digest_for_block _ _ _); [done|]. intros [= _ <-]. apply Hr.
Qed.

(** Where the next checkpoint goes: above the last one, at most one width on. *)
Lemma next_target_spec last width :
  0 <= last -> 0 < width -> last + width <= umax 64 ->
  let next := saturating_add 64 last width in
  last < next - next mod width <= last + width /\ (next - next mod width) mod width = 0.
Proof.
  intros Hl Hw Hmax. cbv zeta. unfold saturating_add. rewrite Z.min_l by done.
  pose proof (Z.mod_pos_bound (last + width) width Hw).
  split; [lia|]. rewrite Zminus_mod, Z.mod_mod, Z.sub_diag by lia. apply Z.mod_0_l. lia.
Qed.

(** The last multiple of a width that is a height. *)
Definition last_boundary w : Z := umax 64 - umax 64 mod w.

Lemma next_target_top last width :
  umax 64 <= last + width -> saturating_add 64 last width - saturating_add 64 last width mod width = last_boundary width.
Proof. intros Hs. assert (saturating_add 64 last width = umax 64) as -> by (unfold saturating_add; lia). done. Qed.

Lemma next_target_sub last width :
  0 <= last -> 0 < width -> let next := saturating_add 64 last width in
  saturating_sub next (next mod width) = next - next mod width.
Proof.
  intros Hl Hw next. assert (0 <= next) by (unfold next, saturating_add; rewrite umax_64; lia).
  pose proof (Z.mod_le next width ltac:(done) Hw). unfold saturating_sub. lia.
Qed.

Lemma with_queue_ok {A} queue (m : PM C A) s a s' :
  with_queue queue m s = (Ok a, s') -> m s = (Ok a, s').
Proof. unfold with_queue. by destruct (m s) as [[]]; intros [= <- <-]. Qed.

Lemma with_queue_err {A} queue (m : PM C A) s e q s' :
  with_queue queue m s = (Err (e, q), s') -> q = queue.
Proof. unfold with_queue. by destruct (m s) as [[]]; intros [= _ <- _]. Qed.

Lemma width_ok s ck :
  settings_ok s ck -> 0 < checkpoint_width s ck /\ 2 * checkpoint_width s ck + 1 <= umax 64.
Proof.
  intros Hs. pose proof (so_interval _ _ Hs) as Hi. pose proof (so_checkpoint _ _ Hs) as Hc.
  pose proof cfg_width as Hcfg. unfold checkpoint_width, saturating_mul.
  assert (chain_attestation_interval s ck * attestation_checkpoint_interval s ck <=
    MaxChainAttestationInterval * MaxAttestationCheckpointInterval)
    by (apply Z.mul_le_mono_nonneg; lia).
  assert (0 < chain_attestation_interval s ck * attestation_checkpoint_interval s ck)
    by (apply Z.mul_pos_pos; lia).
  rewrite umax_64 in *. lia.
Qed.

Lemma remove_attestations_total ck queue s :
  0 <= attestation_retention_duration s ck ->
  exists s', remove_attestations ck queue s = (Ok tt, s').
Proof.
  intros Hret. unfold remove_attestations, transactional. unfold gets at 1, mbind at 1, M_bind at 1.
  assert (forall t : State C, exists q t', remove_oldest ck (attestation_retention_duration s ck) queue t =
    (Ok q, t')) as Hold.
  { induction queue as [|d queue IH]; intros t; cbn [remove_oldest].
    - change (zlen []) with 0. rewrite (proj2 (Z.ltb_ge _ _)) by lia. by eexists _, _.
    - destruct (_ <? _); [|by eexists _, _]. unfold modify, mbind, M_bind. apply IH. }
  destruct (Hold s) as (q & t & Hq). unfold mbind, M_bind. rewrite Hq. by eexists.
Qed.

(** A failed attempt gives the queue back. *)
Lemma try_make_err queue ck header s e q s' :
  0 <= attestation_retention_duration s ck ->
  try_make_checkpoint queue ck header s = (Err (e, q), s') -> q = queue /\ s' = s.
Proof.
  intros Hret Hrun. split; [|by eapply transactional_err].
  unfold try_make_checkpoint in Hrun. apply transactional_err_inv in Hrun as [t Hrun].
  apply bind_err in Hrun as [Hrun|(x & s1 & Hm & Hrun)]; [done|].
  apply gets_ok in Hm as [-> ->].
  apply bind_err in Hrun as [Hrun|(cp & s1 & Hm & Hrun)]; [by eapply with_queue_err|].
  apply with_queue_ok, lift_ok in Hm as [_ ->]. cbv zeta in Hrun.
  apply bind_err in Hrun as [Hrun|(w & s1 & Hm & Hrun)]; [done|]. apply gets_ok in Hm as [-> ->].
  apply bind_err in Hrun as [Hrun|(u & s1 & Hm & Hrun)]; [by eapply with_queue_err|].
  apply with_queue_ok, ensure_ok in Hm as [_ ->].
  destruct (_ <? _); [done|].
  apply bind_err in Hrun as [Hrun|(r & s1 & Hm & Hrun)]; [done|]. apply gets_ok in Hm as [-> ->].
  apply bind_err in Hrun as [Hrun|(s2 & s1 & Hm & Hrun)]; [done|]. apply gets_ok in Hm as [-> ->].
  apply bind_err in Hrun as [Hrun|([[cp' q'] r'] & s1 & Hm & Hrun)].
  { injection Hrun as Hrun _. by apply condense_queue_err in Hrun. }
  apply lift_ok in Hm as [_ ->].
  destruct (record_checkpoint_run ck cp' s) as (s3 & Hrec & Hl & _).
  unfold with_queue, mbind, M_bind in Hrun. rewrite Hrec in Hrun.
  assert (attestation_retention_duration s3 ck = attestation_retention_duration s ck) as Hret3.
  { refine ((_ : leaves (fun s => attestation_retention_duration s ck) _) _ _ _ Hrec). leaves. }
  destruct (remove_attestations_total ck r' s3) as [s4 Hrem]; [by rewrite Hret3|].
  by rewrite Hrem in Hrun.
Qed.

(** Condensing attestations and dropping the oldest. *)
Lemma condense_and_trim ck l s moved q u s' :
  remove_attestations ck (l_removal l ++ moved) s = (Ok u, s') ->
  1 <= attestation_retention_duration s ck -> l_cursor l = None ->
  l_queue l = moved ++ q -> ladder_of ck s <| l_queue := l_queue l |> = l ->
  rtc ladder_step l (ladder_of ck s' <| l_queue := q |>) /\
  (forall k, k <> ck -> ladder_of k s' = ladder_of k s) /\
  l_last (ladder_of ck s') = l_last l.
Proof.
  intros Hrun Hret Hcur Hq Hl.
  apply remove_attestations_run in Hrun as (Hne & Hck & _ & Hsteps); [|done].
  split_and!; [|done|].
  - etrans; [by apply condense_steps|]. etrans.
    + apply Hsteps; [done|done|]. by rewrite <- Hl.
    + clear -Hck Hl. destruct (ladder_of ck s'), (ladder_of ck s), l; cbn in *.
      injection Hck; injection Hl; intros; subst. apply rtc_refl.
  - clear -Hck Hl. destruct (ladder_of ck s'), (ladder_of ck s), l; cbn in *.
    injection Hck; injection Hl; intros; by subst.
Qed.

(** A successful attempt leaves everything as it was, or makes a checkpoint of the
    queue above the last one and below the attestation. *)
Lemma try_make_inv queue ck header s q s' :
  try_make_checkpoint queue ck header s = (Ok q, s') ->
  settings_ok s ck -> is_u64 header -> ladder_inv (ladder_of ck s <| l_queue := queue |>) ->
  (q = queue /\ s' = s) \/
  exists cp cp' target removal s1, LastCheckpoint s !! ck = Some cp /\
    0 <= cp_block_number cp < target /\ target < header /\
    condense_queue s ck target queue [] (attestation_removal_queue s ck) = Ok (cp', q, removal) /\
    record_checkpoint ck cp' s = (Ok tt, s1) /\ remove_attestations ck removal s1 = (Ok tt, s') /\
    ladder_of ck s1 = record cp' (ladder_of ck s) /\
    (forall k, k <> ck -> ladder_of k s1 = ladder_of k s) /\
    attestation_retention_duration s1 ck = attestation_retention_duration s ck.
Proof.
  intros Hrun Hset Hu Hinv. unfold try_make_checkpoint in Hrun.
  apply transactional_ok in Hrun. step_inv Hrun.
  apply bind_ok in Hrun as (cp & s1 & Hm & Hrun). apply with_queue_ok, lift_ok in Hm as [Hcp ->].
  apply ok_or_ok in Hcp. cbv zeta in Hrun. step_inv Hrun.
  apply bind_ok in Hrun as (u & s1 & Hm & Hrun). apply with_queue_ok, ensure_ok in Hm as [_ ->].
  destruct (width_ok s ck Hset) as [Hw Hw2]. set (w := checkpoint_width s ck) in *.
  rewrite (wrap_small 64 (w * 2)), (wrap_small 64 (w * 2 + 1)) in Hrun
    by (rewrite umax_64 in Hw2; rewrite pow2_64; lia).
  destruct (Z.ltb_spec (saturating_sub header (cp_block_number cp)) (w * 2 + 1)) as [Hshort|Hspan].
  { run_inv. by left. }
  right. do 3 step_inv Hrun. destruct x as [[cp' q'] r'].
  assert (0 <= cp_block_number cp) as Hnn.
  { pose proof (li_last _ Hinv cp Hcp) as Hs. assert (is_u64 (cp_block_number cp)) as [? _]; [|done].
    apply (li_u64 _ Hinv). by eexists. }
  unfold saturating_sub in Hspan. unfold is_u64 in Hu. rewrite pow2_64 in Hu.
  destruct (next_target_spec (cp_block_number cp) w) as [Htgt _]; [done|done|rewrite umax_64; lia|].
  apply bind_ok in Hrun as (u1 & s1 & Hm & Hrun). apply with_queue_ok in Hm.
  destruct (record_checkpoint_run ck cp' s) as (s1' & Hrec & Hl1 & Hne1).
  rewrite Hrec in Hm. injection Hm as _ ->.
  apply bind_ok in Hrun as ([] & s2 & Hm & Hrun). apply with_queue_ok in Hm. run_inv.
  eexists cp, cp', _, r', s1. split_and!; try done; try lia.
  refine ((_ : leaves (fun s => attestation_retention_duration s ck) _) _ _ _ Hrec). leaves.
Qed.

Lemma try_make_ok queue ck header s q s' :
  try_make_checkpoint queue ck header s = (Ok q, s') ->
  settings_ok s ck -> 1 <= attestation_retention_duration s ck -> is_u64 header ->
  ladder_inv (ladder_of ck s <| l_queue := queue |>) ->
  l_cursor (ladder_of ck s) = None -> l_pruning (ladder_of ck s) = None ->
  (exists hd, l_head (ladder_of ck s) = Some (header, hd)) ->
  rtc ladder_step (ladder_of ck s <| l_queue := queue |>) (ladder_of ck s' <| l_queue := q |>) /\
  (forall k, k <> ck -> ladder_of k s' = ladder_of k s) /\
  (forall cp, l_last (ladder_of ck s') = Some cp -> l_last (ladder_of ck s) = Some cp \/
     cp_block_number cp < header).
Proof.
  intros Hrun Hset Hret Hu Hinv Hcur Hpr [hd Hhd].
  destruct (try_make_inv _ _ _ _ _ _ Hrun Hset Hu Hinv) as [[-> ->]|(cp & cp' & target & removal & s1 &
    Hcp & Hlow & Hhigh & Hcond & Hrec & Hrem & Hl1 & Hne1 & Hret1)]; [split_and!; [done|done|auto]|].
  assert (keyed ck s) as Hkey by (intros d att; apply (li_key _ Hinv)).
  apply condense_queue_ok in Hcond as (moved & Hmoved & -> & Hnum & Hv); [|done].
  destruct (condense_and_trim ck (record cp' (ladder_of ck s <| l_queue := moved ++ q |>))
    s1 moved q tt s') as (Hsteps & Hne2 & Hlast); try done.
  { by rewrite Hret1. }
  { by rewrite Hl1. }
  split_and!.
  - eapply rtc_l; [|exact Hsteps]. rewrite <- Hnum in *. rewrite Hmoved.
    refine (ls_checkpoint _ (cp_block_number cp') (cp_digest cp') header hd _ _ _ _ _ _ _); try done.
    + unfold is_u64 in *. lia.
    + lia.
    + intros x Hx. cbn in Hx. rewrite Hcp in Hx. injection Hx as <-. lia.
  - intros k Hk. by rewrite Hne2, Hne1.
  - intros x Hx. rewrite Hlast in Hx. cbn in Hx. injection Hx as <-. right. cbn. lia.
Qed.

(** ** Catch-up *)

Lemma boundary_loop_leaves {T} (v : State C -> T) fuel ck w head digests b :
  (forall cp, leaves v (record_checkpoint ck cp)) ->
  leaves v (boundary_loop fuel ck w head digests b).
Proof.
  intros Hv. revert b. induction fuel as [|fuel IH]; intros b; cbn [boundary_loop]; [leaves|].
  cbv zeta. destruct (_ <? _); [leaves|].
  apply leaves_bind; [unfold ok_or_m; leaves|intros d]. apply leaves_bind; [apply Hv|]. intros _.
  apply IH.
Qed.

(** Once the next boundary saturates the loop records the last one again and again,
    whatever turns it is given. *)
Lemma boundary_loop_stuck fuel ck w head digests b s :
  0 < w -> 0 <= b -> umax 64 < b + w -> last_boundary w <= head -> is_Some (digests !! last_boundary w) ->
  exists s', boundary_loop fuel ck w head digests b s = (Err (Other "boundary_loop"), s').
Proof.
  intros Hw. revert b s. induction fuel as [|fuel IH]; intros b s Hb Hsat Hle [d Hd]; cbn [boundary_loop]; [by eexists|].
  pose proof (Z.mod_pos_bound (umax 64) w Hw). pose proof (Z.mod_le (umax 64) w ltac:(done) Hw).
  cbv zeta. rewrite next_target_sub, next_target_top, (proj2 (Z.ltb_ge _ _) Hle) by lia.
  destruct (record_checkpoint_run ck (mkCheckpoint (last_boundary w) d) s) as (s1 & Hrec & _).
  destruct (IH (last_boundary w) s1) as (s' & Hloop); [unfold last_boundary; lia..|done|by eexists|].
  exists s'. unfold ok_or_m. rewrite (run_lift _ d) by (by rewrite Hd). by rewrite (run_call _ _ _ _ _ Hrec).
Qed.

(** A loop whose head is past the last boundary gets there when it has the digests. *)
Lemma boundary_loop_endless fuel ck w head digests b s :
  0 < w -> 0 <= b < last_boundary w -> last_boundary w <= head ->
  (forall t, b < t <= head -> t mod w = 0 -> is_Some (digests !! t)) ->
  exists s', boundary_loop fuel ck w head digests b s = (Err (Other "boundary_loop"), s').
Proof.
  intros Hw. pose proof (Z.mod_pos_bound (umax 64) w Hw).
  assert (last_boundary w mod w = 0) as Hlb.
  { unfold last_boundary. rewrite Zminus_mod, Z.mod_mod, Z.sub_diag by lia. apply Z.mod_0_l. lia. }
  revert b s. induction fuel as [|fuel IH]; intros b s Hb Hle Hdig.
  { by eexists. }
  destruct (Z.le_gt_cases (b + w) (umax 64)) as [Hroom|Hsat].
  2: { apply boundary_loop_stuck; [lia..|]. apply Hdig; [lia|done]. }
  destruct (next_target_spec b w) as [Htgt Hmod]; [lia|done|done|].
  cbn [boundary_loop]. cbv zeta. rewrite next_target_sub by lia. set (t := saturating_add 64 b w - _) in *.
  assert (t <= last_boundary w) as Ht.
  { apply Z.mod_divide in Hmod as [q Hq]; [|lia]. apply Z.mod_divide in Hlb as [p Hp]; [|lia].
    unfold last_boundary in *. assert (q < p + 1) by (apply (Z.mul_lt_mono_pos_r w); lia).
    rewrite Hp, Hq. apply Z.mul_le_mono_nonneg_r; lia. }
  destruct (Hdig t) as [d Hd]; [lia|done|].
  destruct (record_checkpoint_run ck (mkCheckpoint t d) s) as (s1 & Hrec & _).
  rewrite (proj2 (Z.ltb_ge _ _)) by lia. unfold ok_or_m. rewrite (run_lift _ d) by (by rewrite Hd).
  rewrite (run_call _ _ _ _ _ Hrec). destruct (decide (t = last_boundary w)) as [Heq|Hne].
  - apply boundary_loop_stuck; [lia..|unfold last_boundary in *; lia|done|rewrite <- Heq; by eexists].
  - apply IH; [lia|done|]. intros t' Ht'. apply Hdig. lia.
Qed.

(** A loop that ends has not saturated at a boundary it records. *)
Lemma boundary_loop_room fuel ck w head digests b s b' s' :
  boundary_loop fuel ck w head digests b s = (Ok b', s') -> 0 < w -> 0 <= b ->
  saturating_add 64 b w - saturating_add 64 b w mod w <= head -> b + w <= umax 64.
Proof.
  intros Hrun Hw Hb Hle. destruct (Z.le_gt_cases (b + w) (umax 64)) as [|Hsat]; [done|exfalso].
  rewrite next_target_top in Hle by lia. destruct (digests !! last_boundary w) as [d|] eqn:Hd.
  - destruct (boundary_loop_stuck fuel ck w head digests b s) as (s1 & Hs); [done|lia|lia|done|by eexists|congruence].
  - destruct fuel as [|fuel]; [done|]. cbn [boundary_loop] in Hrun. cbv zeta in Hrun.
    rewrite next_target_sub, next_target_top, (proj2 (Z.ltb_ge _ _) Hle) in Hrun by lia.
    unfold ok_or_m in Hrun. by rewrite Hd in Hrun.
Qed.

(** Checkpoints at increasing boundaries, up to the head. *)
Lemma boundary_loop_ok fuel ck w head digests b s b' s' l hd cp :
  boundary_loop fuel ck w head digests b s = (Ok b', s') ->
  0 < w -> head <= umax 64 -> 0 <= b <= head ->
  ladder_of ck s <| l_queue := l_queue l |> = l ->
  l_cursor l = None -> l_pruning l = None -> l_head l = Some (head, hd) ->
  l_last l = Some cp -> cp_block_number cp = b ->
  (forall h d, digests !! h = Some d -> vouched l h d) ->
  rtc ladder_step l (ladder_of ck s' <| l_queue := l_queue l |>) /\
  (forall k, k <> ck -> ladder_of k s' = ladder_of k s) /\
  b <= b' <= head /\ (b' = b -> s' = s).
Proof.
  intros Hrun Hw Hmax. revert b s l cp Hrun.
  induction fuel as [|fuel IH]; intros b s l cp Hrun Hb Hl Hcur Hpr Hhd Hcp Hnum Hdig; [done|].
  pose proof (boundary_loop_room _ _ _ _ _ _ _ _ _ Hrun Hw ltac:(lia)) as Hroom. cbn [boundary_loop] in Hrun.
  cbv zeta in Hrun. rewrite next_target_sub in Hrun by lia. set (t := saturating_add 64 b w - _) in *.
  destruct (Z.ltb_spec head t) as [Hgt|Hle].
  { run_inv. rewrite Hl. split_and!; [apply rtc_refl|done|lia|lia|done]. }
  destruct (next_target_spec b w) as [Htgt _]; [lia|done|by apply Hroom|]. fold t in Htgt.
  step_inv Hrun. rename x into d. apply bind_ok in Hrun as (u & s1 & Hrec & Hrun).
  destruct (record_checkpoint_run ck (mkCheckpoint t d) s) as (s1' & Hrec' & Hl1 & Hne1).
  rewrite Hrec in Hrec'. injection Hrec' as -> ->.
  destruct (IH t s1' (record (mkCheckpoint t d) l) (mkCheckpoint t d) Hrun) as (Hst & Hne & Hb' & _);
    try done; [lia|..].
  { rewrite Hl1. by rewrite <- Hl. }
  split_and!.
  - eapply rtc_l; [|exact Hst].
    refine (ls_checkpoint l t d head hd _ Hcur Hpr Hhd Hle _ _).
    + unfold is_u64. rewrite pow2_64. rewrite umax_64 in Hmax. lia.
    + intros x Hx. simplify_eq. lia.
    + by apply Hdig.
  - intros k Hk. by rewrite Hne, Hne1.
  - lia.
  - lia.
  - lia.
Qed.

(** Below the last boundary and with enough fuel, the loop ends with a result or
    with a missing digest. *)
Lemma boundary_loop_fuel fuel ck w head digests b s e s' :
  boundary_loop fuel ck w head digests b s = (Err e, s') ->
  0 < w -> head < last_boundary w -> 0 <= b <= head -> head / w - b / w < Z.of_nat fuel ->
  e = ModuleError CheckpointCreationError /\
  exists t, b < t <= head /\ t mod w = 0 /\ digests !! t = None.
Proof.
  intros Hrun Hw Hmax. revert b s Hrun.
  induction fuel as [|fuel IH]; intros b s Hrun Hb Hfuel; cbn [boundary_loop] in Hrun.
  { pose proof (Z.div_le_mono b head w Hw ltac:(lia)). lia. }
  cbv zeta in Hrun. rewrite next_target_sub in Hrun by lia.
  destruct (Z.le_gt_cases (b + w) (umax 64)) as [Hroom|Hsat].
  2: { rewrite next_target_top, (proj2 (Z.ltb_lt _ _) Hmax) in Hrun by lia. done. }
  destruct (next_target_spec b w) as [Htgt Hmod]; [lia|done|done|].
  set (t := saturating_add 64 b w - saturating_add 64 b w mod w) in *.
  destruct (Z.ltb_spec head t) as [Hgt|Hle]; [done|].
  apply bind_err in Hrun as [Hrun|(d & s1 & Hd & Hrun)].
  { unfold ok_or_m, lift, ok_or in Hrun. destruct (digests !! t) eqn:Ht; [done|]. injection Hrun as <- _.
    split; [done|]. exists t. split_and!; [lia|done|done|done]. }
  apply bind_err in Hrun as [Hrun|(u & s2 & Hrec & Hrun)].
  { destruct (record_checkpoint_run ck (mkCheckpoint t d) s1) as (s2 & Hrec & _). congruence. }
  apply IH in Hrun as [He (t' & Ht' & Hrest)]; [split; [done|]; exists t'; split; [lia|done]|lia|].
  assert (b / w < t / w); [|lia].
  apply Z.mod_divide in Hmod as [q Hq]; [|lia]. rewrite Hq, Z.div_mul by lia.
  apply Z.div_lt_upper_bound; lia.
Qed.

Lemma queued_digests_vouched s ck queue m :
  keyed ck s -> (forall h d, m !! h = Some d -> vouched (ladder_of ck s) h d) ->
  forall h d, queued_digests s ck queue m !! h = Some d -> vouched (ladder_of ck s) h d.
Proof.
  intros Hk. unfold queued_digests. revert m. induction queue as [|q queue IH]; intros m Hm; [done|].
  cbn [foldl]. apply IH. destruct (dget (Attestations s) ck q) as [att|] eqn:Hq; [|done].
  intros h d [[Hd|[_ Hd]]%lookup_union_Some_raw|[_ Hd]]%lookup_union_Some_raw.
  - by apply Hm.
  - apply lookup_singleton_Some in Hd as [<- <-]. eapply keyed_vouched; [done|done|]. by left.
  - eapply keyed_vouched; [done|done|]. right. by left.
Qed.

Lemma catch_up_ok ck att queue s b s' cp hd :
  create_checkpoints_from_queue ck att (sa_digest att) queue s = (Ok b, s') ->
  settings_ok s ck -> 1 <= attestation_retention_duration s ck ->
  is_u64 (sa_header_number att) ->
  dget (Attestations s) ck (sa_digest att) = Some att -> keyed ck s ->
  l_cursor (ladder_of ck s) = None -> l_pruning (ladder_of ck s) = None ->
  l_head (ladder_of ck s) = Some (sa_header_number att, hd) ->
  l_last (ladder_of ck s) = Some cp -> 0 <= cp_block_number cp <= sa_header_number att ->
  (forall k, k <> ck -> ladder_of k s' = ladder_of k s) /\
  if b : bool then
    rtc ladder_step (ladder_of ck s <| l_queue := queue ++ [sa_digest att] |>) (ladder_of ck s')
  else s' = s.
Proof.
  intros Hrun Hset Hret Hmax Hatt Hkey Hcur Hpr Hhd Hcp Hnum.
  destruct (width_ok s ck Hset) as [Hw _].
  unfold create_checkpoints_from_queue in Hrun. apply transactional_ok in Hrun.
  do 4 step_inv Hrun. cbv zeta in Hrun. do 2 step_inv Hrun. rename x into cp'.
  assert (cp' = cp) as -> by (cbn in Hcp; congruence).
  apply bind_ok in Hrun as (b' & s1 & Hloop & Hrun).
  set (l := ladder_of ck s <| l_queue := queue ++ [sa_digest att] |>).
  match type of Hloop with boundary_loop _ _ _ _ ?dg _ _ = _ => set (digests := dg) in * end.
  assert (forall h d, digests !! h = Some d -> vouched l h d) as Hdig.
  { apply (queued_digests_vouched s ck queue); [done|]. intros h d. rewrite lookup_insert.
    case_decide as Hh; [intros [= <-]|intros Hd]; eapply keyed_vouched; try done; [by left|].
    right. by left. }
  destruct (boundary_loop_ok _ ck _ _ digests _ s b' s1 l hd cp Hloop) as (Hst & Hne & Hb & Hsame);
    try done; [unfold is_u64 in Hmax; rewrite umax_64, pow2_64 in *; lia|].
  pose proof (fun T (v : State C -> T) Hv =>
    boundary_loop_leaves v _ _ _ _ _ _ Hv _ _ _ Hloop) as Hfr.
  destruct (Z.eqb_spec b' (cp_block_number cp)) as [Heq|Hneq]; cbn [negb] in Hrun.
  { run_inv. rewrite Hsame in * by done. done. }
  apply bind_ok in Hrun as (u & s2 & Hrem & Hrun). run_inv.
  destruct (condense_and_trim ck (ladder_of ck s1 <| l_queue := queue ++ [sa_digest att] |>) s1
    (queue ++ [sa_digest att]) [] u s2) as (Hst2 & Hne2 & _).
  - assert (attestation_removal_queue s1 ck = attestation_removal_queue s ck) as Hr
      by (apply (Hfr _ (fun s => attestation_removal_queue s ck)); leaves).
    cbn -[attestation_removal_queue]. by rewrite Hr.
  - rewrite (Hfr _ (fun s => attestation_retention_duration s ck)); [done|leaves].
  - cbn in *. rewrite (Hfr _ (fun s => AttestationClearingCursors s !! ck)); [done|leaves].
  - cbn. by rewrite app_nil_r.
  - done.
  - split.
    + intros k Hk. rewrite <- (Hne k Hk), <- (Hne2 k Hk). by ladder_eval.
    + etrans; [exact Hst|]. etrans; [exact Hst2|]. ladder_eval. apply rtc_refl.
Qed.

(** The catch-up of a commit; [false] leaves everything as it was. *)
Lemma continuity_checkpoints_ok ck att s b s' cp hd :
  create_checkpoints_from_continuity_proof ck att (sa_digest att) s = (Ok b, s') ->
  settings_ok s ck -> 1 <= attestation_retention_duration s ck ->
  is_u64 (sa_header_number att) ->
  dget (Attestations s) ck (sa_digest att) = Some att -> keyed ck s ->
  l_cursor (ladder_of ck s) = None -> l_pruning (ladder_of ck s) = None ->
  l_head (ladder_of ck s) = Some (sa_header_number att, hd) ->
  l_last (ladder_of ck s) = Some cp -> 0 <= cp_block_number cp <= sa_header_number att ->
  (forall k, k <> ck -> ladder_of k s' = ladder_of k s) /\
  if b : bool then
    rtc ladder_step (ladder_of ck s <| l_queue ::= fun q => q ++ [sa_digest att] |>)
      (ladder_of ck s')
  else s' = s.
Proof.
  intros Hrun. intros. unfold create_checkpoints_from_continuity_proof in Hrun.
  destruct (is_empty_proof _); [by run_inv|]. do 2 step_inv Hrun.
  destruct (zlen _ <? _); [by run_inv|]. step_inv Hrun. by eapply catch_up_ok.
Qed.

(** ** Commit *)

(** The height the pallet finds for its last digest is the head's. *)
Lemma finalized_head s ck d h :
  ladder_inv (ladder_of ck s) -> l_cursor (ladder_of ck s) = None ->
  last_digest s ck = Some d -> finalized_header_number s ck d = Some h ->
  head_of (ladder_of ck s) = Some (h, d).
Proof.
  intros Hinv Hcur Hlast Hfin. unfold finalized_header_number, get_attestation in Hfin.
  replace (attestations_stable s ck) with true in Hfin
    by (symmetry; by apply bool_decide_eq_true).
  pose proof (li_known _ Hinv) as Hknown. pose proof (li_headless _ Hinv) as Hless.
  destruct (li_queue _ Hinv Hcur) as [_ Hq].
  assert (retained (ladder_of ck s) = [] -> dget (Attestations s) ck d = None) as Hnil.
  { intros He. apply eq_None_not_Some. intros Hs. apply Hq in Hs. rewrite He in Hs.
    by apply not_elem_of_nil in Hs. }
  unfold head_of. unfold last_digest in Hlast. cbn [ladder_of l_head l_last] in *.
  destruct (LastDigest s !! ck) as [[hh hd]|] eqn:Hhd.
  - injection Hlast as ->. destruct (Hknown hh d eq_refl) as [[_ (att & Hat & Hnum)]|[Hl Hr]].
    + change (dget (Attestations s) ck d = Some att) in Hat. rewrite Hat in Hfin.
      injection Hfin as <-. by rewrite Hnum.
    + rewrite (Hnil Hr), Hl in Hfin. cbn in Hfin. rewrite Z.eqb_refl in Hfin. by injection Hfin as ->.
  - rewrite (Hnil (Hless eq_refl)) in Hfin. destruct (LastCheckpoint s !! ck) as [cp|]; [|done].
    cbn in Hlast. injection Hlast as <-. rewrite Z.eqb_refl in Hfin. injection Hfin as <-. done.
Qed.

Lemma blocked_false s ck :
  commit_blocked_by_cleanup s ck = false ->
  l_cursor (ladder_of ck s) = None /\ l_pruning (ladder_of ck s) = None.
Proof.
  unfold commit_blocked_by_cleanup.
  intros [Hc%bool_decide_eq_false Hp%bool_decide_eq_false]%orb_false_iff.
  split; cbn; by apply eq_None_not_Some.
Qed.

Lemma check_duplicate_false s att :
  check_duplicate s att = false ->
  let l := ladder_of (sa_chain_key att) s in
  l_attestations l !! sa_digest att = None /\
  (forall h d, l_head l = Some (h, d) -> h < sa_header_number att) /\
  (forall cp, l_last l = Some cp -> cp_block_number cp < sa_header_number att).
Proof.
  unfold check_duplicate.
  intros [[Hd%bool_decide_eq_false Hh]%orb_false_iff Hc]%orb_false_iff. cbv zeta. split_and!.
  - by apply eq_None_not_Some.
  - cbn. intros h d Hl. rewrite Hl in Hh. lia.
  - cbn. intros cp Hl. rewrite Hl in Hc. lia.
Qed.

(** What a validated attestation is to its chain's ladder. *)
Lemma validated_extends att s u s' :
  let ck := sa_chain_key att in let l := ladder_of ck s in
  validate_attestation env ck att s = (Ok u, s') ->
  is_u64 (sa_header_number att) -> ladder_inv l ->
  s' = s /\ l_cursor l = None /\ l_pruning l = None /\
  l_attestations l !! sa_digest att = None /\
  (forall h d, l_head l = Some (h, d) -> h < sa_header_number att) /\
  (forall cp, l_last l = Some cp -> cp_block_number cp < sa_header_number att) /\
  extends l att.
Proof.
  intros ck l Hrun Hu Hinv.
  destruct (validate_ok env ck att s u s' eq_refl Hrun)
    as (-> & _ & Hblk & Hdup & _ & _ & Hcont).
  destruct (blocked_false _ _ Hblk) as [Hcur Hpr].
  destruct (check_duplicate_false _ _ Hdup) as (Hfresh & Hhead & Hlast).
  destruct (continuity_ok att s u s) as (Husz & [(_ & Hprev & Hrs)|
    (d & h & Hld & Hfin & Hlow & Hprev & Hnum & _)]); [unfold is_u64 in Hu; lia|done|..].
  { split_and!; try done. split; [done|by left]. }
  pose proof (finalized_head s ck d h Hinv Hcur Hld Hfin) as Hhd.
  split_and!; try done. split; [done|]. right. exists h, d. split_and!; try done. apply Hnum.
  assert (forall cp, l_last l = Some cp -> 0 <= cp_block_number cp) as Hnn.
  { intros cp Hcp. assert (is_u64 (cp_block_number cp)) as [? _]; [|done].
    apply (li_u64 _ Hinv). rewrite (li_last _ Hinv cp Hcp). by eexists. }
  unfold head_of in Hhd. fold l in Hhd. destruct (l_head l) as [[hh hd]|] eqn:Hlh.
  - injection Hhd as -> ->. split; [|by eapply Hhead].
    destruct (l_last l) as [cp|] eqn:Hcp.
    + specialize (Hnn cp eq_refl). pose proof (li_head _ Hinv _ _ _ Hcp Hlh). lia.
    + destruct (li_none _ Hinv Hcp) as (_ & ? & _). congruence.
  - apply fmap_Some in Hhd as (cp & Hcp & [= -> ->]). auto.
Qed.

Lemma remove_attestations_leaves {T} (v : State C -> T) ck queue :
  (forall s f, v (s <| Attestations ::= f |>) = v s) ->
  (forall s f, v (s <| AttestationRemovalQueues ::= f |>) = v s) ->
  leaves v (remove_attestations ck queue).
Proof.
  intros Ha Hr. unfold remove_attestations. apply leaves_transactional, leaves_bind; [leaves|].
  intros ret. apply leaves_bind; [|intros q; apply leaves_modify; auto].
  induction queue as [|d queue IH]; cbn [remove_oldest]; destruct (_ <? _); leaves.
Qed.

Lemma ladder_of_no_queue ck s :
  CheckpointingQueues s !! ck = None -> ladder_of ck s <| l_queue := [] |> = ladder_of ck s.
Proof. intros Hn. unfold ladder_of, checkpointing_queue. by rewrite Hn. Qed.

Lemma ladder_of_delete_queue k ck s :
  ladder_of k (s <| CheckpointingQueues ::= delete ck |>) =
  if decide (k = ck) then ladder_of k s <| l_queue := [] |> else ladder_of k s.
Proof. case_decide; [subst|]; by ladder_eval. Qed.

Strategy expand [checkpoint_at_attestation store_attestation first_checkpoint queue_attestation
  do_commit_attestation].

Lemma checkpoint_at_ok ck header digest q s u s' :
  checkpoint_at_attestation ck header digest q s = (Ok u, s') ->
  let l := ladder_of ck s <| l_queue := q |> in
  1 <= attestation_retention_duration s ck -> is_u64 header -> ladder_inv l ->
  l_cursor l = None -> l_pruning l = None -> l_head l = Some (header, digest) ->
  (forall cp, l_last l = Some cp -> cp_block_number cp < header) ->
  rtc ladder_step l (ladder_of ck s') /\ (forall k, k <> ck -> ladder_of k s' = ladder_of k s).
Proof.
  intros Hrun l Hret Hu Hinv Hcur Hpr Hhd Hlast. unfold checkpoint_at_attestation in Hrun.
  apply bind_ok in Hrun as (u1 & s1 & Hrec & Hrun).
  destruct (record_checkpoint_run ck (mkCheckpoint header digest) s) as (s1' & Hrec' & Hl1 & Hne1).
  rewrite Hrec in Hrec'. injection Hrec' as _ <-. do 2 step_inv Hrun.
  assert (attestation_retention_duration s1 ck = attestation_retention_duration s ck) as Hret1.
  { refine ((_ : leaves (fun s => attestation_retention_duration s ck) _) _ _ _ Hrec). leaves. }
  assert (attestation_removal_queue (s1 <| CheckpointingQueues ::= delete ck |>) ck =
    l_removal (record (mkCheckpoint header digest) l)) as Hrem1.
  { transitivity (attestation_removal_queue s1 ck); [done|].
    refine ((_ : leaves (fun s => attestation_removal_queue s ck) _) _ _ _ Hrec). leaves. }
  rewrite Hrem1 in Hrun.
  pose proof (fun k => ladder_of_delete_queue k ck s1) as Hdel.
  destruct (condense_and_trim ck (record (mkCheckpoint header digest) l) _ q [] u s' Hrun)
    as (Hst & Hne2 & _).
  - change (1 <= attestation_retention_duration s1 ck). by rewrite Hret1.
  - done.
  - cbn. by rewrite app_nil_r.
  - rewrite Hdel, decide_True by done. by rewrite Hl1.
  - assert (ladder_of ck s' <| l_queue := [] |> = ladder_of ck s') as Hq.
    { apply ladder_of_no_queue.
      rewrite (remove_attestations_leaves (fun s => CheckpointingQueues s !! ck) ck _
          ltac:(done) ltac:(done) _ _ _ Hrun). apply lookup_delete_eq. }
    rewrite Hq in Hst. split.
    + eapply rtc_l; [|exact Hst]. refine (ls_checkpoint l header digest header digest Hu Hcur Hpr Hhd _ _ _).
      * lia.
      * done.
      * destruct (li_known _ Hinv _ _ Hhd) as [[_ (att & Hat & Hnum)]|[Hl _]].
        { exists att. rewrite (li_key _ Hinv _ _ Hat). split; [done|]. left.
          by rewrite (li_key _ Hinv _ _ Hat), Hnum. }
        { specialize (Hlast _ Hl). cbn in Hlast. lia. }
    + intros k Hk. rewrite Hne2, Hdel, decide_False by done. by apply Hne1.
Qed.

(** The ladder with [att] stored and queued. *)
Definition attested_ladder (l : Ladder) (att : SignedAttestation) : Ladder :=
  mkLadder (<[sa_digest att := att]> (l_attestations l)) (l_checkpoints l)
    (l_buckets l) (l_last l) (Some (sa_header_number att, sa_digest att))
    (l_queue l ++ [sa_digest att]) (l_removal l) (l_pruning l) (l_cursor l).

Lemma store_attestation_run att s u s' :
  let ck := sa_chain_key att in
  store_attestation env att s = (Ok u, s') ->
  (forall h d, LastDigest s !! ck = Some (h, d) -> h < sa_header_number att) ->
  ladder_of ck s' = attested_ladder (ladder_of ck s) att <| l_queue := checkpointing_queue s ck |> /\
  (forall k, k <> ck -> ladder_of k s' = ladder_of k s) /\
  settings_view ck s' = settings_view ck s /\
  attestation_retention_duration s' ck = attestation_retention_duration s ck.
Proof.
  intros ck Hrun Hlt. unfold store_attestation in Hrun. do 5 step_inv Hrun.
  destruct (LastDigest _ !! _) as [[h d]|] eqn:Hd in Hrun;
    [rewrite (proj2 (Z.ltb_lt _ _)) in Hrun by eauto|]; injection Hrun as _ <-;
    (split_and!; [ladder_eval; done| |done|done]); intros k Hk; by ladder_eval.
Qed.

(** What making a checkpoint from the queue leaves alone. *)
Definition steady_view ck s :=
  (AttestationClearingCursors s !! ck, CheckpointPruningStates s !! ck, LastDigest s !! ck,
   attestation_retention_duration s ck).

Lemma try_make_leaves queue ck k header :
  leaves (steady_view k) (try_make_checkpoint queue ck header).
Proof.
  unfold try_make_checkpoint. apply leaves_transactional.
  repeat first
    [ progress cbv zeta
    | apply leaves_bind; [|intros]
    | apply leaves_with_queue
    | apply remove_attestations_leaves; [done|done]
    | solve [unfold ok_or_m, ensure_m; leaves]
    | match goal with |- leaves _ (match ?x with _ => _ end) => destruct x end ].
Qed.

Lemma queue_attestation_ok ck header digest s u s' :
  queue_attestation ck header digest s = (Ok u, s') ->
  let l := ladder_of ck s <| l_queue := checkpointing_queue s ck ++ [digest] |> in
  settings_ok s ck -> 1 <= attestation_retention_duration s ck -> is_u64 header -> ladder_inv l ->
  l_cursor l = None -> l_pruning l = None -> l_head l = Some (header, digest) ->
  (forall cp, l_last l = Some cp -> cp_block_number cp < header) ->
  rtc ladder_step l (ladder_of ck s') /\ (forall k, k <> ck -> ladder_of k s' = ladder_of k s).
Proof.
  intros Hrun l Hset Hret Hu Hinv Hcur Hpr Hhd Hlast. unfold queue_attestation in Hrun.
  step_inv Hrun. apply bind_ok in Hrun as (q & s1 & Htry & Hrun).
  assert (rtc ladder_step l (ladder_of ck s1 <| l_queue := q |>) /\
    (forall k, k <> ck -> ladder_of k s1 = ladder_of k s) /\
    (forall cp, l_last (ladder_of ck s1) = Some cp -> cp_block_number cp < header) /\
    steady_view ck s1 = steady_view ck s) as (Hst & Hne & Hl1 & Hview).
  { destruct (try_make_checkpoint _ ck header s) as [[q'|[e q']] s1'] eqn:Hmk in Htry;
      injection Htry as <- <-; pose proof (try_make_leaves _ _ ck _ _ _ _ Hmk) as Hview.
    - destruct (try_make_ok _ _ _ _ _ _ Hmk Hset Hret Hu Hinv Hcur Hpr) as (Hst & Hne & Hl1);
        [by eexists|]. split_and!; try done. intros cp [Hcp|?]%Hl1; [by apply Hlast|done].
    - apply try_make_err in Hmk as [-> ->]; [|lia]. by split_and!. }
  unfold steady_view in Hview. injection Hview as Hv1 Hv2 Hv3 Hv4.
  destruct (Z.ltb_spec MaxCheckpointingQueueLen (zlen q)).
  - apply checkpoint_at_ok in Hrun as [Hst2 Hne2]; try done.
    + split; [by etrans|]. intros k Hk. by rewrite Hne2, Hne.
    + by rewrite Hv4.
    + by eapply ladder_steps_inv.
    + cbn in *. by rewrite Hv1.
    + cbn in *. by rewrite Hv2.
    + cbn in *. by rewrite Hv3.
  - run_inv. split.
    + etrans; [exact Hst|]. ladder_eval. apply rtc_refl.
    + intros k Hk. rewrite <- (Hne k Hk). by ladder_eval.
Qed.

Lemma first_checkpoint_run ck header digest s u s' :
  first_checkpoint ck header digest s = (Ok u, s') ->
  header = attestation_chain_genesis_block_number s ck /\
  ladder_of ck s' = record (mkCheckpoint header digest)
    (ladder_of ck s <| l_removal := l_removal (ladder_of ck s) ++ [digest] |>) /\
  (forall k, k <> ck -> ladder_of k s' = ladder_of k s).
Proof.
  intros Hrun. unfold first_checkpoint in Hrun. do 2 step_inv Hrun. split; [lia|].
  apply bind_ok in Hrun as (u1 & s1 & Hrec & Hrun).
  destruct (record_checkpoint_run ck (mkCheckpoint header digest) s) as (s1' & Hrec' & Hl1 & Hne1).
  rewrite Hrec in Hrec'. injection Hrec' as _ <-. apply modify_ok in Hrun as ->. split.
  - transitivity (ladder_of ck s1 <| l_removal := l_removal (ladder_of ck s1) ++ [digest] |>).
    + by ladder_eval.
    + by rewrite Hl1.
  - intros k Hk. rewrite <- (Hne1 k Hk). by ladder_eval.
Qed.

(** Without a checkpoint there is no head to extend. *)
Lemma first_extends l att :
  ladder_inv l -> l_checkpoints l = ∅ -> extends l att ->
  l_last l = None /\ sa_prev_digest att = None /\ roots (sa_continuity_proof att) = [].
Proof.
  intros Hinv Hnil [_ Hext].
  assert (l_last l = None) as Hnone.
  { destruct (l_last l) as [cp|] eqn:Hcp; [|done]. apply (li_last _ Hinv) in Hcp.
    rewrite Hnil in Hcp. by rewrite lookup_empty in Hcp. }
  destruct Hext as [[Hp Hr]|(h & d & Hhd & _)]; [done|].
  destruct (li_none _ Hinv Hnone) as (_ & Hh & _). unfold head_of in Hhd.
  by rewrite Hh, Hnone in Hhd.
Qed.

Lemma width_frame ck s s' :
  settings_view ck s' = settings_view ck s -> checkpoint_width s' ck = checkpoint_width s ck.
Proof.
  unfold settings_view. intros [= V1 _ _ _ V5 _ _ _ _].
  unfold checkpoint_width, chain_attestation_interval, attestation_checkpoint_interval.
  by rewrite V1, V5.
Qed.

(** The checkpoints a stored attestation leads to. *)
Lemma advance_ok att s u s' cp :
  let ck := sa_chain_key att in
  let l := ladder_of ck s <| l_queue := l_queue (ladder_of ck s) ++ [sa_digest att] |> in
  (caught_up ← create_checkpoints_from_continuity_proof ck att (sa_digest att);
   if caught_up : bool then mret tt
   else queue_attestation ck (sa_header_number att) (sa_digest att)) s = (Ok u, s') ->
  settings_ok s ck -> 1 <= attestation_retention_duration s ck ->
  is_u64 (sa_header_number att) ->
  ladder_inv l -> l_cursor l = None -> l_pruning l = None ->
  l_head l = Some (sa_header_number att, sa_digest att) ->
  l_attestations l !! sa_digest att = Some att ->
  l_last l = Some cp -> 0 <= cp_block_number cp < sa_header_number att ->
  rtc ladder_step l (ladder_of ck s') /\ (forall k, k <> ck -> ladder_of k s' = ladder_of k s).
Proof.
  intros ck l Hrun Hset Hret Hu Hinv Hcur Hpr Hhd Hatt Hcp Hlt.
  apply bind_ok in Hrun as (b & s1 & Hcat & Hrun).
  destruct (continuity_checkpoints_ok ck att s b s1 cp (sa_digest att) Hcat) as [Hne Hb]; try done.
  { intros d a Hd. by apply (li_key _ Hinv). }
  { lia. }
  destruct b; [by run_inv|]. subst s1.
  destruct (queue_attestation_ok ck _ _ s u s' Hrun) as [Hst Hne']; try done.
  intros x Hx. change (l_last l = Some x) in Hx. simplify_eq. lia.
Qed.

(** How a commit starts: the attestation extends the ladder and is stored; it is
    the first one, or joins the queue of a ladder with checkpoints. *)
Lemma commit_start att s u s' :
  let ck := sa_chain_key att in let l := ladder_of ck s in
  do_commit_attestation env att s = (Ok u, s') -> is_u64 (sa_header_number att) -> ladder_inv l ->
  exists u1 s1, store_attestation env att s = (Ok u1, s1) /\
    l_cursor l = None /\ l_pruning l = None /\ l_attestations l !! sa_digest att = None /\
    (forall h d, l_head l = Some (h, d) -> h < sa_header_number att) /\
    (forall cp, l_last l = Some cp -> cp_block_number cp < sa_header_number att) /\
    ladder_of ck s1 = attested_ladder l att <| l_queue := checkpointing_queue s ck |> /\
    (forall k, k <> ck -> ladder_of k s1 = ladder_of k s) /\
    settings_view ck s1 = settings_view ck s /\
    attestation_retention_duration s1 ck = attestation_retention_duration s ck /\
    ((l_last l = None /\ sa_prev_digest att = None /\ roots (sa_continuity_proof att) = [] /\
      first_checkpoint ck (sa_header_number att) (sa_digest att) s1 = (Ok u, s')) \/
     (exists cp, l_last l = Some cp /\ ladder_step l (attested_ladder l att) /\
      (caught_up ← create_checkpoints_from_continuity_proof ck att (sa_digest att);
       if caught_up : bool then mret tt
       else queue_attestation ck (sa_header_number att) (sa_digest att)) s1 = (Ok u, s'))).
Proof.
  intros ck l Hrun Hu Hinv. unfold do_commit_attestation in Hrun. fold ck in Hrun. cbv zeta in Hrun.
  apply bind_ok in Hrun as (u0 & s0 & Hval & Hrun).
  destruct (validated_extends att s u0 s0 Hval Hu Hinv)
    as (-> & Hcur & Hpr & Hfresh & Hhead & Hlast & Hext). fold ck l in Hcur, Hpr, Hfresh, Hhead, Hlast, Hext.
  apply bind_ok in Hrun as (u1 & s1 & Hsto & Hrun).
  destruct (store_attestation_run att s u1 s1 Hsto Hhead) as (Hl1 & Hne1 & Hv1 & Hret1).
  exists u1, s1. split_and!; try done. step_inv Hrun. case_bool_decide as Hfirst.
  - left. change (l_checkpoints (ladder_of ck s1) = ∅) in Hfirst. fold ck l in Hl1. rewrite Hl1 in Hfirst.
    destruct (first_extends l att Hinv Hfirst Hext) as (Hnone & Hprev & Hrs). done.
  - right. destruct (l_last l) as [cp|] eqn:Hcp.
    + exists cp. split_and!; [done| |done].
      exact (ls_attest l att cp Hu Hcur Hpr Hfresh Hcp (Hlast cp eq_refl) Hhead Hext).
    + destruct Hfirst. change (l_checkpoints (ladder_of ck s1) = ∅). fold ck l in Hl1. rewrite Hl1.
      apply (li_none _ Hinv Hcp).
Qed.

(** A successful commit: the steps its chain's ladder makes. *)
Lemma commit_refines att s u s' :
  let ck := sa_chain_key att in
  do_commit_attestation env att s = (Ok u, s') ->
  settings_ok s ck -> 1 <= attestation_retention_duration s ck ->
  is_u64 (sa_header_number att) ->
  ladder_inv (ladder_of ck s) ->
  rtc ladder_step (ladder_of ck s) (ladder_of ck s') /\
  (forall k, k <> ck -> ladder_of k s' = ladder_of k s).
Proof.
  intros ck Hrun Hset Hret Hu Hinv.
  destruct (commit_start att s u s' Hrun Hu Hinv)
    as (u1 & s1 & _ & Hcur & Hpr & _ & _ & Hlast & Hl1 & Hne1 & Hv1 & Hret1 & Hrest).
  fold ck in Hcur, Hpr, Hlast, Hl1, Hne1, Hv1, Hret1, Hrest. set (l := ladder_of ck s) in *.
  destruct Hrest as [(Hnone & Hprev & Hrs & Hfirst)|(cp & Hcp & Hatt & Hadv)].
  - apply first_checkpoint_run in Hfirst as (_ & Hl2 & Hne2). split; [|intros k Hk; by rewrite Hne2, Hne1].
    apply rtc_once. rewrite Hl2, Hl1. apply (ls_first l att Hu Hcur Hnone Hprev Hrs).
  - assert (ladder_of ck s1 <| l_queue := l_queue (ladder_of ck s1) ++ [sa_digest att] |> =
      attested_ladder l att) as Hl1' by (by rewrite Hl1).
    pose proof (ladder_step_inv _ _ Hatt Hinv) as Hinv1.
    apply (settings_ok_frame ck s s1 Hv1) in Hset as Hset1.
    destruct (advance_ok att s1 u s' cp Hadv) as [Hst Hne2]; fold ck; rewrite ?Hl1'; try done.
    { by rewrite Hret1. }
    { apply lookup_insert_eq. }
    { split; [|by apply Hlast]. apply (li_u64 _ Hinv).
      rewrite (li_last _ Hinv cp Hcp). by eexists. }
    split; [|intros k Hk; by rewrite Hne2, Hne1].
    eapply rtc_l; [exact Hatt|]. rewrite <- Hl1'. exact Hst.
Qed.
End Refine.
