(* ===== verification/MaintRefine.v ===== *)
(** * Maintenance refines the ladder's contract

    The operator calls and the hooks as sequences of the ladder's steps: the
    calls make [operator_step]s, the hooks only [ladder_step]s, and both leave
    the other chains' ladders alone. *)

From stdpp Require Import prelude gmap list sorting strings.
From Stdlib Require Import ZArith Lia.
From S2P Require Import Prelude Primitives Frame Types Ledger Roster Validate Maintenance.
From S2P Require Import LadderSpec LadderRefine.

(** Several checkpoints of a bucket dropped. *)
Definition drop_all (p : Z) (hs : list Z) (l : Ladder) : Ladder :=
  l <| l_checkpoints := remove_keys hs (l_checkpoints l) |>
    <| l_buckets := l_buckets l ∖ list_to_set (map (pair p) hs) |>.

Lemma remove_keys_delete {V} h hs (m : gmap Z V) :
  remove_keys hs (delete h m) = remove_keys (h :: hs) m.
Proof.
  apply map_eq. intros k. rewrite !remove_keys_lookup, lookup_delete.
  repeat case_decide; set_solver.
Qed.

Section Refine.
Context {C : Type} `{Config} `{Keccak} `{Arch} `{FrameStorage Z} `{!FrameStorageLaws Z}
  `{FrameStorage (Z * Z)}.
Variable env : Env.
Implicit Types (s : State C) (ck : Z).

(** Only the chain's ladder changes. *)
Definition only ck s s' : Prop := forall k, k <> ck -> ladder_of k s' = ladder_of k s.

Lemma clear_attestations_run ck c s :
  (forall d, is_Some (row (Attestations s) ck !! d) -> reachable AttestationsItem c d) ->
  exists s' attestations' c', clear_attestations ck c s = (Ok tt, s') /\
  ladder_of ck s' = ladder_of ck s <| l_attestations := attestations' |> <| l_cursor := c' |> /\
  cleared (row (Attestations s) ck) attestations' c' /\ only ck s s'.
Proof.
  intros Hreach. unfold clear_attestations, modify, clear_row.
  destruct (clear_prefix AttestationsItem (map_keys (row (Attestations s) ck)) _ c)
    as [removed c'] eqn:Hclear.
  eexists _, (remove_keys removed (row (Attestations s) ck)), c'. split; [reflexivity|].
  split_and!.
  - ladder_eval. rewrite row_insert_eq. by destruct c'; cbn; rewrite ?lookup_insert_eq, ?lookup_delete_eq.
  - split.
    + apply map_subseteq_spec. intros d a. rewrite remove_keys_lookup. by case_decide.
    + destruct c' as [c'|].
      * intros d. rewrite remove_keys_lookup. case_decide as Hd; [by intros []|]. intros Hs.
        apply (clear_prefix_more _ _ _ _ _ _ Hclear); [by apply elem_of_map_keys|by apply Hreach|done].
      * apply map_empty. intros d. rewrite remove_keys_lookup. case_decide as Hd; [done|].
        apply eq_None_not_Some. intros Hs. destruct Hd.
        eapply (clear_prefix_done _ _ _ _ _ Hclear); [by apply elem_of_map_keys|by apply Hreach].
  - intros k Hk. ladder_eval. rewrite row_insert_ne by done.
    by destruct c'; cbn; rewrite ?lookup_insert_ne, ?lookup_delete_ne by done.
Qed.

Lemma remove_checkpoints_run ck p hs s :
  exists s', for_each (remove_checkpoint ck p) hs s = (Ok tt, s') /\
  ladder_of ck s' = drop_all p hs (ladder_of ck s) /\ only ck s s'.
Proof.
  revert s. induction hs as [|h hs IH]; intros s.
  { exists s. split_and!; [done| |done]. unfold drop_all, ladder_of; cbn. f_equal. set_solver. }
  set (s1 := s <| Checkpoints ::= dremove ck h |>
    <| CheckpointBuckets ::= <[ck := bucket_row s ck ∖ {[(p, h)]}]> |>).
  destruct (IH s1) as (s' & Hrun & Hl & Hne). exists s'. split_and!.
  - exact Hrun.
  - rewrite Hl. unfold s1, drop_all. ladder_eval. f_equal.
    + apply remove_keys_delete.
    + set_solver.
  - intros k Hk. rewrite Hne by done. unfold s1. by ladder_eval.
Qed.

Lemma for_each_when {E A} (f : A -> bool) (m : A -> M (State C) E unit) l s :
  for_each (fun x => when (f x) (m x)) l s = for_each m (filter f l) s.
Proof.
  revert s. induction l as [|x l IH]; intros s; [done|]. rewrite filter_cons. cbn [for_each].
  destruct (f x) eqn:Hf; cbn [when].
  - rewrite decide_True by done. cbn [for_each]. unfold mbind, M_bind.
    destruct (m x s) as [[u|e] s1]; [apply IH|done].
  - rewrite decide_False by (by intros []). apply IH.
Qed.

Lemma elem_of_bucket_heights s ck p h :
  h ∈ bucket_heights s ck p <-> (p, h) ∈ bucket_row s ck.
Proof.
  unfold bucket_heights. rewrite trie_order_perm, list_elem_of_In, in_map_iff. split.
  - intros ([p' h'] & <- & [Hp Hin]%list_elem_of_In%list_elem_of_filter). cbn in *. subst p'.
    by apply elem_of_elements.
  - intros Hin. exists (p, h). split; [done|]. apply list_elem_of_In, list_elem_of_filter.
    split; [done|]. by apply elem_of_elements.
Qed.

(** Dropping the heights above [h] that the bucket of [h] lists. *)
Lemma drop_above h l hs :
  indexed (l_checkpoints l) (l_buckets l) ->
  (forall k, k ∈ hs <-> (compute_block_index_for h, k) ∈ l_buckets l /\ h < k) ->
  drop_all (compute_block_index_for h) hs l = purge_above h l.
Proof.
  intros Hinv Hhs. unfold indexed in Hinv. unfold drop_all, purge_above.
  assert (forall k, is_Some (l_checkpoints l !! k) -> kept_below h k <-> k ∉ hs) as Hkept.
  { intros k Hk. rewrite Hhs, Hinv. unfold kept_below. naive_solver. }
  destruct l; cbn in *. f_equal.
  - apply map_eq. intros k. rewrite remove_keys_lookup.
    destruct (l_checkpoints !! k) as [d|] eqn:Hd.
    + symmetry. case_decide as Hk.
      * apply map_lookup_filter_None. right. intros x _ Hx. cbn in Hx.
        apply Hkept in Hx; [done|by rewrite Hd; eexists].
      * apply map_lookup_filter_Some. split; [done|]. cbn. apply Hkept; [by rewrite Hd; eexists|done].
    + case_decide; symmetry; apply map_lookup_filter_None; by left.
  - apply set_eq. intros [p k]. rewrite elem_of_difference, elem_of_filter, elem_of_list_to_set,
      list_elem_of_In, in_map_iff. cbn. split.
    + intros [Hin Hn]. split; [|done]. intros [Hp Hlt]. destruct Hn. exists k.
      pose proof (proj1 (Hinv _ _) Hin) as [Hpk _]. rewrite Hp in Hpk. subst p.
      split; [done|]. apply list_elem_of_In, Hhs. done.
    + intros [Hk Hin]. split; [done|]. intros (k' & [= <- <-] & [_ Hlt]%list_elem_of_In%Hhs).
      apply Hk. split; [|done]. by destruct (proj1 (Hinv _ _) Hin).
Qed.

Lemma purge_bucket_run ck h s :
  indexed (row (Checkpoints s) ck) (bucket_row s ck) ->
  exists s', purge_bucket_above ck h s = (Ok (compute_block_index_for h), s') /\
  ladder_of ck s' = purge_above h (ladder_of ck s) /\ only ck s s'.
Proof.
  intros Hinv. unfold purge_bucket_above. set (p := compute_block_index_for h).
  set (hs := bucket_heights s ck p).
  destruct (remove_checkpoints_run ck p (filter (fun b => h <? b) hs) s) as (s' & Hrun & Hl & Hne).
  exists s'. split_and!; [| |done].
  - unfold gets, mbind at 1, M_bind at 1. unfold mbind, M_bind. fold hs.
    by rewrite for_each_when, Hrun.
  - rewrite Hl. apply drop_above; [done|]. intros k. rewrite list_elem_of_filter.
    unfold hs. rewrite elem_of_bucket_heights, Is_true_true, Z.ltb_lt. cbn. tauto.
Qed.

Lemma idle_split s ck :
  bool_decide (CheckpointPruningStates s !! ck = None) &&
    bool_decide (AttestationClearingCursors s !! ck = None) = true ->
  l_pruning (ladder_of ck s) = None /\ l_cursor (ladder_of ck s) = None.
Proof. by intros [?%bool_decide_eq_true ?%bool_decide_eq_true]%andb_true_iff. Qed.

Lemma do_revert_run ck h s d s' :
  do_revert_to ck h s = (Ok d, s') -> indexed (row (Checkpoints s) ck) (bucket_row s ck) ->
  let l := ladder_of ck s in
  exists cp atts c', l_checkpoints l !! h = Some d /\ l_last l = Some cp /\
  cleared (l_attestations l) atts c' /\
  ladder_of ck s' = (purge_above h l <| l_attestations := atts |>
      <| l_last := Some (mkCheckpoint h d) |> <| l_head := Some (h, d) |> <| l_queue := [] |>
      <| l_removal := [] |> <| l_pruning := Some (mkPruningState (cp_block_number cp)
           (saturating_add 64 (compute_block_index_for h) CHECKPOINT_BUCKET_SIZE)) |>
      <| l_cursor := c' |>) /\ only ck s s'.
Proof.
  intros Hrev Hidx l. unfold do_revert_to in Hrev. do 4 step_inv Hrev.
  apply bind_ok in Hrev as (u0 & s2 & Hclr & Hrev).
  destruct (clear_attestations_run ck None s) as (s2' & atts & c' & Hclr' & Hl2 & Hcl & Hne2).
  { intros. apply reachable_start. }
  rewrite Hclr in Hclr'. injection Hclr' as _ <-. do 2 step_inv Hrev.
  apply bind_ok in Hrev as (p & s3 & Hpurge & Hrev).
  set (s2q := s2 <| CheckpointingQueues ::= delete ck |> <| AttestationRemovalQueues ::= delete ck |>)
    in *.
  assert (ladder_of ck s2q = ladder_of ck s2 <| l_queue := [] |> <| l_removal := [] |>) as Hl2q
    by (unfold s2q; by ladder_eval).
  destruct (purge_bucket_run ck h s2q) as (s3' & Hpurge' & Hl3 & Hne3).
  { change (indexed (l_checkpoints (ladder_of ck s2q)) (l_buckets (ladder_of ck s2q))).
    by rewrite Hl2q, Hl2. }
  rewrite Hpurge in Hpurge'. injection Hpurge' as -> <-. run_inv.
  eexists _, atts, c'. split_and!; [done|done|done| |].
  - transitivity (ladder_of ck s3 <| l_pruning := Some (mkPruningState (cp_block_number x0)
      (saturating_add 64 (compute_block_index_for h) CHECKPOINT_BUCKET_SIZE)) |>
      <| l_last := Some (mkCheckpoint h x) |> <| l_head := Some (h, x) |>); [by ladder_eval|].
    by rewrite Hl3, Hl2q, Hl2.
  - intros k Hk. rewrite <- (Hne2 k Hk).
    transitivity (ladder_of k s3); [by ladder_eval|]. rewrite Hne3 by done.
    unfold s2q. by ladder_eval.
Qed.

Lemma revert_refines origin ck h s u s' :
  revert_to env origin ck h s = (Ok u, s') -> ladder_inv (ladder_of ck s) ->
  operator_step (ladder_of ck s) (ladder_of ck s') /\ only ck s s'.
Proof.
  intros Hrun Hinv. unfold revert_to in Hrun. apply transactional_ok in Hrun.
  do 2 step_inv Hrun. unfold ensure_supported in Hstep. apply ensure_ok in Hstep as [_ ->].
  do 2 step_inv Hrun. apply idle_split in Hens0 as [Hpr Hcur].
  apply bind_ok in Hrun as (d & s1 & Hrev & Hrun).
  apply do_revert_run in Hrev as (cp & atts & c' & Hcp & Hlast & Hcl & Hl & Hne);
    [|exact (li_buckets _ Hinv)].
  injection Hrun as _ <-. split; [|done].
  change (operator_step (ladder_of ck s) (ladder_of ck s1)). rewrite Hl. by apply os_revert.
Qed.

(** ** Imports *)

Lemma store_one_ok {A} ck cp (a x : A) s s' :
  (insert_checkpoint ck cp;; deposit_event (CheckpointReached ck cp);; mret a : PM C A) s =
    (Ok x, s') ->
  x = a /\
  ladder_of ck s' = put_checkpoint (cp_block_number cp) (cp_digest cp) (ladder_of ck s) /\
  only ck s s'.
Proof.
  intros [= <- <-]. split; [done|]. split; [by ladder_eval|]. intros k Hk. by ladder_eval.
Qed.

(** The cases of one imported checkpoint. *)
Lemma import_one_ok ck has last new cp s new' s' :
  import_one ck has last new cp s = (Ok new', s') ->
  is_u64 (cp_block_number cp) ->
  let l := ladder_of ck s <| l_last := new |> in
  ladder_inv l ->
  match last with
  | Some _ => new = last
  | None => l_head l = None /\ l_pruning l = None
  end ->
  rtc operator_step l (ladder_of ck s' <| l_last := new' |>) /\ only ck s s' /\
  match last with Some _ => new' = last | None => True end.
Proof.
  intros Hrun Hu l Hinv Hnew. unfold import_one in Hrun. step_inv Hrun.
  case_bool_decide as Hknown. { run_inv. split_and!; [done|done|by destruct last]. }
  apply eq_None_not_Some in Hknown.
  destruct last as [lc|].
  - subst new. destruct (Z.leb_spec (cp_block_number lc) (cp_block_number cp)) as [Hle|Hlt].
    { destruct has; run_inv; by split_and!. }
    assert (new' = Some lc /\ ladder_of ck s' = put_checkpoint (cp_block_number cp) (cp_digest cp)
      (ladder_of ck s) /\ only ck s s') as (-> & -> & Hne).
    { destruct has; by apply store_one_ok in Hrun. }
    split_and!; [|done|done]. apply rtc_once. exact (os_put l _ _ lc Hu eq_refl Hlt).
  - destruct Hnew as [Hhd Hpr]. destruct has; [done|]. destruct new as [lc|].
    + destruct (Z.ltb_spec (cp_block_number lc) (cp_block_number cp)) as [Hlt|Hge].
      * apply store_one_ok in Hrun as (-> & -> & Hne). split_and!; [|done|done]. apply rtc_once.
        destruct cp. apply (os_raise l _ _ lc); [done|done|done|done|cbn in *; lia].
      * apply store_one_ok in Hrun as (-> & -> & Hne). split_and!; [|done|done]. apply rtc_once.
        apply (os_put l _ _ lc); [done|done|]. assert (cp_block_number lc <> cp_block_number cp); [|lia].
        intros He. pose proof (li_last _ Hinv lc eq_refl) as Hk. rewrite He in Hk.
        change (dget (Checkpoints s) ck (cp_block_number cp) = Some (cp_digest lc)) in Hk. congruence.
    + apply store_one_ok in Hrun as (-> & -> & Hne). split_and!; [|done|done]. apply rtc_once.
      destruct cp. by apply (os_start l).
Qed.

Lemma operator_steps_inv l l' : rtc operator_step l l' -> ladder_inv l -> ladder_inv l'.
Proof. induction 1; eauto using operator_step_inv. Qed.

(** What an import leaves alone. *)
Lemma import_loop_leaves {T} (v : State C -> T) ck has last new cps :
  (forall cp, leaves v (insert_checkpoint ck cp : PM C unit)) ->
  (forall e, leaves v (deposit_event e : PM C unit)) ->
  leaves v (import_loop ck has last new cps).
Proof.
  intros Hi He. revert new. induction cps as [|cp cps IH]; intros new; cbn [import_loop]; [leaves|].
  apply leaves_bind; [|intros; apply IH]. unfold import_one.
  assert (forall nl, leaves v (insert_checkpoint ck cp;;
    deposit_event (CheckpointReached ck cp);; mret nl : PM C (option AttestationCheckpoint))) as Hs.
  { intros nl. apply leaves_bind; [apply Hi|intros]. apply leaves_bind; [apply He|leaves]. }
  apply leaves_bind; [leaves|intros known].
  repeat (case_match; try apply Hs; try leaves).
Qed.

Lemma import_loop_ok ck has last new cps s new' s' :
  import_loop ck has last new cps s = (Ok new', s') ->
  Forall (fun cp => is_u64 (cp_block_number cp)) cps ->
  let l := ladder_of ck s <| l_last := new |> in
  ladder_inv l ->
  match last with
  | Some _ => new = last
  | None => l_head l = None /\ l_pruning l = None
  end ->
  rtc operator_step l (ladder_of ck s' <| l_last := new' |>) /\ only ck s s' /\
  match last with Some _ => new' = last | None => True end.
Proof.
  revert new s. induction cps as [|cp cps IH]; intros new s Hrun Hu l Hinv Hnew; cbn [import_loop] in Hrun.
  { run_inv. split_and!; [done|done|by destruct last]. }
  apply Forall_cons in Hu as [Hcp Hu].
  apply bind_ok in Hrun as (new1 & s1 & Hone & Hrun).
  assert (LastDigest s1 = LastDigest s /\ CheckpointPruningStates s1 = CheckpointPruningStates s)
    as [Hd Hp].
  { pose proof (import_loop_leaves (fun s => (LastDigest s, CheckpointPruningStates s)) ck has last new
      [cp] ltac:(intros; leaves) ltac:(intros; leaves) s (Ok new1) s1) as Hv.
    cbn [import_loop] in Hv. unfold mbind, M_bind in Hv. rewrite Hone in Hv.
    by injection (Hv eq_refl) as -> ->. }
  destruct (import_one_ok _ _ _ _ _ _ _ _ Hone Hcp Hinv Hnew) as (Hst & Hne & Hn1).
  destruct (IH _ _ Hrun Hu) as (Hst2 & Hne2 & Hn2).
  - by eapply operator_steps_inv.
  - destruct last; [done|]. destruct Hnew. cbn in *. by rewrite Hd, Hp.
  - split_and!; [by etrans| |done]. intros k Hk. by rewrite Hne2, Hne.
Qed.

Lemma import_refines origin ck cps s u s' :
  import_checkpoints env origin ck cps s = (Ok u, s') ->
  Forall (fun cp => is_u64 (cp_block_number cp)) cps ->
  ladder_inv (ladder_of ck s) ->
  rtc operator_step (ladder_of ck s) (ladder_of ck s') /\ only ck s s'.
Proof.
  intros Hrun Hu Hinv. unfold import_checkpoints, do_import_checkpoints in Hrun.
  apply transactional_ok in Hrun. step_inv Hrun. apply transactional_ok in Hrun.
  step_inv Hrun. unfold ensure_supported in Hstep. apply ensure_ok in Hstep as [_ ->].
  do 2 step_inv Hrun. cbv zeta in Hrun. apply bind_ok in Hrun as (new & s1 & Hloop & Hrun).
  assert (ladder_of ck s <| l_last := LastCheckpoint s !! ck |> = ladder_of ck s) as Heq by done.
  destruct (import_loop_ok _ _ _ _ _ _ _ _ Hloop Hu) as (Hst & Hne & Hnew).
  { by rewrite Heq. }
  { rewrite Heq. destruct (LastCheckpoint s !! ck) eqn:Hl; [done|].
    destruct (li_none _ Hinv Hl) as (_ & ? & _ & _ & ?). done. }
  rewrite Heq in Hst.
  assert (LastCheckpoint s1 !! ck = LastCheckpoint s !! ck) as Hsame.
  { apply (import_loop_leaves (fun s => LastCheckpoint s !! ck)) in Hloop; [done|leaves..]. }
  assert (LastCheckpoint s !! ck = new -> ladder_of ck s1 <| l_last := new |> = ladder_of ck s1) as Hkeep.
  { intros <-. rewrite <- Hsame. done. }
  destruct new as [cp|].
  - apply when_ok in Hrun as [[_ Hrun]|[Hno ->]].
    + run_inv. split; [|intros k Hk; rewrite <- (Hne k Hk); by ladder_eval].
      etrans; [exact Hst|]. ladder_eval. done.
    + apply orb_false_iff in Hno as [_ Hno%bool_decide_eq_false].
      destruct (LastCheckpoint s !! ck) as [lc|]; [|done]. rewrite (Hkeep (eq_sym Hnew)) in Hst. done.
  - run_inv. destruct (LastCheckpoint s !! ck) as [lc|]; [done|]. by rewrite (Hkeep eq_refl) in Hst.
Qed.

(** ** Patches *)

Definition put (cp : AttestationCheckpoint) (l : Ladder) : Ladder :=
  put_checkpoint (cp_block_number cp) (cp_digest cp) l.

Definition put_all (cps : list AttestationCheckpoint) (l : Ladder) : Ladder :=
  foldl (fun l cp => put cp l) l cps.

Lemma put_comm a b l :
  cp_block_number a <> cp_block_number b -> put a (put b l) = put b (put a l).
Proof.
  intros Hne. unfold put, put_checkpoint. cbn. f_equal; [by apply insert_insert_ne|set_solver].
Qed.

Lemma put_all_last cps tip l :
  (forall cp, cp ∈ cps -> cp_block_number cp <> cp_block_number tip) ->
  put_all (cps ++ [tip]) l = put_all cps (put tip l).
Proof.
  intros Hne. unfold put_all. rewrite foldl_app. cbn [foldl]. revert l.
  induction cps as [|cp cps IH]; intros l; [done|]. cbn [foldl].
  rewrite IH by set_solver. f_equal. apply put_comm. intros He. eapply Hne; [by left|done].
Qed.

Lemma put_all_view cps l :
  l_last (put_all cps l) = l_last l /\
  put_all cps l <| l_last := l_last l |> = put_all cps l /\
  forall x, put_all cps (l <| l_last := x |>) = put_all cps l <| l_last := x |>.
Proof.
  revert l. induction cps as [|cp cps IH]; intros l; [by destruct l|].
  assert (forall m, put_all (cp :: cps) m = put_all cps (put cp m)) as Hc by done. rewrite Hc.
  destruct (IH (put cp l)) as (-> & Hl & Hx). split_and!; [done|exact Hl|].
  intros x. by rewrite Hc, <- Hx.
Qed.

Lemma puts_below cps l cp :
  l_last l = Some cp ->
  Forall (fun c => is_u64 (cp_block_number c) /\ cp_block_number c < cp_block_number cp) cps ->
  rtc operator_step l (put_all cps l).
Proof.
  revert l. induction cps as [|c cps IH]; intros l Hl Hall; [done|].
  apply Forall_cons in Hall as [[Hu Hlt] Hall]. eapply rtc_l; [by eapply os_put|].
  by apply IH.
Qed.

Lemma store_all_run ck cps s :
  exists s', for_each (fun cp =>
      insert_checkpoint ck cp;; deposit_event (CheckpointReached ck cp)) cps s =
    (Ok tt : Result (DispatchError Error) unit, s') /\
  ladder_of ck s' = put_all cps (ladder_of ck s) /\ only ck s s'.
Proof.
  revert s. induction cps as [|cp cps IH]; intros s; [by exists s|]. cbn [for_each].
  assert (exists s1, (insert_checkpoint ck cp;; deposit_event (CheckpointReached ck cp)) s =
    (Ok tt : Result (DispatchError Error) unit, s1) /\
    ladder_of ck s1 = put cp (ladder_of ck s) /\ only ck s s1) as (s1 & Hs1 & Hl1 & Hne1).
  { eexists. split; [reflexivity|]. split; [unfold put; by ladder_eval|].
    intros k Hk. by ladder_eval. }
  destruct (IH s1) as (s' & Hrun & Hl & Hne).
  exists s'. split_and!.
  - unfold mbind at 1, M_bind at 1. by rewrite Hs1.
  - by rewrite Hl, Hl1.
  - intros k Hk. by rewrite Hne, Hne1.
Qed.

Lemma batch_heights merged :
  map cp_block_number (batch_entries merged) = btree_set (map_keys merged).
Proof.
  unfold batch_entries.
  assert (forall hs, (forall h, h ∈ hs -> is_Some (merged !! h)) ->
    map cp_block_number (omap (fun h => mkCheckpoint h <$> merged !! h) hs) = hs) as Hgen.
  { intros hs. induction hs as [|h hs IH]; intros Hk; [done|]. cbn.
    destruct (Hk h) as [d Hd]; [by left|]. rewrite Hd. cbn. f_equal. apply IH.
    intros k Hin. apply Hk. by right. }
  apply Hgen. intros h Hh. by apply elem_of_map_keys, elem_of_btree_set.
Qed.

Lemma merge_batch_keys (P : Z -> Prop) cps h :
  Forall (fun cp => P (cp_block_number cp)) cps -> is_Some (merge_batch cps !! h) -> P h.
Proof.
  unfold merge_batch.
  assert (forall m : gmap Z Digest, Forall (fun cp => P (cp_block_number cp)) cps ->
    (forall h, is_Some (m !! h) -> P h) ->
    is_Some (foldl (fun m c => <[cp_block_number c := cp_digest c]> m) m cps !! h) -> P h) as Hgen.
  { induction cps as [|cp cps IH]; intros m Hall Hm; cbn [foldl]; [apply Hm|].
    apply Forall_cons in Hall as [Hcp Hall]. apply IH; [done|]. intros k.
    rewrite lookup_insert. case_decide; [by subst|apply Hm]. }
  intros Hall. apply Hgen; [done|]. intros k. rewrite lookup_empty. by intros [].
Qed.

(** The tip of a batch is its highest entry. *)
Lemma batch_tip cps tip :
  Forall (fun cp => is_u64 (cp_block_number cp)) cps ->
  last (batch_entries (merge_batch cps)) = Some tip ->
  is_u64 (cp_block_number tip) /\ exists rest, batch_entries (merge_batch cps) = rest ++ [tip] /\
  Forall (fun c => is_u64 (cp_block_number c) /\ cp_block_number c < cp_block_number tip) rest.
Proof.
  intros Hu [rest Hrest]%last_Some. set (es := batch_entries (merge_batch cps)) in *.
  pose proof (batch_heights (merge_batch cps)) as Hh. fold es in Hh.
  assert (forall c, c ∈ es -> is_u64 (cp_block_number c)) as Hall.
  { intros c Hc. apply (merge_batch_keys _ cps); [done|].
    apply elem_of_map_keys, elem_of_btree_set. rewrite <- Hh.
    apply list_elem_of_In, in_map, list_elem_of_In. done. }
  split; [apply Hall; rewrite Hrest; set_solver|]. exists rest. split; [done|].
  apply Forall_forall. intros c Hc. split; [apply Hall; rewrite Hrest; set_solver|].
  rewrite Hrest, map_app in Hh. cbn in Hh.
  assert (cp_block_number c ∈ map cp_block_number rest) as Hin
    by (by apply list_elem_of_In, in_map, list_elem_of_In).
  assert (cp_block_number c <= cp_block_number tip) as Hle.
  { assert (StronglySorted Z.le (map cp_block_number rest ++ [cp_block_number tip])) as Hs
      by (rewrite Hh; apply (StronglySorted_merge_sort Z.le)).
    eapply StronglySorted_app_1_elem_of; [exact Hs|exact Hin|by left]. }
  assert (cp_block_number c <> cp_block_number tip); [|lia]. intros He.
  pose proof (NoDup_btree_set (map_keys (merge_batch cps))) as Hnd. rewrite <- Hh in Hnd.
  apply NoDup_app in Hnd as (_ & Hnd & _). apply (Hnd _ Hin). rewrite He. by left.
Qed.

Lemma patch_suffix_run ck h s u s' :
  patch_suffix ck h s = (Ok u, s') -> indexed (row (Checkpoints s) ck) (bucket_row s ck) ->
  let l := ladder_of ck s in
  let next := saturating_add 64 (compute_block_index_for h) CHECKPOINT_BUCKET_SIZE in
  ladder_of ck s' = purge_above h l <| l_pruning := match l_last l with
    | Some cp => if next <=? cp_block_number cp
        then Some (mkPruningState (cp_block_number cp) next) else l_pruning l
    | None => l_pruning l
    end |> /\ only ck s s'.
Proof.
  intros Hrun Hidx l next. unfold patch_suffix in Hrun.
  apply bind_ok in Hrun as (p & s1 & Hpurge & Hrun).
  destruct (purge_bucket_run ck h s Hidx) as (s1' & Hpurge' & Hl1 & Hne1).
  rewrite Hpurge in Hpurge'. injection Hpurge' as -> <-. cbv zeta in Hrun. fold next in Hrun.
  step_inv Hrun. assert (LastCheckpoint s1 !! ck = l_last l) as Hlast.
  { change (l_last (ladder_of ck s1) = l_last l). by rewrite Hl1. }
  rewrite Hlast in Hrun. assert (l_pruning (ladder_of ck s1) = l_pruning l) as Hp by by rewrite Hl1.
  assert (ladder_of ck s1 = purge_above h l <| l_pruning := l_pruning l |>) as Hl1'.
  { by rewrite Hl1. }
  destruct (l_last l) as [cp|]; [|by run_inv].
  apply when_ok in Hrun as [[-> Hrun]|[-> ->]]; [|by split].
  run_inv. split.
  - transitivity (ladder_of ck s1 <| l_pruning := Some (mkPruningState (cp_block_number cp) next) |>);
      [by ladder_eval|]. by rewrite Hl1.
  - intros k Hk. rewrite <- (Hne1 k Hk). by ladder_eval.
Qed.

Lemma purge_patch_run ck s :
  exists s' atts c', purge_attestations_for_forward_patch ck s = (Ok tt, s') /\
  ladder_of ck s' = ladder_of ck s <| l_attestations := atts |> <| l_head := None |>
    <| l_queue := [] |> <| l_removal := [] |> <| l_cursor := c' |> /\
  cleared (l_attestations (ladder_of ck s)) atts c' /\ only ck s s'.
Proof.
  set (s1 := s <| CheckpointingQueues ::= delete ck |> <| AttestationRemovalQueues ::= delete ck |>
    <| LastDigest ::= delete ck |>).
  destruct (clear_attestations_run ck None s1) as (s' & atts & c' & Hrun & Hl & Hcl & Hne).
  { intros. apply reachable_start. }
  exists s', atts, c'. split_and!; [exact Hrun| |exact Hcl|].
  - rewrite Hl. unfold s1. by ladder_eval.
  - intros k Hk. rewrite Hne by done. unfold s1. by ladder_eval.
Qed.

Lemma purge_above_none h l :
  ladder_inv l -> l_last l = None -> purge_above h l <| l_pruning := None |> = l.
Proof.
  intros Hinv Hl. destruct (li_none _ Hinv Hl) as (Hc & _ & _ & _ & Hp).
  assert (l_buckets l = ∅) as Hb.
  { apply set_eq. intros [p k]. rewrite (li_buckets _ Hinv), Hc, lookup_empty.
    split; [by intros [_ []]|by intros ?%not_elem_of_empty]. }
  unfold purge_above. destruct l; cbn in *. by subst.
Qed.

(** The batch on a ladder without attestations, its tip first. *)
Lemma patch_steps wipe l tip rest :
  ladder_inv l -> l_head l = None -> l_pruning l = None -> is_u64 (cp_block_number tip) ->
  Forall (fun c => is_u64 (cp_block_number c) /\ cp_block_number c < cp_block_number tip) rest ->
  let next := saturating_add 64 (compute_block_index_for (cp_block_number tip))
    CHECKPOINT_BUCKET_SIZE in
  let base := if wipe : bool then purge_above (cp_block_number tip) l <| l_pruning :=
      match l_last l with
      | Some cp => if next <=? cp_block_number cp
          then Some (mkPruningState (cp_block_number cp) next) else None
      | None => None
      end |> else l in
  let new_last := match l_last l with
    | Some lc => if negb wipe && (cp_block_number tip <? cp_block_number lc) then lc else tip
    | None => tip
    end in
  rtc operator_step l (put_all (rest ++ [tip]) base <| l_last := Some new_last |>).
Proof.
  intros Hinv Hhd Hpr Hu Hrest next base new_last.
  rewrite put_all_last.
  2: { intros c Hc He. eapply Forall_forall in Hrest as [_ ?]; [|exact Hc]. lia. }
  destruct (put_all_view rest (put tip base)) as (_ & _ & Hx). rewrite <- Hx. clear Hx.
  assert (operator_step l (put tip base <| l_last := Some new_last |>)) as Hstep.
  { unfold base, new_last. clear base new_last. destruct tip as [h d], wipe; cbn [negb andb];
      destruct (l_last l) as [cp|] eqn:Hl.
    - exact (os_wipe l h d cp Hu Hhd Hpr Hl).
    - rewrite purge_above_none by done. exact (os_start l h d Hu Hl Hhd).
    - cbn. destruct (Z.ltb_spec h (cp_block_number cp)).
      + pose proof (os_put l h d cp Hu Hl ltac:(done)) as Hs. destruct l; cbn in *. by subst.
      + exact (os_raise l h d cp Hu Hhd Hpr Hl ltac:(done)).
    - exact (os_start l h d Hu Hl Hhd). }
  eapply rtc_l; [exact Hstep|]. apply (puts_below _ _ new_last); [done|].
  eapply Forall_impl; [exact Hrest|]. intros c [Hc Hlt]. split; [done|].
  unfold new_last. destruct (l_last l) as [lc|]; [|done]. destruct wipe; [done|]. cbn.
  destruct (Z.ltb_spec (cp_block_number tip) (cp_block_number lc)); [lia|done].
Qed.

Lemma patch_refines origin ck wipe cps s u s' :
  forward_patch_checkpoints env origin ck wipe cps s = (Ok u, s') ->
  Forall (fun cp => is_u64 (cp_block_number cp)) cps ->
  ladder_inv (ladder_of ck s) ->
  rtc operator_step (ladder_of ck s) (ladder_of ck s') /\ only ck s s'.
Proof.
  intros Hrun Hu Hinv. unfold forward_patch_checkpoints, do_forward_patch_checkpoints in Hrun.
  apply transactional_ok in Hrun. step_inv Hrun. apply transactional_ok in Hrun.
  step_inv Hrun. unfold ensure_supported in Hstep. apply ensure_ok in Hstep as [_ ->].
  do 3 step_inv Hrun.
  apply andb_true_iff in Hens0 as [[[Hpr%bool_decide_eq_true _]%andb_true_iff _]%andb_true_iff
    Hcur%bool_decide_eq_true].
  apply bind_ok in Hrun as (u1 & s1 & Hpurge & Hrun).
  destruct (purge_patch_run ck s) as (s1' & atts & c' & Hpurge' & Hl1 & Hcl & Hne1).
  rewrite Hpurge in Hpurge'. injection Hpurge' as _ <-. cbv zeta in Hrun. step_inv Hrun.
  rename Hstep into Htip, x3 into tip.
  destruct (batch_tip cps tip Hu Htip) as (Htu & rest & Hes & Hrest). rewrite Hes in Hrun.
  assert (operator_step (ladder_of ck s) (ladder_of ck s1)) as Hstep.
  { rewrite Hl1. by apply os_purge. }
  pose proof (operator_step_inv _ _ Hstep Hinv) as Hinv1.
  apply bind_ok in Hrun as (u2 & s2 & Hsuf & Hrun).
  pose proof (patch_steps wipe (ladder_of ck s1) tip rest Hinv1 ltac:(by rewrite Hl1)
    ltac:(by rewrite Hl1) Htu Hrest) as Hsteps. cbv zeta in Hsteps.
  assert (l_last (ladder_of ck s2) = l_last (ladder_of ck s1) /\ only ck s1 s2 /\
    rtc operator_step (ladder_of ck s1) (put_all (rest ++ [tip]) (ladder_of ck s2) <| l_last :=
      Some (match l_last (ladder_of ck s1) with
       | Some lc => if negb wipe && (cp_block_number tip <? cp_block_number lc) then lc else tip
       | None => tip
       end) |>)) as (Hlast2 & Hne2 & Hst).
  { destruct wipe; cbn [when] in Hsuf.
    - apply patch_suffix_run in Hsuf as [Hl2 Hne2]; [|exact (li_buckets _ Hinv1)].
      replace (l_pruning (ladder_of ck s1)) with (@None CheckpointPruningState) in Hl2
        by (by rewrite Hl1). rewrite Hl2. by split_and!.
    - by run_inv. }
  apply bind_ok in Hrun as (u3 & s3 & Hall & Hrun).
  destruct (store_all_run ck (rest ++ [tip]) s2) as (s3' & Hall' & Hl3 & Hne3).
  rewrite Hall in Hall'. injection Hall' as _ <-. do 2 step_inv Hrun.
  change (LastCheckpoint s3 !! ck) with (l_last (ladder_of ck s3)) in Hrun.
  rewrite Hl3, (proj1 (put_all_view _ _)), Hlast2 in Hrun. injection Hrun as _ <-. split.
  - eapply rtc_l; [exact Hstep|]. etrans; [exact Hst|]. rewrite <- Hl3. ladder_eval. done.
  - intros k Hk. rewrite <- (Hne1 k Hk), <- (Hne2 k Hk), <- (Hne3 k Hk). by ladder_eval.
Qed.

(** ** Pruning *)

Lemma drop_steps p hs l st :
  l_pruning l = Some st -> ps_next_pivot st = p ->
  Forall (fun h => compute_block_index_for h = p) hs ->
  rtc ladder_step l (drop_all p hs l).
Proof.
  intros Hst Hp. revert l Hst. induction hs as [|h hs IH]; intros l Hst Hall.
  { replace (drop_all p [] l) with l; [done|]. unfold drop_all. destruct l; cbn. f_equal. set_solver. }
  apply Forall_cons in Hall as [Hh Hall].
  eapply rtc_l; [apply (ls_prune l st h); [done|by rewrite Hp]|].
  replace (drop_all p (h :: hs) l) with (drop_all p hs (drop_checkpoint h l)); [by apply IH|].
  unfold drop_all, drop_checkpoint. cbn. f_equal; [apply remove_keys_delete|]. rewrite Hh. set_solver.
Qed.

(** One pivot: the heights removed, and whether the bucket is empty after. *)
Lemma prune_pivot ck p s entries :
  indexed (row (Checkpoints s) ck) (bucket_row s ck) -> 0 <= entries <= MAX_CHECKPOINTS_CLEARED_PER_BLOCK ->
  let heights := take (Z.to_nat (MAX_CHECKPOINTS_CLEARED_PER_BLOCK + 1)) (bucket_heights s ck p) in
  let limit := Z.min (zlen heights) entries in
  let removed := take (Z.to_nat limit) heights in
  Forall (fun h => compute_block_index_for h = p) removed /\
  (zlen heights = limit -> forall h, is_Some (row (Checkpoints s) ck !! h) ->
     compute_block_index_for h = p -> h ∈ removed).
Proof.
  intros Hidx He heights limit removed. unfold MAX_CHECKPOINTS_CLEARED_PER_BLOCK in *. split.
  - apply Forall_forall. intros h Hin. apply elem_of_take in Hin as (i & Hin%list_elem_of_lookup_2 & _).
    apply elem_of_take in Hin as (j & Hin%list_elem_of_lookup_2 & _).
    apply elem_of_bucket_heights in Hin. by apply Hidx in Hin as [-> _].
  - intros Hlen h Hs Hp. unfold removed. unfold limit, zlen in *.
    assert (heights = bucket_heights s ck p) as Hall.
    { unfold heights. apply take_ge. unfold heights in Hlen. rewrite length_take in *. lia. }
    rewrite take_ge by lia. rewrite Hall. apply elem_of_bucket_heights, Hidx. by subst p.
Qed.

Lemma prune_loop_ok fuel ck entries pivots st s u s' :
  prune_loop fuel ck entries pivots st s = (Ok u, s') ->
  0 <= entries <= MAX_CHECKPOINTS_CLEARED_PER_BLOCK ->
  let l := ladder_of ck s <| l_pruning := Some st |> in
  ladder_inv l ->
  rtc ladder_step l (ladder_of ck s') /\ only ck s s'.
Proof.
  revert entries pivots st s. induction fuel as [|fuel IH];
    intros entries pivots st s Hrun He l Hinv; cbn [prune_loop] in Hrun.
  { run_inv. split; [ladder_eval; done|]. intros k Hk. by ladder_eval. }
  destruct ((0 <? entries) && (0 <? pivots)).
  2: { run_inv. split; [ladder_eval; done|]. intros k Hk. by ladder_eval. }
  destruct (Z.ltb_spec (ps_stop_height st) (ps_next_pivot st)) as [Hdone|Hmore].
  { run_inv. split; [|intros k Hk; by ladder_eval]. eapply rtc_l; [by apply (ls_prune_done l st)|].
    ladder_eval. done. }
  step_inv Hrun. cbv zeta in Hrun. apply bind_ok in Hrun as (u1 & s1 & Hrem & Hrun).
  destruct (prune_pivot ck (ps_next_pivot st) s entries (li_buckets _ Hinv) He) as [Hpiv Hempty].
  set (hs := take _ (bucket_heights s ck _)) in *. set (limit := Z.min (zlen hs) entries) in *.
  destruct (remove_checkpoints_run ck (ps_next_pivot st) (take (Z.to_nat limit) hs) s)
    as (s1' & Hrem' & Hl1 & Hne1). rewrite Hrem in Hrem'. injection Hrem' as _ <-.
  assert (rtc ladder_step l (ladder_of ck s1 <| l_pruning := Some st |>)) as Hst.
  { rewrite Hl1. exact (drop_steps _ _ l st eq_refl eq_refl Hpiv). }
  pose proof (ladder_steps_inv _ _ Hst Hinv) as Hinv1.
  assert (0 <= saturating_sub entries limit <= MAX_CHECKPOINTS_CLEARED_PER_BLOCK) as He'.
  { unfold saturating_sub. pose proof (zlen_nonneg hs). lia. }
  destruct (Z.eqb_spec (zlen hs) limit) as [Hall|_].
  - assert (ladder_step (ladder_of ck s1 <| l_pruning := Some st |>)
      (ladder_of ck s1 <| l_pruning := Some (mkPruningState (ps_stop_height st)
         (saturating_add 64 (ps_next_pivot st) CHECKPOINT_BUCKET_SIZE)) |>)) as Hnext.
    { refine (ls_prune_next (ladder_of ck s1 <| l_pruning := Some st |>) st eq_refl Hmore _).
      intros h. rewrite Hl1. cbn. rewrite remove_keys_lookup. case_decide as Hin; [by intros []|].
      intros Hs Hp. by destruct Hin; apply Hempty. }
    destruct (IH _ _ _ _ Hrun He') as [Hst2 Hne2]; [by eapply ladder_step_inv|].
    split; [|intros k Hk; by rewrite Hne2, Hne1]. etrans; [exact Hst|]. eapply rtc_l; [exact Hnext|done].
  - destruct (IH _ _ _ _ Hrun He' Hinv1) as [Hst2 Hne2].
    split; [by etrans|intros k Hk; by rewrite Hne2, Hne1].
Qed.

(** ** Hooks *)

Lemma first_entry_Some {V} it (m : gmap Z V) k v : first_entry it m = Some (k, v) -> m !! k = Some v.
Proof.
  unfold first_entry. intros (k' & Hk & (v' & Hv & [= <- <-])%bind_Some)%bind_Some. done.
Qed.

(** A hook on the first pending chain: its work on that chain, or nothing. *)
Lemma on_first_ok {V} it (items : State C -> gmap Z V) work s u s' :
  on_first it items work s = (Ok u, s') ->
  s' = s \/ exists k v, items s !! k = Some v /\ work k v s = (Ok u, s').
Proof.
  unfold on_first. intros Hrun. step_inv Hrun.
  destruct (first_entry it (items s)) as [[k v]|] eqn:Hf; [|run_inv; by left].
  right. exists k, v. split; [by eapply first_entry_Some|done].
Qed.

Ltac other_chain :=
  apply leaves_modify; intros; ladder_eval; rewrite ?row_insert_ne by done; try done.

Lemma remove_checkpoint_frame ck k p h :
  k <> ck -> leaves (ladder_of ck) (remove_checkpoint k p h : PM C unit).
Proof. intros Hk. unfold remove_checkpoint. apply leaves_bind; [|intros]; other_chain. Qed.

Lemma prune_loop_leaves {T} (v : State C -> T) k fuel entries pivots st :
  (forall p h, leaves v (remove_checkpoint k p h : PM C unit)) ->
  (forall s st, v (s <| CheckpointPruningStates ::= <[k := st]> |>) = v s) ->
  (forall s, v (s <| CheckpointPruningStates ::= delete k |>) = v s) ->
  leaves v (prune_loop fuel k entries pivots st : PM C unit).
Proof.
  intros Hrm Hput Hdel. revert entries pivots st. induction fuel as [|fuel IH]; intros; cbn [prune_loop];
    [by apply leaves_modify|].
  destruct (_ && _); [|by apply leaves_modify]. destruct (_ <? _); [by apply leaves_modify|].
  apply leaves_bind; [leaves|intros hs]. cbv zeta. apply leaves_bind.
  - apply leaves_for_each. intros h. apply Hrm.
  - intros _. destruct (_ =? _); apply IH.
Qed.

Lemma prune_frame ck k fuel entries pivots st :
  k <> ck -> leaves (ladder_of ck) (prune_loop fuel k entries pivots st : PM C unit).
Proof.
  intros Hk. apply prune_loop_leaves; [intros; by apply remove_checkpoint_frame| |];
    intros; by ladder_eval.
Qed.

Lemma clear_attestations_frame ck k c :
  k <> ck -> leaves (ladder_of ck) (clear_attestations k c : PM C unit).
Proof.
  intros Hk. apply leaves_modify. intros s. unfold clear_row.
  destruct (clear_prefix _ _ _ _) as [removed [c'|]]; ladder_eval;
    by rewrite row_insert_ne, ?lookup_insert_ne, ?lookup_delete_ne by done.
Qed.

Lemma clear_checkpoints_frame ck k c :
  k <> ck -> leaves (ladder_of ck) (clear_checkpoints k c : PM C (option Z)).
Proof.
  intros Hk s r s'. unfold clear_checkpoints, gets, mbind, M_bind, clear_row.
  destruct (clear_prefix _ _ _ _) as [removed c']. intros [= _ <-].
  ladder_eval. by rewrite row_insert_ne by done.
Qed.

Lemma clear_buckets_frame ck k c :
  k <> ck -> leaves (ladder_of ck) (clear_buckets k c : PM C (option Z)).
Proof.
  intros Hk. unfold clear_buckets. apply leaves_bind; [leaves|intros [removed c']].
  apply leaves_bind; [other_chain|leaves].
Qed.

(** The cleanup of a removed chain does not touch any ladder. *)
Lemma cleanup_frame ck k phase :
  leaves (ladder_of ck) (continue_removed_chain_cleanup k phase : PM C unit).
Proof. leaves. Qed.

(** No checkpoint of the chain is being cleared: it has not been removed. *)
Definition not_clearing ck s : Prop :=
  CheckpointClearingCursors s !! ck = None /\ BucketClearingCursors s !! ck = None.

Lemma prune_hook_refines ck s u s' :
  on_init_prune_checkpoints s = (Ok u, s') -> ladder_inv (ladder_of ck s) ->
  rtc ladder_step (ladder_of ck s) (ladder_of ck s').
Proof.
  intros [->|(k & st & Hst & Hrun)]%on_first_ok Hinv; [done|].
  destruct (decide (k = ck)) as [->|Hk].
  - unfold prune_checkpoints_impl in Hrun.
    assert (ladder_of ck s <| l_pruning := Some st |> = ladder_of ck s) as Heq.
    { rewrite <- Hst. done. }
    apply prune_loop_ok in Hrun as [Hsteps _]; rewrite ?Heq in *; done.
  - by rewrite (prune_frame ck k _ _ _ _ Hk _ _ _ Hrun).
Qed.

Lemma attestations_hook_refines ck s u s' :
  on_init_clear_attestations s = (Ok u, s') -> ladder_inv (ladder_of ck s) ->
  rtc ladder_step (ladder_of ck s) (ladder_of ck s').
Proof.
  intros [->|(k & c & Hc & Hrun)]%on_first_ok Hinv; [done|].
  destruct (decide (k = ck)) as [->|Hk].
  - destruct (clear_attestations_run ck (Some c) s) as (t & atts & c' & Hrun' & Hl & Hcl & _).
    { apply (li_cursor _ Hinv c Hc). }
    rewrite Hrun in Hrun'. injection Hrun' as _ <-. rewrite Hl. apply rtc_once. by apply ls_clear with c.
  - by rewrite (clear_attestations_frame ck k _ Hk _ _ _ Hrun).
Qed.

Lemma clear_hooks_frame ck s u s' :
  not_clearing ck s -> (on_init_clear_checkpoints;; on_init_clear_buckets) s = (Ok u, s') ->
  ladder_of ck s' = ladder_of ck s.
Proof.
  intros [Hc Hb] Hrun. apply bind_ok in Hrun as (u1 & s1 & Hck & Hbk).
  assert (BucketClearingCursors s1 = BucketClearingCursors s) as Hsame.
  { assert (leaves BucketClearingCursors (on_init_clear_checkpoints : PM C unit)) as Hv by leaves.
    by eapply Hv. }
  transitivity (ladder_of ck s1).
  - apply on_first_ok in Hbk as [->|(k & c & Hk & Hrun)]; [done|]. rewrite Hsame in Hk.
    assert (k <> ck) as Hne by congruence. revert Hrun. unfold only.
    intros (c' & s2 & Hclr & Hrun)%bind_ok. rewrite <- (clear_buckets_frame ck k _ Hne _ _ _ Hclr).
    run_inv. by ladder_eval.
  - apply on_first_ok in Hck as [->|(k & c & Hk & Hrun)]; [done|].
    assert (k <> ck) as Hne by congruence.
    apply bind_ok in Hrun as (c' & s2 & Hclr & Hrun).
    rewrite <- (clear_checkpoints_frame ck k _ Hne _ _ _ Hclr). injection Hrun as _ <-. by ladder_eval.
Qed.

(** The hooks only make the ladder's own steps. *)
Lemma initialize_refines ck s u s' :
  on_initialize s = (Ok u, s') -> not_clearing ck s -> ladder_inv (ladder_of ck s) ->
  rtc ladder_step (ladder_of ck s) (ladder_of ck s').
Proof.
  intros Hrun Hquiet Hinv. unfold on_initialize in Hrun.
  apply bind_ok in Hrun as (u1 & s1 & H1' & Hrun). apply bind_ok in Hrun as (u2 & s2 & H2' & Hrun).
  apply bind_ok in Hrun as (u3 & s3 & H3' & Hrun). apply bind_ok in Hrun as (u4 & s4 & H4' & Hrun).
  pose proof (prune_hook_refines ck _ _ _ H1' Hinv) as Hst1.
  assert (not_clearing ck s1) as Hquiet1.
  { destruct Hquiet as [Hq1 Hq2].
    assert (leaves (fun s => (CheckpointClearingCursors s, BucketClearingCursors s))
      (on_init_prune_checkpoints : PM C unit)) as Hv.
    { unfold on_init_prune_checkpoints, on_first. apply leaves_bind; [leaves|intros [[k st]|]; [|leaves]].
      apply prune_loop_leaves; [leaves|done|done]. }
    specialize (Hv _ _ _ H1'). injection Hv as Hv1 Hv2. split; congruence. }
  assert (ladder_of ck s3 = ladder_of ck s1) as Heq.
  { apply (clear_hooks_frame ck s1 u3 s3 Hquiet1). unfold mbind, M_bind. by rewrite H2'. }
  etrans; [exact Hst1|]. rewrite <- Heq. apply on_first_ok in Hrun as Hclean.
  assert (ladder_of ck s' = ladder_of ck s4) as ->.
  { destruct Hclean as [->|(k & ph & _ & Hr)]; [done|]. by apply (cleanup_frame ck k ph) in Hr. }
  apply (attestations_hook_refines ck s3 u4 s4 H4'). rewrite Heq. by eapply ladder_steps_inv.
Qed.
End Refine.
