(* ===== verification/Teardown.v ===== *)
(** * The cleanup of a removed chain refines the roster's teardown

    Batch by batch the attestors of a removed chain become idle and its retired
    keys and key owners are dropped; the rosters of the other chains are left
    alone, and the cleanup ends with nothing left to clear. *)

From stdpp Require Import prelude gmap list sorting strings.
From Stdlib Require Import ZArith Lia.
From S2P Require Import Prelude Primitives Frame Types Ledger Roster RosterSpec RosterRefine.
From S2P Require Import Maintenance.

Section Teardown.
Context {C : Type} `{Config} `{!ConfigOk} `{FrameStorage Z} `{!FrameStorageLaws Z}.
Implicit Types (s : State C) (ck : Z).

(** A run on a chain nobody is active on takes its roster down. *)
Definition tears {A} ck (m : PM C A) : Prop :=
  forall s a s', m s = (Ok a, s') -> active_attestor_set s ck = [] ->
  rtc teardown_step (roster_of ck s) (roster_of ck s') /\ active_attestor_set s' ck = [].

Lemma tears_bind {A B} ck (m : PM C A) (k : A -> PM C B) :
  tears ck m -> (forall a, tears ck (k a)) -> tears ck (m ≫= k).
Proof.
  intros Hm Hk s b s' (a & s1 & H1' & H2')%bind_ok Hact.
  destruct (Hm _ _ _ H1' Hact) as [Hst Hact1]. destruct (Hk _ _ _ _ H2' Hact1) as [Hst2 Hact2].
  split; [by etrans|done].
Qed.

Lemma tears_leaves {A} ck (m : PM C A) : leaves (roster_of ck) m -> tears ck m.
Proof.
  intros Hm s a s' Hs Hact. pose proof (Hm _ _ _ Hs) as Hr. split; [by rewrite Hr|].
  change (r_active (roster_of ck s') = []). by rewrite Hr.
Qed.

Lemma tears_for_each {A} ck (f : A -> PM C unit) l :
  (forall x, tears ck (f x)) -> tears ck (for_each f l).
Proof.
  intros Hf. induction l as [|x l IH]; cbn [for_each]; [apply tears_leaves; leaves|].
  by apply tears_bind.
Qed.

Lemma idle_tears ck a : tears ck (set_attestor_status ck a Idle : PM C unit).
Proof.
  intros s u s' Hrun Hact. unfold set_attestor_status in Hrun. run_inv.
  destruct (dget (Attestors s) ck a) as [at_|] eqn:Hat; [|done]. split; [|done].
  apply rtc_once. roster_eval. by apply (td_chill (roster_of ck s) a at_).
Qed.

Lemma retired_tears ck a :
  tears ck (modify (fun s => s <| RetiredAttestorBlsKeys ::= dremove ck a |>) : PM C unit).
Proof.
  intros s u s' Hrun Hact. run_inv. split; [|done].
  apply rtc_once. rewrite roster_retired_remove, decide_True by done.
  apply (td_retired (roster_of ck s) a).
Qed.

Lemma owners_tears ck budget : tears ck (cleanup_owners ck budget : PM C _).
Proof.
  intros s u s' Hrun Hact. unfold cleanup_owners, clear_row in Hrun. step_inv Hrun.
  destruct (clear_prefix _ _ _ _) as [removed c]. step_inv Hrun.
  match type of Hrun with _ ?t = _ =>
    assert (teardown_step (roster_of ck s) (roster_of ck t)) as Hstep;
    [|assert (roster_of ck s' = roster_of ck t) as Hr] end.
  - roster_eval. rewrite row_insert_eq. apply (td_owner (roster_of ck s)).
    apply map_subseteq_spec. intros k o. rewrite remove_keys_lookup. by case_decide.
  - destruct c; [by run_inv|].
    refine ((_ : leaves (roster_of ck) (cleanup_invulnerables ck _)) _ _ _ Hrun). leaves.
  - rewrite Hr. split; [by apply rtc_once|]. change (r_active (roster_of ck s') = []). by rewrite Hr.
Qed.

Lemma retired_phase_tears ck budget : tears ck (cleanup_retired ck budget : PM C _).
Proof.
  apply tears_bind.
  - unfold clear_retired_keys_batch. apply tears_bind; [apply tears_leaves; leaves|intros rows]. cbv zeta.
    apply tears_bind; [|intros; apply tears_leaves; leaves]. apply tears_for_each. intros [a e].
    apply tears_bind; [apply retired_tears|intros]. apply tears_leaves. leaves.
  - intros [[|] b]; [apply owners_tears|apply tears_leaves; leaves].
Qed.

Lemma cleanup_tears ck phase : tears ck (continue_removed_chain_cleanup ck phase : PM C unit).
Proof.
  apply tears_bind; [|intros; apply tears_leaves; leaves].
  destruct phase as [cursor| | |]; cbn [run_removed_chain_cleanup].
  - apply tears_bind.
    + apply tears_bind; [apply tears_leaves; leaves|intros ids]. cbv zeta.
      apply tears_bind; [|intros; apply tears_leaves; leaves]. apply tears_for_each. intros a.
      apply tears_bind; [apply idle_tears|intros; apply tears_leaves; leaves].
    + intros [[[|] c] b]; [apply retired_phase_tears|apply tears_leaves; leaves].
  - apply retired_phase_tears.
  - apply owners_tears.
  - apply tears_leaves. leaves.
Qed.

(** The other chains' rosters. *)
#[local] Hint Extern 2 (roster_of _ _ = roster_of _ _) =>
  roster_eval; rewrite ?row_insert_ne by done; reflexivity : leaves.

Lemma clear_row_leaves {V A} (v : State C -> A) it ck budget (field : State C -> gmap Z (gmap Z V))
    `{!Setter field} (k : option Z -> list Z -> PM C (option RemovedChainCleanupPhase)) :
  (forall s m, v (s <| field := <[ck := m]> (field s) |>) = v s) -> (forall c l, leaves v (k c l)) ->
  leaves v (cleared ← gets (fun s => clear_row it ck budget None (field s));
    let '(rows, removed, c) := cleared in modify (fun s => s <| field := rows |>);; k c removed).
Proof.
  intros Hf Hk s r s'. unfold gets, mbind at 1, M_bind at 1, clear_row.
  destruct (clear_prefix _ _ _ _) as [removed c]. unfold modify, mbind, M_bind. intros Hrun.
  rewrite (Hk _ _ _ _ _ Hrun). apply Hf.
Qed.

Lemma cleanup_other ck k phase :
  k <> ck -> leaves (roster_of ck) (continue_removed_chain_cleanup k phase : PM C unit).
Proof.
  intros Hk.
  assert (forall b, leaves (roster_of ck) (cleanup_invulnerables k b : PM C _)) as Hinv by leaves.
  assert (forall b, leaves (roster_of ck) (cleanup_owners k b : PM C _)) as Hown.
  { intros b. apply (clear_row_leaves _ BlsKeyOwnerItem k b BlsKeyOwner
      (fun c removed => match c with
        | Some _ => mret (Some BlsKeyOwners)
        | None => cleanup_invulnerables k (saturating_sub b (zlen removed))
        end)).
    - intros s m. roster_eval. by rewrite row_insert_ne.
    - intros [c|] l; [leaves|apply Hinv]. }
  leaves.
Qed.
End Teardown.
