(* ===== verification/Pallet.v ===== *)
(** * The attestation pallet as a whole

    Its calls as data with one [dispatch], its hook at epoch boundaries, its
    genesis, and the invariant that ties its components together: rosters,
    bonds, settings and checkpoint ladders are in order, and only removed chains
    are being cleaned up. Every call preserves it, and a failing call changes
    nothing. *)

From stdpp Require Import prelude gmap list sorting strings.
From Stdlib Require Import ZArith Lia.
From S2P Require Import Prelude Primitives Frame SupportedChains Types Ledger Roster RosterSpec.
From S2P Require Import RosterRefine Bonds Settings Validate Checkpoints Maintenance LadderFrame.
From S2P Require Import LadderSpec LadderRefine MaintRefine Teardown.

(** The calls, in the order of their indices. *)
Inductive Call :=
| SetChainAttestationInterval (ck : ChainKey) (interval : Z)
| SetTargetSampleSize (ck : ChainKey) (size : Z)
| RegisterAttestor (ck : ChainKey) (attestor : AccountId)
| UnregisterAttestor (ck : ChainKey) (attestor : AccountId)
| SetMaxAttestors (ck : ChainKey) (max : Z)
| RegisterInvulnerable (ck : ChainKey) (attestor : AccountId)
| UnregisterInvulnerable (ck : ChainKey) (attestor : AccountId)
| SetMaxInvulnerables (ck : ChainKey) (max : Z)
| CommitAttestation (attestation : SignedAttestation)
| SetAttestationsPerCheckpoint (ck : ChainKey) (n : Z)
| SetMinBondRequirement (ck : ChainKey) (amount : Z)
| Attest (ck : ChainKey) (key : BlsPublicKey) (pop : BlsSignature)
| Chill (ck : ChainKey) (attestor : AccountId)
| WithdrawUnbonded
| ImportCheckpoints (ck : ChainKey) (checkpoints : list AttestationCheckpoint)
| SetGenesisBlockNumber (ck : ChainKey) (h : Height)
| SetElectionPolicy (ck : ChainKey) (policy : AttestorElectionPolicy)
| AuthorizeAttestor (ck : ChainKey) (attestor : AccountId)
| RemoveAuthorizedAttestor (ck : ChainKey) (attestor : AccountId)
| KickActiveAttestor (ck : ChainKey) (attestor : AccountId) (unregister : bool)
| SetMaxCatchup (ck : ChainKey) (n : Z)
| ForceApplyUpdates
| RevertTo (ck : ChainKey) (h : Height)
| ForwardPatchCheckpoints (ck : ChainKey) (wipe_suffix : bool)
    (checkpoints : list AttestationCheckpoint)
| ForceElection (ck : ChainKey).

(** A chain's entry in the genesis configuration. *)
Record AttestationChainConfiguration := mkChainConfiguration {
  gc_chain_key : ChainKey;
  gc_target_sample_size : Z;
  gc_attestation_interval : Z;
  gc_attestations_per_checkpoint : Z;
  gc_checkpoints : list AttestationCheckpoint;
}.

Section Pallet.
Context {C : Type} `{!Currency C} `{Config} `{Keccak} `{Arch} `{Bls} `{FrameStorage Z}
  `{FrameStorage (Z * Z)}.

Definition dispatch (env : Env) (origin : Origin) (call : Call) : PM C unit :=
  match call with
  | SetChainAttestationInterval ck v => set_chain_attestation_interval env origin ck v
  | SetTargetSampleSize ck v => set_target_sample_size env origin ck v
  | RegisterAttestor ck a => register_attestor env origin ck a
  | UnregisterAttestor ck a => unregister_attestor env origin ck a
  | SetMaxAttestors ck v => set_max_attestors env origin ck v
  | RegisterInvulnerable ck a => register_invulnerable env origin ck a
  | UnregisterInvulnerable ck a => unregister_invulnerable origin ck a
  | SetMaxInvulnerables ck v => set_max_invulnerables origin ck v
  | CommitAttestation att => commit_attestation env origin att
  | SetAttestationsPerCheckpoint ck v => set_attestations_per_checkpoint env origin ck v
  | SetMinBondRequirement ck v => set_min_bond_requirement origin ck v
  | Attest ck key pop => attest env origin ck key pop
  | Chill ck a => chill origin ck a
  | WithdrawUnbonded => withdraw_unbonded env origin
  | ImportCheckpoints ck cps => import_checkpoints env origin ck cps
  | SetGenesisBlockNumber ck h => set_attestation_chain_genesis_block_number env origin ck h
  | SetElectionPolicy ck p => set_election_policy env origin ck p
  | AuthorizeAttestor ck a => authorize_attestor env origin ck a
  | RemoveAuthorizedAttestor ck a => remove_authorized_attestor origin ck a
  | KickActiveAttestor ck a b => kick_active_attestor env origin ck a b
  | SetMaxCatchup ck v => set_max_catchup env origin ck v
  | ForceApplyUpdates => force_apply_updates origin
  | RevertTo ck h => revert_to env origin ck h
  | ForwardPatchCheckpoints ck b cps => forward_patch_checkpoints env origin ck b cps
  | ForceElection ck => force_election env origin ck
  end.

(** [OnRandomnessUpdate]: an election on every supported chain, whose failure
    is only logged, then the pending updates. *)
Definition on_new_epoch_randomness (env : Env) (epoch : Z) : PM C unit :=
  attempt (do_start_election env epoch);;
  apply_interval_updates;;
  mret tt.

(** ** Genesis *)

(** The assertions on one chain's entry; a failing one is a panic. *)
Definition genesis_config_ok (c : AttestationChainConfiguration) : bool :=
  (0 <? gc_target_sample_size c) &&
  ((0 <? gc_attestation_interval c) &&
   (gc_attestation_interval c <=? MaxChainAttestationInterval) &&
   (gc_attestation_interval c <=? DefaultMaxCatchup)) &&
  ((0 <? gc_attestations_per_checkpoint c) &&
   (gc_attestations_per_checkpoint c <=? MaxAttestationCheckpointInterval)).

(** Store the checkpoints and return the highest one. *)
Fixpoint genesis_checkpoints (ck : ChainKey) (cps : list AttestationCheckpoint)
    (last_checkpoint : option AttestationCheckpoint) : PM C (option AttestationCheckpoint) :=
  match cps with
  | [] => mret last_checkpoint
  | cp :: rest =>
      insert_checkpoint ck cp;;
      genesis_checkpoints ck rest
        (match last_checkpoint with
         | Some lc => if cp_block_number lc <=? cp_block_number cp then Some cp else last_checkpoint
         | None => Some cp
         end)
  end.

Definition genesis_chain (invulnerables : list AccountId) (c : AttestationChainConfiguration)
    : PM C unit :=
  let ck := gc_chain_key c in
  ensure (genesis_config_ok c) (Other "panic");;
  modify (fun s => s <| TargetSampleSize ::= <[ck := gc_target_sample_size c]> |>);;
  modify (fun s => s <| ChainAttestationInterval ::= <[ck := gc_attestation_interval c]> |>);;
  modify (fun s => s <| AttestationCheckpointInterval ::=
    <[ck := gc_attestations_per_checkpoint c]> |>);;
  modify (fun s => s <| MaxAttestors ::= <[ck := MaxAttestationNodes]> |>);;
  modify (fun s => s <| MaxInvulnerables ::= <[ck := MaxAttestationNodes]> |>);;
  for_each (fun a => modify (fun s => s <| Invulnerables ::= dinsert ck a true |>)) invulnerables;;
  last_checkpoint ← genesis_checkpoints ck (gc_checkpoints c) None;
  match last_checkpoint with
  | Some cp => modify (fun s => s <| LastCheckpoint ::= <[ck := cp]> |>)
  | None => mret tt
  end.

Definition genesis_build (invulnerables : list AccountId)
    (chains : list AttestationChainConfiguration) : PM C unit :=
  for_each (genesis_chain invulnerables) chains.
End Pallet.

(** ** The invariant *)

Section Invariant.
Context {C : Type} `{!Currency C} `{!CurrencyLaws C} `{Config} `{!ConfigOk} `{Keccak} `{Arch} `{!ArchOk}
  `{Bls} `{FrameStorage Z} `{!FrameStorageLaws Z} `{FrameStorage (Z * Z)}.
Implicit Types (s : State C) (ck : Z).

(** What is pending or set beyond a chain's registration. *)
Definition no_pending s ck : Prop :=
  PendingAttestationInterval s !! ck = None /\ PendingTargetSampleSize s !! ck = None /\
  PendingMaxCatchup s !! ck = None /\ MaxCatchup s !! ck = None.

(** [live] chains are those not removed: supported, or not yet registered. *)
Record pallet_inv (sup : ChainKey -> bool) (live : ChainKey -> Prop) s : Prop := {
  pi_rosters : rosters_ok s;
  pi_keys : forall ck, live ck -> keys_inv (roster_of ck s);
  pi_inactive : forall ck, sup ck = false -> active_attestor_set s ck = [];
  pi_bonds : bonds_inv s;
  pi_settings : settings_inv s;
  pi_pending : forall ck, sup ck = false -> no_pending s ck;
  pi_retention : forall ck, 1 <= attestation_retention_duration s ck;
  pi_ladder : forall ck, live ck -> ladder_inv (ladder_of ck s);
  pi_quiet : forall ck, live ck -> not_clearing ck s /\ RemovedChainCleanup s !! ck = None;
}.

(** The arguments are of their types. *)
Definition call_ok (call : Call) : Prop :=
  match call with
  | CommitAttestation att => is_u64 (sa_header_number att)
  | SetMinBondRequirement _ v => in_range 128 v
  | ImportCheckpoints _ cps | ForwardPatchCheckpoints _ _ cps =>
      Forall (fun cp => is_u64 (cp_block_number cp)) cps
  | _ => True
  end.

(** The chain-wide updates apply what was pending. *)
Lemma updates_keep_pending k : keeps (fun s => no_pending s k) (apply_interval_updates : PM C Z).
Proof.
  intros s n s' Hrun (H1' & H2' & H3' & H4').
  destruct (apply_updates_run s) as (m & t & Hrun' & _ & P1 & P2 & P3 & _ & _ & T3).
  rewrite Hrun in Hrun'. injection Hrun' as _ <-. unfold no_pending.
  by rewrite P1, P2, P3, T3, !lookup_empty, lookup_union, H3', H4'.
Qed.

Section Calls.
Variables (env : Env) (origin : Origin).

(** *** Rosters *)

Lemma max_attestors_refines ck v : refines (set_max_attestors env origin ck v : PM C unit).
Proof.
  intros s u s' Hrun Hok. unfold set_max_attestors, ensure_supported, deposit_event in Hrun.
  call_inv. apply (refines_at ck).
  - apply rtc_once. roster_eval. apply (rs_set_max (roster_of ck s)). lia.
  - intros k Hk. by roster_eval.
Qed.

Lemma dispatch_refines call : refines (dispatch env origin call : PM C unit).
Proof.
  pose proof (fun ck a key pop b => roster_calls_refine (C := C) env origin ck a key pop b) as Hr.
  destruct call; cbn [dispatch]; try (apply (Hr ck attestor 0 0 true)); try (apply (Hr ck 0 key pop true));
    try (apply (Hr 0 0 0 0 true)); try (apply (Hr ck attestor 0 0 unregister)); try (apply (Hr ck 0 0 0 true));
    try apply max_attestors_refines; apply refines_leaves; leaves.
Qed.

(** *** Bonds *)

Lemma signed_keeps {A} (I : State C -> Prop) (f : AccountId -> PM C A) :
  (forall who, keeps I (f who)) -> keeps I (transactional (who ← ensure_signed origin; f who)).
Proof.
  intros Hf. apply keeps_transactional, keeps_bind; [|done].
  by intros s who s' [_ ->]%ensure_signed_ok.
Qed.

Lemma dispatch_keeps_bonds s call : call_ok call -> forall u s',
  dispatch env origin call s = (Ok u, s') -> bonds_inv s -> bonds_inv s'.
Proof.
  intros Hok u s' Hrun. revert Hrun. destruct call; cbn [dispatch].
  3: apply signed_keeps; intros who; apply register_keeps_bonds.
  3: apply signed_keeps; intros who; apply unregister_keeps_bonds.
  9: { intros Hrun [I1 I2 I3]. unfold set_min_bond_requirement, deposit_event in Hrun. call_inv.
    constructor; [eapply (ledger_inv_frame s); done| |exact I3].
    intros k. unfold min_bond_requirement. cbn. rewrite lookup_insert. case_decide; [done|apply I2]. }
  11: apply signed_keeps; intros who; apply withdraw_keeps_bonds.
  all: try (apply bonds_keeps_leaves; leaves; fail).
  apply keeps_transactional. do 3 (apply keeps_bind; [apply bonds_keeps_leaves; leaves|intros ?]).
  apply keeps_bind; [apply bonds_keeps_leaves; leaves|intros _].
  apply keeps_when, unregister_keeps_bonds.
Qed.

(** *** Settings *)

Lemma dispatch_keeps_settings call : keeps settings_inv (dispatch env origin call : PM C unit).
Proof.
  pose proof (setters_keep_settings (C := C) env origin) as Hset.
  destruct call; cbn [dispatch];
    lazymatch goal with
    | |- keeps _ (set_chain_attestation_interval _ _ ?ck ?v) => apply (Hset ck v)
    | |- keeps _ (set_max_catchup _ _ ?ck ?v) => apply (Hset ck v)
    | |- keeps _ (set_target_sample_size _ _ ?ck ?v) => apply (Hset ck v)
    | |- keeps _ (set_max_attestors _ _ ?ck ?v) => apply (Hset ck v)
    | |- keeps _ (set_max_invulnerables _ ?ck ?v) => apply (Hset ck v)
    | |- keeps _ (set_attestations_per_checkpoint _ _ ?ck ?v) => apply (Hset ck v)
    | |- keeps _ (force_apply_updates _) => idtac
    | |- _ => apply settings_keeps_leaves; leaves
    end.
  apply keeps_transactional. apply keeps_bind; [apply settings_keeps_leaves; leaves|intros _].
  apply keeps_bind; [apply updates_keep_settings|intros _]. apply settings_keeps_leaves; leaves.
Qed.

(** *** Chains that are not supported *)

Lemma dispatch_keeps_pending k call :
  env_is_chain_supported env k = false ->
  keeps (fun s => no_pending s k) (dispatch env origin call : PM C unit).
Proof.
  intros Hk. set (view := fun s : State C => (PendingAttestationInterval s !! k, PendingTargetSampleSize s !! k,
    PendingMaxCatchup s !! k, MaxCatchup s !! k)).
  assert (forall m : PM C unit, leaves view m -> keeps (fun s => no_pending s k) m) as Hleave.
  { intros m Hm. apply (keeps_leaves view); [|done]. unfold no_pending, view.
    by intros s1 s2 [= -> -> -> ->]. }
  destruct call; cbn [dispatch]; try (by apply Hleave; leaves).
  1-3: intros s u s' Hrun Hs; unfold set_chain_attestation_interval, set_target_sample_size,
      set_max_catchup, ensure_supported, deposit_event in Hrun; call_inv;
    assert (ck <> k) by congruence; unfold no_pending in *; cbn; by rewrite lookup_insert_ne.
  apply keeps_transactional. apply keeps_bind; [apply Hleave; leaves|intros _].
  apply keeps_bind; [apply updates_keep_pending|intros _]. apply Hleave; leaves.
Qed.

(** Nobody becomes active on a chain that is not supported. *)
Definition inactive k s : Prop := active_attestor_set s k = [].

Lemma remove_active_inactive k ck a :
  keeps (inactive k) (remove_active_attestor_from_set ck a : PM C unit).
Proof.
  apply keeps_modify. unfold inactive, active_attestor_set. intros s Hs. cbn. rewrite lookup_insert.
  case_decide as Hk; [subst; by rewrite Hs|done].
Qed.

Lemma inactive_leaves {A} k (m : PM C A) :
  leaves (fun s => ActiveAttestors s !! k) m -> keeps (inactive k) m.
Proof.
  apply keeps_leaves. unfold inactive, active_attestor_set. by intros s s' ->.
Qed.

Lemma election_inactive k ck epoch :
  ck <> k -> keeps (inactive k) (elect_attestors_for_chain ck epoch : PM C unit).
Proof.
  intros Hk. apply inactive_leaves. unfold elect_attestors_for_chain.
  do 4 (apply leaves_bind; [leaves|intros]). destruct (same_membership _ _); [leaves|].
  apply leaves_bind; [|leaves]. apply leaves_modify. intros s. cbn. by rewrite lookup_insert_ne.
Qed.

Ltac keep_inactive :=
  repeat first
    [ apply keeps_transactional
    | apply remove_active_inactive
    | apply keeps_when
    | progress cbv zeta
    | solve [apply inactive_leaves; leaves]
    | apply keeps_bind; [|intros]
    | match goal with |- keeps _ (match ?x with _ => _ end) => destruct x end
    | progress unfold remove_attestor_and_emit_event, do_chill_attestor_immediate ].

Lemma dispatch_keeps_inactive k call :
  env_is_chain_supported env k = false ->
  keeps (inactive k) (dispatch env origin call : PM C unit).
Proof.
  intros Hk. destruct call; cbn [dispatch]; try (by apply inactive_leaves; leaves).
  1-3: unfold unregister_attestor, remove_attestor_and_emit_event, chill, kick_active_attestor,
    do_chill_attestor_immediate; keep_inactive.
  intros s u s' Hrun Hs. unfold force_election in Hrun. apply transactional_ok in Hrun.
  do 2 step_inv Hrun. unfold ensure_supported in Hstep. apply ensure_ok in Hstep as [Hsup ->].
  apply bind_ok in Hrun as (u1 & s1 & Hel & Hrun). injection Hrun as _ <-.
  change (inactive k s1). eapply (election_inactive k ck); [congruence|exact Hel|done].
Qed.

(** *** Ladders *)

(** The calls by which operators rewrite a chain's checkpoints. *)
Definition operates (k : ChainKey) (call : Call) : Prop :=
  match call with
  | ImportCheckpoints ck _ | RevertTo ck _ | ForwardPatchCheckpoints ck _ _ => k = ck
  | _ => False
  end.

(** A chain's steps in a call: its own, and an operator's if the call is one. *)
Definition call_step k call (l l' : Ladder) : Prop :=
  ladder_step l l' \/ operates k call /\ operator_step l l'.

Lemma call_step_any k call l l' : rtc (call_step k call) l l' -> rtc any_step l l'.
Proof. apply rtc_subrel. intros ? ? [?|[_ ?]]; [by left|by right]. Qed.

Lemma call_step_own k call l l' : ~ operates k call -> rtc (call_step k call) l l' -> rtc ladder_step l l'.
Proof. intros Hno. apply rtc_subrel. by intros ? ? [?|[? _]]. Qed.

Lemma only_at (R : relation Ladder) ck s s' l :
  (forall k, k <> ck -> ladder_of k s' = ladder_of k s) ->
  (l = ck -> rtc R (ladder_of l s) (ladder_of l s')) -> rtc R (ladder_of l s) (ladder_of l s').
Proof. intros Hne Hck. destruct (decide (l = ck)) as [->|Hl]; [by apply Hck|]. by rewrite Hne. Qed.

(** A call that passes its check for support acts on a supported chain. *)
Lemma supported_ok ck s u s' :
  (ensure_supported env ck : PM C unit) s = (Ok u, s') -> env_is_chain_supported env ck = true.
Proof. by intros [Hs _]%ensure_ok. Qed.

Lemma operators_supported s u s' ck h cps wipe :
  (import_checkpoints env origin ck cps s = (Ok u, s') \/ revert_to env origin ck h s = (Ok u, s') \/
   forward_patch_checkpoints env origin ck wipe cps s = (Ok u, s')) ->
  env_is_chain_supported env ck = true.
Proof.
  intros [Hrun|[Hrun|Hrun]]; unfold import_checkpoints, do_import_checkpoints, revert_to,
    forward_patch_checkpoints, do_forward_patch_checkpoints in Hrun; run_inv;
    match goal with H : ensure_supported _ _ _ = _ |- _ => by eapply supported_ok end.
Qed.

Lemma commit_inv att s u s' :
  commit_attestation env origin att s = (Ok u, s') ->
  do_commit_attestation env att s = (Ok u, s') /\ env_is_chain_supported env (sa_chain_key att) = true /\
  exists a, origin = SignedOrigin a /\ a ∈ active_attestor_set s (sa_chain_key att).
Proof.
  intros Hrun. unfold commit_attestation in Hrun. apply transactional_ok in Hrun. do 3 step_inv Hrun.
  split; [done|]. split.
  - unfold do_commit_attestation in Hrun. apply bind_ok in Hrun as (u1 & s1 & Hval & _).
    by destruct (validate_ok _ _ _ _ _ _ eq_refl Hval) as (_ & ? & _).
  - eexists. split; [done|]. by apply elem_of_btree_set.
Qed.

(** The ladders' steps in a call. *)
Lemma dispatch_ladder k s call u s' :
  dispatch env origin call s = (Ok u, s') -> call_ok call ->
  settings_inv s -> (forall ck, 1 <= attestation_retention_duration s ck) ->
  (forall ck, env_is_chain_supported env ck = true -> ladder_inv (ladder_of ck s)) ->
  rtc (call_step k call) (ladder_of k s) (ladder_of k s').
Proof.
  assert (forall l l', rtc ladder_step l l' -> rtc (call_step k call) l l') as Hl
    by (intros l l' Hr; eapply rtc_subrel; [|exact Hr]; by left).
  assert (operates k call -> forall l l', rtc operator_step l l' -> rtc (call_step k call) l l') as Ho
    by (intros Hop l l' Hr; eapply rtc_subrel; [|exact Hr]; by right).
  intros Hrun Hok Hset Hret Hinv.
  destruct call; cbn [dispatch] in Hrun; cbn [call_ok] in Hok;
    lazymatch type of Hrun with
    | commit_attestation _ _ _ _ = _ => idtac
    | import_checkpoints _ _ _ _ _ = _ => idtac
    | revert_to _ _ _ _ _ = _ => idtac
    | forward_patch_checkpoints _ _ _ _ _ _ = _ => idtac
    | ?m _ = _ => rewrite ((ltac:(leaves) : leaves (ladder_of k) m) _ _ _ Hrun); done
    end.
  - apply commit_inv in Hrun as (Hrun & Hsup & _).
    destruct (commit_refines env attestation s u s' Hrun) as [Hst Hne]; eauto.
    by apply (only_at _ (sa_chain_key attestation)); [|intros ->; apply Hl].
  - assert (env_is_chain_supported env ck = true) as Hsup by (apply (operators_supported s u s' ck 0 checkpoints true); auto).
    destruct (import_refines env origin ck checkpoints s u s') as [Hst Hne]; eauto.
    by apply (only_at _ ck); [|intros ->; apply Ho].
  - assert (env_is_chain_supported env ck = true) as Hsup
      by (apply (operators_supported s u s' ck h [] true); auto).
    destruct (revert_refines env origin ck h s u s') as [Hst Hne]; eauto.
    by apply (only_at _ ck); [|intros ->; apply Ho, rtc_once].
  - assert (env_is_chain_supported env ck = true) as Hsup by (apply (operators_supported s u s' ck 0 checkpoints wipe_suffix); auto).
    destruct (patch_refines env origin ck wipe_suffix checkpoints s u s') as [Hst Hne]; eauto.
    by apply (only_at _ ck); [|intros ->; apply Ho].
Qed.

Lemma dispatch_quiet call : leaves (fun s : State C => (CheckpointClearingCursors s, BucketClearingCursors s,
  RemovedChainCleanup s, AttestationRetentionDuration s)) (dispatch env origin call).
Proof. destruct call; cbn [dispatch]; leaves. Qed.

(** *** Every call *)

Lemma dispatch_keeps_inv live s call :
  (forall ck, env_is_chain_supported env ck = true -> live ck) -> call_ok call ->
  pallet_inv (env_is_chain_supported env) live s ->
  pallet_inv (env_is_chain_supported env) live (dispatch env origin call s).2.
Proof.
  intros Hlive Hok Hinv. destruct (dispatch env origin call s) as [[u|e] s'] eqn:Hrun; cbn.
  2: { assert (s' = s) as ->; [|done]. destruct call; eapply rolls_back_transactional, Hrun. }
  pose proof (dispatch_refines call s u s' Hrun (pi_rosters _ _ _ Hinv)) as Hro.
  pose proof (dispatch_quiet call _ _ _ Hrun) as Hq. injection Hq as Q1 Q2 Q3 Q4. constructor.
  - intros ck. eapply roster_steps_inv; [apply Hro|]. apply Hinv.
  - intros ck Hck. eapply roster_steps_keys_inv; [apply Hro|apply Hinv|by apply Hinv].
  - intros ck Hck. eapply dispatch_keeps_inactive; [done|exact Hrun|]. by apply Hinv.
  - eapply dispatch_keeps_bonds; [done|exact Hrun|]. apply Hinv.
  - eapply dispatch_keeps_settings; [exact Hrun|]. apply Hinv.
  - intros ck Hck. eapply dispatch_keeps_pending; [done|exact Hrun|]. by apply Hinv.
  - intros ck. unfold attestation_retention_duration. rewrite Q4. apply Hinv.
  - intros ck Hck. eapply any_steps_inv; [eapply call_step_any|by apply (pi_ladder _ _ _ Hinv)].
    eapply dispatch_ladder; [exact Hrun|done|apply Hinv|apply Hinv|]. intros k Hk. by apply Hinv, Hlive.
  - intros ck Hck. unfold not_clearing. rewrite Q1, Q2, Q3. by apply Hinv.
Qed.
End Calls.

(** ** Hooks *)

Definition quiet ck s : Prop := not_clearing ck s /\ RemovedChainCleanup s !! ck = None.

Lemma set_or_remove_ne {V} ck k (o : option V) m : k <> ck -> set_or_remove k o m !! ck = m !! ck.
Proof. intros Hk. destruct o; cbn; [by apply lookup_insert_ne|by apply lookup_delete_ne]. Qed.

(** A hook that leaves the maintenance items of the other chains alone. *)
Lemma on_first_quiet {V} it (items : State C -> gmap Z V) work ck :
  (forall s, quiet ck s -> items s !! ck = None) ->
  (forall k v, k <> ck -> leaves (fun s => (CheckpointClearingCursors s !! ck,
     BucketClearingCursors s !! ck, RemovedChainCleanup s !! ck)) (work k v)) ->
  keeps (quiet ck) (on_first it items work : PM C unit).
Proof.
  intros Hitems Hwork s u s' Hrun Hq.
  apply on_first_ok in Hrun as [->|(k & v & Hk & Hrun)]; [done|].
  assert (k <> ck) as Hne by (intros ->; rewrite (Hitems s Hq) in Hk; done).
  specialize (Hwork k v Hne _ _ _ Hrun). injection Hwork as W1 W2 W3.
  unfold quiet, not_clearing in *. by rewrite W1, W2, W3.
Qed.

Lemma initialize_quiet ck : keeps (quiet ck) (on_initialize : PM C unit).
Proof.
  assert (forall m : PM C unit, leaves (fun s => (CheckpointClearingCursors s !! ck,
     BucketClearingCursors s !! ck, RemovedChainCleanup s !! ck)) m -> keeps (quiet ck) m) as Hl.
  { intros m. apply keeps_leaves. unfold quiet, not_clearing. by intros s s' [= -> -> ->]. }
  apply keeps_bind; [apply Hl; leaves|intros _].
  apply keeps_bind; [|intros _].
  { apply on_first_quiet; [by intros s [[? _] _]|]. intros k c Hk.
    apply leaves_bind; [leaves|intros c']. apply leaves_bind; [|leaves]. apply leaves_modify. intros s. cbn.
    by rewrite set_or_remove_ne. }
  apply keeps_bind; [|intros _].
  { apply on_first_quiet; [by intros s [[_ ?] _]|]. intros k c Hk.
    apply leaves_bind; [leaves|intros c']. apply leaves_modify. intros s. cbn. by rewrite set_or_remove_ne. }
  apply keeps_bind; [apply Hl; leaves|intros _].
  apply on_first_quiet; [by intros s [_ ?]|]. intros k c Hk.
  apply leaves_bind; [leaves|intros c']. apply leaves_modify. intros s. cbn. by rewrite set_or_remove_ne.
Qed.

(** The hooks change the roster of a chain only to take it down. *)
Lemma initialize_rosters s u s' ck :
  on_initialize s = (Ok u, s') ->
  roster_of ck s' = roster_of ck s \/
  (is_Some (RemovedChainCleanup s !! ck) /\ (active_attestor_set s ck = [] ->
     rtc teardown_step (roster_of ck s) (roster_of ck s'))).
Proof.
  intros Hrun. unfold on_initialize in Hrun.
  do 4 (apply bind_ok in Hrun as (? & ? & ? & Hrun)).
  match type of Hrun with _ ?t = _ => assert (roster_of ck t = roster_of ck s /\
    RemovedChainCleanup t = RemovedChainCleanup s) as [Hr Hc] end.
  { repeat match goal with H : ?m ?a = (Ok _, ?b) |- _ =>
      lazymatch m with on_init_cleanup_removed_chains => fail | _ =>
      pose proof ((ltac:(leaves) : leaves (fun s => (roster_of ck s, RemovedChainCleanup s)) m) _ _ _ H);
      clear H end end. cbv beta in *. split; congruence. }
  apply on_first_ok in Hrun as [->|(k & ph & Hk & Hrun)]; [by left|].
  destruct (decide (k = ck)) as [->|Hne].
  - right. rewrite <- Hc. split; [by eexists|]. intros Hact. rewrite <- Hr.
    apply (cleanup_tears _ _ _ _ _ Hrun). change (r_active (roster_of ck x6) = []). by rewrite Hr.
  - left. rewrite <- Hr. by apply (cleanup_other ck k ph Hne) in Hrun.
Qed.

Lemma initialize_succeeds : succeeds (on_initialize : PM C unit).
Proof.
  assert (forall fuel ck entries pivots st,
    succeeds (prune_loop fuel ck entries pivots st : PM C unit)) as Hprune.
  { intros fuel. induction fuel as [|fuel IH]; intros; cbn [prune_loop]; succeeds. }
  succeeds.
Qed.

Lemma initialize_keeps_inv sup live s :
  (forall ck, sup ck = true -> live ck) -> pallet_inv sup live s ->
  pallet_inv sup live (on_initialize s).2.
Proof.
  intros Hlive Hinv. destruct (initialize_succeeds s) as (u & s' & Hrun). rewrite Hrun. cbn [snd].
  pose proof ((ltac:(leaves) : leaves (fun s : State C => (ActiveAttestors s,
    PendingAttestationInterval s, PendingTargetSampleSize s, PendingMaxCatchup s, MaxCatchup s,
    AttestationRetentionDuration s)) on_initialize) _ _ _ Hrun) as Hv.
  injection Hv as V1 V3 V4 V5 V6 V7. pose proof (pi_quiet _ _ _ Hinv) as Hquiet. constructor.
  - intros ck. destruct (initialize_rosters s u s' ck Hrun) as [->|[[ph Hph] Htear]];
      [apply (pi_rosters _ _ _ Hinv)|].
    eapply teardown_steps_inv; [apply Htear|apply (pi_rosters _ _ _ Hinv)].
    apply (pi_inactive _ _ _ Hinv). destruct (sup ck) eqn:Hsup; [|done].
    destruct (Hquiet ck (Hlive ck Hsup)) as [_ Hnone]. congruence.
  - intros ck Hck. destruct (initialize_rosters s u s' ck Hrun) as [->|[[ph Hph] _]];
      [by apply Hinv|]. destruct (Hquiet ck Hck) as [_ Hnone]. congruence.
  - intros ck Hck. unfold active_attestor_set. rewrite V1. by apply Hinv.
  - eapply (bonds_keeps_leaves on_initialize); [leaves|exact Hrun|apply Hinv].
  - eapply (settings_keeps_leaves on_initialize); [leaves|exact Hrun|apply Hinv].
  - intros ck Hck. unfold no_pending. rewrite V3, V4, V5, V6. by apply Hinv.
  - intros ck. unfold attestation_retention_duration. rewrite V7. apply Hinv.
  - intros ck Hck. eapply ladder_steps_inv; [eapply initialize_refines|]; try done; by apply Hinv.
  - intros ck Hck. eapply initialize_quiet; [exact Hrun|]. by apply Hinv.
Qed.

(** ** Epochs *)

Lemma election_succeeds env epoch : succeeds (do_start_election env epoch : PM C unit).
Proof. unfold do_start_election, elect_attestors_for_chain. succeeds. Qed.

Lemma election_keeps_inv env epoch live :
  (forall ck, ck ∈ env_supported_chains env -> env_is_chain_supported env ck = true) ->
  keeps (pallet_inv (env_is_chain_supported env) live) (do_start_election env epoch : PM C unit).
Proof.
  intros Hsup s u s' Hrun Hinv.
  pose proof (start_election_refines env epoch s u s' Hrun (pi_rosters _ _ _ Hinv)) as Hro.
  pose proof ((ltac:(leaves) : leaves (fun s : State C => (CheckpointClearingCursors s,
    BucketClearingCursors s, RemovedChainCleanup s, AttestationRetentionDuration s,
    PendingAttestationInterval s, PendingTargetSampleSize s, PendingMaxCatchup s, MaxCatchup s))
    (do_start_election env epoch)) _ _ _ Hrun) as Hv. injection Hv as V1 V2 V3 V4 V5 V6 V7 V8.
  constructor.
  - intros ck. eapply roster_steps_inv; [apply Hro|apply Hinv].
  - intros ck Hck. eapply roster_steps_keys_inv; [apply Hro|apply Hinv|by apply Hinv].
  - intros ck Hck. change (inactive ck s'). apply (pi_inactive _ _ _ Hinv) in Hck as Hact.
    assert (ck ∉ env_supported_chains env) as Hnot by (intros Hin; apply Hsup in Hin; congruence).
    unfold do_start_election in Hrun. clear -Hrun Hact Hnot H0 FrameStorageLaws0. revert s Hrun Hact.
    induction (env_supported_chains env) as [|k ks IH]; intros s Hrun Hact; cbn [for_each] in Hrun;
      [by run_inv|]. apply bind_ok in Hrun as (u1 & s1 & Hel & Hrun).
    apply not_elem_of_cons in Hnot as [Hne Hnot]. eapply (IH Hnot s1 Hrun).
    eapply (election_inactive ck k); [congruence|exact Hel|done].
  - eapply (bonds_keeps_leaves (do_start_election env epoch)); [leaves|exact Hrun|apply Hinv].
  - eapply (settings_keeps_leaves (do_start_election env epoch)); [leaves|exact Hrun|apply Hinv].
  - intros ck Hck. unfold no_pending. rewrite V5, V6, V7, V8. by apply Hinv.
  - intros ck. unfold attestation_retention_duration. rewrite V4. apply Hinv.
  - intros ck Hck. assert (leaves (ladder_of ck) (do_start_election env epoch : PM C unit)) as Hl by leaves.
    rewrite (Hl _ _ _ Hrun). by apply Hinv.
  - intros ck Hck. unfold not_clearing. rewrite V1, V2, V3. by apply Hinv.
Qed.

Lemma updates_keep_inv sup live : keeps (pallet_inv sup live) (apply_interval_updates : PM C Z).
Proof.
  intros s n s' Hrun Hinv.
  pose proof ((ltac:(leaves) : leaves (fun s : State C => (CheckpointClearingCursors s,
    BucketClearingCursors s, RemovedChainCleanup s, AttestationRetentionDuration s, ActiveAttestors s))
    apply_interval_updates) _ _ _ Hrun) as Hv. injection Hv as V1 V2 V3 V4 V5.
  assert (forall ck, roster_of ck s' = roster_of ck s) as Hr.
  { intros ck. refine ((_ : leaves (roster_of ck) apply_interval_updates) _ _ _ Hrun). leaves. }
  constructor.
  - intros ck. rewrite Hr. apply (pi_rosters _ _ _ Hinv).
  - intros ck Hck. rewrite Hr. by apply Hinv.
  - intros ck Hck. unfold active_attestor_set. rewrite V5. by apply Hinv.
  - eapply (bonds_keeps_leaves apply_interval_updates); [leaves|exact Hrun|apply Hinv].
  - eapply updates_keep_settings; [exact Hrun|apply Hinv].
  - intros ck Hck. eapply updates_keep_pending; [exact Hrun|by apply Hinv].
  - intros ck. unfold attestation_retention_duration. rewrite V4. apply Hinv.
  - intros ck Hck. assert (leaves (ladder_of ck) (apply_interval_updates : PM C Z)) as Hl by leaves.
    rewrite (Hl _ _ _ Hrun). by apply Hinv.
  - intros ck Hck. unfold not_clearing. rewrite V1, V2, V3. by apply Hinv.
Qed.

Lemma epoch_keeps_inv env epoch live s :
  (forall ck, ck ∈ env_supported_chains env -> env_is_chain_supported env ck = true) ->
  pallet_inv (env_is_chain_supported env) live s ->
  exists s', on_new_epoch_randomness env epoch s = (Ok tt, s') /\
  pallet_inv (env_is_chain_supported env) live s'.
Proof.
  intros Hsup Hinv. destruct (election_succeeds env epoch s) as (u & s1 & Hel).
  destruct (apply_updates_run s1) as (n & s2 & Hupd & _).
  exists s2. split; [unfold on_new_epoch_randomness, attempt, mbind, M_bind; by rewrite Hel, Hupd|].
  eapply updates_keep_inv; [exact Hupd|]. by eapply election_keeps_inv.
Qed.
End Invariant.
