(* ===== verification/Termination.v ===== *)
(** * The loops of the attestation pallet end

    The two loops that are not structural carry fuel: the checkpoint boundaries of
    a catch-up ([create_checkpoints_from_queue]) and the pivots of a pruning turn
    ([prune_checkpoints_impl]). The fuel they are run with is enough: pruning gives
    the same result with any more, and a commit never fails for want of it. *)

From stdpp Require Import prelude gmap list sorting strings.
From Stdlib Require Import ZArith Lia.
From S2P Require Import Prelude Primitives Frame SupportedChains Types Ledger Roster RosterSpec.
From S2P Require Import RosterRefine Bonds Settings Validate Checkpoints Maintenance LadderFrame.
From S2P Require Import LadderSpec LadderRefine MaintRefine Pallet.

(** ** Errors *)

(** Every error of a computation satisfies [P]. *)
Definition raises {S E A} (P : E -> Prop) (m : M S E A) : Prop :=
  forall s e s', m s = (Err e, s') -> P e.

Section Raises.
Context {S E : Type} (P : E -> Prop).

Lemma raises_ret {A} (a : A) : raises P (mret a : M S E A).
Proof. by intros s e s'. Qed.

Lemma raises_gets {A} (f : S -> A) : raises P (gets f : M S E A).
Proof. by intros s e s'. Qed.

Lemma raises_modify f : raises P (modify f : M S E unit).
Proof. by intros s e s'. Qed.

Lemma raises_ensure b e : P e -> raises P (ensure b e : M S E unit).
Proof. intros He s e' s'. unfold ensure. destruct b; [done|]. by intros [= <- _]. Qed.

Lemma raises_fail {A} e : P e -> raises P (fail e : M S E A).
Proof. by intros He s e' s' [= <- _]. Qed.

Lemma raises_lift {A} (r : Result E A) : (forall e, r = Err e -> P e) -> raises P (lift r : M S E A).
Proof. intros Hr s e s'. unfold lift. intros [= -> _]. by apply Hr. Qed.

Lemma raises_bind {A B} (m : M S E A) (f : A -> M S E B) :
  raises P m -> (forall a, raises P (f a)) -> raises P (m ≫= f).
Proof.
  intros Hm Hf s e s'. unfold mbind, M_bind. destruct (m s) as [[a|e1] s1] eqn:Hrun.
  - apply Hf.
  - intros [= <- _]. by eapply Hm.
Qed.

Lemma raises_transactional {A} (m : M S E A) : raises P m -> raises P (transactional m).
Proof.
  intros Hm s e s'. unfold transactional. destruct (m s) as [[a|e1] s1] eqn:Hrun; [done|].
  intros [= <- _]. by eapply Hm.
Qed.

Lemma raises_when b (m : M S E unit) : raises P m -> raises P (when b m).
Proof. destruct b; [done|]. intros _. apply raises_ret. Qed.

Lemma raises_for_each {A} (f : A -> M S E unit) l : (forall x, raises P (f x)) -> raises P (for_each f l).
Proof. intros Hf. induction l; [apply raises_ret|]. by apply raises_bind. Qed.

End Raises.

Ltac raises :=
  repeat first
    [ assumption | apply raises_ret | apply raises_gets | apply raises_modify
    | apply raises_bind; [|intros] | apply raises_transactional | apply raises_when
    | apply raises_for_each; intros | apply raises_ensure; done | apply raises_fail; done
    | progress case_match ].

(** ** Pruning *)

Section Pruning.
Context {C : Type} `{Config} `{FrameStorage Z} `{FrameStorage (Z * Z)}.
Implicit Types s : State C.

(** A turn with entries left ends a pivot or spends the entries. *)
Lemma prune_fuel n1 n2 ck entries pivots st s :
  0 <= entries <= MAX_CHECKPOINTS_CLEARED_PER_BLOCK ->
  Z.max 0 pivots + (if 0 <? entries then 1 else 0) < Z.of_nat n1 ->
  Z.max 0 pivots + (if 0 <? entries then 1 else 0) < Z.of_nat n2 ->
  prune_loop n1 ck entries pivots st s = prune_loop n2 ck entries pivots st s.
Proof.
  revert n2 entries pivots st s.
  induction n1 as [|n1 IH]; intros [|n2] entries pivots st s He H1' H2'; [case_match; lia..|].
  cbn [prune_loop].
  destruct (Z.ltb_spec 0 entries); [|done]. destruct (Z.ltb_spec 0 pivots); [|done]. cbn [andb].
  destruct (_ <? _); [done|]. unfold mbind, M_bind, gets.
  set (heights := take (Z.to_nat (MAX_CHECKPOINTS_CLEARED_PER_BLOCK + 1)) _).
  destruct (for_each _ _ s) as [[u|e] s1]; [|done].
  pose proof (zlen_nonneg heights).
  destruct (Z.eqb_spec (zlen heights) (Z.min (zlen heights) entries)) as [Heq|Hne].
  - apply IH; [unfold saturating_sub; lia|case_match; lia..].
  - assert (Z.min (zlen heights) entries = entries) as -> by lia.
    assert (saturating_sub entries entries = 0) as -> by (unfold saturating_sub; lia).
    apply IH; [unfold MAX_CHECKPOINTS_CLEARED_PER_BLOCK; lia|cbn; lia..].
Qed.

(** A pruning turn ends within its fuel: the loop of [prune_checkpoints_impl]
    gives the same result however much more fuel it gets. *)
Theorem pruning_turn_terminates n ck st s :
  prune_checkpoints_impl ck st s =
  prune_loop (S (S (Z.to_nat MAX_PIVOTS_PER_BLOCK)) + n) ck MAX_CHECKPOINTS_CLEARED_PER_BLOCK
    MAX_PIVOTS_PER_BLOCK st s.
Proof.
  apply prune_fuel; unfold MAX_CHECKPOINTS_CLEARED_PER_BLOCK, MAX_PIVOTS_PER_BLOCK,
    MAX_CHECKPOINTS_CLEARED_PER_BLOCK; cbn; lia.
Qed.
End Pruning.

(** ** Committing *)

Section Commit.
Context {C : Type} `{!Currency C} `{!CurrencyLaws C} `{Config} `{!ConfigOk} `{Keccak} `{Arch} `{!ArchOk}
  `{Bls} `{FrameStorage Z} `{!FrameStorageLaws Z} `{FrameStorage (Z * Z)}.
Variable env : Env.
Implicit Types (s : State C) (ck : Z).

(** The pallet's own errors: the loops' fuel is not one of them. *)
Definition own_error (e : DispatchError Error) : Prop := match e with Other _ => False | _ => True end.

Lemma raises_ensure_m b (x : Error) : raises own_error (ensure_m b x : PM C unit).
Proof. by apply raises_ensure. Qed.

Lemma raises_ok_or {A} (o : option A) (x : Error) : raises own_error (ok_or_m o x : PM C A).
Proof. apply raises_lift. destruct o; [done|]. by intros e [= <-]. Qed.

#[local] Ltac own := repeat first [apply raises_ensure_m | apply raises_ok_or | progress raises].

Lemma gather_raises s ck l e : gather_attestor_public_keys s ck l = Err e -> own_error e.
Proof.
  assert (forall a e, gather_attestor_public_key s ck a = Err e -> own_error e) as Hone.
  { intros a e0. unfold gather_attestor_public_key, ok_or. repeat case_match; intros [=]; by subst. }
  revert e. induction l as [|a l IH]; intros e; cbn; [done|].
  destruct (gather_attestor_public_key s ck a) eqn:Ha; [|intros [= <-]; by eapply Hone].
  destruct (gather_attestor_public_keys s ck l); [done|]. intros [= <-]. by apply IH.
Qed.

Lemma dedup_raises pks seen e : dedup_public_keys pks seen = Err e -> own_error e.
Proof.
  revert seen e. induction pks as [|pk pks IH]; intros seen e; cbn; [done|].
  destruct (_ =? _); [|by intros [= <-]].
  destruct (dedup_public_keys pks _) eqn:Hd; [by case_match|]. intros [= <-]. by eapply IH.
Qed.

Lemma validate_raises ck att : raises own_error (validate_attestation env ck att : PM C unit).
Proof.
  unfold validate_attestation, ensure_supported, validate_attestation_continuity, verify_agg_signature.
  own; apply raises_lift; intros e.
  - apply gather_raises.
  - apply dedup_raises.
Qed.

(** ** What can stop a commit *)

(** A catch-up only fails for want of a boundary's digest. *)
Lemma boundary_error ck att d q s e s' cp :
  create_checkpoints_from_queue ck att d q s = (Err e, s') ->
  settings_ok s ck -> 0 <= attestation_retention_duration s ck ->
  sa_header_number att < last_boundary (checkpoint_width s ck) ->
  LastCheckpoint s !! ck = Some cp -> 0 <= cp_block_number cp <= sa_header_number att ->
  e = ModuleError CheckpointCreationError /\
  exists t, cp_block_number cp < t <= sa_header_number att /\ t mod checkpoint_width s ck = 0 /\
    queued_digests s ck q (<[sa_header_number att := d]> (block_digests (sa_continuity_proof att)
      (start_block_number (sa_continuity_proof att) (sa_header_number att)))) !! t = None.
Proof.
  intros Hrun Hset Hret Hmax Hcp Hnum. destruct (width_ok s ck Hset) as [Hw _].
  unfold create_checkpoints_from_queue in Hrun. apply transactional_err_inv in Hrun as (s1 & Hrun).
  apply bind_err in Hrun as [Hrun|(x & ? & [-> ->]%gets_ok & Hrun)]; [done|].
  apply bind_err in Hrun as [Hrun|(cp' & ? & Hcp' & Hrun)]; [by rewrite Hcp in Hrun|].
  apply lift_ok in Hcp' as [Hcp'%ok_or_ok ->]. assert (cp' = cp) as -> by congruence.
  apply bind_err in Hrun as [Hrun|(x & ? & [-> ->]%gets_ok & Hrun)]; [done|].
  apply bind_err in Hrun as [Hrun|(x & ? & [_ ->]%ensure_ok & Hrun)].
  { unfold ensure_m in Hrun. by rewrite (proj2 (Z.ltb_lt _ _)) in Hrun by done. }
  cbv zeta in Hrun.
  apply bind_err in Hrun as [Hrun|(x1 & ? & [-> ->]%gets_ok & Hrun)]; [done|].
  apply bind_err in Hrun as [Hrun|(x2 & ? & [-> ->]%gets_ok & Hrun)]; [done|].
  apply bind_err in Hrun as [Hrun|(b & s2 & Hloop & Hrun)].
  - apply boundary_loop_fuel in Hrun; [done|done|done|done|]. unfold boundary_fuel.
    pose proof (Z.div_pos (cp_block_number cp) (checkpoint_width s ck)).
    pose proof (Z.div_pos (sa_header_number att) (checkpoint_width s ck)). lia.
  - assert (attestation_retention_duration s2 ck = attestation_retention_duration s ck) as Hret2.
    { refine (boundary_loop_leaves (fun s => attestation_retention_duration s ck) _ _ _ _ _ _ _ _ _ _ Hloop).
      intros. leaves. }
    revert Hrun. case_match; [|done]. intros [Hrun|(x3 & s3 & _ & Hrun)]%bind_err.
    + destruct (remove_attestations_total ck (attestation_removal_queue s ck ++ q ++ [d]) s2) as [s3 Hrem];
        [lia|congruence].
    + by apply bind_err in Hrun as [Hrun|(y & s4 & _ & Hrun)].
Qed.

(** Queueing always succeeds. *)
Lemma queue_total ck h d s :
  0 <= attestation_retention_duration s ck -> exists s', queue_attestation ck h d s = (Ok tt, s').
Proof.
  intros Hret. destruct (queue_attestation ck h d s) as [[[]|e] s'] eqn:Hrun; [by eexists|exfalso].
  unfold queue_attestation in Hrun.
  apply bind_err in Hrun as [Hrun|(q0 & ? & [-> ->]%gets_ok & Hrun)]; [done|].
  apply bind_err in Hrun as [Hrun|(q & s1 & Htry & Hrun)].
  { by destruct (try_make_checkpoint _ _ _ s) as [[?|[? ?]] ?]. }
  assert (steady_view ck s1 = steady_view ck s) as Hv.
  { destruct (try_make_checkpoint _ ck h s) as [[q'|[e' q']] s1'] eqn:Hmk in Htry; injection Htry as <- <-;
      exact (try_make_leaves _ _ ck _ _ _ _ Hmk). }
  injection Hv as _ _ _ Hv. destruct (_ <? _); [|done].
  unfold checkpoint_at_attestation in Hrun.
  destruct (record_checkpoint_run ck (mkCheckpoint h d) s1) as (s2 & Hrec & _).
  apply bind_err in Hrun as [Hrun|(u & s2' & Hrec' & Hrun)]; [congruence|]. rewrite Hrec in Hrec'. injection Hrec' as _ <-.
  apply bind_err in Hrun as [Hrun|(u1 & s3 & Hm & Hrun)]; [done|]. apply modify_ok in Hm as ->.
  apply bind_err in Hrun as [Hrun|(r & ? & [-> ->]%gets_ok & Hrun)]; [done|].
  assert (attestation_retention_duration s2 ck = attestation_retention_duration s1 ck) as Hret2.
  { refine ((_ : leaves (fun s => attestation_retention_duration s ck) _) _ _ _ Hrec). leaves. }
  match type of Hrun with remove_attestations _ ?r ?t = _ =>
    destruct (remove_attestations_total ck r t) as [s4 Hrem]; [|congruence] end.
  change (0 <= attestation_retention_duration s2 ck). unfold attestation_retention_duration in *. lia.
Qed.

(** A checkpoint boundary that neither the attestation nor a queued one covers. *)
Definition uncovered s (att : SignedAttestation) (t : Height) : Prop :=
  let ck := sa_chain_key att in
  let covers := fun a : SignedAttestation => sa_header_number a = t \/
    is_Some (block_digests (sa_continuity_proof a)
      (start_block_number (sa_continuity_proof a) (sa_header_number a)) !! t) in
  ~ covers att /\ forall q a, q ∈ checkpointing_queue s ck -> dget (Attestations s) ck q = Some a -> ~ covers a.

(** A long proof that leaves a boundary between the last checkpoint and the
    attestation uncovered. *)
Definition gap s (att : SignedAttestation) : Prop :=
  let ck := sa_chain_key att in
  wrap usize_bits (2 * wrap usize_bits (checkpoint_width s ck)) <= zlen (roots (sa_continuity_proof att)) /\
  exists cp t, LastCheckpoint s !! ck = Some cp /\ cp_block_number cp < t < sa_header_number att /\
    t mod checkpoint_width s ck = 0 /\ uncovered s att t.

Lemma queued_digests_none s ck queue m t :
  queued_digests s ck queue m !! t = None ->
  m !! t = None /\ forall q a, q ∈ queue -> dget (Attestations s) ck q = Some a ->
    sa_header_number a <> t /\ block_digests (sa_continuity_proof a)
      (start_block_number (sa_continuity_proof a) (sa_header_number a)) !! t = None.
Proof.
  unfold queued_digests. revert m. induction queue as [|q queue IH]; intros m Hn; cbn [foldl] in Hn.
  { split; [done|]. by intros ?? ?%not_elem_of_nil. }
  apply IH in Hn as [Hm Hall]. destruct (dget (Attestations s) ck q) as [a|] eqn:Hq.
  - apply lookup_union_None in Hm as [[Hm Hh]%lookup_union_None Hb]. split; [done|].
    intros q' a' Hin Ha'. apply elem_of_cons in Hin as [->|Hin]; [|by eapply Hall].
    assert (a' = a) as -> by congruence. split; [|done]. by apply lookup_singleton_None in Hh.
  - split; [done|]. intros q' a' Hin Ha'. apply elem_of_cons in Hin as [->|Hin]; [congruence|by eapply Hall].
Qed.

(** Validated first attestations are at the genesis height. *)
Lemma first_is_genesis att s u s' :
  let ck := sa_chain_key att in
  validate_attestation env ck att s = (Ok u, s') -> 0 <= sa_header_number att ->
  ladder_inv (ladder_of ck s) -> l_checkpoints (ladder_of ck s) = ∅ ->
  attestation_chain_genesis_block_number s ck = sa_header_number att.
Proof.
  intros ck Hval Hnn Hinv Hnil.
  destruct (validate_ok env ck att s u s' eq_refl Hval) as (-> & _ & _ & _ & _ & _ & Hcont).
  destruct (continuity_ok att s u s Hnn Hcont) as (_ & [(Hg & _)|(d & h & Hld & _)]); [done|].
  assert (l_last (ladder_of ck s) = None) as Hnone.
  { destruct (l_last (ladder_of ck s)) as [cp|] eqn:Hcp; [|done]. apply (li_last _ Hinv) in Hcp.
    rewrite Hnil in Hcp. by rewrite lookup_empty in Hcp. }
  destruct (li_none _ Hinv Hnone) as (_ & Hh & _). unfold last_digest in Hld. cbn in Hh, Hnone.
  unfold ck in *. by rewrite Hh, Hnone in Hld.
Qed.

(** The reasons for which a commit can fail. *)
Definition full_block s ck : Prop := exists count,
  AttestationsInBlock s !! ck = Some (env_block_number env, count) /\ MaxAttestationsPerBlock <= count.

Lemma store_error att s e s' :
  store_attestation env att s = (Err e, s') ->
  e = ModuleError TooManyAttestationsInBlock /\ full_block s (sa_chain_key att).
Proof.
  pose proof per_block_pos as Hpos. intros Hrun. unfold store_attestation in Hrun.
  apply bind_err in Hrun as [Hrun|(c & ? & [-> ->]%gets_ok & Hrun)]; [done|].
  apply bind_err in Hrun as [Hrun|(x & ? & _ & Hrun)].
  - unfold ensure_m, ensure in Hrun.
    destruct (AttestationsInBlock s !! sa_chain_key att) as [[b count]|] eqn:Hb; cbn in Hrun.
    + destruct (Z.eqb_spec b (env_block_number env)) as [->|].
      * destruct (Z.ltb_spec count MaxAttestationsPerBlock); [done|]. injection Hrun as <- _.
        split; [done|]. by exists count.
      * by rewrite (proj2 (Z.ltb_lt _ _)) in Hrun by done.
    + by rewrite (proj2 (Z.ltb_lt _ _)) in Hrun by done.
  - repeat (apply bind_err in Hrun as [Hrun|(? & ? & _ & Hrun)]; [done|]). done.
Qed.

Lemma first_checkpoint_total ck h d s e s' :
  first_checkpoint ck h d s = (Err e, s') -> attestation_chain_genesis_block_number s ck = h -> False.
Proof.
  intros Hrun Hg. unfold first_checkpoint in Hrun.
  apply bind_err in Hrun as [Hrun|(g & ? & [-> ->]%gets_ok & Hrun)]; [done|].
  rewrite Hg, Z.eqb_refl in Hrun. apply bind_err in Hrun as [Hrun|(u & ? & [_ ->]%ret_ok & Hrun)]; [done|].
  destruct (record_checkpoint_run ck (mkCheckpoint h d) s) as (s2 & Hrec & _).
  apply bind_err in Hrun as [Hrun|(u1 & s3 & _ & Hrun)]; [congruence|done].
Qed.

Lemma catch_up_retention ck att d s r s' :
  create_checkpoints_from_continuity_proof ck att d s = (r, s') ->
  attestation_retention_duration s' ck = attestation_retention_duration s ck.
Proof.
  assert (leaves (fun s => attestation_retention_duration s ck)
    (create_checkpoints_from_continuity_proof ck att d : PM C bool)) as Hl; [|by apply Hl].
  unfold create_checkpoints_from_continuity_proof, create_checkpoints_from_queue.
  repeat first
    [ progress cbv zeta
    | match goal with |- leaves _ (transactional _) => apply leaves_transactional end
    | match goal with |- leaves _ (_ ≫= _) => apply leaves_bind; [|intros] end
    | apply remove_attestations_leaves; [done|done]
    | apply boundary_loop_leaves; intros; leaves
    | solve [unfold ok_or_m, ensure_m; leaves]
    | match goal with |- leaves _ (match ?x with _ => _ end) => destruct x end ].
Qed.

(** A catch-up of a stored attestation fails only over a gap. *)
Lemma catch_up_error att s s2 e s' :
  let ck := sa_chain_key att in
  create_checkpoints_from_continuity_proof ck att (sa_digest att) s2 = (Err e, s') ->
  settings_ok s2 ck -> checkpoint_width s2 ck = checkpoint_width s ck ->
  0 <= attestation_retention_duration s2 ck ->
  sa_header_number att < last_boundary (checkpoint_width s ck) ->
  LastCheckpoint s2 !! ck = LastCheckpoint s !! ck -> is_Some (LastCheckpoint s !! ck) ->
  (forall cp, LastCheckpoint s !! ck = Some cp -> 0 <= cp_block_number cp < sa_header_number att) ->
  checkpointing_queue s2 ck = checkpointing_queue s ck ->
  (forall q a, dget (Attestations s) ck q = Some a -> dget (Attestations s2) ck q = Some a) ->
  e = ModuleError CheckpointCreationError /\ gap s att.
Proof.
  intros ck Hrun Hset Hwd Hret Hmax Hcp [cp Hs] Hlast Hq Hat. destruct (width_ok s2 ck Hset) as [Hw _].
  unfold create_checkpoints_from_continuity_proof in Hrun. destruct (is_empty_proof _); [done|].
  apply bind_err in Hrun as [Hrun|(x2 & ? & [-> ->]%gets_ok & Hrun)]; [done|].
  apply bind_err in Hrun as [Hrun|(x2 & ? & [_ ->]%ensure_ok & Hrun)].
  { unfold ensure_m in Hrun. by rewrite (proj2 (Z.ltb_lt _ _)) in Hrun by done. }
  destruct (Z.ltb_spec (zlen (roots (sa_continuity_proof att)))
    (wrap usize_bits (2 * wrap usize_bits (checkpoint_width s2 ck)))) as [|Hlong]; [done|].
  apply bind_err in Hrun as [Hrun|(x2' & ? & [-> ->]%gets_ok & Hrun)]; [done|].
  specialize (Hlast cp Hs).
  apply (boundary_error ck att _ _ _ _ _ cp) in Hrun as [-> (t & Ht & Hmod & Hnone)];
    [|done|done|by rewrite Hwd|congruence|lia].
  split; [done|]. split; [by rewrite Hwd in Hlong|]. apply queued_digests_none in Hnone as [Hm Hall].
  apply lookup_insert_None in Hm as [Hb Hne]. exists cp, t. fold ck. rewrite <- Hwd. split_and!; [done|lia|lia|done|split].
  - intros [?|Hc]; [done|]. rewrite Hb in Hc. by destruct Hc.
  - intros q a Hin Ha. rewrite Hq in Hall. destruct (Hall q a Hin (Hat q a Ha)) as [Hh Hbl].
    intros [?|Hc]; [done|]. rewrite Hbl in Hc. by destruct Hc.
Qed.

Lemma commit_error origin att s e s' :
  let ck := sa_chain_key att in
  commit_attestation env origin att s = (Err e, s') ->
  settings_ok s ck -> 0 <= attestation_retention_duration s ck ->
  0 <= sa_header_number att -> sa_header_number att < last_boundary (checkpoint_width s ck) ->
  ladder_inv (ladder_of ck s) ->
  (e = BadOrigin /\ forall who, origin <> SignedOrigin who) \/
  (e = ModuleError AttestorNotActive /\ exists who, origin = SignedOrigin who /\ is_attestor s ck who = false) \/
  (exists s1, validate_attestation env ck att s = (Err e, s1)) \/
  (e = ModuleError TooManyAttestationsInBlock /\ full_block s ck) \/
  (e = ModuleError CheckpointCreationError /\ gap s att).
Proof.
  intros ck Hrun Hset Hret Hnn Hmax Hinv. unfold commit_attestation in Hrun.
  apply transactional_err_inv in Hrun as (s1 & Hrun).
  apply bind_err in Hrun as [Hrun|(who & ? & [-> ->]%ensure_signed_ok & Hrun)].
  { left. unfold ensure_signed in Hrun. destruct origin; inversion Hrun; subst; by split. }
  apply bind_err in Hrun as [Hrun|(x & ? & [-> ->]%gets_ok & Hrun)]; [done|].
  apply bind_err in Hrun as [Hrun|(x & ? & [_ ->]%ensure_ok & Hrun)].
  { right. left. unfold ensure_m, ensure in Hrun. case_bool_decide as Hin; [done|]. injection Hrun as <- _.
    split; [done|]. exists who. split; [done|]. apply bool_decide_eq_false. by rewrite <- elem_of_btree_set. }
  unfold do_commit_attestation in Hrun. fold ck in Hrun.
  apply bind_err in Hrun as [Hrun|(x0 & ? & Hval & Hrun)]; [by eauto 6|]. right. right. right.
  assert (is_u64 (sa_header_number att)) as Hu.
  { destruct (width_ok s ck Hset) as [Hw _]. pose proof (Z.mod_pos_bound (umax 64) _ Hw).
    unfold last_boundary in Hmax. unfold is_u64. rewrite umax_64, pow2_64 in *. lia. }
  destruct (validated_extends env att s x0 _ Hval Hu Hinv) as (-> & _ & _ & Hfresh & Hhead & Hlast & _).
  apply bind_err in Hrun as [Hrun|(x1 & s2 & Hsto & Hrun)]; [left; by apply store_error in Hrun|]. right.
  destruct (store_attestation_run env att s x1 s2 Hsto Hhead) as (Hl1 & _ & Hv1 & Hret1). fold ck in Hl1, Hv1, Hret1.
  cbv zeta in Hrun. apply bind_err in Hrun as [Hrun|(fst & ? & [-> ->]%gets_ok & Hrun)]; [done|].
  case_bool_decide as Hfirst.
  - exfalso. change (l_checkpoints (ladder_of ck s2) = ∅) in Hfirst. rewrite Hl1 in Hfirst.
    eapply first_checkpoint_total; [exact Hrun|].
    assert (leaves (fun s => attestation_chain_genesis_block_number s ck) (store_attestation env att : PM C unit)) as Hl.
    { unfold store_attestation. leaves. }
    rewrite (Hl _ _ _ Hsto). by eapply first_is_genesis.
  - apply bind_err in Hrun as [Hrun|(b & s3 & Hcat & Hrun)].
    + assert (forall cp, LastCheckpoint s !! ck = Some cp -> 0 <= cp_block_number cp < sa_header_number att) as Hb.
      { intros cp Hcp. split; [|by apply Hlast]. apply (li_u64 _ Hinv). rewrite (li_last _ Hinv cp Hcp). eauto. }
      apply (catch_up_error att s s2) in Hrun; [done|by eapply settings_ok_frame|by apply width_frame|fold ck; lia|done|..]; fold ck.
      * change (l_last (ladder_of ck s2) = l_last (ladder_of ck s)). by rewrite Hl1.
      * apply not_eq_None_Some. intros Hn. apply Hfirst. change (l_checkpoints (ladder_of ck s2) = ∅).
        rewrite Hl1. by apply (li_none _ Hinv).
      * done.
      * change (l_queue (ladder_of ck s2) = checkpointing_queue s ck). by rewrite Hl1.
      * intros q a Ha. change (l_attestations (ladder_of ck s2) !! q = Some a). rewrite Hl1. cbn.
        rewrite lookup_insert_ne; [done|]. intros <-. change (l_attestations (ladder_of ck s) !! sa_digest att = Some a) in Ha.
        unfold ck in Ha. congruence.
    + exfalso. destruct b; [done|]. destruct (queue_total ck (sa_header_number att) (sa_digest att) s3) as [s4 Hq].
      { rewrite (catch_up_retention _ _ _ _ _ _ Hcat). lia. }
      congruence.
Qed.

(** A commit below the last checkpoint boundary fails only with errors of the
    pallet's own. *)
Lemma commit_raises origin att s e s' :
  let ck := sa_chain_key att in
  commit_attestation env origin att s = (Err e, s') ->
  settings_ok s ck -> 0 <= attestation_retention_duration s ck ->
  0 <= sa_header_number att -> sa_header_number att < last_boundary (checkpoint_width s ck) ->
  ladder_inv (ladder_of ck s) -> own_error e.
Proof.
  intros ck Hrun Hset Hret Hnn Hmax Hinv.
  destruct (commit_error origin att s e s') as [[-> _]|[[-> _]|[[s1 Hv]|[[-> _]|[-> _]]]]]; try done.
  by eapply validate_raises.
Qed.
End Commit.
