(* ===== verification/Genesis.v ===== *)
(** * The attestation pallet's genesis

    [GenesisConfig::build] of [src/pallets/attestation/src/lib.rs] from storage
    that is empty: each configured chain's ladder is built by the operator steps
    that import checkpoints, and the state it produces satisfies the pallet's
    invariant. *)

From stdpp Require Import prelude gmap list sorting strings.
From Stdlib Require Import ZArith Lia.
From S2P Require Import Prelude Primitives Frame SupportedChains Types Ledger Roster RosterSpec.
From S2P Require Import RosterRefine Bonds Settings Validate Checkpoints Maintenance LadderFrame.
From S2P Require Import LadderSpec LadderRefine MaintRefine Teardown Pallet.

Section Genesis.
Context {C : Type} `{!Currency C} `{!CurrencyLaws C} `{Config} `{!ConfigOk} `{Keccak} `{Arch} `{!ArchOk}
  `{FrameStorage Z} `{!FrameStorageLaws Z} `{FrameStorage (Z * Z)}.
Implicit Types (s : State C) (ck : Z).

(** The checkpoints of one chain, the highest so far being the last. *)
Lemma genesis_checkpoints_ok ck cps last s last' s' :
  genesis_checkpoints ck cps last s = (Ok last', s') ->
  Forall (fun cp => is_u64 (cp_block_number cp)) cps ->
  let l := ladder_of ck s <| l_last := last |> in
  l_head l = None -> l_pruning l = None ->
  rtc operator_step l (ladder_of ck s' <| l_last := last' |>) /\ only ck s s' /\
  LastCheckpoint s' = LastCheckpoint s.
Proof.
  revert last s. induction cps as [|cp cps IH]; intros last s Hrun Hu l Hhd Hpr; cbn in Hrun.
  { run_inv. by split_and!. }
  apply Forall_cons in Hu as [Hcp Hu]. apply bind_ok in Hrun as (u1 & s1 & Hins & Hrun).
  assert (ladder_of ck s1 = put_checkpoint (cp_block_number cp) (cp_digest cp) (ladder_of ck s) /\
    only ck s s1 /\ LastCheckpoint s1 = LastCheckpoint s) as (Hl1 & Hne1 & Hlc1).
  { injection Hins as _ <-. split_and!; [by ladder_eval| |done]. intros k Hk. by ladder_eval. }
  destruct (IH _ _ Hrun Hu) as (Hst & Hne & Hlc); [by rewrite Hl1|by rewrite Hl1|].
  split_and!; [|intros k Hk; by rewrite Hne, Hne1|by rewrite Hlc].
  eapply rtc_l; [|exact Hst]. rewrite Hl1. destruct cp as [h d].
  destruct last as [lc|]; [|by apply (os_start l)].
  cbn [cp_block_number]. destruct (Z.leb_spec (cp_block_number lc) h).
  - by apply (os_raise l h d lc).
  - by apply (os_put l h d lc).
Qed.

(** A chain nothing has been recorded for. *)
Definition empty_ladder : Ladder := mkLadder ∅ ∅ ∅ None None [] [] None None.

Lemma empty_ladder_inv : ladder_inv empty_ladder.
Proof.
  constructor; cbn; try done.
  - intros h [? ?]. done.
  - intros p h. split; [set_solver|by intros (_ & ? & ?)].
  - intros _. split; [constructor|]. intros d. split; [by intros [? ?]|by intros ?%not_elem_of_nil].
Qed.

Lemma genesis_settings_ok c s' :
  genesis_config_ok c = true ->
  settings_view (gc_chain_key c) s' = (Some (gc_attestation_interval c), None, None, None,
    Some (gc_attestations_per_checkpoint c), Some MaxAttestationNodes, Some MaxAttestationNodes,
    Some (gc_target_sample_size c), None) -> settings_ok s' (gc_chain_key c).
Proof.
  unfold genesis_config_ok, settings_view. intros Hok [= V1 V2 V3 V4 V5 V6 V7 V8 V9].
  pose proof cfg_integrity as Hint. unfold integrity_test in Hint.
  rewrite !andb_true_iff, !Z.ltb_lt, !Z.leb_le in Hok, Hint. pose proof cfg_nodes. pose proof cfg_catchup.
  constructor; unfold effective_sample_size, effective_attestation_interval, effective_max_catchup,
    chain_attestation_interval, max_catchup, attestation_checkpoint_interval, max_attestors,
    max_invulnerables, target_sample_size; rewrite ?V1, ?V2, ?V3, ?V4, ?V5, ?V6, ?V7, ?V8, ?V9;
    cbn [default from_option id]; lia.
Qed.

(** What genesis leaves alone, and where it writes the settings. *)
Definition genesis_view s :=
  (Attestors s, AttestorsCount s, ActiveAttestors s, RetiredAttestorBlsKeys s, BlsKeyOwner s,
   MaxCatchup s, PendingMaxCatchup s, PendingAttestationInterval s, PendingTargetSampleSize s,
   AttestationRetentionDuration s, CheckpointClearingCursors s, BucketClearingCursors s,
   RemovedChainCleanup s, bonds_view s).

Lemma genesis_view_leaves inv c : leaves genesis_view (genesis_chain inv c : PM C unit).
Proof.
  assert (forall ck cps last, leaves genesis_view (genesis_checkpoints ck cps last : PM C _)) as Hc.
  { intros ck cps. induction cps; intros; cbn [genesis_checkpoints]; leaves. }
  unfold genesis_view, bonds_view in *. leaves.
Qed.

Lemma genesis_chain_run inv c s u s' :
  genesis_chain inv c s = (Ok u, s') ->
  Forall (fun cp => is_u64 (cp_block_number cp)) (gc_checkpoints c) ->
  ladder_of (gc_chain_key c) s = empty_ladder ->
  genesis_config_ok c = true /\ only (gc_chain_key c) s s' /\
  rtc operator_step empty_ladder (ladder_of (gc_chain_key c) s') /\
  TargetSampleSize s' = <[gc_chain_key c := gc_target_sample_size c]> (TargetSampleSize s) /\
  ChainAttestationInterval s' =
    <[gc_chain_key c := gc_attestation_interval c]> (ChainAttestationInterval s) /\
  AttestationCheckpointInterval s' =
    <[gc_chain_key c := gc_attestations_per_checkpoint c]> (AttestationCheckpointInterval s) /\
  MaxAttestors s' = <[gc_chain_key c := MaxAttestationNodes]> (MaxAttestors s) /\
  MaxInvulnerables s' = <[gc_chain_key c := MaxAttestationNodes]> (MaxInvulnerables s).
Proof.
  intros Hrun Hu He. set (ck := gc_chain_key c) in *. unfold genesis_chain in Hrun. fold ck in Hrun.
  apply bind_ok in Hrun as (u0 & s0 & Hens & Hrun). apply ensure_ok in Hens as [Hok ->].
  do 5 step_inv Hrun.
  match type of Hrun with mbind _ _ ?st = _ => set (s1 := st) in * end.
  apply bind_ok in Hrun as (u2 & s2 & Hinv & Hrun).
  apply bind_ok in Hrun as (last & s3 & Hcps & Hrun).
  assert (forall k, ladder_of k s1 = ladder_of k s) as L1 by done.
  assert (forall k, leaves (ladder_of k) (for_each (fun a => modify (fun s : State C =>
    s <| Invulnerables ::= dinsert ck a true |>)) inv : PM C unit)) as L2 by (intros k; leaves).
  assert (ladder_of ck s2 = empty_ladder) as E2 by (by rewrite (L2 ck _ _ _ Hinv), L1).
  destruct (genesis_checkpoints_ok ck _ _ _ _ _ Hcps Hu) as (Hst & Hne & Hlc); [by rewrite E2..|].
  assert (forall cps l, leaves (fun s : State C => (TargetSampleSize s, ChainAttestationInterval s,
    AttestationCheckpointInterval s, MaxAttestors s, MaxInvulnerables s))
    (genesis_checkpoints ck cps l : PM C _)) as Hleave.
  { intros cps. induction cps; intros; cbn [genesis_checkpoints]; leaves. }
  pose proof (Hleave _ _ _ _ _ Hcps) as V3. cbv beta in V3.
  assert (leaves (fun s : State C => (TargetSampleSize s, ChainAttestationInterval s,
    AttestationCheckpointInterval s, MaxAttestors s, MaxInvulnerables s))
    (for_each (fun a => modify (fun s : State C => s <| Invulnerables ::= dinsert ck a true |>)) inv
      : PM C unit)) as Hleave2 by leaves.
  rewrite (Hleave2 _ _ _ Hinv) in V3. clear Hleave Hleave2.
  assert (ladder_of ck s2 <| l_last := None |> = empty_ladder) as E2' by (by rewrite E2).
  rewrite E2' in Hst.
  assert (s' = s3 /\ last = None \/ exists cp, last = Some cp /\ s' = s3 <| LastCheckpoint ::= <[ck := cp]> |>)
    as Hs'.
  { destruct last; [right|left]; run_inv; eauto. }
  injection V3 as V1 V2 V3 V4 V5.
  assert (only ck s s' /\ rtc operator_step empty_ladder (ladder_of ck s')) as [Ho Hr].
  { destruct Hs' as [[-> ->]|(cp & -> & ->)].
    - split; [intros k Hk; by rewrite Hne, (L2 k _ _ _ Hinv), L1|].
      assert (LastCheckpoint s3 !! ck = None) as Hn.
      { rewrite Hlc. change (l_last (ladder_of ck s2) = None). by rewrite E2. }
      replace (ladder_of ck s3) with (ladder_of ck s3 <| l_last := None |>); [done|].
      unfold ladder_of. by rewrite Hn.
    - split.
      + intros k Hk. rewrite <- L1, <- (L2 k _ _ _ Hinv), <- Hne by done. by ladder_eval.
      + replace (ladder_of ck _) with (ladder_of ck s3 <| l_last := Some cp |>); [done|]. by ladder_eval. }
  by destruct Hs' as [[-> _]|(cp & _ & ->)].
Qed.

Lemma genesis_chain_inv inv sup live c s u s' :
  genesis_chain inv c s = (Ok u, s') ->
  Forall (fun cp => is_u64 (cp_block_number cp)) (gc_checkpoints c) ->
  ladder_of (gc_chain_key c) s = empty_ladder ->
  (forall k, no_pending s k) -> pallet_inv sup live s ->
  only (gc_chain_key c) s s' /\ (forall k, no_pending s' k) /\ pallet_inv sup live s'.
Proof.
  intros Hrun Hu He Hnp Hinv.
  destruct (genesis_chain_run inv c s u s' Hrun Hu He) as (Hok & Ho & Hst & T1 & T2 & T3 & T4 & T5).
  pose proof (genesis_view_leaves inv c s _ s' Hrun) as Hv. pose proof (f_equal snd Hv) as Hb.
  unfold genesis_view in Hv.
  injection Hv as V1 V2 V3 V4 V5 V6 V7 V8 V9 V10 V11 V12 V13 _.
  assert (forall k, no_pending s' k) as Hnp' by (intros k; unfold no_pending; rewrite V6, V7, V8, V9; apply Hnp).
  assert (forall k, rtc roster_step (roster_of k s) (roster_of k s')) as Hro.
  { apply (refines_at (gc_chain_key c)).
    - apply rtc_once. unfold roster_of, attestors_count, active_attestor_set, max_attestors.
      rewrite V1, V2, V3, V4, V5, T4, lookup_insert_eq.
      apply (rs_set_max (roster_of (gc_chain_key c) s)). cbn. lia.
    - intros k Hk. unfold roster_of, attestors_count, active_attestor_set, max_attestors.
      by rewrite V1, V2, V3, V4, V5, T4, lookup_insert_ne. }
  split_and!; [done|done|]. constructor.
  - intros k. eapply roster_steps_inv; [apply Hro|apply Hinv].
  - intros k Hk. eapply roster_steps_keys_inv; [apply Hro|apply Hinv|by apply Hinv].
  - intros k Hk. unfold active_attestor_set. rewrite V3. by apply Hinv.
  - eapply bonds_inv_frame; [exact Hb|apply Hinv].
  - apply (settings_at (gc_chain_key c) s); [| |apply Hinv].
    + intros k Hk. unfold settings_view. rewrite T1, T2, T3, T4, T5, V6, V7, V8, V9.
      by rewrite !lookup_insert_ne by done.
    + apply genesis_settings_ok; [done|]. unfold settings_view. destruct (Hnp' (gc_chain_key c)) as (-> & -> & -> & ->).
      rewrite T1, T2, T3, T4, T5. by rewrite !lookup_insert_eq.
  - intros k _. apply Hnp'.
  - intros k. unfold attestation_retention_duration. rewrite V10. apply Hinv.
  - intros k Hk. destruct (decide (k = gc_chain_key c)) as [->|Hne]; [|rewrite Ho by done; by apply Hinv].
    eapply any_steps_inv; [|apply empty_ladder_inv]. eapply rtc_subrel; [|exact Hst]. by right.
  - intros k Hk. unfold not_clearing. rewrite V11, V12, V13. by apply Hinv.
Qed.

Lemma empty_state_inv sup live (c : C) :
  (forall a, get_locked_balance c a = 0) -> pallet_inv sup live (empty_state c).
Proof.
  intros Hlock. constructor.
  - intros ck. constructor; cbn; try done; pose proof cfg_nodes; try lia.
    + change (0 <= MaxAttestationNodes). lia.
    + apply NoDup_nil_2.
    + by intros a ?%not_elem_of_nil.
  - intros ck _. by constructor.
  - done.
  - constructor; [constructor|intros ck; apply cfg_min_bond|by intros ck a v].
    + by intros a l.
    + intros a. unfold ledger_total. cbn. apply Hlock.
  - intros ck. by apply settings_ok_default.
  - done.
  - intros ck. apply cfg_retention.
  - intros ck _. apply empty_ladder_inv.
  - done.
Qed.

(** From empty storage, with each chain configured once. *)
Lemma genesis_inv inv chains sup live s u s' :
  genesis_build inv chains s = (Ok u, s') -> NoDup (map gc_chain_key chains) ->
  Forall (fun c => Forall (fun cp => is_u64 (cp_block_number cp)) (gc_checkpoints c)) chains ->
  (forall c, c ∈ chains -> ladder_of (gc_chain_key c) s = empty_ladder) ->
  (forall k, no_pending s k) -> pallet_inv sup live s -> pallet_inv sup live s'.
Proof.
  unfold genesis_build. revert s. induction chains as [|c chains IH]; intros s Hrun Hnd Hu He Hnp Hinv;
    cbn [for_each] in Hrun; [by run_inv|].
  apply NoDup_cons in Hnd as [Hc Hnd]. apply Forall_cons in Hu as [Huc Hu].
  apply bind_ok in Hrun as (u1 & s1 & Hg & Hrun).
  destruct (genesis_chain_inv inv sup live c s u1 s1 Hg Huc) as (Ho & Hnp1 & Hinv1);
    [apply He; by left|done|done|].
  apply (IH s1); [done|done|done| |done|done]. intros c' Hc'. rewrite Ho; [apply He; by right|].
  intros Heq. apply Hc. rewrite <- Heq. apply list_elem_of_In, in_map, list_elem_of_In, Hc'.
Qed.
End Genesis.
