(* ===== verification/Runtime.v ===== *)
(** * The pallets composed

    The runtime of [src/runtime/src/lib.rs] wires the pallets together: the
    attestation pallet is told of registrations and removals by the
    supported-chains pallet and reads the chain table through its provider
    interface. The composed system's steps are every call of the two pallets,
    block initialisation and epoch changes; its invariant holds in every state
    reachable from genesis. *)

From stdpp Require Import prelude gmap list sorting strings.
From Stdlib Require Import ZArith Lia.
From S2P Require Import Prelude Primitives Frame SupportedChains Randomness Types Ledger Roster RosterSpec.
From S2P Require Import RosterRefine Bonds Settings Validate Checkpoints Maintenance LadderFrame.
From S2P Require Import LadderSpec LadderRefine MaintRefine Teardown Pallet Genesis.

Section Chains.
Context {C : Type} `{!Currency C} `{!CurrencyLaws C} `{Config} `{!ConfigOk} `{Keccak} `{Arch}
  `{FrameStorage Z} `{!FrameStorageLaws Z} `{FrameStorage (Z * Z)}.
Implicit Types (s : State C) (ck : Z).

(** ** Registration *)

Lemma registered_rosters ck p s u s' :
  on_chain_registered ck p s = (Ok u, s') ->
  forall k, rtc roster_step (roster_of k s) (roster_of k s').
Proof.
  intros Hrun. unfold on_chain_registered, deposit_event in Hrun. run_inv.
  repeat match goal with H : check_param _ _ _ _ = _ |- _ =>
    let K := fresh "K" in apply check_param_ok in H as [-> K] end.
  apply (refines_at ck).
  - apply rtc_once. roster_eval. apply (rs_set_max (roster_of ck s)). apply default_param; [lia|].
    intros v Hv. specialize (K0 v Hv). lia.
  - intros k Hk. by roster_eval.
Qed.

Lemma registration_keeps_inv sup live ck p s u s' :
  unsigned_params p -> sup ck = false -> on_chain_registered ck p s = (Ok u, s') ->
  pallet_inv sup live s -> pallet_inv (fun k => bool_decide (k = ck) || sup k) live s'.
Proof.
  intros Hp Hck Hrun Hinv. pose proof (registered_rosters ck p s u s' Hrun) as Hro.
  pose proof ((ltac:(leaves) : leaves (fun s : State C => (CheckpointClearingCursors s,
    BucketClearingCursors s, RemovedChainCleanup s, AttestationRetentionDuration s,
    PendingAttestationInterval s, PendingTargetSampleSize s, PendingMaxCatchup s, MaxCatchup s,
    ActiveAttestors s)) (on_chain_registered ck p)) _ _ _ Hrun) as Hv.
  injection Hv as V1 V2 V3 V4 V5 V6 V7 V8 V9.
  assert (forall k, bool_decide (k = ck) || sup k = false -> sup k = false) as Hsub
    by (intros k [_ ?]%orb_false_iff; done).
  destruct (pi_pending _ _ _ Hinv ck Hck) as (N1 & N2 & N3 & N4). constructor.
  - intros k. eapply roster_steps_inv; [apply Hro|apply Hinv].
  - intros k Hk. eapply roster_steps_keys_inv; [apply Hro|apply Hinv|by apply Hinv].
  - intros k Hk. unfold active_attestor_set. rewrite V9. by apply Hinv, Hsub.
  - assert (leaves bonds_view (on_chain_registered ck p : M (State C) _ _)) as Hl by leaves.
    eapply bonds_inv_frame; [by eapply Hl|apply Hinv].
  - eapply registration_keeps_settings; [done|done|done|done|done|exact Hrun|apply Hinv].
  - intros k Hk. unfold no_pending. rewrite V5, V6, V7, V8. by apply Hinv, Hsub.
  - intros k. unfold attestation_retention_duration. rewrite V4. apply Hinv.
  - intros k Hk. assert (leaves (ladder_of k) (on_chain_registered ck p : M (State C) _ _)) as Hl by leaves.
    rewrite (Hl _ _ _ Hrun). by apply Hinv.
  - intros k Hk. unfold not_clearing. rewrite V1, V2, V3. by apply Hinv.
Qed.

(** ** Removal *)

Lemma removed_succeeds ck b : succeeds (on_chain_removed ck b : PM C unit).
Proof. succeeds. Qed.

(** What a removal leaves alone on another chain. *)
#[local] Hint Extern 3 (_ = _) =>
  cbn; rewrite ?lookup_delete_ne, ?lookup_insert_ne, ?set_or_remove_ne by done; reflexivity : leaves.

Definition settings_items k s :=
  (settings_view k s, ActiveAttestors s !! k, AttestationRetentionDuration s !! k,
   CheckpointClearingCursors s !! k, BucketClearingCursors s !! k, RemovedChainCleanup s !! k).

Lemma removed_items ck k b :
  k <> ck -> leaves (settings_items k) (on_chain_removed ck b : PM C unit).
Proof. intros Hk. unfold settings_items, settings_view. leaves. Qed.

Lemma removed_other_ladder ck k b :
  k <> ck -> leaves (ladder_of k) (on_chain_removed ck b : PM C unit).
Proof.
  intros Hk. unfold on_chain_removed, drop_settings, start_clearing_checkpoints.
  repeat first
    [ apply cleanup_frame | apply leaves_when
    | by apply clear_attestations_frame | by apply clear_checkpoints_frame
    | by apply clear_buckets_frame | apply leaves_bind; [|intros] | progress case_match
    | by (apply leaves_modify; intros; ladder_eval) | leaves ].
Qed.

Lemma removed_other_roster ck k b :
  k <> ck -> leaves (roster_of k) (on_chain_removed ck b : PM C unit).
Proof.
  intros Hk. unfold on_chain_removed.
  repeat first
    [ by apply cleanup_other | apply leaves_bind; [|intros]
    | by (apply leaves_modify; intros; roster_eval; rewrite ?lookup_delete_ne) | leaves ].
Qed.

(** The removed chain itself: its settings are gone, and its roster is being
    taken down. *)
Lemma removed_own ck b s u s' :
  on_chain_removed ck b s = (Ok u, s') ->
  settings_view ck s' = (None, None, None, None, None, None, None, None, None) /\
  ActiveAttestors s' !! ck = None /\ AttestationRetentionDuration s' !! ck = None /\
  (roster_inv (roster_of ck s) -> rtc teardown_step (roster_of ck s) (roster_of ck s')).
Proof.
  intros Hrun. unfold on_chain_removed in Hrun. step_inv Hrun.
  set (s1 := s <| ActiveAttestors ::= delete ck |>) in *.
  apply bind_ok in Hrun as (u2 & s2 & Hclean & Hrun). do 2 step_inv Hrun.
  apply bind_ok in Hrun as (u3 & s3 & Hatt & Hrun). do 2 step_inv Hrun.
  apply bind_ok in Hrun as (u4 & s4 & Hdrop & Hrun). unfold drop_settings in Hdrop.
  do 10 step_inv Hdrop. apply modify_ok in Hdrop as ->.
  apply bind_ok in Hrun as (u5 & s5 & Hcps & Hrun). step_inv Hrun.
  injection Hrun as _ <-.
  left_alone (@settings_view C ck) Hcps A5. left_alone (@ActiveAttestors C) Hcps B5.
  left_alone (@AttestationRetentionDuration C) Hcps C5. left_alone (@roster_of C _ ck) Hcps D5.
  left_alone (@MaxAttestors C) Hatt A3. left_alone (@MaxInvulnerables C) Hatt E3.
  left_alone (@ActiveAttestors C) Hatt B3. left_alone (@roster_of C _ ck) Hatt D3.
  left_alone (@ActiveAttestors C) Hclean B2.
  assert (ActiveAttestors s2 !! ck = None) as Hact by (rewrite B2; apply lookup_delete_eq).
  split_and!.
  - transitivity (settings_view ck s5); [done|]. rewrite A5. unfold settings_view. cbn.
    rewrite A3, E3. cbn. by rewrite !lookup_delete_eq.
  - cbn. rewrite B5. cbn. by rewrite B3.
  - cbn. rewrite C5. apply lookup_delete_eq.
  - intros Hinv. change (rtc teardown_step (roster_of ck s) (roster_of ck s5)). rewrite D5.
    change (rtc teardown_step (roster_of ck s) (roster_of ck s3)). rewrite D3.
    assert (teardown_step (roster_of ck s) (roster_of ck s1)) as Hclose.
    { unfold s1. roster_eval. rewrite lookup_delete_eq. apply (td_close (roster_of ck s)), Hinv. }
    assert (active_attestor_set s1 ck = []) as Hact1.
    { unfold active_attestor_set, s1. cbn. by rewrite lookup_delete_eq. }
    destruct (cleanup_tears ck _ s1 u2 s2 Hclean Hact1) as [Htear Hact2].
    eapply rtc_l; [exact Hclose|]. etrans; [exact Htear|]. apply rtc_once.
    assert (roster_of ck (s2 <| MaxAttestors ::= delete ck |> <| MaxInvulnerables ::= delete ck |>) =
      mkRoster (row (Attestors s2) ck) (attestors_count s2 ck) []
        (row (RetiredAttestorBlsKeys s2) ck) (row (BlsKeyOwner s2) ck) MaxAttestationNodes) as ->.
    { roster_eval. by rewrite lookup_delete_eq, Hact. }
    apply (td_close (roster_of ck s2)). lia.
Qed.

Lemma removal_keeps_inv sup live ck b s :
  (forall k, sup k = true -> live k) -> pallet_inv sup live s ->
  pallet_inv (fun k => sup k && negb (bool_decide (k = ck))) (fun k => live k /\ k <> ck)
    (on_chain_removed ck b s).2.
Proof.
  intros Hlive Hinv. destruct (removed_succeeds ck b s) as (u & s' & Hrun). rewrite Hrun. cbn [snd].
  destruct (removed_own ck b s u s' Hrun) as (Hset & Hact & Hret & Hown).
  assert (forall k, k <> ck -> settings_items k s' = settings_items k s) as Hitems.
  { intros k Hk. by eapply removed_items. }
  assert (forall k, k <> ck -> roster_of k s' = roster_of k s) as Hrost.
  { intros k Hk. by eapply removed_other_roster. }
  assert (forall k, sup k && negb (bool_decide (k = ck)) = false -> k <> ck -> sup k = false) as Hsub.
  { intros k Hk Hne. rewrite bool_decide_eq_false_2, andb_true_r in Hk by done. done. }
  constructor.
  - intros k. destruct (decide (k = ck)) as [->|Hk].
    + eapply teardown_steps_inv; [apply Hown|]; apply (pi_rosters _ _ _ Hinv).
    + rewrite Hrost by done. apply (pi_rosters _ _ _ Hinv).
  - intros k [Hk Hne]. rewrite Hrost by done. by apply Hinv.
  - intros k Hk. unfold active_attestor_set. destruct (decide (k = ck)) as [->|Hne]; [by rewrite Hact|].
    specialize (Hitems k Hne). injection Hitems as _ _ _ _ _ _ _ _ _ Ha _ _ _ _. rewrite Ha.
    apply (pi_inactive _ _ _ Hinv). auto.
  - eapply (bonds_keeps_leaves (on_chain_removed ck b)); [leaves|exact Hrun|apply Hinv].
  - intros k. destruct (decide (k = ck)) as [->|Hne]; [by apply settings_ok_default|].
    specialize (Hitems k Hne).
    eapply settings_ok_frame; [|apply (pi_settings _ _ _ Hinv)].
    change (settings_view k s') with ((settings_items k s').1.1.1.1.1). by rewrite Hitems.
  - intros k Hk. unfold no_pending. destruct (decide (k = ck)) as [->|Hne].
    + unfold settings_view in Hset. injection Hset as _ -> -> -> _ _ _ _ ->. done.
    + specialize (Hitems k Hne). injection Hitems as _ -> -> -> _ _ _ _ -> _ _ _ _ _.
      apply (pi_pending _ _ _ Hinv). auto.
  - intros k. unfold attestation_retention_duration. destruct (decide (k = ck)) as [->|Hne].
    + rewrite Hret. apply cfg_retention.
    + specialize (Hitems k Hne). injection Hitems as _ _ _ _ _ _ _ _ _ _ Hr _ _ _. rewrite Hr.
      apply (pi_retention _ _ _ Hinv).
  - intros k [Hk Hne]. rewrite (removed_other_ladder ck k b Hne _ _ _ Hrun). by apply Hinv.
  - intros k [Hk Hne]. unfold not_clearing. specialize (Hitems k Hne).
    injection Hitems as _ _ _ _ _ _ _ _ _ _ _ -> -> ->. by apply Hinv.
Qed.
End Chains.

(** A call that fails has changed nothing. *)
Ltac run_cases t s' H :=
  destruct t as [[? | ?] s'] eqn:H; cbn [snd]; [|apply transactional_err in H as ->; done].

(** ** The composed runtime *)

(** The listeners the runtime configures, and what the attestation pallet reads
    of the chain table, the block and the epoch. *)
Record Clock := mkClock { clock_block : Z; clock_era : Z; clock_epoch : Z; }.

Section Wiring.
Context {C : Type} `{!Currency C} `{Config} `{Keccak} `{Arch} `{Bls} `{FrameStorage Z}
  `{FrameStorage (Z * Z)}.

#[export] Instance attestation_on_register : OnRegisterChainProvider (State C) := on_chain_registered.
#[export] Instance attestation_on_removed : ChainRemovalListener (State C) :=
  fun chain_key remove_checkpoints s => (on_chain_removed chain_key remove_checkpoints s).2.

Definition attestation_env (clock : Clock) (s : ScState (State C)) : Env :=
  mkEnv (is_chain_supported s) (supported_chains s) (clock_block clock) (clock_era clock)
    (clock_epoch clock).

(** The epoch hook, with the clock of the block that notices the epoch. *)
Definition attestation_on_epoch (clock : Clock) : OnRandomnessUpdate (ScState (State C)) :=
  fun epoch _ s =>
    s <| sc_listener ::= fun a => (on_new_epoch_randomness (attestation_env clock s) epoch a).2 |>.

(** The three pallets' storage. *)
Definition Runtime := RnState (ScState (State C)).

(** [MaxRandomnessEntries] and [MaxSupportedChains] of the runtime. *)
Definition MaxRandomnessEntries : Z := 5.

(** The [on_initialize] hooks, in the order of the pallets, with BABE's epoch
    and randomness. *)
Definition initialize_block (clock : Clock) (randomness : Z) (s : Runtime) : Runtime :=
  let s := s <| rn_listener ::= fun sc => sc <| sc_listener ::= fun a => (on_initialize a).2 |> |> in
  rn_on_initialize (L := ScState (State C)) (OnRandomnessUpdate0 := attestation_on_epoch clock)
    MaxRandomnessEntries (clock_epoch clock) randomness s.

(** The calls, by any origin; the clock's epoch is the last one the randomness
    pallet has seen. *)
Inductive RtCall :=
| AttestationCall (c : Call)
| RegisterChain (p : RegisterParams) (strategy : option rstring)
| RemoveChain (chain_key : ChainKey) (remove_checkpoints : bool)
| SetMaturityStrategy (chain_key : ChainKey) (strategy : rstring)
| SetChainName (chain_key : ChainKey) (name : list Z).

Definition rt_call (cfg : ScConfig) (clock : Clock) (origin : Origin) (call : RtCall) (s : Runtime)
    : Runtime :=
  s <| rn_listener ::= fun sc =>
    match call with
    | AttestationCall c => sc <| sc_listener ::= fun a =>
        (dispatch (attestation_env (mkClock (clock_block clock) (clock_era clock)
          (LastSeenEpochIndex s)) sc) origin c a).2 |>
    | RegisterChain p st => (register_chain cfg origin p st sc).2
    | RemoveChain k b => (remove_chain cfg origin k b sc).2
    | SetMaturityStrategy k st => (set_maturity_strategy cfg origin k st sc).2
    | SetChainName k nm => (set_chain_name cfg origin k nm sc).2
    end |>.

(** The runtime's genesis: both pallets are built from their configuration. *)
Definition rt_genesis (cfg : ScConfig) (c : C) (invulnerables : list AccountId)
    (attestation_chains : list AttestationChainConfiguration) (chains : list SupportedChain)
    : option Runtime :=
  match genesis_build invulnerables attestation_chains (empty_state c) with
  | (Ok _, a) => mkRnState 0 ∅ [] <$> sc_genesis_build cfg chains a
  | (Err _, _) => None
  end.
End Wiring.

(** ** Its invariant *)

Section Reachable.
Context {C : Type} `{!Currency C} `{!CurrencyLaws C} `{Config} `{!ConfigOk} `{Keccak} `{Arch} `{!ArchOk}
  `{Bls} `{FrameStorage Z} `{!FrameStorageLaws Z} `{FrameStorage (Z * Z)}.
Variable cfg : ScConfig.
Hypothesis max_u32 : MaxSupportedChains cfg <= umax 32.
Implicit Types (sc : ScState (State C)) (s : @Runtime C).

(** The chains that have not been removed. *)
Definition live_chain sc (k : ChainKey) : Prop :=
  is_chain_supported sc k = true \/ ChainKeyValue sc <= k.

Definition chains_inv sc : Prop :=
  sc_inv cfg sc /\ pallet_inv (is_chain_supported sc) (live_chain sc) (sc_listener sc).

Definition rt_inv s : Prop := chains_inv (rn_listener s).

Definition rt_call_ok (call : RtCall) : Prop :=
  match call with
  | AttestationCall c => call_ok c
  | RegisterChain p _ => unsigned_params p
  | _ => True
  end.

Lemma pallet_inv_ext sup sup' live live' (a : State C) :
  (forall k, sup' k = sup k) -> (forall k, live' k -> live k) ->
  pallet_inv sup live a -> pallet_inv sup' live' a.
Proof.
  intros Hs Hl []. constructor; intros; try (by auto);
    match goal with H : sup' _ = false |- _ => rewrite Hs in H end; auto.
Qed.

Lemma supported_chains_ok sc ck : ck ∈ supported_chains sc -> is_chain_supported sc ck = true.
Proof.
  unfold supported_chains, is_chain_supported. intros Hin. apply bool_decide_eq_true.
  by apply elem_of_iter_keys in Hin.
Qed.

(** Replacing the attestation pallet's storage leaves the chain table. *)
Lemma chains_inv_with sc a :
  sc_inv cfg sc -> pallet_inv (is_chain_supported sc) (live_chain sc) a ->
  chains_inv (sc <| sc_listener := a |>).
Proof. intros [] Ha. split; [by constructor|exact Ha]. Qed.

Lemma hooks_inv sc : chains_inv sc -> chains_inv (sc <| sc_listener ::= fun a => (on_initialize a).2 |>).
Proof.
  intros [Hsc Hp]. apply chains_inv_with; [done|]. apply initialize_keeps_inv; [|done]. by left.
Qed.

Lemma epoch_inv clock e r sc : chains_inv sc -> chains_inv (attestation_on_epoch clock e r sc).
Proof.
  intros [Hsc Hp]. apply chains_inv_with; [done|].
  destruct (epoch_keeps_inv (attestation_env clock sc) e (live_chain sc) (sc_listener sc))
    as (a & Hrun & Ha); [apply supported_chains_ok|exact Hp|]. by rewrite Hrun.
Qed.

Lemma initialize_block_inv clock r s : rt_inv s -> rt_inv (initialize_block clock r s).
Proof.
  intros Hinv%hooks_inv. unfold initialize_block, rn_on_initialize. case_match; [|done].
  by apply epoch_inv.
Qed.

Lemma register_rt_inv o p st sc :
  unsigned_params p -> chains_inv sc -> chains_inv (register_chain cfg o p st sc).2.
Proof.
  intros Hp [Hsc Hinv]. run_cases (register_chain cfg o p st sc) sc' Hrun.
  split; [by eapply register_chain_inv|]. cbn [snd].
  apply register_chain_ok in Hrun as (strategy & l & v & _ & _ & _ & -> & Hreg). cbn [sc_listener].
  assert (is_chain_supported sc (ChainKeyValue sc) = false) as Hfresh.
  { apply bool_decide_eq_false. intros Hk%(inv_fresh _ _ Hsc). lia. }
  eapply pallet_inv_ext; [| |eapply (registration_keeps_inv _ _ _ _ _ _ _ Hp Hfresh Hreg Hinv)].
  - intros k. unfold is_chain_supported. cbn. rewrite lookup_insert.
    destruct (decide (ChainKeyValue sc = k)) as [->|Hk].
    + by rewrite (bool_decide_eq_true_2 (k = k)).
    + by rewrite (bool_decide_eq_false_2 (k = _)).
  - intros k [Hk|Hk]; [|right; cbn in Hk; lia]. unfold is_chain_supported in Hk. cbn in Hk.
    rewrite lookup_insert in Hk. destruct (decide (ChainKeyValue sc = k)) as [<-|Hne]; [right; lia|by left].
Qed.

Lemma remove_rt_inv o k b sc : chains_inv sc -> chains_inv (remove_chain cfg o k b sc).2.
Proof.
  intros [Hsc Hinv]. run_cases (remove_chain cfg o k b sc) sc' Hrun.
  split; [by eapply remove_chain_inv|]. cbn [snd].
  apply remove_chain_ok in Hrun as (c & Hc & ->). cbn [sc_listener].
  assert (k < ChainKeyValue sc) as Hlt by (apply (inv_fresh _ _ Hsc k); eauto).
  eapply pallet_inv_ext; [| |eapply (removal_keeps_inv _ (live_chain sc) k b)]; [| |by left|exact Hinv].
  - intros j. unfold is_chain_supported. cbn. rewrite lookup_delete.
    destruct (decide (k = j)) as [->|Hj].
    + by rewrite (bool_decide_eq_true_2 (j = j)), andb_false_r.
    + by rewrite (bool_decide_eq_false_2 (j = k)), andb_true_r.
  - intros j [Hj|Hj]; cbn in Hj.
    + unfold is_chain_supported in Hj. cbn in Hj. rewrite lookup_delete in Hj.
      destruct (decide (k = j)) as [->|Hne]; [done|]. split; [by left|done].
    + split; [by right|lia].
Qed.

(** The other two calls change what is recorded about a chain, not which chains there are. *)
Lemma same_chains sc sc' :
  (forall j, is_Some (SupportedChains sc' !! j) <-> is_Some (SupportedChains sc !! j)) ->
  ChainKeyValue sc' = ChainKeyValue sc -> sc_listener sc' = sc_listener sc ->
  sc_inv cfg sc' -> chains_inv sc -> chains_inv sc'.
Proof.
  intros Hs Hk Hl Hsc' [_ Hinv]. split; [done|]. rewrite Hl.
  assert (forall j, is_chain_supported sc' j = is_chain_supported sc j) as Hsup
    by (intros j; by apply bool_decide_ext).
  eapply pallet_inv_ext; [exact Hsup| |exact Hinv]. intros j. unfold live_chain. by rewrite Hsup, Hk.
Qed.

Lemma set_maturity_rt_inv o k st sc : chains_inv sc -> chains_inv (set_maturity_strategy cfg o k st sc).2.
Proof.
  intros Hinv. run_cases (set_maturity_strategy cfg o k st sc) sc' Hrun.
  assert (sc_inv cfg sc') by (eapply set_maturity_strategy_inv; [exact Hrun|apply Hinv]).
  unfold set_maturity_strategy, sc_deposit_event in Hrun. call_inv.
  apply (same_chains sc); try done. intros j. cbn. rewrite lookup_insert_is_Some.
  split; [intros [<-|[_ ?]]; eauto|intros ?; destruct (decide (k = j)); eauto].
Qed.

Lemma set_name_rt_inv o k nm sc : chains_inv sc -> chains_inv (set_chain_name cfg o k nm sc).2.
Proof.
  intros Hinv. run_cases (set_chain_name cfg o k nm sc) sc' Hrun.
  assert (sc_inv cfg sc') by (eapply set_chain_name_inv; [exact Hrun|apply Hinv]).
  unfold set_chain_name, sc_deposit_event in Hrun. call_inv.
  apply (same_chains sc); try done. intros j. cbn. rewrite lookup_insert_is_Some.
  split; [intros [<-|[_ ?]]; eauto|intros ?; destruct (decide (k = j)); eauto].
Qed.

Lemma rt_call_inv clock o call s : rt_call_ok call -> rt_inv s -> rt_inv (rt_call cfg clock o call s).
Proof.
  intros Hok Hinv. destruct call; cbn in Hok |- *.
  - destruct Hinv as [Hsc Hinv]. apply chains_inv_with; [done|]. 
    match goal with |- pallet_inv _ ?live (dispatch ?env _ _ _).2 =>
      apply (dispatch_keeps_inv env o live); [by left|done|exact Hinv] end.
  - by apply register_rt_inv.
  - by apply remove_rt_inv.
  - by apply set_maturity_rt_inv.
  - by apply set_name_rt_inv.
Qed.

(** *** Histories *)

(** A block's initialisation, or one call of either pallet. *)
Inductive rt_step : @Runtime C -> @Runtime C -> Prop :=
| rt_initialize clock r s : rt_step s (initialize_block clock r s)
| rt_dispatch clock o call s : rt_call_ok call -> rt_step s (rt_call cfg clock o call s).

Lemma rt_steps_inv s s' : rtc rt_step s s' -> rt_inv s -> rt_inv s'.
Proof.
  induction 1 as [|s1 s2 s3 Hs _ IH]; [done|]. intros Hinv. apply IH.
  destruct Hs; [by apply initialize_block_inv|by apply rt_call_inv].
Qed.

(** A genesis configuration within its types that names each chain once. *)
Definition genesis_ok (chains : list AttestationChainConfiguration) (table : list SupportedChain) : Prop :=
  NoDup (map gc_chain_key chains) /\
  Forall (fun c => Forall (fun cp => is_u64 (cp_block_number cp)) (gc_checkpoints c)) chains /\
  zlen table <= umax 32.

Lemma sc_genesis_listener chains (a : State C) sc :
  sc_genesis_build cfg chains a = Some sc -> sc_listener sc = a.
Proof.
  assert (forall cs k (sc0 : ScState (State C)) r, genesis_chains cs k sc0 = Some r ->
    sc_listener r.2 = sc_listener sc0) as Hl.
  { intros cs. induction cs as [|c cs IH]; intros k sc0 r Hr; cbn in Hr; [by injection Hr as <-|].
    case_match; [done|]. apply bind_Some in Hr as (n & _ & Hr). by apply IH in Hr. }
  unfold sc_genesis_build. case_match; [|done]. intros (r & Hr & [= <-])%bind_Some. by apply Hl in Hr.
Qed.

Lemma rt_genesis_inv c inv chains table s :
  (forall a, get_locked_balance c a = 0) -> genesis_ok chains table ->
  rt_genesis cfg c inv chains table = Some s -> rt_inv s.
Proof.
  intros Hlock (Hnd & Hu & Hlen) Hg. unfold rt_genesis in Hg.
  destruct (genesis_build inv chains (empty_state c)) as [[u|e] a] eqn:Hb; [|done].
  apply fmap_Some in Hg as (sc & Hsc & ->). split; [by eapply sc_genesis_inv|]. cbn.
  rewrite (sc_genesis_listener _ _ _ Hsc).
  eapply genesis_inv; [exact Hb|done|done|done|done|by apply empty_state_inv].
Qed.

(** *** One chain's ladder along a history *)

Definition chain_ladder ck s : Ladder := ladder_of ck (sc_listener (rn_listener s)).

(** The calls by which operators rewrite or remove a chain. *)
Definition rewrites (ck : ChainKey) (call : RtCall) : Prop :=
  match call with
  | AttestationCall c => operates ck c
  | RemoveChain k _ => k = ck
  | _ => False
  end.

(** Steps that are not such calls. *)
Inductive own_step (ck : ChainKey) : @Runtime C -> @Runtime C -> Prop :=
| own_initialize clock r s : own_step ck s (initialize_block clock r s)
| own_dispatch clock o call s :
    rt_call_ok call -> ~ rewrites ck call -> own_step ck s (rt_call cfg clock o call s).

Lemma own_step_rt ck s s' : own_step ck s s' -> rt_step s s'.
Proof. by destruct 1; constructor. Qed.

Lemma hooks_ladder ck sc :
  chains_inv sc -> live_chain sc ck ->
  rtc ladder_step (ladder_of ck (sc_listener sc)) (ladder_of ck (on_initialize (sc_listener sc)).2).
Proof.
  intros [_ Hinv] Hlive. destruct (initialize_succeeds (sc_listener sc)) as (u & a & Hrun).
  rewrite Hrun. by apply (initialize_refines ck _ _ _ Hrun); apply Hinv.
Qed.

Lemma epoch_ladder ck clock e r sc :
  ladder_of ck (sc_listener (attestation_on_epoch clock e r sc)) = ladder_of ck (sc_listener sc).
Proof.
  assert (leaves (ladder_of ck) (on_new_epoch_randomness (attestation_env clock sc) e : PM C unit)) as Hl.
  { unfold on_new_epoch_randomness, do_start_election, elect_attestors_for_chain. leaves. }
  cbn. destruct (on_new_epoch_randomness _ e (sc_listener sc)) as [res a] eqn:Hrun. cbn.
  by apply Hl in Hrun.
Qed.

Lemma table_calls_ladder ck o call clock s :
  match call with AttestationCall _ => False | _ => True end -> ~ rewrites ck call ->
  chain_ladder ck (rt_call cfg clock o call s) = chain_ladder ck s.
Proof.
  intros Ht Hno. set (sc := rn_listener s).
  assert (forall sc', sc_listener sc' = sc_listener sc ->
    ladder_of ck (sc_listener sc') = ladder_of ck (sc_listener sc)) as Hsame by (by intros ? ->).
  destruct call as [|p st|k b|k st|k nm]; [done|..]; unfold chain_ladder, rt_call; cbn; fold sc.
  - run_cases (register_chain cfg o p st sc) sc' Hrun.
    apply register_chain_ok in Hrun as (strategy & l & v & _ & _ & _ & -> & Hreg). cbn [sc_listener].
    assert (leaves (ladder_of ck) (on_chain_registered (ChainKeyValue sc) p : M (State C) _ _)) as Hl by leaves.
    exact (Hl _ _ _ Hreg).
  - run_cases (remove_chain cfg o k b sc) sc' Hrun.
    apply remove_chain_ok in Hrun as (c & _ & ->). cbn [sc_listener].
    destruct (removed_succeeds k b (sc_listener sc)) as (v & a1 & Ha).
    unfold on_supported_chain_removed, attestation_on_removed. rewrite Ha. cbn.
    apply (removed_other_ladder k ck b) in Ha; [done|]. cbn in Hno. congruence.
  - apply Hsame. run_cases (set_maturity_strategy cfg o k st sc) sc' Hrun.
    unfold set_maturity_strategy, sc_deposit_event in Hrun. by call_inv.
  - apply Hsame. run_cases (set_chain_name cfg o k nm sc) sc' Hrun.
    unfold set_chain_name, sc_deposit_event in Hrun. by call_inv.
Qed.

(** A chain that is not removed stays so. *)
Lemma table_calls_live ck o call clock s :
  rt_inv s -> ~ rewrites ck call -> live_chain (rn_listener s) ck ->
  live_chain (rn_listener (rt_call cfg clock o call s)) ck.
Proof.
  intros [Hsc _] Hno Hlive. set (sc := rn_listener s) in *.
  assert (forall sc', (is_Some (SupportedChains sc !! ck) -> is_Some (SupportedChains sc' !! ck)) ->
    ChainKeyValue sc' <= ChainKeyValue sc -> live_chain sc' ck) as Hmono.
  { intros sc' Hs Hk. destruct Hlive as [Hl|Hl]; [left|right; lia].
    apply bool_decide_eq_true. apply bool_decide_eq_true in Hl. auto. }
  destruct call as [|p st|k b|k st|k nm]; [done|..]; cbn; fold sc.
  - run_cases (register_chain cfg o p st sc) sc' Hrun.
    apply register_chain_ok in Hrun as (strategy & l & v & _ & _ & _ & -> & Hreg).
    unfold live_chain, is_chain_supported. cbn. rewrite lookup_insert.
    destruct (decide (ChainKeyValue sc = ck)) as [<-|Hne]; [by left|].
    destruct Hlive as [Hl|Hl]; [by left|right; lia].
  - run_cases (remove_chain cfg o k b sc) sc' Hrun.
    apply remove_chain_ok in Hrun as (c & _ & ->). apply Hmono; [|done]. cbn.
    rewrite lookup_delete_ne; [done|]. cbn in Hno. congruence.
  - run_cases (set_maturity_strategy cfg o k st sc) sc' Hrun.
    unfold set_maturity_strategy, sc_deposit_event in Hrun. call_inv. apply Hmono; [|done]. cbn.
    rewrite lookup_insert_is_Some. intros ?. destruct (decide (k = ck)); auto.
  - run_cases (set_chain_name cfg o k nm sc) sc' Hrun.
    unfold set_chain_name, sc_deposit_event in Hrun. call_inv. apply Hmono; [|done]. cbn.
    rewrite lookup_insert_is_Some. intros ?. destruct (decide (k = ck)); auto.
Qed.

Lemma own_step_ladder ck s s' :
  own_step ck s s' -> rt_inv s -> live_chain (rn_listener s) ck ->
  rtc ladder_step (chain_ladder ck s) (chain_ladder ck s') /\ live_chain (rn_listener s') ck.
Proof.
  intros [clock r s0|clock o call s0 Hok Hno] Hinv Hlive.
  - pose proof (hooks_ladder ck _ Hinv Hlive) as Hst.
    unfold initialize_block, rn_on_initialize. case_match; split; try done.
    unfold chain_ladder. cbn [rn_listener]. cbn. etrans; [exact Hst|].
    pose proof (epoch_ladder ck clock (clock_epoch clock) r
      (rn_listener s0 <| sc_listener ::= fun a => (on_initialize a).2 |>)) as He.
    cbn in He. by rewrite He.
  - split; [|by apply table_calls_live].
    destruct call as [c| | | |]; try (by rewrite table_calls_ladder).
    destruct Hinv as [Hsc Hinv]. unfold chain_ladder. cbn. set (env := attestation_env _ _).
    destruct (dispatch env o c (sc_listener (rn_listener s0))) as [[u|e] a] eqn:Hrun; cbn.
    + eapply (call_step_own ck c); [done|]. eapply dispatch_ladder; [exact Hrun|exact Hok|apply Hinv..|].
      intros k Hk. apply (pi_ladder _ _ _ Hinv). by left.
    + assert (a = sc_listener (rn_listener s0)) as ->; [|done]. destruct c; eapply rolls_back_transactional, Hrun.
Qed.
End Reachable.
