(* ===== verification/Concrete.v ===== *)
(** * A concrete runtime

    Instances of everything the development leaves abstract, small enough to
    evaluate: balances as two maps, a signature scheme with one valid signature,
    the toy hash, storage iterated in key order, and the configuration of
    [src/runtime/src/lib.rs]. The theorems' examples run the pallets on them. *)

From stdpp Require Import prelude gmap list sorting strings.
From Stdlib Require Import ZArith Lia.
From S2P Require Import Prelude Primitives Merkle Frame SupportedChains Randomness Types Ledger Roster.
From S2P Require Import Settings Validate Checkpoints Maintenance Pallet Runtime.

(** ** Balances *)

Record Wallet := mkWallet { w_free : gmap Z Z; w_locked : gmap Z Z; }.

#[export] Instance wallet_currency : Currency Wallet := {|
  free_balance := fun c a => default 0 (w_free c !! a);
  minimum_balance := 1;
  locks := fun c a => match w_locked c !! a with Some n => [(BOND_LOCK_ID, n)] | None => [] end;
  transfer_keep_alive := fun a b n c =>
    let from := default 0 (w_free c !! a) in
    if n + 1 <=? from then
      let m := <[a := from - n]> (w_free c) in
      Ok (mkWallet (<[b := default 0 (m !! b) + n]> m) (w_locked c))
    else Err "insufficient balance";
  set_lock := fun _ a n c =>
    if n =? 0 then c else mkWallet (w_free c) (<[a := wrap 128 n]> (w_locked c));
  remove_lock := fun _ a c => mkWallet (w_free c) (delete a (w_locked c));
  inc_consumers := fun _ c => Ok c;
  dec_consumers := fun _ c => c;
|}.

#[export] Instance wallet_laws : CurrencyLaws Wallet.
Proof.
  constructor; unfold get_locked_balance, set_lock, remove_lock, locks, transfer_keep_alive,
    inc_consumers, dec_consumers, wallet_currency.
  - intros a n c b Hn. rewrite (proj2 (Z.eqb_neq n 0)) by lia. cbn [w_locked].
    rewrite lookup_insert. case_decide; [|done]. cbn [foldl fst snd]. rewrite Z.eqb_refl, Z.add_0_l.
    unfold umax in Hn. by rewrite !wrap_small by (rewrite ?wrap_small; lia).
  - done.
  - intros a c b. cbn [w_locked]. rewrite lookup_delete. by case_decide.
  - intros a b n c c' x. case_match; [|done]. by intros [= <-].
  - by intros a c c' x [= <-].
  - done.
Qed.

(** ** Signatures, storage, configuration *)

#[export] Instance toy_bls : Bls := {|
  PublicKey := list Z;
  Signature := list Z;
  pk_from_bytes := Some;
  pk_as_bytes := id;
  sig_from_bytes := Some;
  bls_verify := fun sig _ _ => bool_decide (sig = to_be_bytes 96 7);
  aggregate_public_keys := fun keys => Some (concat keys);
  verify_agg_message := fun sig _ _ => bool_decide (sig = to_be_bytes 96 7);
|}.

#[export] Instance toy_hash : Keccak := toy_keccak.
#[export] Instance wasm : Arch := 32.
#[export] Instance wasm_ok : ArchOk.
Proof. unfold ArchOk, usize_bits, wasm. lia. Qed.

Definition pair_le (p q : Z * Z) : Prop := p.1 < q.1 \/ p.1 = q.1 /\ p.2 <= q.2.

#[export] Instance pair_le_dec : RelDecision pair_le.
Proof. intros p q. unfold pair_le. apply _. Defined.

#[export] Instance z_storage : FrameStorage Z := toy_storage Z.le.
#[export] Instance pair_storage : FrameStorage (Z * Z) := toy_storage pair_le.
#[export] Instance z_storage_laws : FrameStorageLaws Z.
Proof. apply toy_storage_laws. Qed.

#[export] Instance mainnet : Config := runtime_config (fun who => who =? 1).
#[export] Instance mainnet_ok : ConfigOk.
Proof. apply runtime_config_ok. Qed.

(** The supported-chains pallet's configuration in the runtime. *)
Definition sc_cfg : ScConfig := mkScConfig MATURITY_EVM_SAFE 32 OperatorsOrigin.

(** ** A run

    Genesis with one chain at a checkpoint; an attestor registers and starts
    attesting, is elected at the first epoch, and has an attestation committed. *)

Definition wallet : Wallet := mkWallet {[10 := 10 ^ 21]} ∅.

Definition genesis_chains1 : list AttestationChainConfiguration :=
  [mkChainConfiguration 1 120 10 10 [mkCheckpoint 100 777]].

Definition start : @Runtime Wallet :=
  default (mkRnState 0 ∅ [] (mkScState ∅ 0 ∅ 1 [] (empty_state wallet)))
    (rt_genesis sc_cfg wallet [] genesis_chains1 [ex_chain 1 "eth"]).

Definition clock1 : Clock := mkClock 1 0 1.

Definition run1 : @Runtime Wallet :=
  initialize_block clock1 4242
    (rt_call sc_cfg clock1 (SignedOrigin 20) (AttestationCall (Attest 1 555 7))
      (rt_call sc_cfg clock1 (SignedOrigin 10) (AttestationCall (RegisterAttestor 1 20)) start)).

Definition commit1 : SignedAttestation :=
  let proof := mkContinuityProof 777 [1; 2; 3; 4; merkle_root ex_tree; 6; 7; 8; 9] in
  mkSignedAttestation
    (mkAttestationData 1 110 999 10 (Some (compute_continuity_digest proof 101))) 7 [20] proof.

Definition run2 : @Runtime Wallet :=
  rt_call sc_cfg clock1 (SignedOrigin 20) (AttestationCall (CommitAttestation commit1)) run1.

(** A catch-up under one checkpoint per attestation interval. *)
Definition operator_calls (calls : list Call) (s : @Runtime Wallet) : @Runtime Wallet :=
  foldl (fun s c => rt_call sc_cfg clock1 (SignedOrigin 1) (AttestationCall c) s) s calls.

Definition next_attestation (tip : Digest) (from to : Height) : SignedAttestation :=
  let proof := mkContinuityProof tip (seqZ 1 (to - from - 1)) in
  mkSignedAttestation
    (mkAttestationData 1 to 999 10 (Some (compute_continuity_digest proof (from + 1)))) 7 [20] proof.

Definition dense : @Runtime Wallet := operator_calls [SetAttestationsPerCheckpoint 1 1] run1.
Definition catch_up1 : SignedAttestation := next_attestation 777 100 125.
Definition caught_up : @Runtime Wallet :=
  rt_call sc_cfg clock1 (SignedOrigin 20) (AttestationCall (CommitAttestation catch_up1)) dense.
Definition pallet_of (s : @Runtime Wallet) : State Wallet := sc_listener (rn_listener s).
