(* ===== verification/Guarantees.v ===== *)
(** * What the attestation system guarantees

    Theorems about every state the runtime can reach from genesis: its calls and
    hooks refine the roster and ladder machines, a checkpoint that can be read
    stays, a chain's attestations form one hash chain, attestations need a
    quorum, keys are not shared, and bonds are locked. Each is followed by its
    instance on the concrete runtime. *)

From stdpp Require Import prelude gmap list sorting strings.
From Stdlib Require Import ZArith Lia.
From S2P Require Import Prelude Primitives Frame SupportedChains Randomness Types Ledger Roster.
From S2P Require Import RosterSpec RosterRefine Bonds Settings Validate Checkpoints Maintenance.
From S2P Require Import LadderSpec History LadderRefine MaintRefine Pallet Genesis Runtime Concrete.
From S2P Require Import Termination.

Section Guarantees.
Context {C : Type} `{!Currency C} `{!CurrencyLaws C} `{Config} `{!ConfigOk} `{Keccak} `{Arch} `{!ArchOk}
  `{Bls} `{FrameStorage Z} `{!FrameStorageLaws Z} `{FrameStorage (Z * Z)}.
Variable cfg : ScConfig.
Implicit Types (s : @Runtime C) (ck : Z).

(** States reached from genesis: balances without locks, any configuration
    within its types that names each chain once, then any sequence of blocks and
    calls. *)
Definition reached s : Prop :=
  exists c invulnerables chains table s0,
    (forall a, get_locked_balance c a = 0) /\ genesis_ok chains table /\
    MaxSupportedChains cfg <= umax 32 /\
    rt_genesis cfg c invulnerables chains table = Some s0 /\ rtc (rt_step cfg) s0 s.

Lemma reached_inv s : reached s -> rt_inv cfg s.
Proof.
  intros (c & inv & chains & table & s0 & Hl & Hok & Hmax & Hg & Hst).
  eapply rt_steps_inv; [done|exact Hst|]. by eapply rt_genesis_inv.
Qed.

Definition attestation s : State C := sc_listener (rn_listener s).

Lemma reached_pallet s : reached s ->
  pallet_inv (is_chain_supported (rn_listener s)) (live_chain (rn_listener s)) (attestation s).
Proof. intros [_ Hinv]%reached_inv. exact Hinv. Qed.

(** C2: in every state reachable from genesis, by any calls of any origin and
    any blocks, the chain table is consistent and so is the attestation pallet:
    rosters count their attestors and own their keys, unsupported chains have no
    active set and no pending updates, every account's lock is its ledger's total,
    settings are within bounds, each live chain's ladder is in order, and no live
    chain is being cleaned up. *)
Theorem runtime_invariant s : reached s -> rt_inv cfg s.
Proof. apply reached_inv. Qed.

Lemma own_steps_ladder ck s s' :
  MaxSupportedChains cfg <= umax 32 ->
  rtc (own_step cfg ck) s s' -> rt_inv cfg s -> live_chain (rn_listener s) ck ->
  rtc ladder_step (chain_ladder ck s) (chain_ladder ck s') /\ ladder_inv (chain_ladder ck s').
Proof.
  intros Hmax. induction 1 as [s|s1 s2 s3 Hs _ IH]; intros Hinv Hlive.
  { split; [done|]. by apply (pi_ladder _ _ _ (proj2 Hinv)). }
  destruct (own_step_ladder cfg ck s1 s2 Hs Hinv Hlive) as [Hst Hlive'].
  destruct IH as [IH1 IH2]; [|done|split; [by etrans|done]].
  eapply rt_steps_inv; [done|apply rtc_once; by eapply own_step_rt|done].
Qed.

Lemma stable_read_ladder (a : State C) ck h : checkpoint_if_stable a ck h = stable_read (ladder_of ck a) h.
Proof. reflexivity. Qed.

(** C3: a checkpoint that can be read stays. Once [checkpoint_if_stable] returns
    a digest for a height of a chain, it returns that digest ever after, whatever
    is attested, pruned, elected or configured, until operators rewrite that
    chain's checkpoints or remove it. *)
Theorem stable_checkpoint_persists s s' ck h d :
  reached s -> live_chain (rn_listener s) ck ->
  checkpoint_if_stable (attestation s) ck h = Some d ->
  rtc (own_step cfg ck) s s' ->
  checkpoint_if_stable (attestation s') ck h = Some d.
Proof.
  intros Hr Hlive Hread Hsteps. pose proof Hr as (_ & _ & _ & _ & _ & _ & _ & Hmax & _).
  pose proof (reached_inv s Hr) as Hinv. rewrite !stable_read_ladder in *.
  destruct (own_steps_ladder ck s s' Hmax Hsteps Hinv Hlive) as [Hst _].
  assert (ladder_inv (chain_ladder ck s)) as Hli by (by apply (pi_ladder _ _ _ (proj2 Hinv))).
  change (stable_read (chain_ladder ck s) h = Some d) in Hread. change (stable_read (chain_ladder ck s') h = Some d).
  clear -Hst Hli Hread FrameStorageLaws0 H3. 
  induction Hst as [l|l1 l2 l3 Hs _ IH]; [done|].
  apply IH; [by eapply stable_read_step|by eapply ladder_step_inv].
Qed.


(** C7: every successful call refines the two abstract machines: on each live
    chain it is a sequence of roster steps and of ladder steps, where operators'
    ladder steps only occur in their own calls on that chain. *)
Theorem call_refines_machines s clock o call u a' ck :
  reached s -> call_ok call -> live_chain (rn_listener s) ck ->
  dispatch (attestation_env clock (rn_listener s)) o call (attestation s) = (Ok u, a') ->
  rtc roster_step (roster_of ck (attestation s)) (roster_of ck a') /\
  rtc (call_step ck call) (ladder_of ck (attestation s)) (ladder_of ck a').
Proof.
  intros Hinv%reached_pallet Hok Hlive Hrun. split.
  - eapply dispatch_refines; [exact Hrun|apply Hinv].
  - eapply dispatch_ladder; [exact Hrun|exact Hok|apply Hinv..|].
    intros k Hk. apply (pi_ladder _ _ _ Hinv). by left.
Qed.

Lemma commit_accepted env o att (a : State C) u a' :
  commit_attestation env o att a = (Ok u, a') ->
  exists signers pks, accepted_by a (sa_chain_key att) att signers pks.
Proof.
  intros (Hrun & _ & _)%commit_inv. unfold do_commit_attestation in Hrun.
  apply bind_ok in Hrun as (u1 & s1 & Hval & _).
  by destruct (validate_ok _ _ _ _ _ _ eq_refl Hval) as (_ & _ & _ & _ & _ & ? & _).
Qed.

(** C13: an attestation is only committed with a quorum of the active set behind
    it: the caller is active, at least the threshold of distinct active attestors
    listed in it have distinct keys, and the aggregate of those keys verifies the
    signature on it. *)
Theorem commit_has_quorum env o att (a : State C) u a' :
  commit_attestation env o att a = (Ok u, a') ->
  (exists who, o = SignedOrigin who /\ who ∈ active_attestor_set a (sa_chain_key att)) /\
  exists signers pks, accepted_by a (sa_chain_key att) att signers pks.
Proof. intros Hrun. split; [by apply commit_inv in Hrun as (_ & _ & ?)|by eapply commit_accepted]. Qed.

(** C15: two attestations committed under one active set share more than a third
    of it. So with fewer than a third of the set dishonest, conflicting
    attestations need an honest attestor that signed both. *)
Theorem quorums_overlap env1 env2 o1 o2 att1 att2 s1 (b : State C) u1 u2 a1 a2 :
  let active := active_attestor_set (attestation s1) (sa_chain_key att1) in
  reached s1 -> sa_chain_key att2 = sa_chain_key att1 ->
  active = active_attestor_set b (sa_chain_key att1) ->
  commit_attestation env1 o1 att1 (attestation s1) = (Ok u1, a1) ->
  commit_attestation env2 o2 att2 b = (Ok u2, a2) ->
  exists both : gset AccountId,
    (forall a, a ∈ both -> a ∈ sa_attestors att1 /\ a ∈ sa_attestors att2 /\ a ∈ active) /\
    zlen active < 3 * Z.of_nat (size both).
Proof.
  intros active Hinv%reached_pallet Hck Hact Hrun1 Hrun2.
  destruct (commit_accepted _ _ _ _ _ _ Hrun1) as (g1 & p1 & A1).
  destruct (commit_accepted _ _ _ _ _ _ Hrun2) as (g2 & p2 & A2). rewrite Hck in A2.
  pose proof (pi_rosters _ _ _ Hinv (sa_chain_key att1)) as Hro.
  exists (list_to_set g1 ∩ list_to_set g2). split.
  - intros a [Ha%elem_of_list_to_set Hb%elem_of_list_to_set]%elem_of_intersection.
    split_and!; [by apply A1|by apply A2|by apply A1].
  - apply (accepted_overlap _ _ _ _ _ _ _ _ _ Hact (ri_nodup _ Hro)) with (3 := A2) (2 := A1).
    pose proof (active_bound _ Hro). pose proof cfg_nodes. cbn in *. unfold active. lia.
Qed.

(** The keys and the active set of a live chain. *)
Lemma keys_identify s ck :
  reached s -> live_chain (rn_listener s) ck ->
  let a := attestation s in
  (forall x y k, attestor_bls_pubkey a ck x = Some k -> attestor_bls_pubkey a ck y = Some k -> x = y) /\
  NoDup (active_attestor_set a ck) /\ zlen (active_attestor_set a ck) <= MaxAttestationNodes /\
  (forall x, x ∈ active_attestor_set a ck -> is_Some (attestor_bls_pubkey a ck x)).
Proof.
  intros Hinv%reached_pallet Hlive a. pose proof (pi_rosters _ _ _ Hinv ck) as Hr.
  pose proof (pi_keys _ _ _ Hinv ck Hlive) as Hk. unfold attestor_bls_pubkey.
  split_and!; [|apply Hr|apply (active_bound _ Hr)|].
  - intros x y k (ax & Hx & Kx)%bind_Some (ay & Hy & Ky)%bind_Some.
    pose proof (ki_attestor _ Hk _ _ _ Hx Kx) as O1. pose proof (ki_attestor _ Hk _ _ _ Hy Ky) as O2.
    congruence.
  - intros x (ax & Hx & Hst)%(ri_active _ Hr).
    destruct (at_bls_public_key ax) as [k|] eqn:Hkey.
    + exists k. apply bind_Some. by exists ax.
    + pose proof (ri_keyed _ Hr _ _ Hx Hkey). destruct Hst; congruence.
Qed.

(** C16: no two attestors of a live chain have the same BLS key, and the active
    set is a set of registered attestors with keys, no larger than the runtime's
    maximum; so a quorum of keys is a quorum of attestors. *)
Theorem keys_identify_attestors s ck :
  reached s -> live_chain (rn_listener s) ck ->
  let a := attestation s in
  (forall x y k, attestor_bls_pubkey a ck x = Some k -> attestor_bls_pubkey a ck y = Some k -> x = y) /\
  NoDup (active_attestor_set a ck) /\ zlen (active_attestor_set a ck) <= MaxAttestationNodes /\
  (forall x, x ∈ active_attestor_set a ck -> is_Some (attestor_bls_pubkey a ck x)).
Proof. apply keys_identify. Qed.

(** C20: bonds are locked. In every reachable state the pallet's lock on an
    account is its ledger's total, which is its active stake plus its unlocking
    chunks; an account without a ledger has no lock. *)
Theorem bonds_are_locked s a :
  reached s ->
  match Ledger (attestation s) !! a with
  | Some l => get_locked_balance (currency (attestation s)) a = al_total_staked l /\ ledger_wf l /\
      al_stash l = a
  | None => get_locked_balance (currency (attestation s)) a = 0
  end.
Proof.
  intros Hinv%reached_pallet. destruct (pi_bonds _ _ _ Hinv) as [[Hl Hlock] _ _].
  specialize (Hlock a). unfold ledger_total in Hlock.
  destruct (Ledger (attestation s) !! a) as [l|] eqn:Ha; [|done].
  destruct (Hl a l Ha) as (Hst & Hwf & _). done.
Qed.

(** C27: a withdrawal unlocks exactly what has matured. It needs a ledger; the
    chunks of the current era and before leave it and its lock, later ones and the
    active stake stay locked, and a ledger with nothing left above the minimum
    balance is removed with its lock. *)
Theorem withdrawal_unlocks_matured s env stash u a' :
  reached s -> 0 < env_current_era env ->
  do_withdraw_unbonded env stash (attestation s) = (Ok u, a') ->
  exists l, Ledger (attestation s) !! stash = Some l /\
    let kept := consolidate_unlocked l (env_current_era env) in
    al_active kept = al_active l /\
    al_total_staked kept =
      al_total_staked l - chunks_sum (matured (env_current_era env) (al_unlocking l)) /\
    get_locked_balance (currency a') stash =
      (if decide (al_unlocking kept = [] /\ (al_active l < minimum_balance \/ al_active l = 0))
       then 0 else al_total_staked kept) /\
    (forall other, other <> stash ->
       get_locked_balance (currency a') other = get_locked_balance (currency (attestation s)) other).
Proof.
  intros Hinv%reached_pallet Hera Hrun. pose proof (pi_bonds _ _ _ Hinv) as Hb.
  destruct (withdraw_spec env stash _ _ _ Hb Hrun) as (l & Hl & Hb' & Hled). exists l.
  destruct (ledgers_ok _ (bi_ledger _ Hb) _ _ Hl) as (_ & Hwf & _).
  destruct (consolidate_unlocked_spec l (env_current_era env) Hwf) as (_ & Htot & _).
  split; [done|]. cbv zeta. split_and!; [done|done| |].
  - rewrite (locks_ok _ (bi_ledger _ Hb')). unfold ledger_total. rewrite Hled. unfold withdrawn_ledger.
    rewrite (proj2 (Z.ltb_lt _ _)) by done.
    set (kept := consolidate_unlocked l (env_current_era env)).
    change (al_active l) with (al_active kept). destruct (al_unlocking kept) as [|c cs].
    + destruct (_ || _) eqn:Hd.
      * rewrite orb_true_iff, Z.ltb_lt, Z.eqb_eq in Hd. rewrite decide_True by done. by rewrite lookup_delete_eq.
      * rewrite orb_false_iff, Z.ltb_ge, Z.eqb_neq in Hd. rewrite decide_False by lia.
        by rewrite lookup_insert_eq.
    + rewrite decide_False by (by intros [? _]). by rewrite lookup_insert_eq.
  - intros other Hne. rewrite !(fun a H => locks_ok _ (bi_ledger a H)) by done. unfold ledger_total.
    rewrite Hled. case_match; by rewrite ?lookup_insert_ne, ?lookup_delete_ne.
Qed.

(** C35: every setting of every chain is usable, now and once pending updates
    apply: intervals, catch-up bounds, checkpoint intervals, sample sizes and list
    sizes are positive and within their ceilings, and an attestation interval never
    exceeds the catch-up bound, so an attestation can always span one interval. *)
Theorem settings_stay_usable s ck : reached s -> settings_ok (attestation s) ck.
Proof. intros Hinv%reached_pallet. apply (pi_settings _ _ _ Hinv). Qed.

(** What an election leaves a chain with. *)
Definition elected_roster (a : State C) ck (r' : Roster) : Prop :=
  let adm := admits a ck (chain_election_policy a ck) in
  NoDup (r_active r') /\
  (forall x, x ∈ r_active r' <-> exists at_, r_attestors r' !! x = Some at_ /\ at_status at_ = Active) /\
  (forall x, r_attestors r' !! x = elected_status adm x <$> row (Attestors a) ck !! x).

Lemma elect_outcome ck epoch (a : State C) u a' :
  elect_attestors_for_chain ck epoch a = (Ok u, a') ->
  elected_roster a ck (roster_of ck a') /\ (forall k, k <> ck -> roster_of k a' = roster_of k a).
Proof.
  intros Hrun. destruct (elect_run ck epoch a) as (s' & act & Hrun' & Hnd & Hact & Hck & Hne).
  rewrite Hrun in Hrun'. injection Hrun' as _ <-. split; [|done]. rewrite Hck. split_and!; [done| |].
  - intros x. cbn [r_active r_attestors]. rewrite Hact. split.
    + intros (at_ & Hx & Hst). eexists. split; [|exact Hst]. by rewrite map_lookup_imap, Hx.
    + intros (at_ & Hx & Hst). rewrite map_lookup_imap in Hx.
      apply bind_Some in Hx as (y & Hy & [= <-]). eauto.
  - intros x. cbn [r_attestors]. rewrite map_lookup_imap. cbn [r_attestors roster_of].
    by destruct (row (Attestors a) ck !! x).
Qed.

(** The election of one chain does not read what that of another writes. *)
Definition election_view (k : ChainKey) (a : State C) :=
  (row (Attestors a) k, chain_election_policy a k, row (AuthorizedAttestors a) k).

Lemma elected_roster_frame a b ck r :
  election_view ck b = election_view ck a -> elected_roster b ck r -> elected_roster a ck r.
Proof.
  intros [= H1' H2' H3']. unfold elected_roster, admits, dget. by rewrite H1', H2', H3'.
Qed.

Lemma elect_other ck k epoch (a : State C) u a' :
  elect_attestors_for_chain ck epoch a = (Ok u, a') -> k <> ck -> election_view k a' = election_view k a.
Proof.
  intros Hrun Hk. destruct (elect_outcome ck epoch a u a' Hrun) as [_ Hne].
  pose proof (f_equal r_attestors (Hne k Hk)) as Hrow. cbn in Hrow.
  assert (leaves (fun a : State C => (ChainElectionPolicy a, AuthorizedAttestors a))
    (elect_attestors_for_chain ck epoch : PM C unit)) as Hl.
  { unfold elect_attestors_for_chain. leaves. }
  specialize (Hl _ _ _ Hrun). injection Hl as Hp Ha.
  unfold election_view, chain_election_policy. by rewrite Hrow, Hp, Ha.
Qed.

Lemma elections_outcome epoch cks (a : State C) u a' :
  NoDup cks -> for_each (fun ck => elect_attestors_for_chain ck epoch) cks a = (Ok u, a') ->
  forall k, (k ∈ cks -> elected_roster a k (roster_of k a')) /\ (k ∉ cks -> roster_of k a' = roster_of k a).
Proof.
  revert a. induction cks as [|ck cks IH]; intros a Hnd Hrun k; cbn [for_each] in Hrun.
  { apply ret_ok in Hrun as [_ ->]. split; [by intros ?%not_elem_of_nil|done]. }
  apply NoDup_cons in Hnd as [Hck Hnd]. apply bind_ok in Hrun as (u1 & a1 & Hel & Hrun).
  destruct (elect_outcome ck epoch a u1 a1 Hel) as [Hone Hne].
  specialize (IH a1 Hnd Hrun). split.
  - intros [->|Hk]%elem_of_cons; [by rewrite (proj2 (IH ck) Hck)|].
    apply (elected_roster_frame a a1); [|by apply IH].
    eapply elect_other; [exact Hel|]. by intros ->.
  - intros [Hne1 Hk]%not_elem_of_cons. by rewrite (proj2 (IH k) Hk), Hne.
Qed.

(** C34: what an epoch does. The hook never fails. On every supported chain the
    new active set is exactly the attestors whose status is now active: those that
    were, and the waiting ones the chain's policy admits, while leaving ones become
    idle; on every other chain the roster is untouched. Every chain's interval,
    catch-up bound and sample size become the values that were pending, if any, and
    nothing stays pending. *)
Theorem epoch_elects_and_applies s clock epoch :
  let env := attestation_env clock (rn_listener s) in
  let a := attestation s in
  exists a', on_new_epoch_randomness env epoch a = (Ok tt, a') /\ forall ck,
    (is_chain_supported (rn_listener s) ck = true -> elected_roster a ck (roster_of ck a')) /\
    (is_chain_supported (rn_listener s) ck = false -> roster_of ck a' = roster_of ck a) /\
    chain_attestation_interval a' ck = effective_attestation_interval a ck /\
    max_catchup a' ck = effective_max_catchup a ck /\
    target_sample_size a' ck = effective_sample_size a ck /\
    PendingAttestationInterval a' !! ck = None /\ PendingMaxCatchup a' !! ck = None /\
    PendingTargetSampleSize a' !! ck = None.
Proof.
  intros env a.
  destruct (election_succeeds env epoch a) as (u1 & a1 & Hel).
  destruct (apply_updates_run a1) as (n & a' & Hup & _).
  exists a'. split.
  { unfold on_new_epoch_randomness, attempt, mbind, M_bind. by rewrite Hel, Hup. }
  assert (Hsv : leaves (fun s : State C => (ChainAttestationInterval s, MaxCatchup s,
    TargetSampleSize s, PendingAttestationInterval s, PendingMaxCatchup s, PendingTargetSampleSize s))
    (do_start_election env epoch : PM C unit)).
  { unfold do_start_election, elect_attestors_for_chain. leaves. }
  specialize (Hsv _ _ _ Hel). injection Hsv as V1 V2 V3 V4 V5 V6.
  intros ck. destruct (apply_updates_effective a1 n a' ck Hup) as (E1 & E2 & E3 & P1 & P2 & P3).
  assert (roster_of ck a' = roster_of ck a1) as Hro.
  { assert (leaves (roster_of ck) (apply_interval_updates : PM C Z)) as Hl by leaves. by eapply Hl. }
  unfold do_start_election in Hel.
  destruct (elections_outcome epoch _ _ _ _ (NoDup_iter_keys _ _) Hel ck) as [Hin Hout].
  assert (is_chain_supported (rn_listener s) ck = true <-> ck ∈ env_supported_chains env) as Hsup.
  { unfold is_chain_supported. cbn. unfold supported_chains. by rewrite bool_decide_eq_true, elem_of_iter_keys. }
  rewrite E1, E2, E3, P1, P2, P3, Hro. unfold effective_sample_size, effective_attestation_interval,
    effective_max_catchup, chain_attestation_interval, max_catchup, target_sample_size.
  rewrite V1, V2, V3, V4, V5, V6. split_and!; try done.
  - intros Hs. by apply Hin, Hsup.
  - intros Hs. apply Hout. intros Hk%Hsup. congruence.
Qed.

(** C37: committing ends below the last checkpoint boundary of the [u64] range, and
    the bound is exact. On a live chain, for an attestation below that boundary, the
    call succeeds or fails with an error of the pallet's own or a bad origin, so the
    catch-up loop never runs out of the turns it is given. For an attestation at the
    boundary or above it the catch-up loop, started below the boundary with the
    digests of all boundaries on its way, has not ended after any number of turns:
    its next target saturates and it records the last boundary again and again. *)
Theorem commit_terminates s env o att r a' :
  let ck := sa_chain_key att in let w := checkpoint_width (attestation s) ck in
  reached s -> live_chain (rn_listener s) ck -> is_u64 (sa_header_number att) ->
  commit_attestation env o att (attestation s) = (r, a') ->
  (sa_header_number att < last_boundary w -> match r with Ok _ => True | Err e => own_error e end) /\
  (last_boundary w <= sa_header_number att -> forall turns digests b (a : State C),
     0 <= b < last_boundary w ->
     (forall t, b < t <= sa_header_number att -> t mod w = 0 -> is_Some (digests !! t)) ->
     exists a1, boundary_loop turns ck w (sa_header_number att) digests b a = (Err (Other "boundary_loop"), a1)).
Proof.
  intros ck w Hinv%reached_pallet Hlive [Hnn _] Hrun. split.
  - intros Hmax. destruct r as [u|e]; [done|].
    eapply commit_raises; [exact Hrun|apply Hinv|..|by apply Hinv]; try done.
    pose proof (pi_retention _ _ _ Hinv (sa_chain_key att)). lia.
  - intros Htop turns digests b a Hb Hdig.
    destruct (width_ok (attestation s) ck) as [Hw _]; [apply Hinv|]. by apply boundary_loop_endless.
Qed.
End Guarantees.

(** ** On the concrete runtime *)

Lemma start_reached : reached sc_cfg start.
Proof.
  exists wallet, [], genesis_chains1, [ex_chain 1 "eth"], start.
  split_and!; [done|decide_now..|vm_compute; reflexivity|done].
Qed.

(** Extend a run by one call or block. *)
Lemma reached_step cfg (s s' : @Runtime Wallet) : reached cfg s -> rt_step cfg s s' -> reached cfg s'.
Proof.
  intros (c & inv & chains & table & s0 & H1 & H2 & H3 & H4 & H5) Hs.
  exists c, inv, chains, table, s0. split_and!; try done. by eapply rtc_r.
Qed.

Lemma run1_reached : reached sc_cfg run1.
Proof.
  eapply reached_step; [|apply rt_initialize]. eapply reached_step; [|by apply rt_dispatch].
  eapply reached_step; [|by apply rt_dispatch]. apply start_reached.
Qed.

Lemma commit1_ok : call_ok (CommitAttestation commit1).
Proof. cbn [call_ok]. decide_now. Qed.

Lemma run2_reached : reached sc_cfg run2.
Proof.
  eapply reached_step; [apply run1_reached|]. apply rt_dispatch. apply commit1_ok.
Qed.

Lemma live1 (s : @Runtime Wallet) : is_chain_supported (rn_listener s) 1 = true -> live_chain (rn_listener s) 1.
Proof. by left. Qed.

Lemma runtime_invariant_witness : rt_inv sc_cfg run2.
Proof. apply (runtime_invariant sc_cfg run2). apply run2_reached. Defined.

Lemma stable_checkpoint_persists_witness : checkpoint_if_stable (attestation run2) 1 100 = Some 777.
Proof.
  apply (stable_checkpoint_persists sc_cfg run1 run2 1 100 777).
  - apply run1_reached.
  - apply live1. vm_compute. reflexivity.
  - vm_compute. reflexivity.
  - apply rtc_once, own_dispatch; [apply commit1_ok|by intros ?].
Defined.

(** The history that starts at the genesis checkpoint. *)
Definition history1 : History := mkHistory 100 100 (fun _ => 0) (fun _ => 777).

Lemma history1_on : on_history history1 (chain_ladder 1 run1).
Proof.
  assert (row (Attestations (attestation run1)) 1 = ∅) as He by (vm_compute; reflexivity).
  constructor.
  - split_and!; [decide_now..|]. cbn. intros n Hn. lia.
  - vm_compute. reflexivity.
  - intros h d Hh Hd. assert (h = 100) as -> by (cbn in Hh; lia).
    assert (l_checkpoints (chain_ladder 1 run1) !! 100 = Some 777) as Hc by (vm_compute; reflexivity).
    rewrite Hc in Hd. by injection Hd as <-.
  - intros _ d att Hd. change (row (Attestations (attestation run1)) 1 !! d = Some att) in Hd.
    rewrite He in Hd. done.
Qed.


Definition env1 : Env := attestation_env clock1 (rn_listener run1).
Definition after1 : State Wallet := (commit_attestation env1 (SignedOrigin 20) commit1 (attestation run1)).2.

Lemma commit1_succeeds :
  commit_attestation env1 (SignedOrigin 20) commit1 (attestation run1) = (Ok tt, after1).
Proof. vm_compute. reflexivity. Qed.

Lemma call_refines_machines_witness :
  rtc roster_step (roster_of 1 (attestation run1)) (roster_of 1 after1) /\
  rtc (call_step 1 (CommitAttestation commit1)) (ladder_of 1 (attestation run1)) (ladder_of 1 after1).
Proof.
  apply (call_refines_machines sc_cfg run1 clock1 (SignedOrigin 20) (CommitAttestation commit1) tt after1 1).
  - apply run1_reached.
  - apply commit1_ok.
  - apply live1. vm_compute. reflexivity.
  - apply commit1_succeeds.
Defined.

Lemma commit_has_quorum_witness :
  exists signers pks, accepted_by (attestation run1) 1 commit1 signers pks.
Proof.
  apply (commit_has_quorum env1 (SignedOrigin 20) commit1 (attestation run1) tt after1).
  apply commit1_succeeds.
Defined.

Lemma quorums_overlap_witness :
  exists both : gset AccountId,
    (forall a, a ∈ both -> a ∈ [20] /\ a ∈ [20] /\ a ∈ active_attestor_set (attestation run1) 1) /\
    1 < 3 * Z.of_nat (size both).
Proof.
  apply (quorums_overlap sc_cfg env1 env1 (SignedOrigin 20) (SignedOrigin 20) commit1 commit1 run1
    (attestation run1) tt tt after1 after1); [apply run1_reached|done|done|apply commit1_succeeds..].
Defined.

Lemma keys_identify_attestors_witness :
  NoDup (active_attestor_set (attestation run2) 1) /\ active_attestor_set (attestation run2) 1 = [20].
Proof.
  split; [|vm_compute; reflexivity].
  apply (keys_identify_attestors sc_cfg run2 1); [apply run2_reached|].
  apply live1. vm_compute. reflexivity.
Defined.

Lemma bonds_are_locked_witness :
  get_locked_balance (currency (attestation run2)) 10 = 100000000000000000000.
Proof.
  pose proof (bonds_are_locked sc_cfg run2 10 run2_reached) as Hb.
  assert (Ledger (attestation run2) !! 10 = Some (mkLedger 10 100000000000000000000 100000000000000000000 []))
    as Hl by (vm_compute; reflexivity).
  rewrite Hl in Hb. exact (proj1 Hb).
Defined.

Lemma settings_stay_usable_witness : settings_ok (attestation run2) 1.
Proof. apply (settings_stay_usable sc_cfg run2 1). apply run2_reached. Defined.

Lemma dense_reached : reached sc_cfg dense.
Proof.
  unfold dense, operator_calls. cbn [foldl]. eapply reached_step; [|by apply rt_dispatch]. apply run1_reached.
Qed.

(** A commit that catches up over two boundaries, and the loop at the top. *)
Definition dense_env : Env := attestation_env clock1 (rn_listener dense).
Definition dense_commit := commit_attestation dense_env (SignedOrigin 20) catch_up1 (attestation dense).
Definition top_att : SignedAttestation := next_attestation 777 (umax 64 - 25) (umax 64).

Lemma commit_terminates_witness :
  (is_ok dense_commit.1 = true /\ cp_block_number <$> LastCheckpoint dense_commit.2 !! 1 = Some 120 /\
   match dense_commit.1 with Ok _ => True | Err e => own_error e end) /\
  forall turns, exists a1, boundary_loop turns 1 10 (umax 64)
    {[umax 64 - 15 := 1; umax 64 - 5 := 2]} (umax 64 - 25) (attestation dense) = (Err (Other "boundary_loop"), a1).
Proof.
  assert (live_chain (rn_listener dense) 1) as Hlive by (apply live1; vm_compute; reflexivity).
  assert (checkpoint_width (attestation dense) 1 = 10) as Hw by (vm_compute; reflexivity). split.
  - split; [vm_compute; reflexivity|]. split; [vm_compute; reflexivity|].
    destruct dense_commit as [r a'] eqn:Hrun. cbn [fst].
    assert (is_u64 (sa_header_number catch_up1)) as Hu by decide_now.
    destruct (commit_terminates sc_cfg dense dense_env (SignedOrigin 20) catch_up1 r a' dense_reached Hlive Hu Hrun) as [Hend _].
    apply Hend. change (sa_chain_key catch_up1) with 1. rewrite Hw. decide_now.
  - intros turns. destruct (commit_attestation dense_env (SignedOrigin 20) top_att (attestation dense)) as [r a'] eqn:Hrun.
    assert (is_u64 (sa_header_number top_att)) as Hu by decide_now.
    destruct (commit_terminates sc_cfg dense dense_env (SignedOrigin 20) top_att r a' dense_reached Hlive Hu Hrun) as [_ Hloop].
    change (sa_chain_key top_att) with 1 in Hloop. rewrite Hw in Hloop.
    apply (Hloop ltac:(decide_now)); [decide_now|]. change (sa_header_number top_att) with (umax 64). intros t Ht Hm.
    apply Z.mod_divide in Hm as [q ->]; [|done].
    assert (q * 10 = umax 64 - 15 \/ q * 10 = umax 64 - 5) as [-> | ->] by (change (umax 64) with 18446744073709551615 in *; lia);
      by eexists.
Defined.

(** A registered attestor leaves; its bond unlocks some eras later. *)
Definition registered3 : @Runtime Wallet :=
  rt_call sc_cfg clock1 (SignedOrigin 10) (AttestationCall (RegisterAttestor 1 20)) start.
Definition run3 : @Runtime Wallet :=
  rt_call sc_cfg clock1 (SignedOrigin 10) (AttestationCall (UnregisterAttestor 1 20)) registered3.
Definition env3 : Env := attestation_env (mkClock 9 7 1) (rn_listener run3).

Lemma run3_reached : reached sc_cfg run3.
Proof.
  apply (reached_step _ registered3); [|by apply rt_dispatch].
  apply (reached_step _ start); [apply start_reached|by apply rt_dispatch].
Qed.

Lemma withdrawal_unlocks_matured_witness :
  get_locked_balance (currency (attestation run3)) 10 = 100000000000000000000 /\
  exists l, Ledger (attestation run3) !! 10 = Some l /\
    al_total_staked (consolidate_unlocked l 7) =
      al_total_staked l - chunks_sum (matured 7 (al_unlocking l)).
Proof.
  split; [vm_compute; reflexivity|].
  destruct (withdrawal_unlocks_matured sc_cfg run3 env3 10 tt
    (do_withdraw_unbonded env3 10 (attestation run3)).2 run3_reached) as (l & Hl & _ & Ht & _);
    [decide_now|vm_compute; reflexivity|].
  exists l. split; [exact Hl|exact Ht].
Defined.

(** A second epoch on the running chain. *)
Lemma epoch_elects_and_applies_witness :
  exists a', on_new_epoch_randomness env1 2 (attestation run1) = (Ok tt, a') /\
    elected_roster (attestation run1) 1 (roster_of 1 a') /\ max_catchup a' 1 = 500.
Proof.
  destruct (epoch_elects_and_applies run1 clock1 2) as (a' & Hrun & Hck).
  exists a'. split; [exact Hrun|]. destruct (Hck 1) as (Hel & _ & _ & Hmc & _). split.
  - apply Hel. vm_compute. reflexivity.
  - rewrite Hmc. vm_compute. reflexivity.
Defined.
