(* ===== verification/Prevalidate.v ===== *)
(** * Admission to the transaction pool

    [src/pallets/attestation/src/extensions.rs]: the transaction extension that
    looks at [commit_attestation] before fees are charged. It rejects what is sure
    to fail, and grants the tag that reserves an attestation's slot in the pool to
    exactly the submissions the runtime would accept. Dispatch in the same state
    then succeeds, but for the two reasons that validation does not cover. *)

From stdpp Require Import prelude gmap list sorting strings.
From Stdlib Require Import ZArith Lia.
From S2P Require Import Prelude Primitives Frame SupportedChains Randomness Types Ledger Roster.
From S2P Require Import Settings Validate Checkpoints LadderSpec LadderRefine Pallet Termination Runtime.
From S2P Require Import Concrete Guarantees.

(** ** The extension *)

(** [sp_runtime::transaction_validity], as far as the extension uses it. *)
Inductive TransactionSource := InBlock | Local | External.
Inductive InvalidTransaction := Stale | ExhaustsResources | Custom (code : Z).

#[export] Instance TransactionSource_eq_dec : EqDecision TransactionSource.
Proof. solve_decision. Defined.

Definition OVERSIZED_PROOF_CODE : Z := 1.
Definition ATTESTATION_CLEANUP_IN_PROGRESS_CODE : Z := 2.
Definition EXTENSION_IDENTIFIER : string := "PrevalidateAttestationCommit".

(** A [provides] tag, before encoding. *)
Definition Tag : Type := string * ChainKey * Digest.
Definition attestation_tag `{Keccak} (att : SignedAttestation) : Tag :=
  (EXTENSION_IDENTIFIER, sa_chain_key att, sa_digest att).

Section Extension.
Context {C : Type} `{Config} `{Keccak} `{Arch} `{Bls}.
Implicit Types (a : State C).

(** [validate]: the rejection, or the tags of the admitted transaction. *)
Definition prevalidate (env : Env) (source : TransactionSource) (origin : Origin) (call : RtCall) a
    : Result InvalidTransaction (list Tag) :=
  match origin, call with
  | SignedOrigin who, AttestationCall (CommitAttestation attestation) =>
      let chain_key := sa_chain_key attestation in
      let max_roots := wrap usize_bits
        (Z.max (max_catchup a chain_key) (chain_attestation_interval a chain_key)) in
      let is_active := is_attestor a chain_key who in
      if commit_blocked_by_cleanup a chain_key then Err (Custom ATTESTATION_CLEANUP_IN_PROGRESS_CODE)
      else if negb (attestors_within_bound a chain_key attestation) then Err ExhaustsResources
      else if max_roots <? zlen (roots (sa_continuity_proof attestation)) then
        Err (Custom OVERSIZED_PROOF_CODE)
      else if is_active && check_duplicate a attestation then Err Stale
      else if negb is_active then Ok []
      else if bool_decide (source <> InBlock) &&
        negb (is_ok (validate_attestation env chain_key attestation a).1) then Ok []
      else Ok [attestation_tag attestation]
  | _, _ => Ok []
  end.
End Extension.

Section Admission.
Context {C : Type} `{!Currency C} `{!CurrencyLaws C} `{Config} `{!ConfigOk} `{Keccak} `{Arch} `{!ArchOk}
  `{Bls} `{FrameStorage Z} `{!FrameStorageLaws Z} `{FrameStorage (Z * Z)}.
Variable cfg : ScConfig.
Implicit Types (s : @Runtime C) (a : State C) (ck : ChainKey).

Lemma validate_not_oversized env att a u a' :
  let ck := sa_chain_key att in
  validate_attestation env ck att a = (Ok u, a') ->
  attestors_within_bound a ck att = true /\
  zlen (roots (sa_continuity_proof att)) <=
    wrap usize_bits (Z.max (max_catchup a ck) (chain_attestation_interval a ck)).
Proof.
  intros ck Hval. destruct (validate_ok env ck att a u a' eq_refl Hval) as (_ & _ & _ & _ & _ & _ & Hcont).
  split.
  { unfold validate_attestation, ensure_supported in Hval. do 5 step_inv Hval. done. }
  assert (0 <= wrap usize_bits (Z.max (max_catchup a ck) (chain_attestation_interval a ck))) as Hnn.
  { unfold wrap. apply Z.mod_pos_bound. apply Z.pow_pos_nonneg; [lia|]. pose proof usize_ok. lia. }
  unfold validate_attestation_continuity, is_empty_proof in Hcont. fold ck in Hcont. step_inv Hcont.
  destruct (roots (sa_continuity_proof att)) as [|r rs] eqn:Hrs; [exact Hnn|].
  destruct (_ =? _); [step_inv Hcont; by run_inv|].
  do 4 step_inv Hcont. rewrite andb_false_r in Hcont. do 3 step_inv Hcont. by apply Z.leb_le.
Qed.

Lemma commit_ok_iff env who att a :
  (exists u a', commit_attestation env (SignedOrigin who) att a = (Ok u, a')) ->
  is_attestor a (sa_chain_key att) who = true /\
  exists u a', validate_attestation env (sa_chain_key att) att a = (Ok u, a').
Proof.
  intros (u & a' & Hrun). apply commit_inv in Hrun as (Hrun & _ & who' & [= <-] & Hact). split.
  - by apply bool_decide_eq_true.
  - unfold do_commit_attestation in Hrun. apply bind_ok in Hrun as (? & ? & Hval & _). eauto.
Qed.

(** A validated commit of an active attestor passes every check. *)
Lemma prevalidate_valid env source who att a u a' :
  let ck := sa_chain_key att in
  is_attestor a ck who = true -> validate_attestation env ck att a = (Ok u, a') ->
  prevalidate env source (SignedOrigin who) (AttestationCall (CommitAttestation att)) a =
    Ok [attestation_tag att].
Proof.
  intros ck Hact Hval. destruct (validate_ok env ck att a u a' eq_refl Hval) as (_ & _ & Hblk & Hdup & _).
  destruct (validate_not_oversized env att a u a' Hval) as [Hw Hl]. unfold prevalidate. fold ck in Hw, Hl |- *.
  rewrite Hblk, Hw, Hact, Hdup, Hval. cbn [negb andb fst is_ok]. rewrite (proj2 (Z.ltb_ge _ _)) by done.
  by rewrite andb_false_r.
Qed.

Lemma prevalidate_tag env source who att a :
  let ck := sa_chain_key att in
  source <> InBlock ->
  prevalidate env source (SignedOrigin who) (AttestationCall (CommitAttestation att)) a =
    Ok [attestation_tag att] <->
  is_attestor a ck who = true /\ is_ok (validate_attestation env ck att a).1 = true.
Proof.
  intros ck Hsrc. split.
  - unfold prevalidate. fold ck. rewrite (bool_decide_eq_true_2 (source <> InBlock)) by done.
    repeat (case_match; try done). intros _.
    destruct (is_attestor a ck who), (is_ok (validate_attestation env ck att a).1); done.
  - intros [Hact Hok]. destruct (validate_attestation env ck att a) as [[u|e] a'] eqn:Hval; [|done].
    by eapply prevalidate_valid.
Qed.

(** C17: the extension agrees with dispatch. A commit that would succeed is admitted
    with its attestation's tag, whatever its source; outside block execution the tag
    goes to nothing else than a submission of an active attestor that passes the
    runtime's own validation; so what is rejected, or admitted without a tag, fails
    in dispatch and changes nothing. Other calls pass without a tag. *)
Theorem prevalidation_agrees_with_dispatch env source who att a :
  let ck := sa_chain_key att in
  let admitted := prevalidate env source (SignedOrigin who) (AttestationCall (CommitAttestation att)) a in
  let dispatched := commit_attestation env (SignedOrigin who) att a in
  (is_ok dispatched.1 = true -> admitted = Ok [attestation_tag att]) /\
  (source <> InBlock -> (admitted = Ok [attestation_tag att] <->
     is_attestor a ck who = true /\ is_ok (validate_attestation env ck att a).1 = true)) /\
  (admitted <> Ok [attestation_tag att] -> exists e, dispatched = (Err e, a)) /\
  (forall origin call, (forall x, call <> AttestationCall (CommitAttestation x)) ->
     prevalidate env source origin call a = Ok []).
Proof.
  intros ck admitted dispatched.
  assert (is_ok dispatched.1 = true -> admitted = Ok [attestation_tag att]) as Hsucc.
  { intros Hok. destruct (commit_ok_iff env who att a) as (Hact & u & a' & Hval); [|by eapply prevalidate_valid].
    fold dispatched. destruct dispatched as [[u|e] a']; [eauto|done]. }
  split_and!; [done|by apply prevalidate_tag| |].
  - intros Hne. destruct dispatched as [[u|e] a'] eqn:Hd; [by destruct Hne; apply Hsucc|]. exists e. f_equal.
    eapply rolls_back_transactional, Hd.
  - intros origin call Hcall. destruct origin; try done. destruct call as [c| | | |]; try done.
    destruct c; try done. exfalso. by eapply Hcall.
Qed.

(** C6: a valid attestation is committed. On a reachable state and a live chain, an
    active attestor's attestation that is below the last checkpoint boundary of the
    [u64] range and passes validation, and with it every
    transaction that the pool tagged in that state, is committed when dispatched,
    unless the block has its fill of attestations for the chain, or the proof spans
    two checkpoint widths and neither it nor a queued attestation covers some
    checkpoint boundary above the last checkpoint; those two fail with
    [TooManyAttestationsInBlock] and [CheckpointCreationError]. *)
Theorem valid_attestations_commit s env who att :
  let ck := sa_chain_key att in let a := attestation s in
  reached cfg s -> live_chain (rn_listener s) ck ->
  0 <= sa_header_number att < last_boundary (checkpoint_width a ck) ->
  prevalidate env External (SignedOrigin who) (AttestationCall (CommitAttestation att)) a =
    Ok [attestation_tag att] ->
  match commit_attestation env (SignedOrigin who) att a with
  | (Ok _, _) => True
  | (Err e, a') => a' = a /\
      ((e = ModuleError TooManyAttestationsInBlock /\ full_block env a ck) \/
       (e = ModuleError CheckpointCreationError /\ gap a att))
  end.
Proof.
  intros ck a Hinv%reached_pallet Hlive [Hnn Hmax] Htag.
  destruct (commit_attestation env (SignedOrigin who) att a) as [[u|e] a'] eqn:Hrun; [done|].
  split; [by eapply rolls_back_transactional, Hrun|].
  apply prevalidate_tag in Htag as [Hact Hok]; [|done]. pose proof (pi_retention _ _ _ Hinv ck) as Hret. fold a in Hret.
  destruct (commit_error env (SignedOrigin who) att a e a') as [[_ Ho]|[[_ (w & [= <-] & Hna)]|[[a1 Hv]|Hc]]];
    try done; fold ck.
  - apply Hinv.
  - lia.
  - by apply (pi_ladder _ _ _ Hinv).
  - by destruct (Ho who).
  - by pose proof (eq_trans (eq_sym Hact) Hna).
  - pose proof (eq_trans (eq_sym Hok) (f_equal (fun r => is_ok r.1) Hv)). done.
Qed.
End Admission.

(** ** On the concrete runtime *)

Lemma prevalidation_agrees_with_dispatch_witness :
  prevalidate env1 External (SignedOrigin 20) (AttestationCall (CommitAttestation commit1)) (attestation run1) =
    Ok [attestation_tag commit1].
Proof.
  apply (proj1 (prevalidation_agrees_with_dispatch env1 External 20 commit1 (attestation run1))).
  vm_compute. reflexivity.
Defined.

(** After a catch-up the operators shorten the interval from ten blocks to two. *)
Definition narrowed : @Runtime Wallet :=
  operator_calls [SetChainAttestationInterval 1 2; ForceApplyUpdates] caught_up.
Definition stuck1 : SignedAttestation := next_attestation (sa_digest catch_up1) 125 131.
Definition narrowed_env : Env := attestation_env clock1 (rn_listener narrowed).

Lemma narrowed_reached : reached sc_cfg narrowed.
Proof.
  unfold narrowed, operator_calls. cbn [foldl].
  eapply reached_step; [|by apply rt_dispatch]. eapply reached_step; [|by apply rt_dispatch].
  eapply reached_step; [|apply rt_dispatch; cbn [call_ok]; decide_now].
  eapply reached_step; [|by apply rt_dispatch]. apply run1_reached.
Qed.

(** The checkpoints end at 120 below the head 125 and the queue is empty: the new
    boundary 122 is in no proof the pallet still reads, and the next attestation
    that spans two of the new widths fails though it is valid. *)
Lemma valid_attestations_commit_witness :
  prevalidate narrowed_env External (SignedOrigin 20) (AttestationCall (CommitAttestation stuck1))
    (attestation narrowed) = Ok [attestation_tag stuck1] /\
  commit_attestation narrowed_env (SignedOrigin 20) stuck1 (attestation narrowed) =
    (Err (ModuleError CheckpointCreationError), attestation narrowed) /\
  gap (attestation narrowed) stuck1.
Proof.
  assert (prevalidate narrowed_env External (SignedOrigin 20) (AttestationCall (CommitAttestation stuck1))
    (attestation narrowed) = Ok [attestation_tag stuck1]) as Htag by (vm_compute; reflexivity).
  split; [exact Htag|].
  assert ((commit_attestation narrowed_env (SignedOrigin 20) stuck1 (attestation narrowed)).1 =
    Err (ModuleError CheckpointCreationError)) as He by (vm_compute; reflexivity).
  assert (live_chain (rn_listener narrowed) 1) as Hlive by (apply live1; vm_compute; reflexivity).
  assert (0 <= sa_header_number stuck1 < last_boundary (checkpoint_width (attestation narrowed) 1)) as Hok by decide_now.
  pose proof (valid_attestations_commit sc_cfg narrowed narrowed_env 20 stuck1 narrowed_reached Hlive Hok Htag) as Hc.
  destruct (commit_attestation _ _ _ _) as [[u|e] a']; [discriminate He|].
  injection He as ->. destruct Hc as [-> [[Hne _]|[_ Hgap]]]; [discriminate Hne|].
  split; [reflexivity|exact Hgap].
Defined.
