(* ===== verification/BlockProver.v ===== *)
(** * The block prover precompile

    [src/precompiles/block-prover/src]: a contract asks whether a transaction is
    in a block of an attested chain. The Merkle proof leads from the transaction
    to the block's root, the continuity proof from that root to a digest that the
    attestation pallet holds as an attestation or a stable checkpoint. The EVM's
    handle (gas and logs) and the ABI encoder are parameters; the pallets'
    storage is only read. *)

From stdpp Require Import prelude gmap list sorting strings.
From Stdlib Require Import ZArith Lia.
From S2P Require Import Prelude Primitives Merkle Frame SupportedChains Types.

(** ** The EVM *)

(** [fp_evm::ExitError] and [PrecompileFailure], as far as the precompile
    builds or forwards them. *)
Inductive ExitError := OutOfGas | OtherError (msg : string).
Inductive PrecompileFailure := Revert (output : list Z) | Error (exit_status : ExitError).

Record Log := mkLog { log_address : Z; log_topics : list Z; log_data : list Z; }.

(** [fp_evm::PrecompileHandle], with [record_db_read] that [precompile_utils]
    adds to it. *)
Class PrecompileHandle (H : Type) := {
  record_cost : Z -> M H ExitError unit;
  record_db_read : Z -> M H ExitError unit;
  record_log : Log -> M H ExitError unit;
  context_address : H -> Z;
}.

(** [ethabi::encode] on one string token and on one unsigned integer. *)
Class Ethabi := {
  encode_string : string -> list Z;
  encode_uint : Z -> list Z;
}.

(** A handle has a stock of gas, from which costs are taken, and a log. *)
Class HandleLaws (H : Type) `{PrecompileHandle H} := {
  gas_left : H -> Z;
  logs : H -> list Log;
  record_cost_enough : forall n h, 0 <= n <= gas_left h ->
    exists h', record_cost n h = (Ok tt, h') /\ gas_left h' = gas_left h - n;
  record_cost_logs : forall n h r h', record_cost n h = (r, h') ->
    logs h' = logs h /\ context_address h' = context_address h;
  record_log_ok : forall l h u h', record_log l h = (Ok u, h') ->
    logs h' = logs h ++ [l] /\ gas_left h' = gas_left h /\ context_address h' = context_address h;
}.

(** The bytes of an ASCII string. *)
Definition string_bytes (s : string) : list Z :=
  map (fun c => Z.of_nat (Ascii.nat_of_ascii c)) (String.list_ascii_of_string s).

Definition CONTINUITY_BLOCK_HASH_COST : Z := 48.
Definition GAS_STORAGE_LOOKUP : Z := 2600.
Definition MAX_CONTINUITY_ROOTS : Z := 50000.
Definition CALCULATE_TX_INDEX_BASE_COST : Z := 10.
Definition CALCULATE_TX_INDEX_ITERATION_COST : Z := 18.

Definition SELECTOR_LOG_TRANSACTION_VERIFIED `{Keccak} : Z :=
  keccak256 (string_bytes "TransactionVerified(uint64,uint64,uint64)").

Definition encode_revert_message `{Ethabi} (message : string) : list Z :=
  [8; 195; 121; 160] ++ encode_string message.

(** ** Errors of the continuity check *)

Inductive ContinuityVerificationError :=
| InsufficientBlocks
| TooManyRoots
| ChainDoesNotReachQueryHeight
| NoMatchingAttestationOrCheckpoint
| RangeOverflow.

Definition message (e : ContinuityVerificationError) : string :=
  match e with
  | InsufficientBlocks => "Continuity chain cannot be empty"
  | TooManyRoots => "Continuity chain exceeds maximum allowed roots"
  | ChainDoesNotReachQueryHeight => "Continuity chain does not reach query height"
  | NoMatchingAttestationOrCheckpoint =>
      "Continuity proof does not match attestation or checkpoint"
  | RangeOverflow => "Continuity chain range overflows u64"
  end.

Section BlockProver.
Context {C H : Type} `{Keccak} `{Arch} `{PrecompileHandle H} `{Ethabi}.
Implicit Types (sc : ScState (State C)) (ck : ChainKey).

Definition EvmResult A := M H PrecompileFailure A.

(** The [?] on a call of the handle. *)
Definition evm {A} (m : M H ExitError A) : EvmResult A := fun h =>
  match m h with
  | (Ok a, h') => (Ok a, h')
  | (Err e, h') => (Err (Error e), h')
  end.

Definition reverted (msg : string) : PrecompileFailure := Revert (encode_revert_message msg).
Definition continuity_revert (e : ContinuityVerificationError) : PrecompileFailure :=
  reverted (message e).
Definition revert_with_message {A} (msg : string) : EvmResult A := fail (reverted msg).

(** ** Reads *)

Definition get_attestation_metered sc ck (d : Digest) : EvmResult (option SignedAttestation) :=
  evm (record_cost (saturating_mul 64 GAS_STORAGE_LOOKUP 2));;
  mret (get_attestation (sc_listener sc) ck d).

Definition get_checkpoint_metered sc ck (block_number : Height) : EvmResult (option Digest) :=
  evm (record_cost (saturating_mul 64 GAS_STORAGE_LOOKUP 1));;
  if bool_decide (SupportedChains sc !! ck = None) then mret None
  else
    evm (record_cost (saturating_mul 64 GAS_STORAGE_LOOKUP 2));;
    mret (checkpoint_if_stable (sc_listener sc) ck block_number).

(** ** The continuity check *)

Definition verify_continuity_chain sc (continuity_proof : ContinuityProof)
    (start_block_number : Height) ck (height : Height) : EvmResult unit :=
  let rs := roots continuity_proof in
  ensure (negb (bool_decide (rs = []))) (continuity_revert InsufficientBlocks);;
  ensure (zlen rs <=? MAX_CONTINUITY_ROOTS) (continuity_revert TooManyRoots);;
  final_block_number ← lift (ok_or (continuity_revert RangeOverflow)
    (checked_add 64 start_block_number (saturating_sub (zlen rs) 1)));
  ensure (height <=? final_block_number) (continuity_revert ChainDoesNotReachQueryHeight);;
  total_continuity_gas ← lift (ok_or (Error OutOfGas)
    (checked_mul 64 CONTINUITY_BLOCK_HASH_COST (zlen rs)));
  evm (record_cost total_continuity_gas);;
  let final_digest := compute_continuity_digest continuity_proof start_block_number in
  a ← get_attestation_metered sc ck final_digest;
  let attestation_matches :=
    match a with Some a => sa_header_number a =? final_block_number | None => false end in
  checkpoint_matches ←
    (if attestation_matches then mret false
     else
       c ← get_checkpoint_metered sc ck final_block_number;
       mret (match c with Some d => d =? final_digest | None => false end));
  ensure (attestation_matches || checkpoint_matches)
    (continuity_revert NoMatchingAttestationOrCheckpoint).

(** ** Queries *)

Definition charge_query_gas (_tx_bytes_len merkle_siblings_len : Z) : EvmResult unit :=
  merkle_gas ← lift (ok_or (Error OutOfGas)
    (checked_mul 64 CONTINUITY_BLOCK_HASH_COST merkle_siblings_len));
  evm (record_cost merkle_gas).

Definition verify_merkle_proof (merkle_proof : TransactionMerkleProof) (tx_bytes : list Z)
    : EvmResult bool :=
  charge_query_gas (zlen tx_bytes) (zlen (mp_siblings merkle_proof));;
  mret (merkle_verify merkle_proof tx_bytes).

(** The loop of [calculate_tx_index_impl], from bit [bit_position] on. *)
Fixpoint tx_index_loop (bit_position : Z) (tx_index : Z) (siblings : list MerkleProofEntry) : Z :=
  match siblings with
  | [] => tx_index
  | sibling :: rest =>
      tx_index_loop (bit_position + 1)
        (if me_is_left sibling then Z.lor tx_index (wrap 64 (Z.shiftl 1 bit_position))
         else tx_index) rest
  end.

Definition calculate_tx_index_impl (merkle_proof : TransactionMerkleProof)
    : Result PrecompileFailure Z :=
  if bool_decide (mp_siblings merkle_proof = []) then Ok 0
  else if 64 <? zlen (mp_siblings merkle_proof)
    then Err (Error (OtherError "Merkle proof has too many siblings (max 64)"))
  else Ok (tx_index_loop 0 0 (mp_siblings merkle_proof)).

Definition calculate_tx_index (merkle_proof : TransactionMerkleProof) : EvmResult Z :=
  let merkle_path_len := zlen (mp_siblings merkle_proof) in
  iteration_gas ← lift (ok_or (Error OutOfGas)
    (checked_mul 64 CALCULATE_TX_INDEX_ITERATION_COST merkle_path_len));
  total_gas ← lift (ok_or (Error OutOfGas)
    (checked_add 64 CALCULATE_TX_INDEX_BASE_COST iteration_gas));
  evm (record_cost total_gas);;
  lift (calculate_tx_index_impl merkle_proof).

(** The event of one verified transaction. *)
Definition transaction_verified (address : Z) ck (height : Height) (tx_index : Z) : Log :=
  mkLog address [SELECTOR_LOG_TRANSACTION_VERIFIED; ck; height] (encode_uint tx_index).

Definition emit_verified ck (height : Height) (merkle_proof : TransactionMerkleProof)
    : EvmResult unit :=
  tx_index ← lift (calculate_tx_index_impl merkle_proof);
  address ← gets context_address;
  evm (record_log (transaction_verified address ck height tx_index)).

(** What [verify_impl] and the loop of [verify_batch_impl] check of one query:
    its transaction, its Merkle proof, and its root in the continuity proof. *)
Definition verify_query (continuity_proof : ContinuityProof) (start_block_number height : Height)
    (tx_bytes : list Z) (merkle_proof : TransactionMerkleProof) : EvmResult unit :=
  ensure (negb (bool_decide (tx_bytes = []))) (reverted "Transaction data cannot be empty");;
  valid ← verify_merkle_proof merkle_proof tx_bytes;
  ensure valid (reverted "Merkle proof validation failed");;
  query_block_idx ← lift (ok_or (reverted "Query block not found in continuity chain")
    (find_query_block_index continuity_proof start_block_number height));
  ensure (nth (Z.to_nat query_block_idx) (roots continuity_proof) 0 =? mp_root merkle_proof)
    (reverted "Merkle root mismatch").

Definition verify_impl sc ck (height : Height) (encoded_transaction : list Z)
    (merkle_proof : TransactionMerkleProof) (continuity_proof : ContinuityProof)
    (emit_events : bool) : EvmResult bool :=
  let start_block_number := height in
  verify_query continuity_proof start_block_number height encoded_transaction merkle_proof;;
  verify_continuity_chain sc continuity_proof start_block_number ck height;;
  when emit_events (emit_verified ck height merkle_proof);;
  mret true.

(** The single pass over the heights. *)
Definition min_max (heights : list Height) : option Height * option Height :=
  foldl (fun '(min_height, max_height) height =>
      (Some (from_option (Z.min height) height min_height),
       Some (from_option (Z.max height) height max_height)))
    (None, None) heights.

Definition verify_batch_impl sc ck (heights : list Height) (encoded_transactions : list (list Z))
    (merkle_proofs : list TransactionMerkleProof) (shared_continuity_proof : ContinuityProof)
    (emit_events : bool) : EvmResult bool :=
  ensure ((length heights =? length encoded_transactions)%nat &&
          (length heights =? length merkle_proofs)%nat)
    (reverted "Should have the same number of heights, encoded transactions, and merkle proofs");;
  ensure (negb (bool_decide (heights = []))) (reverted "Should have at least one height");;
  let min_height := default 0 (min_max heights).1 in
  let max_height := default 0 (min_max heights).2 in
  let start_block_number := min_height in
  let rs := roots shared_continuity_proof in
  ensure (negb (bool_decide (rs = []))) (reverted "Continuity chain cannot be empty");;
  last_block_number ← lift (ok_or (reverted "Continuity chain range overflows u64")
    (checked_add 64 start_block_number (saturating_sub (zlen rs) 1)));
  ensure (max_height <=? last_block_number)
    (reverted "Continuity chain doesn't cover maximum query height");;
  verify_continuity_chain sc shared_continuity_proof start_block_number ck max_height;;
  for_each (fun '(height, encoded_transaction, merkle_proof) =>
      verify_query shared_continuity_proof start_block_number height encoded_transaction merkle_proof;;
      when emit_events (emit_verified ck height merkle_proof))
    (zip (zip heights encoded_transactions) merkle_proofs);;
  mret true.

(** ** Entry points *)

Definition verify sc ck height encoded_transaction merkle_proof continuity_proof :=
  verify_impl sc ck height encoded_transaction merkle_proof continuity_proof false.
Definition verify_and_emit sc ck height encoded_transaction merkle_proof continuity_proof :=
  verify_impl sc ck height encoded_transaction merkle_proof continuity_proof true.
Definition verify_batch sc ck heights encoded_transactions merkle_proofs shared_continuity_proof :=
  verify_batch_impl sc ck heights encoded_transactions merkle_proofs shared_continuity_proof false.
Definition verify_batch_and_emit sc ck heights encoded_transactions merkle_proofs
    shared_continuity_proof :=
  verify_batch_impl sc ck heights encoded_transactions merkle_proofs shared_continuity_proof true.
End BlockProver.

(** ** Runs

    [runs m r n]: given [n] gas, [m] returns [r], takes exactly [n] and writes no
    log. *)

Section Runs.
Context {C H : Type} `{Keccak} `{Arch} `{HL : HandleLaws H} `{Ethabi}.
Implicit Types (sc : ScState (State C)) (ck : ChainKey).

Definition runs {A} (m : EvmResult A) (r : Result PrecompileFailure A) (n : Z) : Prop :=
  0 <= n /\ forall h : H, n <= gas_left h ->
    exists h', m h = (r, h') /\ gas_left h' = gas_left h - n /\ logs h' = logs h.

Lemma runs_lift {A} (r : Result PrecompileFailure A) : runs (lift r) r 0.
Proof. split; [done|]. intros h _. exists h. rewrite Z.sub_0_r. done. Qed.

Lemma runs_ensure b e : runs (ensure b e) (if b then Ok tt else Err e) 0.
Proof. destruct b; [apply (runs_lift (Ok tt))|apply (runs_lift (Err e))]. Qed.

Lemma runs_cost n : 0 <= n -> runs (evm (record_cost n)) (Ok tt) n.
Proof.
  intros Hn. split; [done|]. intros h Hg.
  destruct (record_cost_enough n h) as (h' & Hr & Hg'); [lia|].
  destruct (record_cost_logs n h _ _ Hr) as [Hl _]. exists h'. unfold evm. by rewrite Hr.
Qed.

Lemma runs_bind {A B} (m : EvmResult A) (k : A -> EvmResult B) a r n1 n2 :
  runs m (Ok a) n1 -> runs (k a) r n2 -> runs (m ≫= k) r (n1 + n2).
Proof.
  intros [Hn1 Hm] [Hn2 Hk]. split; [lia|]. intros h Hg.
  destruct (Hm h) as (h1 & Hm1 & Hg1 & Hl1); [lia|].
  destruct (Hk h1) as (h2 & Hk2 & Hg2 & Hl2); [lia|].
  exists h2. unfold mbind, M_bind. rewrite Hm1. split_and!; [done|lia|congruence].
Qed.

Lemma runs_bind_err {A B} (m : EvmResult A) (k : A -> EvmResult B) e n :
  runs m (Err e) n -> runs (m ≫= k) (Err e) n.
Proof.
  intros [Hn Hm]. split; [done|]. intros h Hg. destruct (Hm h) as (h1 & Hm1 & ? & ?); [lia|].
  exists h1. unfold mbind, M_bind. by rewrite Hm1.
Qed.

Lemma runs_eq {A} (m : EvmResult A) r n n' : runs m r n -> n = n' -> runs m r n'.
Proof. by intros ? <-. Qed.

(** A run with enough gas has one result. *)
Lemma runs_ok_iff {A} (m : EvmResult A) r n h a :
  runs m r n -> n <= gas_left h -> (exists h', m h = (Ok a, h')) <-> r = Ok a.
Proof.
  intros [_ Hm] Hg. destruct (Hm h Hg) as (h1 & Hm1 & _). rewrite Hm1. split.
  - by intros [h' [= -> _]].
  - intros ->. by exists h1.
Qed.

(** The first check that fails decides. *)
Fixpoint verdict {A} (a : A) (checks : list (bool * string)) : Result PrecompileFailure A :=
  match checks with
  | [] => Ok a
  | (b, msg) :: rest => if b then verdict a rest else Err (reverted msg)
  end.

Lemma verdict_ok {A} (a x : A) checks :
  verdict a checks = Ok x <-> x = a /\ Forall (fun c => c.1 = true) checks.
Proof.
  induction checks as [|[[] msg] checks IH]; cbn.
  - split; [intros [= ->]; auto|by intros [-> _]].
  - rewrite IH, Forall_cons. cbn. tauto.
  - split; [done|intros [_ [? _]%Forall_cons]; done].
Qed.

(** ** The continuity check *)

(** The digest a proof ends in is known to the chain at the height it ends at. *)
Definition attested_at sc ck (h : Height) (d : Digest) : bool :=
  match get_attestation (sc_listener sc) ck d with
  | Some a => sa_header_number a =? h
  | None => false
  end.
Definition anchored sc ck (h : Height) (d : Digest) : bool :=
  attested_at sc ck h d ||
  (bool_decide (is_Some (SupportedChains sc !! ck)) &&
   bool_decide (checkpoint_if_stable (sc_listener sc) ck h = Some d)).

Definition last_block (p : ContinuityProof) (start : Height) : Height := start + zlen (roots p) - 1.

Definition chain_checks sc ck p start height : list (bool * string) :=
  [(negb (bool_decide (roots p = [])), "Continuity chain cannot be empty"%string);
   (zlen (roots p) <=? MAX_CONTINUITY_ROOTS, "Continuity chain exceeds maximum allowed roots"%string);
   (last_block p start <=? umax 64, "Continuity chain range overflows u64"%string);
   (height <=? last_block p start, "Continuity chain does not reach query height"%string);
   (anchored sc ck (last_block p start) (compute_continuity_digest p start),
     "Continuity proof does not match attestation or checkpoint"%string)].

(** What looking a digest up costs. *)
Definition lookup_gas sc ck (h : Height) (d : Digest) : Z :=
  if attested_at sc ck h d then 2 * GAS_STORAGE_LOOKUP
  else if bool_decide (is_Some (SupportedChains sc !! ck)) then 5 * GAS_STORAGE_LOOKUP
  else 3 * GAS_STORAGE_LOOKUP.

Definition chain_gas sc ck p start : Z :=
  CONTINUITY_BLOCK_HASH_COST * zlen (roots p) +
  lookup_gas sc ck (last_block p start) (compute_continuity_digest p start).

Lemma chain_gas_bounds sc ck p start :
  CONTINUITY_BLOCK_HASH_COST * zlen (roots p) <= chain_gas sc ck p start <=
  CONTINUITY_BLOCK_HASH_COST * zlen (roots p) + 5 * GAS_STORAGE_LOOKUP.
Proof. unfold chain_gas, lookup_gas, GAS_STORAGE_LOOKUP. repeat case_match; lia. Qed.

Lemma runs_ret {A} (a : A) : runs (mret a) (Ok a) 0.
Proof. apply (runs_lift (Ok a)). Qed.

Lemma get_attestation_runs sc ck d :
  runs (get_attestation_metered sc ck d) (Ok (get_attestation (sc_listener sc) ck d))
    (2 * GAS_STORAGE_LOOKUP).
Proof. eapply runs_eq; [eapply runs_bind; [by apply runs_cost|apply runs_ret]|done]. Qed.

Lemma get_checkpoint_runs sc ck h :
  runs (get_checkpoint_metered sc ck h)
    (Ok (if bool_decide (is_Some (SupportedChains sc !! ck))
         then checkpoint_if_stable (sc_listener sc) ck h else None))
    (if bool_decide (is_Some (SupportedChains sc !! ck)) then 3 * GAS_STORAGE_LOOKUP
     else GAS_STORAGE_LOOKUP).
Proof.
  unfold get_checkpoint_metered. destruct (SupportedChains sc !! ck) as [x|].
  - rewrite bool_decide_eq_false_2, bool_decide_eq_true_2 by done. eapply runs_eq.
    + eapply runs_bind; [by apply runs_cost|]. eapply runs_bind; [by apply runs_cost|apply runs_ret].
    + done.
  - rewrite bool_decide_eq_true_2, bool_decide_eq_false_2 by (done || by intros [? [=]]).
    eapply runs_eq; [eapply runs_bind; [by apply runs_cost|apply runs_ret]|done].
Qed.

Lemma some_eqb (o : option Z) d :
  match o with Some d' => d' =? d | None => false end = bool_decide (o = Some d).
Proof.
  destruct o as [d'|]; [|done]. destruct (Z.eqb_spec d' d) as [->|Hne]; symmetry;
    [by apply bool_decide_eq_true|apply bool_decide_eq_false; congruence].
Qed.

(** The checkpoint lookup, after the attestation lookup said [b]. *)
Lemma checkpoint_runs sc ck h d (b : bool) :
  let supported := bool_decide (is_Some (SupportedChains sc !! ck)) in
  runs (checkpoint_matches ←
        (if b then mret false
         else
           c ← get_checkpoint_metered sc ck h;
           mret (match c with Some d' => d' =? d | None => false end));
      ensure (b || checkpoint_matches) (continuity_revert NoMatchingAttestationOrCheckpoint))
    (if b || (supported && bool_decide (checkpoint_if_stable (sc_listener sc) ck h = Some d))
     then Ok tt else Err (continuity_revert NoMatchingAttestationOrCheckpoint))
    (if b then 0 else if supported then 3 * GAS_STORAGE_LOOKUP else GAS_STORAGE_LOOKUP).
Proof.
  intros supported. destruct b; cbn [orb].
  { eapply runs_eq; [eapply runs_bind; [apply runs_ret|apply (runs_ensure true)]|done]. }
  eapply runs_eq.
  - eapply runs_bind; [eapply runs_bind; [apply get_checkpoint_runs|apply runs_ret]|].
    fold supported. cbn [orb]. match goal with |- runs (ensure ?b _) (if ?c then _ else _) _ =>
      replace c with b; [apply runs_ensure|] end.
    destruct supported; [|done]. apply some_eqb.
  - unfold supported. destruct (bool_decide _); lia.
Qed.

(** A check in front of a run. *)
Lemma runs_check {A} b e (m : EvmResult A) r n :
  (b = true -> runs m r n) ->
  runs (ensure b e;; m) (if b then r else Err e) (if b then n else 0).
Proof.
  intros Hm. destruct b.
  - eapply runs_eq; [eapply runs_bind; [apply (runs_ensure true)|by apply Hm]|done].
  - apply runs_bind_err, (runs_ensure false).
Qed.

Lemma runs_checked {A B} (o : option B) (b : bool) e x (m : B -> EvmResult A) r n :
  o = (if b then Some x else None) -> (b = true -> runs (m x) r n) ->
  runs (y ← lift (ok_or e o); m y) (if b then r else Err e) (if b then n else 0).
Proof.
  intros -> Hm. destruct b; cbn [ok_or].
  - eapply runs_eq; [eapply runs_bind; [apply runs_lift|by apply Hm]|done].
  - apply runs_bind_err, runs_lift.
Qed.

Lemma zlen_pos {A} (l : list A) : l <> [] -> 1 <= zlen l.
Proof. destruct l; [done|]. rewrite zlen_cons. pose proof (zlen_nonneg l). lia. Qed.

Lemma last_block_checked p start :
  roots p <> [] -> checked_add 64 start (saturating_sub (zlen (roots p)) 1) =
  if last_block p start <=? umax 64 then Some (last_block p start) else None.
Proof.
  intros Hne%zlen_pos. unfold checked_add, last_block, saturating_sub. rewrite Z.max_r by lia.
  by replace (start + (zlen (roots p) - 1)) with (start + zlen (roots p) - 1) by lia.
Qed.

Definition chain_spent sc ck p start height : Z :=
  if is_ok (verdict tt (removelast (chain_checks sc ck p start height)))
  then chain_gas sc ck p start else 0.

Lemma chain_runs sc ck p start height :
  is_u64 start ->
  runs (verify_continuity_chain sc p start ck height)
    (verdict tt (chain_checks sc ck p start height)) (chain_spent sc ck p start height).
Proof.
  intros Hs. unfold is_u64 in Hs. unfold verify_continuity_chain, chain_checks, chain_spent.
  pose proof (zlen_nonneg (roots p)) as Hlen. pose proof (chain_gas_bounds sc ck p start) as Hg.
  unfold CONTINUITY_BLOCK_HASH_COST in Hg. cbn [verdict chain_checks removelast].
  eapply runs_eq.
  - apply runs_check; intros Hne%negb_true_iff%bool_decide_eq_false.
    apply runs_check; intros Hmax%Z.leb_le. unfold MAX_CONTINUITY_ROOTS in Hmax.
    eapply runs_checked; [by apply last_block_checked|intros _].
    apply runs_check; intros _.
    unfold checked_mul, CONTINUITY_BLOCK_HASH_COST. rewrite (proj2 (Z.leb_le _ _)) by (rewrite umax_64; lia).
    eapply runs_bind; [apply runs_lift|]. eapply runs_bind; [apply runs_cost; lia|].
    eapply runs_bind; [apply get_attestation_runs|apply checkpoint_runs].
  - unfold chain_gas, lookup_gas, attested_at. repeat case_match; cbn in *; unfold CONTINUITY_BLOCK_HASH_COST; try done; lia.
Qed.

(** ** Queries *)

Definition query_checks (p : ContinuityProof) (start height : Height) (tx : list Z)
    (mp : TransactionMerkleProof) (found : bool) : list (bool * string) :=
  [(negb (bool_decide (tx = [])), "Transaction data cannot be empty"%string);
   (merkle_verify mp tx, "Merkle proof validation failed"%string);
   (found, "Query block not found in continuity chain"%string);
   (nth (Z.to_nat (height - start)) (roots p) 0 =? mp_root mp, "Merkle root mismatch"%string)].

Definition merkle_gas (mp : TransactionMerkleProof) : Z :=
  CONTINUITY_BLOCK_HASH_COST * zlen (mp_siblings mp).

Lemma runs_then_ret (m : EvmResult unit) r n : runs m r n -> runs (m;; mret tt) r n.
Proof.
  intros Hm. destruct r as [[]|e]; [|by apply runs_bind_err].
  eapply runs_eq; [eapply runs_bind; [done|apply runs_ret]|lia].
Qed.

Lemma query_runs p start height tx mp (found : bool) :
  merkle_gas mp <= umax 64 ->
  find_query_block_index p start height = (if found then Some (height - start) else None) ->
  runs (verify_query p start height tx mp)
    (verdict tt (query_checks p start height tx mp found))
    (if bool_decide (tx = []) then 0 else merkle_gas mp).
Proof.
  intros Hg Hf. unfold verify_query, query_checks. cbn [verdict]. eapply runs_eq.
  - apply runs_check. intros _. eapply (runs_bind _ _ (merkle_verify mp tx)).
    + unfold verify_merkle_proof, charge_query_gas, checked_mul.
      rewrite (proj2 (Z.leb_le _ _)) by exact Hg. pose proof (zlen_nonneg (mp_siblings mp)).
      eapply runs_bind; [|apply runs_ret]. eapply runs_bind; [apply runs_lift|].
      apply runs_cost. unfold CONTINUITY_BLOCK_HASH_COST. lia.
    + apply runs_check. intros _. eapply (runs_checked _ found _ (height - start)); [exact Hf|].
      intros _. apply runs_ensure.
  - rewrite if_negb. unfold merkle_gas. repeat case_match; lia.
Qed.

Lemma verdict_app {A} (a : A) c1 c2 :
  verdict a (c1 ++ c2) =
  match verdict tt c1 with Ok _ => verdict a c2 | Err e => Err e end.
Proof. induction c1 as [|[[] ?] c1 IH]; cbn; auto. Qed.

Lemma runs_seq {A} (m : EvmResult unit) (k : EvmResult A) a c1 c2 n1 n2 :
  runs m (verdict tt c1) n1 -> (verdict tt c1 = Ok tt -> runs k (verdict a c2) n2) ->
  runs (m;; k) (verdict a (c1 ++ c2)) (n1 + if is_ok (verdict tt c1) then n2 else 0).
Proof.
  intros Hm Hk. rewrite verdict_app. destruct (verdict tt c1) as [[]|e]; cbn [is_ok].
  - eapply runs_bind; [done|by apply Hk].
  - rewrite Z.add_0_r. by apply runs_bind_err.
Qed.

Lemma find_self p h :
  is_u64 h -> zlen (roots p) <= umax 64 ->
  find_query_block_index p h h =
  if negb (bool_decide (roots p = [])) && (last_block p h <=? umax 64) then Some (h - h) else None.
Proof.
  unfold is_u64, find_query_block_index, last_block. rewrite umax_64, pow2_64. intros Hh Hl.
  destruct (roots p) as [|r rs] eqn:Hr; [by rewrite bool_decide_eq_true_2|].
  rewrite bool_decide_eq_false_2 by done. cbn [negb andb].
  rewrite zlen_cons in *. pose proof (zlen_nonneg rs). rewrite Z.leb_refl. cbn [andb].
  destruct (Z.leb_spec (h + (zlen rs + 1) - 1) 18446744073709551615) as [Hle|Hgt].
  - rewrite wrap_small by lia. rewrite (proj2 (Z.leb_le _ _)) by lia.
    unfold wrap. rewrite Z.sub_diag, Zmod_0_l.
    by rewrite (proj2 (Z.ltb_lt _ _)) by lia.
  - unfold wrap. rewrite pow2_64.
    rewrite <- (Z.mod_unique_pos _ _ 1 (h + (zlen rs + 1 - 1) - 18446744073709551616)) by lia.
    by rewrite (proj2 (Z.leb_gt _ _)) by lia.
Qed.

(** What a single query checks, in order. *)
Definition verify_checks sc ck (height : Height) (tx : list Z) (mp : TransactionMerkleProof)
    (p : ContinuityProof) : list (bool * string) :=
  [(negb (bool_decide (tx = [])), "Transaction data cannot be empty"%string);
   (merkle_verify mp tx, "Merkle proof validation failed"%string);
   (negb (bool_decide (roots p = [])) && (last_block p height <=? umax 64),
     "Query block not found in continuity chain"%string);
   (bool_decide (head (roots p) = Some (mp_root mp)), "Merkle root mismatch"%string);
   (zlen (roots p) <=? MAX_CONTINUITY_ROOTS,
     "Continuity chain exceeds maximum allowed roots"%string);
   (anchored sc ck (last_block p height) (compute_continuity_digest p height),
     "Continuity proof does not match attestation or checkpoint"%string)].

(** What it costs: the Merkle path unless there is nothing to verify, then the
    continuity chain if everything up to its lookup holds. *)
Definition verify_gas sc ck (height : Height) (tx : list Z) (mp : TransactionMerkleProof)
    (p : ContinuityProof) : Z :=
  (if bool_decide (tx = []) then 0 else merkle_gas mp) +
  (if is_ok (verdict tt (removelast (verify_checks sc ck height tx mp p)))
   then chain_gas sc ck p height else 0).

Lemma head_nth (p : ContinuityProof) r :
  roots p <> [] -> (nth 0 (roots p) 0 =? r) = bool_decide (head (roots p) = Some r).
Proof.
  destruct (roots p) as [|x rs]; [done|intros _]. apply (some_eqb (Some x)).
Qed.

(** The checks of a single query collapse: its block is the first of the proof. *)
Lemma verify_checks_eq sc ck height tx mp p :
  let found := negb (bool_decide (roots p = [])) && (last_block p height <=? umax 64) in
  let qs := query_checks p height height tx mp found in
  let cs := chain_checks sc ck p height height in
  verdict true (qs ++ cs) = verdict true (verify_checks sc ck height tx mp p) /\
  (is_ok (verdict tt qs) && is_ok (verdict tt (removelast cs))) =
  is_ok (verdict tt (removelast (verify_checks sc ck height tx mp p))).
Proof.
  cbv zeta. unfold query_checks, chain_checks, verify_checks. rewrite Z.sub_diag.
  change (Z.to_nat 0) with 0%nat. cbn [app verdict removelast].
  destruct (negb (bool_decide (tx = []))); [|done]. destruct (merkle_verify mp tx); [|done].
  destruct (bool_decide_reflect (roots p = [])) as [He|Hne]; [done|].
  rewrite head_nth by done. cbn [negb andb].
  destruct (last_block p height <=? umax 64); [|done].
  destruct (bool_decide (head _ = _)); [|done]. cbn.
  destruct (zlen (roots p) <=? MAX_CONTINUITY_ROOTS); [|done].
  rewrite (proj2 (Z.leb_le height _)); [done|]. unfold last_block.
  destruct (roots p) as [|x rs]; [done|]. rewrite zlen_cons. pose proof (zlen_nonneg rs). lia.
Qed.

Lemma verify_runs sc ck height tx mp p :
  is_u64 height -> zlen (roots p) <= umax 64 -> merkle_gas mp <= umax 64 ->
  runs (verify sc ck height tx mp p) (verdict true (verify_checks sc ck height tx mp p))
    (verify_gas sc ck height tx mp p).
Proof.
  intros Hh Hl Hm. destruct (verify_checks_eq sc ck height tx mp p) as [He Hok].
  rewrite <- He. unfold verify, verify_impl. eapply runs_eq.
  - apply runs_seq; [by apply query_runs, find_self|intros _].
    rewrite <- (app_nil_r (chain_checks _ _ _ _ _)). apply runs_seq; [by apply chain_runs|intros _].
    eapply runs_bind; [apply runs_ret|apply (runs_ret true)].
  - unfold verify_gas. rewrite <- Hok. unfold chain_spent.
    repeat destruct (is_ok _); cbn [andb]; lia.
Qed.

(** ** Batches *)

Lemma min_max_spec heights :
  heights <> [] -> exists lo hi, min_max heights = (Some lo, Some hi) /\ lo ∈ heights /\ hi ∈ heights /\
    forall h, h ∈ heights -> lo <= h <= hi.
Proof.
  induction heights as [|x l IH] using rev_ind; [done|intros _].
  unfold min_max in *. rewrite foldl_app. destruct (decide (l = [])) as [->|Hne].
  { exists x, x. cbn. split_and!; [done|set_solver..|]. intros h Hh. apply list_elem_of_singleton in Hh as ->. lia. }
  destruct (IH Hne) as (lo & hi & -> & Hlo & Hhi & Hall). cbn.
  exists (Z.min x lo), (Z.max x hi). split_and!; [done|..].
  - destruct (Z.min_spec x lo) as [[_ ->]|[_ ->]]; set_solver.
  - destruct (Z.max_spec x hi) as [[_ ->]|[_ ->]]; set_solver.
  - intros h Hh. apply elem_of_app in Hh as [Hh|Hh]; [apply Hall in Hh; lia|].
    apply list_elem_of_singleton in Hh as ->. lia.
Qed.

Lemma find_in_range `{!ArchOk} p start h :
  0 <= start -> zlen (roots p) <= MAX_CONTINUITY_ROOTS -> last_block p start <= umax 64 ->
  start <= h <= last_block p start ->
  find_query_block_index p start h = Some (h - start).
Proof.
  unfold find_query_block_index, last_block, MAX_CONTINUITY_ROOTS. rewrite umax_64. intros Hs Hm Hl Hh.
  destruct (roots p) as [|r rs] eqn:Hr; [unfold zlen in *; cbn in *; lia|]. rewrite <- Hr in *.
  replace (start + (zlen (roots p) - 1)) with (start + zlen (roots p) - 1) by lia.
  assert (2 ^ 32 <= 2 ^ usize_bits) by (apply Z.pow_le_mono_r; [done|apply usize_ok]).
  rewrite !wrap_small by (rewrite ?pow2_64; lia).
  by rewrite !(proj2 (Z.leb_le _ _)), (proj2 (Z.ltb_lt _ _)) by lia.
Qed.

Abbreviation Query := (Height * list Z * TransactionMerkleProof)%type.

Definition batch_checks sc ck (qs : list Query) p (lo hi : Height) : list (bool * string) :=
  [(negb (bool_decide (roots p = [])), "Continuity chain cannot be empty"%string);
   (last_block p lo <=? umax 64, "Continuity chain range overflows u64"%string);
   (hi <=? last_block p lo, "Continuity chain doesn't cover maximum query height"%string)] ++
  chain_checks sc ck p lo hi ++
  concat (map (fun '(height, tx, mp) => query_checks p lo height tx mp true) qs).

Definition queries_gas (qs : list Query) : Z := foldr (fun q n => merkle_gas q.2 + n) 0 qs.

Lemma merkle_gas_nonneg mp : 0 <= merkle_gas mp.
Proof. unfold merkle_gas, CONTINUITY_BLOCK_HASH_COST. pose proof (zlen_nonneg (mp_siblings mp)). lia. Qed.

Lemma queries_gas_nonneg qs : 0 <= queries_gas qs.
Proof.
  induction qs as [|[q mp] qs IH]; [done|]. unfold queries_gas in *. cbn [foldr snd].
  pose proof (merkle_gas_nonneg mp). lia.
Qed.

Lemma queries_run ck p lo qs :
  queries_gas qs <= umax 64 ->
  (forall height tx mp, (height, tx, mp) ∈ qs ->
     find_query_block_index p lo height = Some (height - lo)) ->
  exists n, n <= queries_gas qs /\
  runs (for_each (fun '(height, tx, mp) =>
      verify_query p lo height tx mp;; when false (emit_verified ck height mp)) qs)
    (verdict tt (concat (map (fun '(height, tx, mp) => query_checks p lo height tx mp true) qs))) n.
Proof.
  induction qs as [|[[height tx] mp] qs IH]; intros Hg Hf; cbn [for_each map concat].
  { exists 0. split; [done|apply runs_ret]. }
  change (merkle_gas mp + queries_gas qs <= umax 64) in Hg. pose proof (merkle_gas_nonneg mp).
  pose proof (queries_gas_nonneg qs).
  destruct IH as (n & Hn & Hr); [lia|intros; eapply Hf; by right|].
  eexists. split; [|apply runs_seq; [|intros _; exact Hr]].
  2: { apply runs_then_ret, query_runs; [lia|]. by apply (Hf height tx mp); left. }
  change (queries_gas ((height, tx, mp) :: qs)) with (merkle_gas mp + queries_gas qs).
  destruct Hr as [Hn0 _]. destruct (bool_decide _), (is_ok _); lia.
Qed.

Lemma batch_runs `{!ArchOk} sc ck heights txs mps p lo hi :
  let qs := zip (zip heights txs) mps in
  length heights = length txs -> length heights = length mps ->
  min_max heights = (Some lo, Some hi) -> is_u64 lo ->
  (forall h, h ∈ heights -> lo <= h <= hi) -> queries_gas qs <= umax 64 ->
  exists n, n <= CONTINUITY_BLOCK_HASH_COST * zlen (roots p) + 5 * GAS_STORAGE_LOOKUP + queries_gas qs /\
  runs (verify_batch sc ck heights txs mps p) (verdict true (batch_checks sc ck qs p lo hi)) n.
Proof.
  intros qs Hl1 Hl2 Hmm Hu Hall Hg. unfold verify_batch, verify_batch_impl. fold qs.
  assert (heights <> []) as Hne by (intros ->; done).
  rewrite <- Hl1, <- Hl2, Nat.eqb_refl, Hmm, (bool_decide_eq_false_2 (heights = [])) by done. cbn [andb negb fst snd default].
  assert (exists n, n <= CONTINUITY_BLOCK_HASH_COST * zlen (roots p) + 5 * GAS_STORAGE_LOOKUP +
    queries_gas qs /\ runs (verify_continuity_chain sc p lo ck hi;;
    for_each (fun '(height, tx, mp) => verify_query p lo height tx mp;;
      when false (emit_verified ck height mp)) qs;; mret true)
    (verdict true (chain_checks sc ck p lo hi ++
      concat (map (fun '(height, tx, mp) => query_checks p lo height tx mp true) qs))) n)
    as (n & Hn & Hr).
  { pose proof (chain_runs sc ck p lo hi Hu) as Hc. pose proof (chain_gas_bounds sc ck p lo).
    pose proof (queries_gas_nonneg qs). pose proof (zlen_nonneg (roots p)).
    unfold CONTINUITY_BLOCK_HASH_COST, GAS_STORAGE_LOOKUP in *.
    assert (chain_spent sc ck p lo hi <= 48 * zlen (roots p) + 5 * 2600).
    { unfold chain_spent. destruct (is_ok _); lia. }
    destruct (verdict tt (chain_checks sc ck p lo hi)) as [[]|e] eqn:Hv.
    - destruct (queries_run ck p lo qs Hg) as (n & Hn & Hq).
      { apply verdict_ok in Hv as [_ Hv]. unfold chain_checks in Hv. rewrite !Forall_cons in Hv.
        cbn [fst] in Hv. rewrite !Z.leb_le in Hv. destruct Hv as (_ & ? & ? & ? & _).
        intros height tx mp Hin. apply elem_of_zip_l, elem_of_zip_l, Hall in Hin.
        unfold is_u64 in Hu. apply find_in_range; lia. }
      eexists. split; [|rewrite <- Hv in Hc; apply runs_seq; [exact Hc|intros _]].
      2: { rewrite <- (app_nil_r (concat _)). apply runs_seq; [exact Hq|intros _; apply (runs_ret true)]. }
      destruct Hq. repeat destruct (is_ok _); lia.
    - exists (chain_spent sc ck p lo hi). split; [lia|].
      rewrite verdict_app, Hv. by apply runs_bind_err. }
  eexists. split; [|do 2 (eapply runs_bind; [apply (runs_ensure true)|]); apply runs_check; intros Hr1].
  2: { eapply runs_checked; [apply last_block_checked|intros _; apply runs_check; intros _; exact Hr].
       by apply negb_true_iff, bool_decide_eq_false in Hr1. }
  destruct Hr as [Hn0 _]. repeat case_match; lia.
Qed.

(** The proof that starts at [height], cut from one that starts at [lo]. *)
Definition tail_proof (p : ContinuityProof) (lo height : Height) : ContinuityProof :=
  let n := Z.to_nat (height - lo) in
  mkContinuityProof (continuity_digest_loop lo 0 (lower_endpoint_digest p) (take n (roots p)))
    (drop n (roots p)).

Lemma digest_loop_shift start n i d rs :
  continuity_digest_loop start (n + i) d rs = continuity_digest_loop (start + Z.of_nat n) i d rs.
Proof.
  revert i d. induction rs as [|r rs IH]; intros i d; cbn; [done|].
  rewrite <- Nat.add_succ_r, IH. unfold chain_step. do 3 f_equal. lia.
Qed.

Lemma tail_proof_spec p lo height :
  lo <= height <= last_block p lo ->
  compute_continuity_digest (tail_proof p lo height) height = compute_continuity_digest p lo /\
  last_block (tail_proof p lo height) height = last_block p lo /\
  head (roots (tail_proof p lo height)) = Some (nth (Z.to_nat (height - lo)) (roots p) 0) /\
  zlen (roots (tail_proof p lo height)) <= zlen (roots p).
Proof.
  unfold compute_continuity_digest, last_block, tail_proof, zlen. cbn. rewrite length_drop. intros Hh.
  set (n := Z.to_nat (height - lo)). assert (n < length (roots p))%nat as Hn by lia. split_and!.
  - rewrite <- (take_drop n (roots p)) at 3. rewrite continuity_digest_loop_app, length_take_le by lia.
    change (0 + n)%nat with n. rewrite <- (Nat.add_0_r n) at 3.
    rewrite digest_loop_shift. do 2 f_equal; lia.
  - lia.
  - destruct (lookup_lt_is_Some_2 _ _ Hn) as [r Hr]. rewrite (nth_lookup_Some _ _ _ _ Hr).
    by rewrite (drop_S _ _ _ Hr).
  - lia.
Qed.

Lemma tail_proof_self p lo : tail_proof p lo lo = p.
Proof. unfold tail_proof. rewrite Z.sub_diag. by destruct p. Qed.

Lemma tail_proof_nil p lo height :
  lo <= height -> last_block p lo < height -> roots (tail_proof p lo height) = [].
Proof. unfold last_block, zlen. intros. cbn. apply drop_ge. lia. Qed.

(** A query of a batch that covers it passes alone with the tail of the proof,
    and only then. *)
Lemma tail_checks sc ck p lo hi height tx mp :
  lo <= height <= hi ->
  Forall (fun c => c.1 = true) (chain_checks sc ck p lo hi) ->
  Forall (fun c => c.1 = true) (query_checks p lo height tx mp true) <->
  Forall (fun c => c.1 = true) (verify_checks sc ck height tx mp (tail_proof p lo height)).
Proof.
  intros Hh Hc. unfold chain_checks in Hc. rewrite !Forall_cons in Hc. cbn [fst] in Hc.
  rewrite !Z.leb_le in Hc. destruct Hc as (Hne & Hmax & Hu & Hhi & Han & _).
  destruct (tail_proof_spec p lo height) as (Hd & Hl & Hhd & Hlen); [lia|].
  unfold query_checks, verify_checks. rewrite !Forall_cons. cbn [fst]. rewrite Hd, Hl, Hhd, Han.
  rewrite (proj2 (Z.leb_le _ (umax 64))), (proj2 (Z.leb_le _ MAX_CONTINUITY_ROOTS)) by lia.
  rewrite (bool_decide_eq_false_2 (roots (tail_proof p lo height) = [])) by (intros He; by rewrite He in Hhd).
  rewrite Z.eqb_eq, bool_decide_eq_true.
  split; intros Hx; decompose [and] Hx; split_and!; try done; congruence.
Qed.

(** The batch covers the proof's range exactly when its lowest and highest
    queries pass alone. *)
Lemma batch_checks_ok sc ck qs p lo hi tl ml th mh :
  lo <= hi -> (forall height tx mp, (height, tx, mp) ∈ qs -> lo <= height <= hi) ->
  (lo, tl, ml) ∈ qs -> (hi, th, mh) ∈ qs ->
  Forall (fun c => c.1 = true) (batch_checks sc ck qs p lo hi) <->
  forall height tx mp, (height, tx, mp) ∈ qs ->
    Forall (fun c => c.1 = true) (verify_checks sc ck height tx mp (tail_proof p lo height)).
Proof.
  intros Hlh Hall Hlo Hhi. unfold batch_checks. rewrite !Forall_app, Forall_concat, Forall_map.
  split.
  - intros (_ & Hc & Hq) height tx mp Hin. rewrite Forall_forall in Hq. specialize (Hq _ Hin).
    by apply (tail_checks sc ck p lo hi); [eapply Hall|..].
  - intros Hv. assert (Forall (fun c => c.1 = true) (chain_checks sc ck p lo hi)) as Hc.
    { pose proof (Hv _ _ _ Hlo) as Hl. rewrite tail_proof_self in Hl. pose proof (Hv _ _ _ Hhi) as Hh.
      unfold verify_checks in Hl, Hh. rewrite !Forall_cons in Hl, Hh. cbn [fst] in Hl, Hh.
      rewrite !andb_true_iff in Hl, Hh. destruct Hl as (_ & _ & [? ?] & _ & ? & ? & _).
      destruct Hh as (_ & _ & [Hne _] & _). unfold chain_checks. rewrite !Forall_cons. cbn [fst].
      split_and!; try done. apply Z.leb_le. destruct (decide (hi <= last_block p lo)) as [|Hgt]; [done|].
      rewrite tail_proof_nil in Hne by lia. done. }
    split_and!; [|done|].
    + unfold chain_checks in Hc. rewrite !Forall_cons in *. tauto.
    + apply Forall_forall. intros [[height tx] mp] Hin.
      by apply (tail_checks sc ck p lo hi); eauto.
Qed.

(** C18: [verify] decides. Given the gas it charges for, it returns true exactly
    when the transaction is not empty, its Merkle proof leads to the first root of
    a continuity proof that stays within u64 and within the maximum length, and the
    proof ends in a digest held for its last height as an attestation or, for a
    supported chain, a stable checkpoint; otherwise it reverts with the message of
    the first of these that fails. It takes exactly the gas of the steps it reaches
    and writes no log. *)
Theorem verify_decides sc ck height tx mp p (h : H) :
  is_u64 height -> zlen (roots p) <= umax 64 -> merkle_gas mp <= umax 64 ->
  verify_gas sc ck height tx mp p <= gas_left h ->
  exists h', verify sc ck height tx mp p h = (verdict true (verify_checks sc ck height tx mp p), h') /\
    gas_left h' = gas_left h - verify_gas sc ck height tx mp p /\ logs h' = logs h.
Proof. intros Hh Hl Hm Hg. by apply verify_runs. Qed.

Lemma verify_gas_bound sc ck height tx mp p :
  verify_gas sc ck height tx mp p <=
  merkle_gas mp + CONTINUITY_BLOCK_HASH_COST * zlen (roots p) + 5 * GAS_STORAGE_LOOKUP.
Proof.
  unfold verify_gas. pose proof (chain_gas_bounds sc ck p height) as Hc. pose proof (merkle_gas_nonneg mp).
  pose proof (zlen_nonneg (roots p)). unfold CONTINUITY_BLOCK_HASH_COST, GAS_STORAGE_LOOKUP in *.
  destruct (bool_decide _), (is_ok _); lia.
Qed.

(** A proof of the right length that starts with the Merkle root and ends in an
    anchor verifies. *)
Lemma proof_verifies sc ck height last tx mp p (h : H) :
  0 <= height <= last -> last <= umax 64 -> zlen (roots p) = last - height + 1 ->
  last - height < MAX_CONTINUITY_ROOTS ->
  anchored sc ck last (compute_continuity_digest p height) = true ->
  tx <> [] -> merkle_verify mp tx = true -> head (roots p) = Some (mp_root mp) ->
  merkle_gas mp + CONTINUITY_BLOCK_HASH_COST * (last - height + 1) + 5 * GAS_STORAGE_LOOKUP <= gas_left h ->
  gas_left h <= umax 64 ->
  exists h', verify sc ck height tx mp p h = (Ok true, h').
Proof.
  intros Hh Hu64 Hlen Hmax Han Htx Hmv Hhd Hg Hgu.
  assert (last_block p height = last) as Hlb by (unfold last_block; lia).
  pose proof (verify_gas_bound sc ck height tx mp p) as Hb. rewrite Hlen in Hb.
  unfold MAX_CONTINUITY_ROOTS, CONTINUITY_BLOCK_HASH_COST, GAS_STORAGE_LOOKUP in *. rewrite umax_64 in *.
  erewrite runs_ok_iff; [|apply verify_runs; [unfold is_u64; lia|rewrite Hlen, umax_64; lia|rewrite umax_64; lia]|lia].
  apply verdict_ok. split; [done|]. unfold verify_checks. rewrite !Forall_cons. cbn [fst].
  rewrite Hlb, Han, Hmv, Hlen. unfold MAX_CONTINUITY_ROOTS. rewrite !(proj2 (Z.leb_le _ _)) by (rewrite ?umax_64; lia).
  rewrite (bool_decide_eq_false_2 (roots p = [])) by (intros He; by rewrite He in Hhd).
  rewrite bool_decide_eq_false_2, bool_decide_eq_true_2 by done. by repeat split.
Qed.

Lemma queries_gas_elem qs q : q ∈ qs -> merkle_gas q.2 <= queries_gas qs.
Proof.
  induction 1 as [q qs|q q' qs _ IH]; change (queries_gas (?x :: ?l)) with (merkle_gas x.2 + queries_gas l).
  - pose proof (queries_gas_nonneg qs). lia.
  - pose proof (merkle_gas_nonneg q'.2). lia.
Qed.

Lemma elem_of_zips {A B D} (la : list A) (lb : list B) (ld : list D) a :
  length la = length lb -> length la = length ld -> a ∈ la ->
  exists b d, (a, b, d) ∈ zip (zip la lb) ld.
Proof.
  intros H1' H2' [i Hi]%list_elem_of_lookup. pose proof (lookup_lt_Some _ _ _ Hi).
  destruct (lookup_lt_is_Some_2 lb i) as [b Hb]; [lia|]. destruct (lookup_lt_is_Some_2 ld i) as [d Hd]; [lia|].
  exists b, d. apply list_elem_of_lookup. exists i. rewrite !lookup_zip_with, Hi, Hb. cbn. by rewrite Hd.
Qed.

Lemma batch_each_query `{!ArchOk} sc ck heights txs mps p (h : H) :
  let lo := default 0 (min_max heights).1 in
  let qs := zip (zip heights txs) mps in
  heights <> [] -> length heights = length txs -> length heights = length mps ->
  Forall is_u64 heights ->
  queries_gas qs + CONTINUITY_BLOCK_HASH_COST * zlen (roots p) + 5 * GAS_STORAGE_LOOKUP <= gas_left h ->
  gas_left h <= umax 64 ->
  (exists h', verify_batch sc ck heights txs mps p h = (Ok true, h')) <->
  (forall height tx mp, (height, tx, mp) ∈ qs ->
     exists h', verify sc ck height tx mp (tail_proof p lo height) h = (Ok true, h')).
Proof.
  intros lo qs Hne Hl1 Hl2 Hu Hg Hmax. rewrite Forall_forall in Hu.
  destruct (min_max_spec heights Hne) as (lo' & hi & Hmm & Hlo & Hhi & Hall).
  unfold lo. rewrite Hmm. cbn [fst default]. clear lo. rename lo' into lo.
  pose proof (queries_gas_nonneg qs). pose proof (zlen_nonneg (roots p)) as Hrs.
  unfold CONTINUITY_BLOCK_HASH_COST, GAS_STORAGE_LOOKUP in *.
  destruct (batch_runs sc ck heights txs mps p lo hi) as (n & Hn & Hr); try done; [by apply Hu|fold qs; lia|].
  fold qs in Hn, Hr. unfold CONTINUITY_BLOCK_HASH_COST, GAS_STORAGE_LOOKUP in *.
  rewrite (runs_ok_iff _ _ _ _ _ Hr), verdict_ok by lia.
  assert (forall height tx mp, (height, tx, mp) ∈ qs -> height ∈ heights) as Hq.
  { intros height tx mp Hin. by apply elem_of_zip_l, elem_of_zip_l in Hin. }
  destruct (elem_of_zips heights txs mps lo) as (tl & ml & Hlq); [done..|].
  destruct (elem_of_zips heights txs mps hi) as (th & mh & Hhq); [done..|]. fold qs in Hlq, Hhq.
  rewrite (batch_checks_ok sc ck qs p lo hi tl ml th mh); [|by apply Hall|by eauto|done..].
  assert (forall height tx mp, (height, tx, mp) ∈ qs ->
    (exists h', verify sc ck height tx mp (tail_proof p lo height) h = (Ok true, h')) <->
    Forall (fun c => c.1 = true) (verify_checks sc ck height tx mp (tail_proof p lo height))) as Hv.
  { intros height tx mp Hin. pose proof (queries_gas_elem qs _ Hin) as Hm. cbn [snd] in Hm.
    assert (zlen (roots (tail_proof p lo height)) <= zlen (roots p)) as Hlen.
    { unfold tail_proof, zlen. cbn. rewrite length_drop. lia. }
    pose proof (verify_gas_bound sc ck height tx mp (tail_proof p lo height)) as Hb.
    unfold CONTINUITY_BLOCK_HASH_COST, GAS_STORAGE_LOOKUP in Hb.
    erewrite runs_ok_iff; [|apply verify_runs; [by eapply Hu, Hq|lia..]|lia].
    rewrite verdict_ok. tauto. }
  split; [intros [_ Hx] height tx mp Hin; by apply Hv, Hx|intros Hx; split; [done|]].
  intros height tx mp Hin. by apply Hv, Hx.
Qed.

(** C23: a batch is its queries. For a batch of heights with as many transactions
    and Merkle proofs, and gas for all of it, [verify] on the batch succeeds if and
    only if [verify] succeeds on every query alone, with the part of the shared
    continuity proof that starts at the query's height. *)
Theorem batch_is_each_query `{!ArchOk} sc ck heights txs mps p (h : H) :
  let lo := default 0 (min_max heights).1 in
  let qs := zip (zip heights txs) mps in
  heights <> [] -> length heights = length txs -> length heights = length mps ->
  Forall is_u64 heights ->
  queries_gas qs + CONTINUITY_BLOCK_HASH_COST * zlen (roots p) + 5 * GAS_STORAGE_LOOKUP <= gas_left h ->
  gas_left h <= umax 64 ->
  (exists h', verify_batch sc ck heights txs mps p h = (Ok true, h')) <->
  (forall height tx mp, (height, tx, mp) ∈ qs ->
     exists h', verify sc ck height tx mp (tail_proof p lo height) h = (Ok true, h')).
Proof. apply batch_each_query. Qed.
End Runs.

(** ** Successful verifications, whatever the handle *)

Section Success.
Context {C H : Type} `{Keccak} `{Arch} `{PrecompileHandle H} `{Ethabi}.
Implicit Types (sc : ScState (State C)) (ck : ChainKey).

Lemma evm_ok {A} (m : M H ExitError A) h a h' : evm m h = (Ok a, h') -> m h = (Ok a, h').
Proof. unfold evm. destruct (m h) as [[?|?] ?]; congruence. Qed.

Lemma chain_ok sc ck p start height h u h' :
  verify_continuity_chain sc p start ck height h = (Ok u, h') ->
  anchored sc ck (last_block p start) (compute_continuity_digest p start) = true /\
  last_block p start <= umax 64 /\ zlen (roots p) <= MAX_CONTINUITY_ROOTS.
Proof.
  unfold verify_continuity_chain, get_attestation_metered, get_checkpoint_metered. intros Hrun.
  do 3 step_inv Hrun. apply negb_true_iff, bool_decide_eq_false in Hens.
  rewrite last_block_checked in Hstep by done.
  destruct (Z.leb_spec (last_block p start) (umax 64)); [|done]. injection Hstep as <-.
  do 3 step_inv Hrun. run_inv.
  apply Z.leb_le in Hens0. split_and!; [|done|done]. unfold anchored.
  change (match get_attestation _ _ _ with Some a => _ | None => false end) with
    (attested_at sc ck (last_block p start) (compute_continuity_digest p start)) in *.
  destruct (attested_at _ _ _ _); [done|]. cbn [orb] in *. subst. run_inv.
  destruct (SupportedChains sc !! ck) eqn:Hs.
  - rewrite bool_decide_eq_false_2 in Hrun3 by done. run_inv.
    rewrite bool_decide_eq_true_2 by done. cbn [andb]. symmetry. apply some_eqb.
  - rewrite bool_decide_eq_true_2 in Hrun3 by done. run_inv. by rewrite bool_decide_eq_false_2 by (by intros [? [=]]).
Qed.

(** What a success of either entry point tells. *)
Lemma verify_impl_ok sc ck height tx mp p emit h b h' :
  is_u64 height -> zlen (roots p) <= umax 64 ->
  verify_impl sc ck height tx mp p emit h = (Ok b, h') ->
  (b = true /\ tx <> [] /\ merkle_verify mp tx = true /\ head (roots p) = Some (mp_root mp) /\
   last_block p height <= umax 64 /\ zlen (roots p) <= MAX_CONTINUITY_ROOTS /\
   anchored sc ck (last_block p height) (compute_continuity_digest p height) = true) /\
  exists u h1 u1, (verify_query p height height tx mp;;
      verify_continuity_chain sc p height ck height) h = (Ok u, h1) /\
    when emit (emit_verified ck height mp) h1 = (Ok u1, h').
Proof.
  intros Hh Hl Hrun. unfold verify_impl in Hrun. step_inv Hrun. step_inv Hrun. run_inv. split.
  - clear Hrun0. unfold verify_query in Hstep. step_inv Hstep.
    apply negb_true_iff, bool_decide_eq_false in Hens.
    unfold verify_merkle_proof in Hstep. run_inv. rewrite find_self in Hlift by done.
    destruct (bool_decide_reflect (roots p = [])) as [|Hne]; [done|].
    destruct (last_block p height <=? umax 64); [|done]. injection Hlift as <-.
    rewrite Z.sub_diag in Hens0. change (Z.to_nat 0) with 0%nat in Hens0.
    rewrite head_nth, bool_decide_eq_true in Hens0 by done.
    by apply chain_ok in Hstep0 as (? & ? & ?).
  - do 3 eexists. split; [|exact Hrun0]. unfold mbind, M_bind. by rewrite Hstep.
Qed.
End Success.

(** ** The leaf index and the event *)

Lemma lor_pow2 k acc : 0 <= k -> 0 <= acc < 2 ^ k -> Z.lor acc (2 ^ k) = acc + 2 ^ k.
Proof.
  intros Hk Hacc. rewrite <- Z.add_lor_land. enough (Z.land acc (2 ^ k) = 0) as -> by lia.
  apply Z.bits_inj'. intros n Hn. rewrite Z.land_spec, Z.pow2_bits_eqb, Z.bits_0 by done.
  destruct (Z.eqb_spec k n) as [<-|]; [|by rewrite andb_false_r]. rewrite andb_true_r.
  rewrite <- (Z.mod_small acc (2 ^ k)) by done. by apply Z.mod_pow2_bits_high.
Qed.

Lemma path_index_bound siblings : 0 <= path_index siblings < 2 ^ zlen siblings.
Proof.
  induction siblings as [|e rest IH]; [done|]. cbn [path_index].
  rewrite zlen_cons, Z.pow_add_r by (try apply zlen_nonneg; done).
  change (2 ^ 1) with 2. destruct (me_is_left e); cbn [Z.b2z]; lia.
Qed.

Lemma tx_index_loop_eq siblings k acc :
  0 <= k -> k + zlen siblings <= 64 -> 0 <= acc < 2 ^ k ->
  tx_index_loop k acc siblings = acc + 2 ^ k * path_index siblings.
Proof.
  revert k acc. induction siblings as [|e rest IH]; intros k acc Hk Hl Hacc; cbn [tx_index_loop path_index].
  { lia. }
  rewrite zlen_cons in Hl. pose proof (zlen_nonneg rest).
  assert (2 ^ (k + 1) = 2 * 2 ^ k) as Hp by (rewrite Z.pow_add_r by lia; lia).
  rewrite Z.shiftl_1_l, wrap_small by (split; [lia|apply Z.pow_lt_mono_r; lia]).
  destruct (me_is_left e); cbn [Z.b2z]; rewrite IH; try lia.
  - rewrite lor_pow2 by lia. lia.
  - rewrite lor_pow2 by lia. lia.
Qed.

(** The proof a tree generates spells the index of its leaf. *)
Lemma generated_index `{Keccak} items t i mp :
  merkle_new items = Some t -> generate_proof t i = Ok mp -> path_index (mp_siblings mp) = Z.of_nat i.
Proof.
  intros Hnew Hgen. unfold generate_proof in Hgen. pose proof (merkle_new_spec _ _ Hnew) as [_ Hh].
  case_match eqn:Hlt; [done|]. apply Nat.leb_gt in Hlt. injection Hgen as <-. cbn [mp_siblings].
  apply (merkle_path_index items t i Hnew).
  apply (f_equal length) in Hh. rewrite length_map in Hh. destruct (levels t); cbn in *; lia.
Qed.

Section Events.
Context {C H : Type} `{Keccak} `{Arch} `{HL : HandleLaws H} `{Ethabi}.
Implicit Types (sc : ScState (State C)) (ck : ChainKey).

Definition log_view (h : H) : list Log * Z := (logs h, context_address h).

Lemma leaves_cost n : leaves log_view (evm (record_cost n)).
Proof.
  intros h r h' Hrun. unfold evm in Hrun. destruct (record_cost n h) as [r1 h1] eqn:Hr.
  apply record_cost_logs in Hr as [Hl Hc]. assert (h' = h1) as -> by (destruct r1; congruence).
  unfold log_view. congruence.
Qed.

Lemma emit_ok ck height mp h u h' :
  emit_verified ck height mp h = (Ok u, h') ->
  exists i, calculate_tx_index_impl mp = Ok i /\
    logs h' = logs h ++ [transaction_verified (context_address h) ck height i].
Proof.
  unfold emit_verified. intros Hrun. do 2 step_inv Hrun. apply evm_ok, record_log_ok in Hrun as (Hl & _).
  eauto.
Qed.

Lemma tx_index_ok mp i : calculate_tx_index_impl mp = Ok i -> i = path_index (mp_siblings mp).
Proof.
  unfold calculate_tx_index_impl. case_bool_decide as He; [by rewrite He; intros [= <-]|].
  destruct (Z.ltb_spec 64 (zlen (mp_siblings mp))); [done|]. intros [= <-].
  rewrite tx_index_loop_eq by lia. lia.
Qed.

(** The index of a transaction. Up to 64 siblings the index computed from a
    Merkle proof is the number its left and right turns spell, below two to the
    number of siblings; for the proof a tree generates it is the leaf's own index.
    Longer proofs are refused. The call charges 10 gas and 18 per sibling. *)
Theorem tx_index_spec mp :
  let n := zlen (mp_siblings mp) in
  (n <= 64 -> calculate_tx_index_impl mp = Ok (path_index (mp_siblings mp)) /\
     0 <= path_index (mp_siblings mp) < 2 ^ n) /\
  (64 < n -> calculate_tx_index_impl mp =
     Err (Error (OtherError "Merkle proof has too many siblings (max 64)"))) /\
  (forall items t i, merkle_new items = Some t -> generate_proof t i = Ok mp -> n <= 64 ->
     calculate_tx_index_impl mp = Ok (Z.of_nat i)) /\
  (n <= umax 32 -> runs (calculate_tx_index mp) (calculate_tx_index_impl mp) (10 + 18 * n)).
Proof.
  intros n. assert (n <= 64 -> calculate_tx_index_impl mp = Ok (path_index (mp_siblings mp))) as Hle.
  { intros Hn. destruct (calculate_tx_index_impl mp) as [i|e] eqn:Hi; [by rewrite (tx_index_ok _ _ Hi)|].
    unfold calculate_tx_index_impl in Hi. case_bool_decide; [done|].
    by rewrite (proj2 (Z.ltb_ge _ _)) in Hi by done. }
  split_and!.
  - intros Hn. split; [by apply Hle|apply path_index_bound].
  - intros Hn. unfold calculate_tx_index_impl. rewrite bool_decide_eq_false_2.
    + by rewrite (proj2 (Z.ltb_lt _ _)) by done.
    + intros He. unfold n in Hn. by rewrite He in Hn.
  - intros items t i Hnew Hgen Hn. rewrite Hle by done. f_equal.
    by eapply generated_index.
  - intros Hn. unfold calculate_tx_index, checked_mul, checked_add. fold n.
    unfold CALCULATE_TX_INDEX_ITERATION_COST, CALCULATE_TX_INDEX_BASE_COST.
    assert (0 <= n) by apply zlen_nonneg. rewrite umax_32 in Hn.
    rewrite (proj2 (Z.leb_le (18 * n) (umax 64))) by (rewrite umax_64; lia). eapply runs_eq.
    + eapply runs_bind; [apply runs_lift|].
      rewrite (proj2 (Z.leb_le (10 + 18 * n) (umax 64))) by (rewrite umax_64; lia).
      eapply runs_bind; [apply runs_lift|]. eapply runs_bind; [apply runs_cost; lia|apply runs_lift].
    + lia.
Qed.
End Events.

#[export] Hint Resolve leaves_cost : leaves.
