(* ===== verification/Inclusion.v ===== *)
(** * Verified transactions are in attested blocks

    The block prover on top of the attestation pallet: a transaction it verifies
    lies in the block whose root the chain's attested history holds for that
    height, at the index the event names. *)

From stdpp Require Import prelude gmap list sorting strings.
From Stdlib Require Import ZArith Lia.
From S2P Require Import Prelude Primitives Merkle Frame SupportedChains Randomness Types Ledger.
From S2P Require Import LadderSpec History Pallet Runtime Concrete Guarantees BlockProver.

(** ** The proof a history gives *)

(** The continuity proof of [n] blocks from [height] on. *)
Definition history_proof (hs : History) (height n : Z) : ContinuityProof :=
  mkContinuityProof (hs_digest hs (height - 1)) (map (hs_root hs) (seqZ height n)).

(** The values of a history are 32 bytes long. *)
Definition history_typed (hs : History) : Prop :=
  is_h256 (hs_digest hs (hs_lo hs)) /\ forall n, hs_lo hs < n <= hs_hi hs -> is_h256 (hs_root hs n).

Section Histories.
Context `{Keccak}.

Lemma history_proof_digest hs height n :
  hash_chain hs -> hs_lo hs < height -> height + Z.of_nat n - 1 <= hs_hi hs ->
  compute_continuity_digest (history_proof hs height (Z.of_nat n)) height =
  hs_digest hs (height + Z.of_nat n - 1).
Proof.
  intros (Hlo & Hhi & Hlink) Hh. induction n as [|n IH]; intros Hn.
  - unfold history_proof, compute_continuity_digest. rewrite seqZ_nil by done. cbn. f_equal. lia.
  - unfold history_proof in *. rewrite seqZ_S, map_app, Nat2Z.inj_succ.
    cbn [map]. rewrite compute_continuity_digest_snoc, IH by lia.
    unfold zlen. rewrite length_map, length_seqZ, Nat2Z.id, wrap_small by lia.
    replace (height + Z.succ (Z.of_nat n) - 1) with (height + Z.of_nat n) by lia.
    by rewrite (Hlink (height + Z.of_nat n)) by lia.
Qed.

Lemma history_proof_wf hs height n :
  keccak_range -> hash_chain hs -> history_typed hs -> hs_lo hs < height ->
  height + n - 1 <= hs_hi hs -> 0 < n -> wf_proof (history_proof hs height n).
Proof.
  intros Hk (Hlo & Hhi & Hlink) [Hd Hr] Hh Hn Hpos. split; cbn.
  - destruct (decide (height - 1 = hs_lo hs)) as [->|Hne]; [done|]. rewrite Hlink by lia. apply Hk.
  - apply Forall_map, Forall_forall. intros x Hx%elem_of_seqZ. apply Hr. lia.
Qed.

(** A proof that ends in a digest of the history is the history's own. *)
Lemma proof_of_history hs p height :
  let n := zlen (roots p) in
  keccak_range -> hash_chain hs -> history_typed hs -> hs_lo hs < height -> roots p <> [] ->
  last_block p height <= hs_hi hs -> wf_proof p ->
  coll_free (payloads p height ++ payloads (history_proof hs height n) height) ->
  compute_continuity_digest p height = hs_digest hs (last_block p height) ->
  p = history_proof hs height n.
Proof.
  destruct p as [d rs]. cbn [roots]. set (n := zlen rs). intros Hk Hc Ht Hh Hne Hl Hw Hcf Hd. pose proof Hc as (? & ? & _). unfold last_block in *. cbn [roots] in Hl, Hd. fold n in Hl, Hd.
  assert (1 <= n) as Hn by by apply zlen_pos.
  assert (n = Z.of_nat (Z.to_nat n)) as Heq by lia.
  pose proof (history_proof_wf hs height n Hk Hc Ht Hh Hl ltac:(lia)) as Hw'.
  pose proof (history_proof_digest hs height (Z.to_nat n) Hc Hh ltac:(lia)) as Hd'.
  rewrite <- Heq in Hd'. unfold history_proof in *. cbn [roots] in *.
  destruct (continuity_binding_same_length d rs (hs_digest hs (height - 1))
    (map (hs_root hs) (seqZ height n)) height) as [Hd1 Hrs]; try done; [lia| | | |by f_equal].
  - rewrite length_map, length_seqZ. unfold n, zlen. lia.
  - fold n. lia.
  - congruence.
Qed.
End Histories.

Section Inclusion.
Context {C H : Type} `{!Currency C} `{!CurrencyLaws C} `{Config} `{!ConfigOk} `{Keccak} `{Arch} `{!ArchOk}
  `{Bls} `{FrameStorage Z} `{!FrameStorageLaws Z} `{FrameStorage (Z * Z)}
  `{HL : HandleLaws H} `{Ethabi}.
Variable cfg : ScConfig.
Implicit Types (s : @Runtime C) (ck : ChainKey).

(** An anchor is a digest of the history. *)
Lemma anchored_on_history s ck hs h d :
  ladder_inv (chain_ladder ck s) -> on_history hs (chain_ladder ck s) ->
  anchored (rn_listener s) ck h d = true ->
  h <= hs_hi hs /\ (hs_lo hs <= h -> d = hs_digest hs h).
Proof.
  intros Hinv Hoh [Ha|Hc]%orb_true_iff.
  - unfold attested_at, get_attestation, attestations_stable in Ha. case_bool_decide as Hcur; [|done].
    destruct (dget (Attestations (sc_listener (rn_listener s))) ck d) as [a|] eqn:Hget; [|done].
    apply Z.eqb_eq in Ha as <-. pose proof (li_key _ Hinv d a Hget) as <-.
    apply (oh_attestations hs _ Hoh Hcur _ a Hget). by left.
  - apply andb_true_iff in Hc as [_ Hc%bool_decide_eq_true].
    change (stable_read (chain_ladder ck s) h = Some d) in Hc.
    pose proof (stable_below_head hs _ h d Hinv Hoh Hc). split; [done|]. intros Hlo.
    apply stable_read_some in Hc as [Hc _]. by apply (oh_checkpoints hs _ Hoh).
Qed.

Lemma verified_on_history s ck hs height tx mp p emit (h : H) b h' :
  reached cfg s -> live_chain (rn_listener s) ck -> on_history hs (chain_ladder ck s) ->
  is_u64 height -> zlen (roots p) <= umax 64 -> wf_proof p -> history_typed hs -> keccak_range ->
  coll_free (payloads p height ++ payloads (history_proof hs height (zlen (roots p))) height) ->
  hs_lo hs < height -> verify_impl (rn_listener s) ck height tx mp p emit h = (Ok b, h') ->
  last_block p height <= hs_hi hs /\ p = history_proof hs height (zlen (roots p)) /\
  height <= hs_hi hs /\ mp_root mp = hs_root hs height /\ merkle_verify mp tx = true.
Proof.
  intros Hr Hlive Hoh Hu Hl Hw Ht Hk Hcf Hlo Hrun.
  destruct (verify_impl_ok _ _ _ _ _ _ _ _ _ _ Hu Hl Hrun) as [(_ & _ & Hm & Hhd & _ & _ & Han) _].
  assert (ladder_inv (chain_ladder ck s)) as Hinv by (by apply (pi_ladder _ _ _ (reached_pallet cfg s Hr))).
  destruct (anchored_on_history s ck hs _ _ Hinv Hoh Han) as [Hle Hd].
  assert (roots p <> []) as Hne by (intros He; by rewrite He in Hhd). pose proof (zlen_pos _ Hne) as Hn.
  assert (height <= last_block p height) by (unfold last_block; lia).
  assert (p = history_proof hs height (zlen (roots p))) as Hp.
  { apply proof_of_history; try done; [apply Hoh|]. apply Hd. lia. }
  split_and!; [done..|lia| |done]. rewrite Hp in Hhd. cbn in Hhd. rewrite seqZ_cons in Hhd by lia.
  by injection Hhd as <-.
Qed.

(** C4: a verified transaction is in the attested block. On a reachable state, let
    a live chain's ladder lie on a history that starts below the query's height.
    If the prover accepts a query, and Keccak does not collide on the blocks hashed
    for its continuity proof and for the same heights of the history, then the
    height is attested, the continuity proof is the history's own segment and the
    query's Merkle root is the history's root at that height. If that root is the
    root of a tree of items (and Keccak does not collide on the tree and the Merkle
    proof), the transaction is one of the items, and [verify_and_emit] logs exactly
    one event, with the chain, the height and that item's index. *)
Theorem verified_transaction_is_attested s ck hs height tx mp p emit (h : H) b h' :
  reached cfg s -> live_chain (rn_listener s) ck -> on_history hs (chain_ladder ck s) ->
  is_u64 height -> zlen (roots p) <= umax 64 -> wf_proof p -> history_typed hs -> keccak_range ->
  coll_free (payloads p height ++ payloads (history_proof hs height (zlen (roots p))) height) ->
  hs_lo hs < height -> verify_impl (rn_listener s) ck height tx mp p emit h = (Ok b, h') ->
  height <= hs_hi hs /\ p = history_proof hs height (zlen (roots p)) /\
  mp_root mp = hs_root hs height /\ merkle_verify mp tx = true /\
  forall items t, merkle_new items = Some t -> merkle_root t = hs_root hs height ->
    Forall (fun e => is_h256 (me_hash e)) (mp_siblings mp) ->
    coll_free (tree_messages items t ++ proof_messages mp tx) ->
    (forall m, m ∈ proof_messages mp tx -> keccak256 m <> PAD_HASH) ->
    exists i, items !! i = Some tx /\ generate_proof t i = Ok mp /\
      logs h' = logs h ++ if emit then
        [transaction_verified (context_address h) ck height (Z.of_nat i)] else [].
Proof.
  intros Hr Hlive Hoh Hu Hl Hw Ht Hk Hcf Hlo Hrun.
  destruct (verified_on_history s ck hs height tx mp p emit h b h') as (Hle & Hp & Hh & Hroot & Hm); try done.
  split_and!; try done. intros items t Hnew Hrt Hwf Hcf' Hpad.
  destruct (merkle_sound items t mp tx) as (i & Hi & Hgen); try done; [congruence|].
  exists i. split_and!; try done.
  destruct (verify_impl_ok _ _ _ _ _ _ _ _ _ _ Hu Hl Hrun) as [_ (u & h1 & u1 & Hpre & Hemit)].
  assert (log_view h1 = log_view h) as Hv.
  { assert (leaves log_view (verify_query p height height tx mp;;
      verify_continuity_chain (rn_listener s) p height ck height)) as Hlv by leaves. by eapply Hlv. }
  injection Hv as Hlogs Haddr.
  destruct emit; cbn [when] in Hemit; [|apply ret_ok in Hemit as [_ ->]; by rewrite app_nil_r].
  apply emit_ok in Hemit as (j & Hj & ->). rewrite Hlogs, Haddr. do 4 f_equal.
  rewrite (tx_index_ok _ _ Hj). by eapply generated_index.
Qed.
End Inclusion.

(** ** On the concrete runtime *)

(** A handle with a stock of gas, a log and the precompile's address. *)
Record GasHandle := mkGasHandle { gh_gas : Z; gh_logs : list Log; }.

#[export] Instance gas_handle : PrecompileHandle GasHandle := {|
  record_cost := fun n h =>
    if n <=? gh_gas h then (Ok tt, mkGasHandle (gh_gas h - n) (gh_logs h)) else (Err OutOfGas, h);
  record_db_read := fun n h =>
    if 2600 + n <=? gh_gas h then (Ok tt, mkGasHandle (gh_gas h - 2600 - n) (gh_logs h))
    else (Err OutOfGas, h);
  record_log := fun l h => (Ok tt, mkGasHandle (gh_gas h) (gh_logs h ++ [l]));
  context_address := fun _ => 4050;
|}.

#[export] Program Instance gas_handle_laws : HandleLaws GasHandle := {|
  gas_left := gh_gas;
  logs := gh_logs;
|}.
Next Obligation.
  intros n h Hn. unfold record_cost, gas_handle. rewrite (proj2 (Z.leb_le _ _)) by lia. by eexists.
Qed.
Next Obligation.
  intros n h r h'. unfold record_cost, gas_handle. destruct (n <=? gh_gas h); by intros [= <- <-].
Qed.
Next Obligation.
  by intros l h u h' [= _ <-].
Qed.

#[export] Instance toy_abi : Ethabi := {|
  encode_string := string_bytes;
  encode_uint := to_be_bytes 32;
|}.

Definition full_tank : GasHandle := mkGasHandle 100000 [].

(** The history after the attestation, and a query of its block 105: the second
    of three transactions. *)
Definition history2 : History := extend history1 commit1.
Definition query_proof : ContinuityProof :=
  mkContinuityProof (compute_continuity_digest (mkContinuityProof 777 [1; 2; 3; 4]) 101)
    [merkle_root ex_tree; 6; 7; 8; 9; 10].

Lemma history2_on : on_history history2 (chain_ladder 1 run2).
Proof.
  assert (chain_ladder 1 run2 = attested (chain_ladder 1 run1) commit1) as -> by (vm_compute; reflexivity).
  apply attest_extends; [|apply history1_on|decide_now|vm_compute; reflexivity..| | | |].
  - apply (pi_ladder _ _ _ (reached_pallet sc_cfg run1 run1_reached)). apply live1. vm_compute. reflexivity.
  - decide_now.
  - vm_compute. reflexivity.
  - vm_compute. reflexivity.
  - intros _. vm_compute. reflexivity.
Qed.

Definition verified_handle : GasHandle :=
  (verify_and_emit (rn_listener run2) 1 105 [3] ex_merkle_proof query_proof full_tank).2.

Lemma history2_typed : history_typed history2.
Proof.
  split; [decide_now|]. intros n Hn. change (100 < n <= 110) in Hn.
  assert (n ∈ seqZ 101 10) as Hin by (apply elem_of_seqZ; lia).
  assert (Forall (fun n => is_h256 (hs_root history2 n)) (seqZ 101 10)) as Hall by decide_now.
  rewrite Forall_forall in Hall. by apply Hall.
Qed.

Lemma verified_transaction_is_attested_witness :
  mp_root ex_merkle_proof = hs_root history2 105 /\
  exists i, ex_items !! i = Some [3] /\
    logs verified_handle = [transaction_verified 4050 1 105 (Z.of_nat i)].
Proof.
  destruct (verified_transaction_is_attested sc_cfg run2 1 history2 105 [3] ex_merkle_proof
    query_proof true full_tank true verified_handle) as (_ & _ & Hroot & _ & Htree);
    [apply run2_reached|apply live1; vm_compute; reflexivity|apply history2_on|decide_now|decide_now
    |decide_now|apply history2_typed|apply toy_keccak_range|apply coll_freeb_sound; vm_compute; reflexivity
    |decide_now|vm_compute; reflexivity|].
  split; [exact Hroot|].
  destruct (Htree ex_items ex_tree) as (i & Hi & _ & Hlogs);
    [reflexivity|vm_compute; reflexivity|decide_now|apply coll_freeb_sound; vm_compute; reflexivity| |].
  - apply Forall_forall. decide_now.
  - exists i. split; [exact Hi|exact Hlogs].
Defined.

(** A proof that ends one block short of the attestation. *)
Lemma verify_decides_witness :
  exists h', verify (rn_listener run2) 1 105 [3] ex_merkle_proof
    (mkContinuityProof 1 [merkle_root ex_tree; 6; 7; 8; 9]) full_tank =
    (Err (reverted "Continuity proof does not match attestation or checkpoint"), h') /\
    gas_left h' = 86664.
Proof.
  destruct (verify_decides (rn_listener run2) 1 105 [3] ex_merkle_proof
    (mkContinuityProof 1 [merkle_root ex_tree; 6; 7; 8; 9]) full_tank) as (h' & Hr & Hg & _);
    [decide_now..|]. exists h'. rewrite Hr, Hg. split; vm_compute; reflexivity.
Defined.

Lemma batch_is_each_query_witness :
  exists h', verify (rn_listener run2) 1 105 [3] ex_merkle_proof query_proof full_tank = (Ok true, h').
Proof.
  assert (exists h', verify_batch (rn_listener run2) 1 [105; 105] [[3]; [3]]
    [ex_merkle_proof; ex_merkle_proof] query_proof full_tank = (Ok true, h')) as Hb.
  { eexists. vm_compute. reflexivity. }
  apply (batch_is_each_query (rn_listener run2) 1 [105; 105] [[3]; [3]]
    [ex_merkle_proof; ex_merkle_proof] query_proof full_tank) with (height := 105) (tx := [3])
    (mp := ex_merkle_proof) in Hb; [exact Hb|done|done|done|decide_now|decide_now|decide_now|by left].
Defined.
