(* ===== verification/ChainInfo.v ===== *)
(** * The chain info precompile

    [src/precompiles/chain-info/src/lib.rs]: what contracts can ask about the
    attested chains. The two searches look for the highest attested height below a
    target and the lowest at or above it: in the checkpoint buckets when the target
    is below the last checkpoint, in the retained attestations otherwise. *)

From stdpp Require Import prelude gmap list sorting strings.
From Stdlib Require Import ZArith Lia.
From S2P Require Import Prelude Primitives Frame SupportedChains Types Ledger Roster Maintenance.
From S2P Require Import LadderSpec History LadderRefine MaintRefine BlockProver.

(** The SCALE size of a stored chain, and the encoding of [RevertReason::custom]. *)
Class ChainInfoCodec := {
  supported_chain_size : SupportedChain -> Z;
  custom_revert : string -> list Z;
}.

Definition BUCKET_SEARCH_ATTEMPTS : nat := 5.

(** ** Results *)

Record ChainInfo := mkChainInfo {
  ci_chain_key : ChainKey;
  ci_chain_id : Z;
  ci_chain_name : list Z;
  ci_chain_encoding : Z;
}.

Record ChainInfoResult := mkChainInfoResult { cir_chain : ChainInfo; cir_exists : bool; }.
Definition with_chain (chain : ChainInfo) : ChainInfoResult := mkChainInfoResult chain true.
Definition no_chain : ChainInfoResult := mkChainInfoResult (mkChainInfo 0 0 [] 0) false.

Record HeightResult := mkHeightResult { hr_height : Z; hr_exists : bool; }.
Record HashResult := mkHashResult { har_hash : H256; har_exists : bool; }.

Record HeightHashResult := mkHeightHash {
  hh_height : Z;
  hh_hash : H256;
  hh_is_attestation : bool;
  hh_exists : bool;
}.
Definition no_height_hash : HeightHashResult := mkHeightHash 0 0 false false.

Record BoundsCheckResult := mkBounds {
  bc_parent : Z;
  bc_parent_hash : H256;
  bc_parent_is_attestation : bool;
  bc_child : Z;
  bc_child_hash : H256;
  bc_child_is_attestation : bool;
  bc_is_attested : bool;
}.

(** ** Iterators *)

(** [inspect(count).any(p)]: whether an element satisfies [p], and how many were
    pulled to find out. *)
Fixpoint any_count {A} (p : A -> bool) (l : list A) : bool * Z :=
  match l with
  | [] => (false, 0)
  | x :: l' => if p x then (true, 1) else let '(b, n) := any_count p l' in (b, 1 + n)
  end.

(** [max_by_key] keeps the last of equal elements, [min_by_key] the first. *)
Definition max_by_key {A} (key : A -> Z) (l : list A) : option A :=
  foldl (fun acc x => match acc with
    | Some y => if key y <=? key x then Some x else Some y
    | None => Some x end) None l.
Definition min_by_key {A} (key : A -> Z) (l : list A) : option A :=
  foldl (fun acc x => match acc with
    | Some y => if key x <? key y then Some x else Some y
    | None => Some x end) None l.

Section ChainInfo.
Context {C H : Type} `{FrameStorage Z} `{PrecompileHandle H} `{ChainInfoCodec} `{Config}.
Implicit Types (sc : ScState (State C)) (ck : ChainKey).

(** [Attestations::iter_prefix(chain_key)] *)
Definition attestation_iter (a : State C) ck : list (Digest * SignedAttestation) :=
  omap (fun d => pair d <$> row (Attestations a) ck !! d)
    (iter_keys AttestationsItem (row (Attestations a) ck)).

(** [GAS_STORAGE_LOOKUP * n] *)
Definition lookups (n : Z) : EvmResult unit := evm (record_cost (wrap 64 (GAS_STORAGE_LOOKUP * n))).

Definition ensure_chain_supported sc ck : EvmResult unit :=
  evm (record_cost GAS_STORAGE_LOOKUP);;
  ensure (bool_decide (is_Some (SupportedChains sc !! ck)))
    (Revert (custom_revert "chain not supported")).

(** ** Lookups *)

Definition chain_info ck (c : SupportedChain) : ChainInfo :=
  mkChainInfo ck (chain_id c) (chain_name c) (chain_encoding c).

Fixpoint collect_chains sc (keys : list ChainKey) : EvmResult (list ChainInfo) :=
  match keys with
  | [] => mret []
  | ck :: keys' =>
      match SupportedChains sc !! ck with
      | Some c =>
          evm (record_db_read (supported_chain_size c));;
          rest ← collect_chains sc keys';
          mret (chain_info ck c :: rest)
      | None => collect_chains sc keys'
      end
  end.

Definition get_supported_chains sc : EvmResult (list ChainInfo) :=
  collect_chains sc (iter_keys SupportedChainsItem (SupportedChains sc)).

Definition get_chain_by_key sc ck : EvmResult ChainInfoResult :=
  match SupportedChains sc !! ck with
  | Some c =>
      evm (record_db_read (supported_chain_size c));;
      mret (with_chain (chain_info ck c))
  | None =>
      evm (record_db_read 0);;
      mret no_chain
  end.

Definition get_attestation_genesis_height sc ck : EvmResult Z :=
  ensure_chain_supported sc ck;;
  evm (record_db_read 8);;
  mret (attestation_chain_genesis_block_number (sc_listener sc) ck).

Definition get_latest_attestation_height_and_hash sc ck : EvmResult HeightHashResult :=
  ensure_chain_supported sc ck;;
  evm (record_db_read 40);;
  match LastDigest (sc_listener sc) !! ck with
  | Some (height, hash) => mret (mkHeightHash height hash true true)
  | None =>
      evm (record_db_read 40);;
      match LastCheckpoint (sc_listener sc) !! ck with
      | Some cp => mret (mkHeightHash (cp_block_number cp) (cp_digest cp) false true)
      | None => mret no_height_hash
      end
  end.

Definition get_latest_checkpoint_height_and_hash sc ck : EvmResult HeightHashResult :=
  ensure_chain_supported sc ck;;
  evm (record_db_read 40);;
  match LastCheckpoint (sc_listener sc) !! ck with
  | Some cp => mret (mkHeightHash (cp_block_number cp) (cp_digest cp) false true)
  | None => mret no_height_hash
  end.

Definition get_attestation_height_for_digest sc ck (d : Digest) : EvmResult HeightResult :=
  ensure_chain_supported sc ck;;
  evm (record_cost (saturating_mul 64 GAS_STORAGE_LOOKUP 2));;
  match get_attestation (sc_listener sc) ck d with
  | Some a => mret (mkHeightResult (sa_header_number a) true)
  | None => mret (mkHeightResult 0 false)
  end.

Definition get_checkpoint_for_height sc ck (height : Height) : EvmResult HashResult :=
  ensure_chain_supported sc ck;;
  evm (record_cost (saturating_mul 64 GAS_STORAGE_LOOKUP 2));;
  match checkpoint_if_stable (sc_listener sc) ck height with
  | Some d => mret (mkHashResult d true)
  | None => mret (mkHashResult 0 false)
  end.

(** ** Searches *)

(** The first candidate with a stable checkpoint. *)
Fixpoint probe sc ck (candidates : list Height) : EvmResult (option HeightHashResult) :=
  match candidates with
  | [] => mret None
  | block_number :: rest =>
      evm (record_cost (saturating_mul 64 GAS_STORAGE_LOOKUP 2));;
      match checkpoint_if_stable (sc_listener sc) ck block_number with
      | Some d => mret (Some (mkHeightHash block_number d false true))
      | None => probe sc ck rest
      end
  end.

(** The loop over buckets: [candidates] picks and orders a bucket's heights,
    [next] moves to the next bucket. *)
Fixpoint search_buckets sc ck (candidates : list Height -> list Height) (next : Z -> Z)
    (attempts : nat) (block_pivot : Z) : EvmResult (option HeightHashResult) :=
  match attempts with
  | O => mret None
  | S attempts' =>
      evm (record_cost GAS_STORAGE_LOOKUP);;
      let heights := bucket_heights (sc_listener sc) ck block_pivot in
      lookups (zlen heights);;
      found ← probe sc ck (candidates heights);
      match found with
      | Some r => mret (Some r)
      | None => search_buckets sc ck candidates next attempts' (next block_pivot)
      end
  end.

Definition highest_below (target : Height) (heights : list Height) : list Height :=
  merge_sort Z.ge (filter (fun n => n < target) heights).
Definition lowest_from (target : Height) (heights : list Height) : list Height :=
  merge_sort Z.le (filter (fun n => target <= n) heights).

Definition previous_bucket (block_pivot : Z) : Z := saturating_sub block_pivot CHECKPOINT_BUCKET_SIZE.
Definition next_bucket (block_pivot : Z) : Z := saturating_add 64 block_pivot CHECKPOINT_BUCKET_SIZE.

Definition attestation_result (da : Digest * SignedAttestation) : HeightHashResult :=
  mkHeightHash (sa_header_number da.2) da.1 true true.

Definition find_highest_attested_before sc ck (target_height : Height) : EvmResult HeightHashResult :=
  let a := sc_listener sc in
  ensure_chain_supported sc ck;;
  evm (record_cost GAS_STORAGE_LOOKUP);;
  let last := cp_block_number <$> LastCheckpoint a !! ck in
  if from_option (fun height => target_height <=? height) false last then
    found ← search_buckets sc ck (highest_below target_height) previous_bucket
      BUCKET_SEARCH_ATTEMPTS (compute_block_index_for (saturating_sub target_height 1));
    mret (default no_height_hash found)
  else
    evm (record_cost (saturating_mul 64 GAS_STORAGE_LOOKUP 2));;
    let entries := if attestations_stable a ck then attestation_iter a ck else [] in
    let below := max_by_key (fun da => sa_header_number da.2)
      (filter (fun da => sa_header_number da.2 < target_height) entries) in
    highest ←
      (match below with
       | Some da => mret (attestation_result da)
       | None =>
           match last with
           | Some height =>
               evm (record_cost (saturating_mul 64 GAS_STORAGE_LOOKUP 2));;
               mret (match checkpoint_if_stable a ck height with
                     | Some d => mkHeightHash height d false true
                     | None => no_height_hash
                     end)
           | None => mret no_height_hash
           end
       end);
    lookups (zlen entries);;
    mret highest.

Definition find_lowest_attested_after sc ck (target_height : Height) : EvmResult HeightHashResult :=
  let a := sc_listener sc in
  ensure_chain_supported sc ck;;
  evm (record_cost GAS_STORAGE_LOOKUP);;
  let last := cp_block_number <$> LastCheckpoint a !! ck in
  if from_option (fun height => target_height <? height) false last then
    found ← search_buckets sc ck (lowest_from target_height) next_bucket
      BUCKET_SEARCH_ATTEMPTS (compute_block_index_for target_height);
    mret (default no_height_hash found)
  else
    evm (record_cost (saturating_mul 64 GAS_STORAGE_LOOKUP 2));;
    let entries := if attestations_stable a ck then attestation_iter a ck else [] in
    let lowest := default no_height_hash (attestation_result <$>
      min_by_key (fun da => sa_header_number da.2)
        (filter (fun da => target_height <= sa_header_number da.2) entries)) in
    lookups (zlen entries);;
    mret lowest.

(** The loop of [is_height_attested]: whether one of the buckets holds a height at
    or below the target; the index is not checked against [Checkpoints]. *)
Fixpoint any_bucket_below sc ck (target_height : Height) (attempts : nat) (block_pivot : Z)
    : EvmResult bool :=
  match attempts with
  | O => mret false
  | S attempts' =>
      evm (record_cost GAS_STORAGE_LOOKUP);;
      let '(found, n) := any_count (fun block_number => block_number <=? target_height)
        (bucket_heights (sc_listener sc) ck block_pivot) in
      lookups n;;
      if found then mret true
      else any_bucket_below sc ck target_height attempts' (previous_bucket block_pivot)
  end.

(** One scan of the attestations' header numbers. *)
Definition any_attestation sc ck (p : Height -> bool) : EvmResult bool :=
  let '(found, n) := any_count (fun da => p (sa_header_number da.2))
    (attestation_iter (sc_listener sc) ck) in
  lookups n;;
  mret found.

Definition is_height_attested sc ck (target_height : Height) : EvmResult bool :=
  let a := sc_listener sc in
  ensure_chain_supported sc ck;;
  evm (record_cost GAS_STORAGE_LOOKUP);;
  match LastCheckpoint a !! ck with
  | Some cp =>
      let last := cp_block_number cp in
      if last <? target_height then
        evm (record_cost (saturating_mul 64 GAS_STORAGE_LOOKUP 2));;
        if attestations_stable a ck then any_attestation sc ck (fun n => target_height <=? n)
        else lookups 0;; mret false
      else if target_height <? last then
        any_bucket_below sc ck target_height BUCKET_SEARCH_ATTEMPTS
          (compute_block_index_for (saturating_sub target_height 1))
      else mret true
  | None =>
      evm (record_cost (saturating_mul 64 GAS_STORAGE_LOOKUP 2));;
      if negb (attestations_stable a ck) then mret false
      else
        found_attestation ← any_attestation sc ck (fun n => n =? target_height);
        if (found_attestation : bool) then mret true
        else
          evm (record_cost GAS_STORAGE_LOOKUP);;
          found_next ← any_attestation sc ck (fun n => target_height <? n);
          evm (record_cost GAS_STORAGE_LOOKUP);;
          found_prev ← any_attestation sc ck (fun n => n <? target_height);
          mret (found_next && found_prev)
  end.

Definition get_attestation_bounds sc ck (target_height : Height) : EvmResult BoundsCheckResult :=
  ensure_chain_supported sc ck;;
  prev ← find_highest_attested_before sc ck target_height;
  next ← find_lowest_attested_after sc ck target_height;
  mret (mkBounds (hh_height prev) (hh_hash prev) (hh_is_attestation prev)
    (hh_height next) (hh_hash next) (hh_is_attestation next) (hh_exists prev && hh_exists next)).
End ChainInfo.

(** ** Iterators *)

Lemma any_count_spec {A} (p : A -> bool) l : (any_count p l).1 = true <-> exists x, x ∈ l /\ p x = true.
Proof.
  induction l as [|x l IH]; cbn; [split; [done|by intros (? & ?%not_elem_of_nil & _)]|].
  destruct (p x) eqn:Hp; cbn.
  - split; [|done]. intros _. exists x. split; [left|done].
  - destruct (any_count p l) as [b n]. cbn in *. rewrite IH. split.
    + intros (y & Hy & Hpy). exists y. split; [by right|done].
    + intros (y & Hy & Hpy). apply elem_of_cons in Hy as [->|Hy]; [congruence|eauto].
Qed.

Lemma best_spec {A} (better : A -> A -> bool) (R : A -> A -> Prop) l :
  (forall x, R x x) -> (forall x y z, R x y -> R y z -> R x z) ->
  (forall x y, if better x y then R x y else R y x) ->
  match foldl (fun acc x => match acc with
      | Some y => if better x y then Some x else Some y | None => Some x end) None l with
  | Some x => x ∈ l /\ forall y, y ∈ l -> R x y
  | None => l = []
  end.
Proof.
  intros Hrefl Htrans Hb. induction l as [|x l IH] using rev_ind; [done|]. rewrite foldl_app. cbn.
  destruct (foldl _ None l) as [y|]; [destruct IH as [Hy Hall]|subst l; cbn].
  - specialize (Hb x y). destruct (better x y).
    + split; [set_solver|]. intros z Hz. apply elem_of_app in Hz as [Hz|Hz%list_elem_of_singleton]; [|by subst].
      eapply Htrans; [done|by apply Hall].
    + split; [set_solver|]. intros z Hz. apply elem_of_app in Hz as [Hz|Hz%list_elem_of_singleton]; [|by subst].
      by apply Hall.
  - split; [left|]. intros z Hz%list_elem_of_singleton. by subst.
Qed.

Lemma max_by_key_spec {A} (key : A -> Z) l :
  match max_by_key key l with
  | Some x => x ∈ l /\ forall y, y ∈ l -> key x >= key y
  | None => l = []
  end.
Proof.
  apply (best_spec (fun x y => key y <=? key x) (fun x y => key x >= key y)); [lia..|].
  intros x y. destruct (Z.leb_spec (key y) (key x)); lia.
Qed.

Lemma min_by_key_spec {A} (key : A -> Z) l :
  match min_by_key key l with
  | Some x => x ∈ l /\ forall y, y ∈ l -> key x <= key y
  | None => l = []
  end.
Proof.
  apply (best_spec (fun x y => key x <? key y) (fun x y => key x <= key y)); [lia..|].
  intros x y. destruct (Z.ltb_spec (key x) (key y)); lia.
Qed.

Lemma elem_of_attestation_iter {C} `{FrameStorageLaws Z} (a : State C) ck d att :
  (d, att) ∈ attestation_iter a ck <-> row (Attestations a) ck !! d = Some att.
Proof.
  unfold attestation_iter. rewrite list_elem_of_omap. split.
  - intros (d' & _ & Hd). destruct (row (Attestations a) ck !! d') eqn:Hr; [|done].
    injection Hd as -> ->. done.
  - intros Hr. exists d. rewrite elem_of_iter_keys, Hr. eauto.
Qed.

(** ** Searching the buckets *)

Section Search.
Context {C H : Type} `{FrameStorageLaws Z} `{PrecompileHandle H}.
Variables (sc : ScState (State C)) (ck : ChainKey).
Let stable (n : Height) (d : Digest) : Prop := checkpoint_if_stable (sc_listener sc) ck n = Some d.
Hypothesis indexed_by_bucket : forall p n,
  (p, n) ∈ bucket_row (sc_listener sc) ck <->
  p = compute_block_index_for n /\ is_Some (dget (Checkpoints (sc_listener sc)) ck n).

Lemma stable_stored n d : stable n d -> is_Some (dget (Checkpoints (sc_listener sc)) ck n).
Proof. unfold stable, checkpoint_if_stable. repeat case_match; eauto; done. Qed.

Lemma probe_ok cs (h : H) r h' :
  probe sc ck cs h = (Ok r, h') ->
  match r with
  | Some x => exists l1 n l2 d, cs = l1 ++ n :: l2 /\ stable n d /\ x = mkHeightHash n d false true /\
      forall m d', m ∈ l1 -> ~ stable m d'
  | None => forall m d', m ∈ cs -> ~ stable m d'
  end.
Proof.
  revert h. induction cs as [|n cs IH]; intros h Hrun; cbn [probe] in Hrun.
  { run_inv. by intros m d' ?%not_elem_of_nil. }
  step_inv Hrun. destruct (checkpoint_if_stable (sc_listener sc) ck n) as [d|] eqn:Hn.
  - run_inv. exists [], n, cs, d. split_and!; try done. by intros m d' ?%not_elem_of_nil.
  - apply IH in Hrun. assert (forall d', ~ stable n d') as Hno by (intros d' Hd; unfold stable in Hd; congruence).
    destruct r as [r|].
    + destruct Hrun as (l1 & n' & l2 & d & -> & Hs & -> & Hl1). exists (n :: l1), n', l2, d.
      split_and!; try done. intros m d' Hm. apply elem_of_cons in Hm as [->|Hm]; eauto.
    + intros m d' Hm. apply elem_of_cons in Hm as [->|Hm]; eauto.
Qed.

Variables (R : Z -> Z -> Prop) (keep : Z -> Prop) (next : Z -> Z) (reach : Z -> Z -> Prop).
Context `{!forall n, Decision (keep n)} `{!RelDecision R} `{!Transitive R} `{!Total R} `{!Reflexive R}.
Hypothesis reach_here : forall p m, reach p m -> compute_block_index_for m = p \/ reach (next p) m.
Hypothesis reach_order : forall p n m, reach p n -> compute_block_index_for n = p -> reach p m ->
  compute_block_index_for m <> p -> R n m.

Lemma in_bucket p n :
  n ∈ merge_sort R (filter keep (bucket_heights (sc_listener sc) ck p)) ->
  keep n /\ compute_block_index_for n = p.
Proof.
  rewrite merge_sort_Permutation, list_elem_of_filter, elem_of_bucket_heights, indexed_by_bucket.
  by intros (? & -> & _).
Qed.

Lemma in_bucket_2 p n :
  keep n -> compute_block_index_for n = p -> is_Some (dget (Checkpoints (sc_listener sc)) ck n) ->
  n ∈ merge_sort R (filter keep (bucket_heights (sc_listener sc) ck p)).
Proof.
  intros Hk <- Hs. rewrite merge_sort_Permutation, list_elem_of_filter, elem_of_bucket_heights, indexed_by_bucket.
  done.
Qed.

(** The search returns the first stable height in the order [R] among those to be
    kept, if all of them lie in the buckets ahead; and if it returns nothing they
    all lie beyond the buckets it visited. *)
Lemma search_ok attempts p (h : H) r h' :
  (forall m d, stable m d -> keep m -> reach p m) ->
  search_buckets sc ck (fun hs => merge_sort R (filter keep hs)) next attempts p h = (Ok r, h') ->
  match r with
  | Some x => exists n d, stable n d /\ keep n /\ x = mkHeightHash n d false true /\
      forall m d', stable m d' -> keep m -> R n m
  | None => forall m d, stable m d -> keep m -> reach (Nat.iter attempts next p) m /\
      forall j, (j < attempts)%nat -> compute_block_index_for m <> Nat.iter j next p
  end.
Proof.
  revert p h. induction attempts as [|k IH]; intros p h Hreach Hrun; cbn [search_buckets] in Hrun.
  { run_inv. intros m d Hs Hk. split; [by eapply Hreach|lia]. }
  step_inv Hrun. step_inv Hrun. apply bind_ok in Hrun as (found & h2 & Hprobe & Hrun).
  apply probe_ok in Hprobe. destruct found as [r1|].
  - run_inv. destruct Hprobe as (l1 & n & l2 & d & Heq & Hs & -> & Hl1).
    assert (n ∈ merge_sort R (filter keep (bucket_heights (sc_listener sc) ck p))) as Hn.
    { rewrite Heq. apply elem_of_app. right. left. }
    apply in_bucket in Hn as [Hkn Hpn]. exists n, d. split_and!; try done. intros m d' Hm Hkm.
    destruct (decide (compute_block_index_for m = p)) as [Hpm|Hpm]; [|by eapply (reach_order p); eauto].
    pose proof (StronglySorted_merge_sort R (filter keep (bucket_heights (sc_listener sc) ck p))) as Hsort.
    assert (m ∈ merge_sort R (filter keep (bucket_heights (sc_listener sc) ck p))) as Hin.
    { apply in_bucket_2; [done|done|by eapply stable_stored]. }
    rewrite Heq in Hsort, Hin. apply StronglySorted_app in Hsort as (_ & _ & [_ Hall]%StronglySorted_inv).
    apply elem_of_app in Hin as [Hin|Hin]; [by destruct (Hl1 m d')|].
    apply elem_of_cons in Hin as [->|Hin]; [done|]. rewrite Forall_forall in Hall. by apply Hall.
  - assert (forall m d, stable m d -> keep m -> compute_block_index_for m <> p) as Hne.
    { intros m d Hs Hk Hp. apply (Hprobe m d); [|done]. apply in_bucket_2; [done|done|by eapply stable_stored]. }
    apply IH in Hrun.
    + destruct r as [r1|]; [done|]. intros m d Hs Hk. destruct (Hrun m d Hs Hk) as [Hr Hj].
      rewrite Nat.iter_succ_r. split; [done|]. intros [|j] Hlt; [by eapply Hne|].
      rewrite Nat.iter_succ_r. apply Hj. lia.
    + intros m d Hs Hk. destruct (reach_here p m); [by eapply Hreach|by destruct (Hne m d)|done].
Qed.
End Search.

(** ** What the searches find *)

#[local] Instance ge_refl : Reflexive Z.ge. Proof. intros ?. lia. Qed.
#[local] Instance ge_trans : Transitive Z.ge. Proof. intros ???. lia. Qed.
#[local] Instance ge_total : Total Z.ge. Proof. intros ??. lia. Qed.

(** The five pivots a search has visited. *)
Ltac visited Hj :=
  unfold BUCKET_SEARCH_ATTEMPTS in Hj;
  pose proof (Hj 0%nat ltac:(lia)); pose proof (Hj 1%nat ltac:(lia)); pose proof (Hj 2%nat ltac:(lia));
  pose proof (Hj 3%nat ltac:(lia)); pose proof (Hj 4%nat ltac:(lia)).

Section Found.
Context {C H : Type} `{FrameStorageLaws Z} `{PrecompileHandle H} `{ChainInfoCodec} `{Config} `{Keccak} `{Arch}.
Implicit Types (sc : ScState (State C)) (ck : ChainKey) (a : State C).

Definition stable_at a ck (n : Height) (d : Digest) : Prop := checkpoint_if_stable a ck n = Some d.
Definition attested_by a ck (n : Height) (d : Digest) : Prop :=
  exists att, get_attestation a ck d = Some att /\ sa_header_number att = n.

(** The nearest stable checkpoint or attestation at a height that [keep] admits, in
    the order [R]: checkpoints when the target is covered by the last one. *)
Definition nearest_checkpoint a ck (keep : Height -> Prop) (R : Height -> Height -> Prop)
    (r : HeightHashResult) : Prop :=
  exists n d, stable_at a ck n d /\ keep n /\ r = mkHeightHash n d false true /\
    forall m d', stable_at a ck m d' -> keep m -> R n m.
Definition nearest_attestation a ck (keep : Height -> Prop) (R : Height -> Height -> Prop)
    (r : HeightHashResult) : Prop :=
  exists n d, attested_by a ck n d /\ keep n /\ r = mkHeightHash n d true true /\
    forall m d', attested_by a ck m d' -> keep m -> R n m.

Lemma supported_query_ok sc ck (h : H) u h' :
  ensure_chain_supported sc ck h = (Ok u, h') -> is_Some (SupportedChains sc !! ck).
Proof. unfold ensure_chain_supported. intros Hrun. step_inv Hrun. by run_inv; apply bool_decide_eq_true in Hens. Qed.

Lemma ladder_buckets a ck : ladder_inv (ladder_of ck a) -> forall p n,
  (p, n) ∈ bucket_row a ck <-> p = compute_block_index_for n /\ is_Some (dget (Checkpoints a) ck n).
Proof. intros Hinv. apply (li_buckets _ Hinv). Qed.

Lemma stable_u64 a ck n d : ladder_inv (ladder_of ck a) -> stable_at a ck n d -> is_u64 n.
Proof.
  intros Hinv Hs. apply (li_u64 _ Hinv).
  assert (stable_read (ladder_of ck a) n = Some d) as [Hc _]%stable_read_some by exact Hs. eauto.
Qed.

Lemma index_mono m n : m <= n -> compute_block_index_for m <= compute_block_index_for n.
Proof.
  intros Hmn. rewrite !pivot_eq. unfold CHECKPOINT_BUCKET_SIZE.
  pose proof (Z.div_le_mono m n 1000 ltac:(lia) Hmn). lia.
Qed.

Lemma search_highest sc ck target (h : H) r h' :
  ladder_inv (ladder_of ck (sc_listener sc)) -> is_u64 target ->
  search_buckets sc ck (highest_below target) previous_bucket BUCKET_SEARCH_ATTEMPTS
    (compute_block_index_for (saturating_sub target 1)) h = (Ok r, h') ->
  match r with
  | Some x => nearest_checkpoint (sc_listener sc) ck (fun n => n < target) Z.ge x
  | None => forall m d, stable_at (sc_listener sc) ck m d -> m < target ->
      m < compute_block_index_for (saturating_sub target 1) - 4 * CHECKPOINT_BUCKET_SIZE
  end.
Proof.
  intros Hinv Ht Hrun. unfold is_u64 in Ht.
  set (reach := fun p m => 0 <= m /\ p mod 1000 = 0 /\ 0 <= p /\ compute_block_index_for m <= p).
  assert (forall m, 0 <= m -> 0 <= compute_block_index_for m) as Hpos.
  { intros m Hm. by apply pivot_spec. }
  eapply (search_ok sc ck (ladder_buckets _ _ Hinv) Z.ge (fun n => n < target) previous_bucket reach) in Hrun.
  - destruct r as [x|]; [exact Hrun|]. intros m d Hs Hk. destruct (Hrun m d Hs Hk) as [Hr Hj].
    destruct Hr as (Hm & _ & _ & Hle). pose proof (pivot_spec m Hm) as (? & ? & _).
    visited Hj. clear Hj.
    cbn [Nat.iter nat_rect BUCKET_SEARCH_ATTEMPTS] in *. rewrite !pivot_eq in *. unfold previous_bucket, saturating_sub, CHECKPOINT_BUCKET_SIZE in *.
    lia.
  - intros p m (Hm & Hmod & Hp & Hle). destruct (decide (compute_block_index_for m = p)) as [|Hne]; [by left|right].
    pose proof (Hpos m Hm). rewrite pivot_eq in *. unfold reach, previous_bucket, saturating_sub, CHECKPOINT_BUCKET_SIZE in *.
    rewrite pivot_eq. unfold CHECKPOINT_BUCKET_SIZE. apply Z.mod_divide in Hmod as [q ->]; [|done].
    split_and!; [lia| |lia|lia].
    rewrite Z.max_r by lia. replace (q * 1000 - 1000) with ((q - 1) * 1000) by lia. by apply Z.mod_mul.
  - intros p n m (Hn & _) Hpn (Hm & _ & _ & Hle) Hne. pose proof (pivot_spec n Hn). pose proof (pivot_spec m Hm).
    apply Z.le_ge. destruct (Z.le_gt_cases n m) as [Hnm|]; [|lia]. apply index_mono in Hnm. lia.
  - intros m d Hs Hk. pose proof (stable_u64 _ _ _ _ Hinv Hs) as Hu. unfold is_u64 in Hu.
    assert (0 <= saturating_sub target 1) by (unfold saturating_sub; lia).
    split_and!; [lia|by apply (pivot_spec (saturating_sub target 1))|by apply Hpos|].
    apply index_mono. unfold saturating_sub. lia.
Qed.

Lemma next_bucket_ok p : pivot_ok p -> pivot_ok (next_bucket p).
Proof.
  unfold pivot_ok, next_bucket, saturating_add. intros [Hp Hok].
  destruct (Z.min_spec (p + CHECKPOINT_BUCKET_SIZE) (umax 64)) as [[Hlt ->]|[_ ->]].
  - unfold CHECKPOINT_BUCKET_SIZE in *. split; [lia|]. destruct Hok as [Hmod| ->]; [left|lia].
    rewrite Z.add_mod, Hmod by done. done.
  - split; [rewrite umax_64; lia|by right].
Qed.

Lemma search_lowest sc ck target (h : H) r h' :
  ladder_inv (ladder_of ck (sc_listener sc)) -> is_u64 target ->
  search_buckets sc ck (lowest_from target) next_bucket BUCKET_SEARCH_ATTEMPTS
    (compute_block_index_for target) h = (Ok r, h') ->
  match r with
  | Some x => nearest_checkpoint (sc_listener sc) ck (fun n => target <= n) Z.le x
  | None => forall m d, stable_at (sc_listener sc) ck m d -> target <= m ->
      compute_block_index_for target + 5 * CHECKPOINT_BUCKET_SIZE <= m
  end.
Proof.
  intros Hinv Ht Hrun. unfold is_u64 in Ht.
  set (reach := fun p m => is_u64 m /\ pivot_ok p /\ p <= compute_block_index_for m).
  eapply (search_ok sc ck (ladder_buckets _ _ Hinv) Z.le (fun n => target <= n) next_bucket reach) in Hrun.
  - destruct r as [x|]; [exact Hrun|]. intros m d Hs Hk. destruct (Hrun m d Hs Hk) as [Hr Hj].
    destruct Hr as (Hm & _ & Hle). unfold is_u64 in Hm. pose proof (pivot_spec m ltac:(lia)) as (? & ? & _).
    visited Hj. clear Hj. cbn [Nat.iter nat_rect BUCKET_SEARCH_ATTEMPTS] in *. rewrite !pivot_eq in *.
    unfold next_bucket, saturating_add, CHECKPOINT_BUCKET_SIZE in *. rewrite umax_64, pow2_64 in *. lia.
  - intros p m (Hm & Hp & Hle). destruct (decide (compute_block_index_for m = p)) as [|Hne]; [by left|right].
    pose proof (advance_pivot p m Hp Hm Hle Hne). split_and!; [done|by apply next_bucket_ok|done].
  - intros p n m (Hn & _) Hpn (Hm & _ & Hle) Hne. unfold is_u64 in *.
    pose proof (pivot_spec n ltac:(lia)). pose proof (pivot_spec m ltac:(lia)).
    destruct (Z.le_gt_cases n m) as [|Hnm]; [done|].
    assert (m <= n) as Hmn by lia. apply index_mono in Hmn. lia.
  - intros m d Hs Hk. pose proof (stable_u64 _ _ _ _ Hinv Hs) as Hu.
    pose proof (pivot_spec target ltac:(lia)) as (? & _ & ?).
    split_and!; [done|split; [lia|by left]|by apply index_mono].
Qed.

Lemma entries_spec a ck n d :
  attested_by a ck n d <-> exists att, (d, att) ∈ (if attestations_stable a ck then attestation_iter a ck else []) /\
    sa_header_number att = n.
Proof.
  unfold attested_by, get_attestation. destruct (attestations_stable a ck).
  - by setoid_rewrite elem_of_attestation_iter.
  - split; [by intros (? & [=] & _)|by intros (? & ?%not_elem_of_nil & _)].
Qed.

Definition last_height a ck : option Height := cp_block_number <$> LastCheckpoint a !! ck.

(** What [find_highest_attested_before] answers. *)
Definition highest_answer a ck (target : Height) (r : HeightHashResult) : Prop :=
  let below := fun n => n < target in
  match last_height a ck with
  | Some last =>
      if target <=? last then
        nearest_checkpoint a ck below Z.ge r \/
        r = no_height_hash /\ forall m d, stable_at a ck m d -> m < target ->
          m < compute_block_index_for (saturating_sub target 1) - 4 * CHECKPOINT_BUCKET_SIZE
      else
        nearest_attestation a ck below Z.ge r \/
        (forall m d, attested_by a ck m d -> target <= m) /\
        r = match checkpoint_if_stable a ck last with
            | Some d => mkHeightHash last d false true | None => no_height_hash end
  | None =>
      nearest_attestation a ck below Z.ge r \/
      (forall m d, attested_by a ck m d -> target <= m) /\ r = no_height_hash
  end.

(** What [find_lowest_attested_after] answers. *)
Definition lowest_answer a ck (target : Height) (r : HeightHashResult) : Prop :=
  let from := fun n => target <= n in
  if from_option (fun last => target <? last) false (last_height a ck) then
    nearest_checkpoint a ck from Z.le r \/
    r = no_height_hash /\ forall m d, stable_at a ck m d -> target <= m ->
      compute_block_index_for target + 5 * CHECKPOINT_BUCKET_SIZE <= m
  else
    nearest_attestation a ck from Z.le r \/
    (forall m d, attested_by a ck m d -> m < target) /\ r = no_height_hash.

Lemma best_attestation a ck (keep : Height -> Prop) `{!forall n, Decision (keep n)} R best :
  (forall l, match best l with
     | Some x => x ∈ l /\ forall y, y ∈ l -> R (sa_header_number x.2) (sa_header_number y.2)
     | None => l = [] end) ->
  match best (filter (fun da => keep (sa_header_number da.2))
      (if attestations_stable a ck then attestation_iter a ck else [])) with
  | Some da => nearest_attestation a ck keep R (attestation_result da)
  | None => forall m d, attested_by a ck m d -> ~ keep m
  end.
Proof.
  set (entries := if attestations_stable a ck then attestation_iter a ck else []). intros Hspec.
  specialize (Hspec (filter (fun da => keep (sa_header_number da.2)) entries)).
  destruct (best _) as [[d att]|].
  - destruct Hspec as [[Hk Hin]%list_elem_of_filter Hall]. exists (sa_header_number att), d. cbn in *.
    split_and!; [apply entries_spec; eauto|done|done|].
    intros m d' Hm Hkm. apply entries_spec in Hm as (att' & Hin' & <-).
    apply (Hall (d', att')). by apply list_elem_of_filter.
  - intros m d Hm Hkm. apply entries_spec in Hm as (att & Hin & <-).
    assert ((d, att) ∈ filter (fun da => keep (sa_header_number da.2)) entries) as Hf
      by by apply list_elem_of_filter. rewrite Hspec in Hf. by apply not_elem_of_nil in Hf.
Qed.

Lemma find_highest_ok sc ck target (h : H) r h' :
  ladder_inv (ladder_of ck (sc_listener sc)) -> is_u64 target ->
  find_highest_attested_before sc ck target h = (Ok r, h') ->
  is_Some (SupportedChains sc !! ck) /\ highest_answer (sc_listener sc) ck target r.
Proof.
  intros Hinv Ht Hrun. unfold find_highest_attested_before in Hrun.
  step_inv Hrun. apply supported_query_ok in Hstep. step_inv Hrun. split; [done|].
  unfold highest_answer, last_height.
  pose proof (best_attestation (sc_listener sc) ck (fun n => n < target) Z.ge (max_by_key _)
    (max_by_key_spec _)) as Hatt.
  destruct (LastCheckpoint (sc_listener sc) !! ck) as [cp|] eqn:Hcp; cbn [fmap option_fmap option_map from_option] in *.
  - destruct (target <=? cp_block_number cp).
    + apply bind_ok in Hrun as (found & h1 & Hsearch & Hrun). run_inv.
      apply search_highest in Hsearch; [|done|done]. destruct found; [by left|by right].
    + step_inv Hrun. apply bind_ok in Hrun as (r1 & h1 & Hr1 & Hrun). run_inv.
      destruct (max_by_key _ _) as [da|]; run_inv; [by left|right].
      split; [|done]. intros m d Hm. apply Hatt in Hm. lia.
  - step_inv Hrun. apply bind_ok in Hrun as (r1 & h1 & Hr1 & Hrun). run_inv.
    destruct (max_by_key _ _) as [da|]; run_inv; [by left|right].
    split; [|done]. intros m d Hm. apply Hatt in Hm. lia.
Qed.

Lemma find_lowest_ok sc ck target (h : H) r h' :
  ladder_inv (ladder_of ck (sc_listener sc)) -> is_u64 target ->
  find_lowest_attested_after sc ck target h = (Ok r, h') ->
  is_Some (SupportedChains sc !! ck) /\ lowest_answer (sc_listener sc) ck target r.
Proof.
  intros Hinv Ht Hrun. unfold find_lowest_attested_after in Hrun.
  step_inv Hrun. apply supported_query_ok in Hstep. step_inv Hrun. split; [done|].
  unfold lowest_answer, last_height. destruct (from_option _ _ _).
  - apply bind_ok in Hrun as (found & h1 & Hsearch & Hrun). run_inv.
    apply search_lowest in Hsearch; [|done|done]. destruct found; [by left|by right].
  - step_inv Hrun. step_inv Hrun. run_inv.
    pose proof (best_attestation (sc_listener sc) ck (fun n => target <= n) Z.le (min_by_key _)
      (min_by_key_spec _)) as Hatt.
    destruct (min_by_key _ _) as [da|]; [by left|right].
    split; [|done]. intros m d Hm. apply Hatt in Hm. lia.
Qed.

(** ** [is_height_attested] *)

Lemma any_bucket_ok sc ck target n p (h : H) b h' :
  any_bucket_below sc ck target n p h = (Ok b, h') ->
  b = true <-> exists j m, (j < n)%nat /\ m ∈ bucket_heights (sc_listener sc) ck (Nat.iter j previous_bucket p) /\
    m <= target.
Proof.
  revert p h. induction n as [|n IH]; intros p h Hrun; cbn [any_bucket_below] in Hrun.
  { run_inv. split; [done|]. intros (j & m & ? & _). lia. }
  step_inv Hrun. pose proof (any_count_spec (fun n => n <=? target) (bucket_heights (sc_listener sc) ck p)) as Hany.
  destruct (any_count _ _) as [found k]. step_inv Hrun. cbn [fst] in Hany. destruct found.
  - run_inv. split; [|done]. intros _. destruct (proj1 Hany eq_refl) as (m & Hm & Hle%Z.leb_le).
    exists 0%nat, m. split_and!; [lia|done|done].
  - rewrite (IH _ _ Hrun). split; intros (j & m & Hj & Hm & Hle).
    + exists (S j), m. rewrite Nat.iter_succ_r. split_and!; [lia|done|done].
    + destruct j as [|j].
      * assert (false = true) by (apply Hany; exists m; split; [done|by apply Z.leb_le]). done.
      * rewrite Nat.iter_succ_r in Hm. exists j, m. split_and!; [lia|done|done].
Qed.

Lemma any_attestation_ok sc ck p (h : H) b h' :
  attestations_stable (sc_listener sc) ck = true ->
  any_attestation sc ck p h = (Ok b, h') ->
  b = true <-> exists m d, attested_by (sc_listener sc) ck m d /\ p m = true.
Proof.
  intros Hst Hrun. unfold any_attestation in Hrun.
  pose proof (any_count_spec (fun da => p (sa_header_number da.2)) (attestation_iter (sc_listener sc) ck)) as Hany.
  destruct (any_count _ _) as [found k]. step_inv Hrun. run_inv. cbn [fst] in Hany. rewrite Hany. split.
  - intros ([d att] & Hin & Hp). exists (sa_header_number att), d. split; [|done].
    apply entries_spec. rewrite Hst. eauto.
  - intros (m & d & Hm & Hp). apply entries_spec in Hm as (att & Hin & <-). rewrite Hst in Hin. eauto.
Qed.

(** What [is_height_attested] answers. *)
Definition attested_answer a ck (target : Height) (b : bool) : Prop :=
  let first := compute_block_index_for (saturating_sub target 1) in
  let attested := fun keep : Height -> Prop => exists m d, attested_by a ck m d /\ keep m in
  match last_height a ck with
  | Some last =>
      if last <? target then b = true <-> attested (fun m => target <= m)
      else if target <? last then
        b = true <-> exists m, is_Some (dget (Checkpoints a) ck m) /\ m <= target /\
          first - 4 * CHECKPOINT_BUCKET_SIZE <= compute_block_index_for m <= first
      else b = true
  | None => b = true <-> attested (fun m => m = target) \/
      (attested (fun m => target < m) /\ attested (fun m => m < target))
  end.

(** The five buckets. *)
Lemma five_buckets p m :
  0 <= m -> p mod CHECKPOINT_BUCKET_SIZE = 0 -> 0 <= p ->
  (exists j, (j < BUCKET_SEARCH_ATTEMPTS)%nat /\ compute_block_index_for m = Nat.iter j previous_bucket p) <->
  p - 4 * CHECKPOINT_BUCKET_SIZE <= compute_block_index_for m <= p.
Proof.
  intros Hm Hmod Hp. pose proof (pivot_spec m Hm) as (? & _ & _). rewrite pivot_eq in *.
  unfold BUCKET_SEARCH_ATTEMPTS, CHECKPOINT_BUCKET_SIZE in *.
  apply Z.mod_divide in Hmod as [q ->]; [|done].
  assert (forall j, Nat.iter j previous_bucket (q * 1000) = Z.max 0 (q * 1000 - 1000 * Z.of_nat j)) as Hit.
  { induction j as [|j IH]; cbn [Nat.iter nat_rect]; [lia|]. change (nat_rect _ ?x _ j) with (Nat.iter j previous_bucket x).
    rewrite IH. unfold previous_bucket, saturating_sub, CHECKPOINT_BUCKET_SIZE. lia. }
  split.
  - intros (j & Hj & ->). rewrite Hit. lia.
  - intros Hr. exists (Z.to_nat (q - m / 1000)). rewrite Hit. lia.
Qed.

Lemma is_height_attested_ok sc ck target (h : H) b h' :
  ladder_inv (ladder_of ck (sc_listener sc)) -> is_u64 target ->
  is_height_attested sc ck target h = (Ok b, h') -> attested_answer (sc_listener sc) ck target b.
Proof.
  intros Hinv Ht Hrun. unfold is_u64 in Ht. unfold is_height_attested in Hrun. do 2 step_inv Hrun.
  unfold attested_answer, last_height. destruct (LastCheckpoint (sc_listener sc) !! ck) as [cp|];
    cbn [fmap option_fmap option_map].
  - destruct (cp_block_number cp <? target); [|destruct (target <? cp_block_number cp); [|by run_inv]].
    + step_inv Hrun. destruct (attestations_stable (sc_listener sc) ck) eqn:Hst.
      * rewrite (any_attestation_ok _ _ _ _ _ _ Hst Hrun). by setoid_rewrite Z.leb_le.
      * step_inv Hrun. run_inv. split; [done|]. intros (m & d & (att & Hget & _) & _).
        unfold get_attestation in Hget. by rewrite Hst in Hget.
    + rewrite (any_bucket_ok _ _ _ _ _ _ _ _ Hrun). set (p := compute_block_index_for (saturating_sub target 1)).
      pose proof (pivot_spec (saturating_sub target 1) ltac:(unfold saturating_sub; lia)) as (Hp & _ & Hmod).
      fold p in Hp, Hmod.
      assert (forall q m, m ∈ bucket_heights (sc_listener sc) ck q <-> q = compute_block_index_for m /\
        is_Some (dget (Checkpoints (sc_listener sc)) ck m)) as Hb.
      { intros q m. rewrite elem_of_bucket_heights. by apply ladder_buckets. }
      assert (forall m, is_Some (dget (Checkpoints (sc_listener sc)) ck m) -> 0 <= m) as Hu.
      { intros m Hm. apply (li_u64 _ Hinv) in Hm. unfold is_u64 in Hm. lia. }
      split.
      * intros (j & m & Hj & [Hq Hm]%Hb & Hle). exists m. split_and!; [done|done|..].
        all: apply (five_buckets p m); [by apply Hu|done|lia|]; exists j; done.
      * intros (m & Hm & Hle & Hr). apply five_buckets in Hr as (j & Hj & Hq); [|by apply Hu|done|lia].
        exists j, m. split_and!; [done|by apply Hb|done].
  - step_inv Hrun. destruct (attestations_stable (sc_listener sc) ck) eqn:Hst; cbn [negb] in Hrun.
    + apply bind_ok in Hrun as (b1 & h1 & H1' & Hrun). apply any_attestation_ok in H1'; [|done].
      setoid_rewrite Z.eqb_eq in H1'. destruct b1; [run_inv; split; [left; by apply H1'|done]|].
      step_inv Hrun. apply bind_ok in Hrun as (b2 & h2 & H2' & Hrun). apply any_attestation_ok in H2'; [|done].
      step_inv Hrun. apply bind_ok in Hrun as (b3 & h3 & H3' & Hrun). apply any_attestation_ok in H3'; [|done].
      setoid_rewrite Z.ltb_lt in H2'. setoid_rewrite Z.ltb_lt in H3'. run_inv.
      rewrite andb_true_iff, H2', H3'. split; [by right|intros [Hx|Hx]; [by apply H1' in Hx|done]].
    + run_inv. split; [done|]. intros [(m & d & (att & Hget & _) & _)|[(m & d & (att & Hget & _) & _) _]];
        unfold get_attestation in Hget; by rewrite Hst in Hget.
Qed.
End Found.
