(* ===== verification/Provable.v ===== *)
(** * Attested heights are provable

    The chain info precompile and the block prover agree: the searches find the
    nearest anchors of the attested history, and whatever height they bound, the
    prover accepts with the history's own proof. *)

From stdpp Require Import prelude gmap list sorting strings.
From Stdlib Require Import ZArith Lia.
From S2P Require Import Prelude Primitives Merkle Frame SupportedChains Randomness Types Ledger.
From S2P Require Import LadderSpec History Pallet Termination Runtime Concrete Guarantees BlockProver.
From S2P Require Import Inclusion ChainInfo.

Section Provable.
Context {C H : Type} `{!Currency C} `{!CurrencyLaws C} `{Config} `{!ConfigOk} `{Keccak} `{Arch} `{!ArchOk}
  `{Bls} `{FrameStorage Z} `{!FrameStorageLaws Z} `{FrameStorage (Z * Z)}
  `{HL : HandleLaws H} `{Ethabi} `{ChainInfoCodec}.
Variable cfg : ScConfig.
Implicit Types (s : @Runtime C) (ck : ChainKey).

Lemma reached_ladder s ck :
  reached cfg s -> live_chain (rn_listener s) ck -> ladder_inv (chain_ladder ck s).
Proof. intros Hr Hlive. by apply (pi_ladder _ _ _ (reached_pallet cfg s Hr)). Qed.

(** At the last checkpoint only attestations are looked for. *)
Lemma lowest_at_last (a : State C) ck target r :
  lowest_answer a ck target r -> last_height a ck = Some target ->
  (forall m d, attested_by a ck m d -> m < target) -> r = no_height_hash.
Proof.
  unfold lowest_answer. intros Hans Hlast Hnone. rewrite Hlast in Hans. cbn in Hans. rewrite Z.ltb_irrefl in Hans.
  destruct Hans as [(n & d & Hn & Hk & _)|[_ ?]]; [|done]. apply Hnone in Hn. lia.
Qed.

(** C31: what the two searches find. On a reachable state, for a live chain:
    [find_highest_attested_before] with the last checkpoint at or above the target
    returns the highest stable checkpoint below the target, and nothing only if none
    lies in the five buckets that end with that of the height before the target; with
    the last checkpoint below the target, or none, it returns the readable attestation
    with the highest height below it, and without one the last checkpoint if that is
    stable and else nothing. [find_lowest_attested_after] with the last checkpoint
    above the target returns the lowest stable checkpoint at or above the target, and
    nothing only if none lies in the five buckets from that of the target on; with
    the last checkpoint at the target or below it, or none, it returns the readable
    attestation with the lowest height at or above it, and nothing if there is none.
    So at the last checkpoint's own height, with no attestation at or above it, it
    returns nothing although the checkpoint is there. *)
Theorem searches_find_nearest s ck target (h : H) r h' :
  reached cfg s -> live_chain (rn_listener s) ck -> is_u64 target ->
  (find_highest_attested_before (rn_listener s) ck target h = (Ok r, h') ->
     highest_answer (attestation s) ck target r) /\
  (find_lowest_attested_after (rn_listener s) ck target h = (Ok r, h') ->
     lowest_answer (attestation s) ck target r /\
     (last_height (attestation s) ck = Some target ->
      (forall m d, attested_by (attestation s) ck m d -> m < target) -> r = no_height_hash)).
Proof.
  intros Hr Hlive Ht. pose proof (reached_ladder s ck Hr Hlive).
  split; intros Hrun; [by eapply find_highest_ok in Hrun as [_ ?]|]. eapply find_lowest_ok in Hrun as [_ Hans]; try done.
  split; [done|]. intros Hlast Hnone. by eapply lowest_at_last.
Qed.

Lemma attested_anchored s ck n d :
  attested_by (attestation s) ck n d -> anchored (rn_listener s) ck n d = true.
Proof.
  intros (att & Hget & Hn). unfold anchored, attested_at.
  change (sc_listener (rn_listener s)) with (attestation s). rewrite Hget, Hn, Z.eqb_refl. done.
Qed.

Lemma stable_anchored s ck n d :
  is_Some (SupportedChains (rn_listener s) !! ck) ->
  stable_at (attestation s) ck n d -> anchored (rn_listener s) ck n d = true.
Proof.
  intros Hs Hst. unfold anchored. change (sc_listener (rn_listener s)) with (attestation s).
  rewrite !bool_decide_eq_true_2 by done. apply orb_true_r.
Qed.

Lemma nearest_anchored s ck keep R r :
  is_Some (SupportedChains (rn_listener s) !! ck) ->
  nearest_checkpoint (attestation s) ck keep R r \/ nearest_attestation (attestation s) ck keep R r ->
  keep (hh_height r) /\ anchored (rn_listener s) ck (hh_height r) (hh_hash r) = true.
Proof.
  intros Hs [(n & d & Hn & Hk & -> & _)|(n & d & Hn & Hk & -> & _)]; (split; [exact Hk|]).
  - by apply stable_anchored.
  - by apply attested_anchored.
Qed.

(** What [is_height_attested] answers on a reachable state. Above the last
    checkpoint a height is attested exactly when an attestation at or above it is
    retained and readable; below it, exactly when a checkpoint at or below it lies
    in the five buckets that end with the bucket of the height before it (a
    checkpoint at the height itself does not count when it opens a bucket); at the
    last checkpoint always; and without checkpoints when an attestation is at the
    height or on both sides of it. *)
Theorem is_height_attested_spec s ck target (h : H) b h' :
  reached cfg s -> live_chain (rn_listener s) ck -> is_u64 target ->
  is_height_attested (rn_listener s) ck target h = (Ok b, h') ->
  attested_answer (attestation s) ck target b.
Proof. intros Hr Hlive Ht. by apply is_height_attested_ok; [apply reached_ladder|]. Qed.

(** An answer that exists is an anchor on the right side of the target. *)
Lemma highest_anchor s ck target r :
  is_Some (SupportedChains (rn_listener s) !! ck) ->
  highest_answer (attestation s) ck target r -> hh_exists r = true ->
  hh_height r < target /\ anchored (rn_listener s) ck (hh_height r) (hh_hash r) = true.
Proof.
  intros Hs Hans Hex. unfold highest_answer in Hans.
  destruct (last_height (attestation s) ck) as [last|] eqn:Hlast.
  - destruct (Z.leb_spec target last) as [Hle|Hgt].
    + destruct Hans as [Hn|[-> _]]; [|done]. eapply (nearest_anchored s ck (fun n => n < target)); eauto.
    + destruct Hans as [Hn|[_ ->]]; [eapply (nearest_anchored s ck (fun n => n < target)); eauto|].
      destruct (checkpoint_if_stable _ _ _) as [d|] eqn:Hst; [|done]. cbn.
      split; [done|by apply stable_anchored].
  - destruct Hans as [Hn|[_ ->]]; [|done]. eapply (nearest_anchored s ck (fun n => n < target)); eauto.
Qed.

Lemma lowest_anchor s ck target r :
  is_Some (SupportedChains (rn_listener s) !! ck) ->
  lowest_answer (attestation s) ck target r -> hh_exists r = true ->
  target <= hh_height r /\ anchored (rn_listener s) ck (hh_height r) (hh_hash r) = true.
Proof.
  intros Hs Hans Hex. unfold lowest_answer in Hans.
  destruct (from_option _ _ _); destruct Hans as [Hn|Hn]; try (by destruct Hn as [? ->]);
    try (by destruct Hn as [-> ?]); eapply (nearest_anchored s ck (fun n => target <= n)); eauto.
Qed.

Lemma bounds_ok sc ck target (h : H) b h' :
  get_attestation_bounds sc ck target h = (Ok b, h') ->
  exists prev next h1 h2, find_highest_attested_before sc ck target h1 = (Ok prev, h2) /\
    find_lowest_attested_after (C := C) sc ck target h2 = (Ok next, h') /\
    bc_parent b = hh_height prev /\ bc_parent_hash b = hh_hash prev /\
    bc_child b = hh_height next /\ bc_child_hash b = hh_hash next /\
    bc_is_attested b = hh_exists prev && hh_exists next.
Proof.
  unfold get_attestation_bounds. intros Hrun. step_inv Hrun. step_inv Hrun. step_inv Hrun. run_inv.
  do 4 eexists. split_and!; eauto.
Qed.

(** The history's own segment from a height to an anchor verifies. *)
Lemma history_proof_verifies s ck hs height last tx mp (h : H) :
  on_history hs (chain_ladder ck s) ->
  anchored (rn_listener s) ck last (hs_digest hs last) = true ->
  hs_lo hs < height <= last -> last <= hs_hi hs -> last - height < MAX_CONTINUITY_ROOTS ->
  tx <> [] -> merkle_verify mp tx = true -> mp_root mp = hs_root hs height ->
  let p := history_proof hs height (last - height + 1) in
  merkle_gas mp + CONTINUITY_BLOCK_HASH_COST * (last - height + 1) + 5 * GAS_STORAGE_LOOKUP <= gas_left h ->
  gas_left h <= umax 64 ->
  exists h', verify (rn_listener s) ck height tx mp p h = (Ok true, h').
Proof.
  intros Hoh Han Hh Hhi Hmax Htx Hmv Hroot p Hg Hu64. pose proof (oh_chain _ _ Hoh) as Hc.
  pose proof Hc as (Hlo & Hhi64 & _). rewrite pow2_64 in *.
  assert (compute_continuity_digest p height = hs_digest hs last) as Hd.
  { unfold p. replace (last - height + 1) with (Z.of_nat (Z.to_nat (last - height + 1))) by lia.
    rewrite history_proof_digest by (done || lia). f_equal. lia. }
  apply (proof_verifies _ ck height last); try done; [lia|rewrite umax_64; lia| |by rewrite Hd|].
  - unfold p, history_proof, zlen. cbn. rewrite length_map, length_seqZ. lia.
  - unfold p, history_proof. cbn [roots]. rewrite seqZ_cons by lia. by rewrite Hroot.
Qed.

(** C5: a height that is reported attested can be proved. On a reachable state, let
    a live chain's ladder lie on a history. If [get_attestation_bounds] reports a
    target as attested, with a parent on the history, then the parent is below the
    target, the child at or above it, both hashes are the history's digests there,
    and the prover accepts every transaction with a valid Merkle proof under the
    history's root at the target, with the history's own continuity proof up to the
    child, given the gas and no more blocks than the maximum. *)
Theorem attested_heights_are_provable s ck hs target (h : H) b h' :
  reached cfg s -> live_chain (rn_listener s) ck -> on_history hs (chain_ladder ck s) ->
  is_u64 target -> get_attestation_bounds (rn_listener s) ck target h = (Ok b, h') ->
  bc_is_attested b = true -> hs_lo hs <= bc_parent b ->
  bc_parent b < target <= bc_child b /\ bc_child b <= hs_hi hs /\
  bc_parent_hash b = hs_digest hs (bc_parent b) /\ bc_child_hash b = hs_digest hs (bc_child b) /\
  forall tx mp (h1 : H), tx <> [] -> merkle_verify mp tx = true -> mp_root mp = hs_root hs target ->
    bc_child b - target < MAX_CONTINUITY_ROOTS ->
    merkle_gas mp + CONTINUITY_BLOCK_HASH_COST * (bc_child b - target + 1) + 5 * GAS_STORAGE_LOOKUP
      <= gas_left h1 ->
    gas_left h1 <= umax 64 ->
    exists h2, verify (rn_listener s) ck target tx mp
      (history_proof hs target (bc_child b - target + 1)) h1 = (Ok true, h2).
Proof.
  intros Hr Hlive Hoh Ht Hrun Hatt Hlo. pose proof (reached_ladder s ck Hr Hlive) as Hinv.
  apply bounds_ok in Hrun as (prev & next & h1 & h2 & Hp & Hn & Hbp & Hbph & Hbc & Hbch & Hba).
  rewrite Hba in Hatt. apply andb_true_iff in Hatt as [Hep Hen]. rewrite Hbp, Hbph, Hbc, Hbch in *.
  apply find_highest_ok in Hp as [Hs Hp]; [|done|done]. apply find_lowest_ok in Hn as [_ Hn]; [|done|done].
  apply highest_anchor in Hp as [Hp1 Hp2]; [|done|done]. apply lowest_anchor in Hn as [Hn1 Hn2]; [|done|done].
  destruct (anchored_on_history s ck hs _ _ Hinv Hoh Hp2) as [_ Hdp].
  destruct (anchored_on_history s ck hs _ _ Hinv Hoh Hn2) as [Hhi Hdn].
  specialize (Hdp Hlo). specialize (Hdn ltac:(lia)). split_and!; try done.
  intros tx mp h3 Htx Hmv Hroot Hmax Hg Hu. apply history_proof_verifies; try done; [congruence|lia].
Qed.
End Provable.

(** ** On the concrete runtime *)

#[export] Instance toy_codec : ChainInfoCodec := {|
  supported_chain_size := fun c => 20 + zlen (chain_name c);
  custom_revert := string_bytes;
|}.

Lemma searches_find_nearest_witness :
  highest_answer (attestation run2) 1 105 (mkHeightHash 100 777 false true) /\
  lowest_answer (attestation run1) 1 100 no_height_hash /\ stable_at (attestation run1) 1 100 777.
Proof.
  assert (live_chain (rn_listener run2) 1 /\ live_chain (rn_listener run1) 1) as [Hl2 Hl1]
    by (split; apply live1; vm_compute; reflexivity).
  destruct (searches_find_nearest sc_cfg run2 1 105 full_tank (mkHeightHash 100 777 false true)
    (find_highest_attested_before (rn_listener run2) 1 105 full_tank).2 run2_reached Hl2) as [Hh _]; [decide_now|].
  destruct (searches_find_nearest sc_cfg run1 1 100 full_tank no_height_hash
    (find_lowest_attested_after (rn_listener run1) 1 100 full_tank).2 run1_reached Hl1) as [_ Hlow]; [decide_now|].
  split_and!; [apply Hh; vm_compute; reflexivity|apply Hlow; vm_compute; reflexivity|vm_compute; reflexivity].
Defined.

Definition bounds105 : BoundsCheckResult := mkBounds 100 777 false 110 (sa_digest commit1) true true.

Lemma attested_heights_are_provable_witness :
  exists h, verify (rn_listener run2) 1 105 [3] ex_merkle_proof (history_proof history2 105 6) full_tank = (Ok true, h).
Proof.
  destruct (attested_heights_are_provable sc_cfg run2 1 history2 105 full_tank bounds105
    (get_attestation_bounds (rn_listener run2) 1 105 full_tank).2) as (_ & _ & _ & _ & Hv);
    [apply run2_reached|apply live1; vm_compute; reflexivity|apply history2_on|decide_now
    |vm_compute; reflexivity|reflexivity|decide_now|].
  apply (Hv [3] ex_merkle_proof full_tank); [done|vm_compute; reflexivity|vm_compute; reflexivity|decide_now..].
Defined.

(** A genesis with checkpoints 1000 and 1500. *)
Definition start2 : @Runtime Wallet :=
  default start (rt_genesis sc_cfg wallet []
    [mkChainConfiguration 1 120 10 10 [mkCheckpoint 1000 5; mkCheckpoint 1500 6]] [ex_chain 1 "eth"]).

Lemma start2_reached : reached sc_cfg start2.
Proof.
  exists wallet, [], [mkChainConfiguration 1 120 10 10 [mkCheckpoint 1000 5; mkCheckpoint 1500 6]],
    [ex_chain 1 "eth"], start2.
  split_and!; [done|decide_now..|vm_compute; reflexivity|done].
Qed.

(** The stable checkpoint 1000 lies on a bucket boundary; the search for a
    checkpoint at or below it starts in the bucket of 999, and it is reported as
    not attested. *)
Lemma is_height_attested_spec_witness :
  checkpoint_if_stable (attestation start2) 1 1000 = Some 5 /\
  attested_answer (attestation start2) 1 1000 false.
Proof.
  split; [vm_compute; reflexivity|].
  apply (is_height_attested_spec sc_cfg start2 1 1000 full_tank false
    (is_height_attested (rn_listener start2) 1 1000 full_tank).2);
    [apply start2_reached|apply live1; vm_compute; reflexivity|decide_now|vm_compute; reflexivity].
Defined.

(** The last checkpoint is attested according to [is_height_attested] and not
    according to [get_attestation_bounds], which finds the checkpoint below it but
    not the one at it. *)
Lemma last_checkpoint_answers_disagree :
  (is_height_attested (rn_listener start2) 1 1500 full_tank).1 = Ok true /\
  (get_attestation_bounds (rn_listener start2) 1 1500 full_tank).1 =
    Ok (mkBounds 1000 5 false 0 0 false false) /\
  (get_attestation_bounds (rn_listener start2) 1 1100 full_tank).1 =
    Ok (mkBounds 1000 5 false 1500 6 false true).
Proof. split_and!; vm_compute; reflexivity. Qed.
