(* ===== verification/VotePool.v ===== *)
(** * The attestors' vote pool

    [src/attestor/pool/src/lib.rs]: the attestor node collects its peers' votes per
    height and digest, and hands the validation task a fork once enough of the
    active attestors stand behind it. Everything behind the pool's lock is a
    function on the pool; the senders, the lock and the receiver that parks on a
    [tokio::sync::Notify] are a step relation whose steps are the atomic sections
    of the threads. *)

From stdpp Require Import prelude gmap list sorting.
From Stdlib Require Import ZArith Lia.
From S2P Require Import Prelude Primitives Randomness.

Definition AttestorId : Type := AccountId.

(** ** Votes and configuration *)

(** [Sig] is the signature type of the BLS library. *)
Record Vote (Sig : Type) := mkVote {
  vote_chain_key : ChainKey;
  vote_height : Height;
  vote_digest : Digest;
  vote_attestor : AttestorId;
  vote_signature_bls : Sig;
}.
Arguments mkVote {Sig}.
Arguments vote_chain_key {Sig}.
Arguments vote_height {Sig}.
Arguments vote_digest {Sig}.
Arguments vote_attestor {Sig}.
Arguments vote_signature_bls {Sig}.

Inductive VoteError :=
| Unauthorized (a : AttestorId) (h : Height)
| InvalidHeight (a : AttestorId) (h finalized : Height)
| Equivocation (a : AttestorId) (h : Height)
| KnownInvalid (a : AttestorId) (h : Height) (d : Digest).

(** The calls made to the [MetricsHook]. *)
Inductive Metric := quorum_delay (elapsed : Z) | invalid_vote | equivocation.

Record PoolConfig := mkPoolConfig {
  pc_attestors : list AccountId;
  pc_quorum : Z;
  pc_attestation_interval : Z;
  pc_start_height : Height;
  pc_max_catchup : Z;
  pc_start_digest : option Digest;
  pc_start_height_finalized : option Height;
}.

(** ** Forks *)

Record AttestationVote (Sig : Type) := mkAttestationVote {
  av_height : Height;
  av_digest : Digest;
  av_chain_key : ChainKey;
  av_votes : list (Vote Sig);
  av_signers : gset AttestorId;
}.
Arguments mkAttestationVote {Sig}.
Arguments av_height {Sig}.
Arguments av_digest {Sig}.
Arguments av_chain_key {Sig}.
Arguments av_votes {Sig}.
Arguments av_signers {Sig}.

Record Forks (Sig : Type) := mkForks {
  by_digest : gmap (Height * Digest) (AttestationVote Sig);
  by_height_size : gset (Height * Z * Digest);
  seen : gmap (Height * AttestorId) Digest;
  invalid : gset (Height * Digest);
  deferred : gset (Height * Digest);
  last_finalized_height : option Height;
  last_finalized_digest : option Digest;
}.
Arguments mkForks {Sig}.
Arguments by_digest {Sig}.
Arguments by_height_size {Sig}.
Arguments seen {Sig}.
Arguments invalid {Sig}.
Arguments deferred {Sig}.
Arguments last_finalized_height {Sig}.
Arguments last_finalized_digest {Sig}.

#[export] Instance eta_AttestationVote Sig : Settable (AttestationVote Sig) := fun r =>
  mkAttestationVote (av_height r) (av_digest r) (av_chain_key r) (av_votes r) (av_signers r).
#[export] Instance eta_Forks Sig : Settable (Forks Sig) := fun r =>
  mkForks (by_digest r) (by_height_size r) (seen r) (invalid r) (deferred r)
    (last_finalized_height r) (last_finalized_digest r).

(** The tuple orders of [BTreeMap] and [BTreeSet] keys. *)
Definition key_le (p q : Z * Z) : Prop := p.1 < q.1 \/ p.1 = q.1 /\ p.2 <= q.2.
Definition entry_ge (p q : Height * Z * Digest) : Prop :=
  q.1.1 < p.1.1 \/ q.1.1 = p.1.1 /\ (q.1.2 < p.1.2 \/ q.1.2 = p.1.2 /\ q.2 <= p.2).

#[export] Instance key_le_dec : RelDecision key_le.
Proof. intros p q. unfold key_le. apply _. Defined.
#[export] Instance entry_ge_dec : RelDecision entry_ge.
Proof. intros p q. unfold entry_ge. apply _. Defined.

(** [BTreeSet::iter().rev()] on the size index. *)
Definition descending (index : gset (Height * Z * Digest)) : list (Height * Z * Digest) :=
  merge_sort entry_ge (elements index).

(** [take_while(same height)], and the [while peek … next] that skips a height. *)
Definition same_height (height : Height) (e : Height * Z * Digest) : bool := e.1.1 =? height.

Fixpoint skip_while {A} (p : A -> bool) (l : list A) : list A :=
  match l with
  | x :: l' => if p x then skip_while p l' else l
  | [] => []
  end.

Section Forks.
Context {Sig : Type}.
Implicit Types (f : Forks Sig) (vote : Vote Sig).

Definition signer_count (e : AttestationVote Sig) : Z := Z.of_nat (size (av_signers e)).

Definition forks_new (finalized_digest : option Digest) (finalized_height : option Height) : Forks Sig :=
  mkForks ∅ ∅ ∅ ∅ ∅ finalized_height finalized_digest.

Definition forks_push vote f : Result VoteError unit * Forks Sig :=
  let height := vote_height vote in
  let digest := vote_digest vote in
  let attestor := vote_attestor vote in
  let key := (height, digest) in
  if bool_decide (key ∈ invalid f) then (Err (KnownInvalid attestor height digest), f)
  else match seen f !! (height, attestor) with
  | Some prev => if prev =? digest then (Ok tt, f) else (Err (Equivocation attestor height), f)
  | None =>
      let entry := default (mkAttestationVote height digest (vote_chain_key vote) [] ∅)
        (by_digest f !! key) in
      let entry' := entry <| av_signers ::= union {[attestor]} |>
        <| av_votes ::= fun votes => votes ++ [vote] |> in
      (Ok tt, f <| seen ::= <[(height, attestor) := digest]> |>
        <| by_digest ::= <[key := entry']> |>
        <| by_height_size ::= fun index =>
             {[(height, signer_count entry', digest)]} ∪ (index ∖ {[(height, signer_count entry, digest)]}) |>
        <| deferred ::= fun ds => ds ∖ {[key]} |>)
  end.

(** The loop of [best]; each round drops at least the entry it looks at. *)
Fixpoint best_loop (fuel : nat) (ds : gset (Height * Digest)) (target : Z)
    (entries : list (Height * Z * Digest)) : option (Height * Digest) :=
  match fuel, entries with
  | S fuel, (height, sz, digest) :: iter =>
      if bool_decide ((height, digest) ∈ ds) then best_loop fuel ds target iter
      else
        let qualified := target <=? sz in
        let runner_up := list_find (fun e => (e.1.1, e.2) ∉ ds) (take_while (same_height height) iter) in
        let tied_qualified := qualified &&
          match runner_up with Some (_, e) => e.1.2 =? sz | None => false end in
        if qualified && negb tied_qualified then Some (height, digest)
        else best_loop fuel ds target (skip_while (same_height height) iter)
  | _, _ => None
  end.

Definition best (target : Z) f : option (AttestationVote Sig) :=
  let entries := descending (by_height_size f) in
  key ← best_loop (length entries) (deferred f) target entries;
  by_digest f !! key.

Definition drop_fork (height : Height) (digest : Digest) f : Forks Sig :=
  let f := f <| deferred ::= fun ds => ds ∖ {[(height, digest)]} |> in
  match by_digest f !! (height, digest) with
  | Some entry => f <| by_digest ::= delete (height, digest) |>
      <| by_height_size ::= fun index => index ∖ {[(height, signer_count entry, digest)]} |>
  | None => f
  end.

Definition invalidate_fork (height : Height) (digest : Digest) f : Forks Sig :=
  drop_fork height digest f <| invalid ::= union {[(height, digest)]} |>.

(** The body of [retain_signers]'s loop. *)
Definition retain_fork (keep : AttestorId -> bool) f (key : Height * Digest) : Forks Sig :=
  match by_digest f !! key with
  | None => f
  | Some entry =>
      let size_before := signer_count entry in
      let entry' := entry <| av_votes ::= filter (fun v => keep (vote_attestor v) = true) |>
        <| av_signers ::= filter (fun a => keep a = true) |> in
      if signer_count entry' =? size_before then f <| by_digest ::= <[key := entry']> |>
      else
        let f := f <| by_height_size ::= fun index => index ∖ {[(key.1, size_before, key.2)]} |> in
        if bool_decide (av_signers entry' = ∅) then f <| by_digest ::= delete key |>
        else f <| by_digest ::= <[key := entry']> |>
          <| by_height_size ::= union {[(key.1, signer_count entry', key.2)]} |>
  end.

Definition retain_signers (keep : AttestorId -> bool) f : Forks Sig :=
  let f := f <| deferred := ∅ |> in
  let keys := merge_sort key_le (map_to_list (by_digest f)).*1 in
  let f := foldl (retain_fork keep) f keys in
  f <| seen ::= filter (fun kv => keep kv.1.2 = true) |>.

(** What [split_off] forgets about a dropped fork. *)
Definition forget_fork f (dropped : (Height * Digest) * AttestationVote Sig) : Forks Sig :=
  let '((h, d), v) := dropped in
  f <| by_height_size ::= fun index => index ∖ {[(h, signer_count v, d)]} |>
    <| seen ::= fun m => foldr (fun s => delete (h, s)) m (elements (av_signers v)) |>.

Definition split_off (finalized_height : Height) f : Forks Sig :=
  let split := saturating_add 64 finalized_height 1 in
  let to_drop := map_to_list (filter (fun kv => ~ key_le (split, 0) kv.1) (by_digest f)) in
  let f := f <| by_digest ::= filter (fun kv => key_le (split, 0) kv.1) |> in
  let f := foldl forget_fork f to_drop in
  f <| by_height_size ::= filter (fun e => split <= e.1.1) |>
    <| deferred ::= filter (fun k => split <= k.1) |>
    <| seen ::= filter (fun kv => key_le (split, 0) kv.1) |>.

Definition forks_clear f : Forks Sig :=
  mkForks ∅ ∅ ∅ ∅ ∅ (last_finalized_height f) (last_finalized_digest f).

Definition note_finalized (height : Height) (digest : Digest) f : Forks Sig :=
  split_off height f
    <| invalid ::= filter (fun k => key_le (saturating_add 64 height 1, 0) k) |>
    <| last_finalized_height := Some height |> <| last_finalized_digest := Some digest |>.
End Forks.

(** ** The pool *)

(** A validated quorum that waits for an earlier submission. *)
Record SignedQuorum (Sig : Type) := mkSignedQuorum {
  sq_height : Height;
  sq_digest : Digest;
  sq_signed : SignedAttestation;
  sq_votes : list (Vote Sig);
}.
Arguments mkSignedQuorum {Sig}.
Arguments sq_height {Sig}.
Arguments sq_digest {Sig}.
Arguments sq_signed {Sig}.
Arguments sq_votes {Sig}.

Record Quorum (Sig : Type) := mkQuorum {
  q_height : Height;
  q_digest : Digest;
  q_chain_key : ChainKey;
  q_votes : list (Vote Sig);
}.
Arguments mkQuorum {Sig}.
Arguments q_height {Sig}.
Arguments q_digest {Sig}.
Arguments q_chain_key {Sig}.
Arguments q_votes {Sig}.

Record Permit := mkPermit {
  p_height : Height;
  p_digest : Digest;
  p_validation_generation : Z;
  p_vote_count : Z;
}.

Record ValidateQuorum := mkValidateQuorum {
  vq_target : Z;
  vq_interval : Z;
  vq_start_height : Height;
  vq_max_catchup : Z;
}.

(** [ValidBatch] is its map, as are [Delays] (first-vote instants) and
    [ValidateAttestor] (the active set). *)
Record Pool (Sig : Type) := mkPool {
  forks : Forks Sig;
  valid : gmap Height (SignedQuorum Sig);
  validate_attestor : gset AttestorId;
  validate_quorum : ValidateQuorum;
  delays : gmap Height Z;
  metrics : list Metric;
  digest_local : option Digest;
  locally_validated_height : option Height;
  validation_generation : Z;
}.
Arguments mkPool {Sig}.
Arguments forks {Sig}.
Arguments valid {Sig}.
Arguments validate_attestor {Sig}.
Arguments validate_quorum {Sig}.
Arguments delays {Sig}.
Arguments metrics {Sig}.
Arguments digest_local {Sig}.
Arguments locally_validated_height {Sig}.
Arguments validation_generation {Sig}.

#[export] Instance eta_ValidateQuorum : Settable ValidateQuorum := fun r =>
  mkValidateQuorum (vq_target r) (vq_interval r) (vq_start_height r) (vq_max_catchup r).
#[export] Instance eta_Pool Sig : Settable (Pool Sig) := fun r =>
  mkPool (forks r) (valid r) (validate_attestor r) (validate_quorum r) (delays r) (metrics r)
    (digest_local r) (locally_validated_height r) (validation_generation r).

Inductive PoolState (Sig : Type) := Open (pool : Pool Sig) | Closed.
Arguments Open {Sig}.
Arguments Closed {Sig}.

(** [Option]'s [max]: [None] is below every height. *)
Definition option_max (a b : option Height) : option Height :=
  match a, b with
  | Some x, Some y => Some (Z.max x y)
  | Some x, None => Some x
  | None, _ => b
  end.

Definition height_admissible (vq : ValidateQuorum) (height : Height) (last_finalized : option Height) : bool :=
  let window := Z.max (vq_max_catchup vq) (vq_interval vq) in
  let base := default (vq_start_height vq) last_finalized in
  let upper := saturating_add 64 base window in
  let above := match last_finalized with
    | Some f => f <? height
    | None => vq_start_height vq <=? height
    end in
  above && (vq_start_height vq <=? height) && (height <=? upper).

(** [split_off(height.saturating_add(1))] on a map keyed by height. *)
Definition drop_up_to {V} (height : Height) (m : gmap Height V) : gmap Height V :=
  filter (fun kv => saturating_add 64 height 1 <= kv.1) m.

Section Pool.
Context {Sig : Type}.
Implicit Types (p : Pool Sig) (vote : Vote Sig) (permit : Permit).

(** [attestation_pool]'s pool. *)
Definition pool_new (config : PoolConfig) : Pool Sig :=
  mkPool (forks_new (pc_start_digest config) (pc_start_height_finalized config)) ∅
    (list_to_set (pc_attestors config))
    (mkValidateQuorum (pc_quorum config) (pc_attestation_interval config) (pc_start_height config)
      (pc_max_catchup config))
    ∅ [] None None 0.

Definition measure (m : Metric) p : Pool Sig := p <| metrics ::= fun ms => ms ++ [m] |>.

Definition lower_bound p : option Height :=
  option_max (last_finalized_height (forks p)) (locally_validated_height p).

Definition pool_push (now : Z) vote p : Result VoteError unit * Pool Sig :=
  if negb (bool_decide (vote_attestor vote ∈ validate_attestor p)) then
    (Err (Unauthorized (vote_attestor vote) (vote_height vote)), measure invalid_vote p)
  else if negb (height_admissible (validate_quorum p) (vote_height vote) (lower_bound p)) then
    (Err (InvalidHeight (vote_attestor vote) (vote_height vote)
       (default (vq_start_height (validate_quorum p)) (lower_bound p))), p)
  else
    let '(result, fs) := forks_push vote (forks p) in
    let p := p <| forks := fs |> in
    match result with
    | Ok _ => (Ok tt, p <| delays ::= fun m =>
        match m !! vote_height vote with Some _ => m | None => <[vote_height vote := now]> m end |>)
    | Err (Equivocation a h as err) => (Err err, measure invalid_vote (measure equivocation p))
    | Err (KnownInvalid a h d as err) => (Err err, measure invalid_vote p)
    | Err err => (Err err, p)
    end.

Definition peek (now : Z) p : option (Quorum Sig * Permit) * Pool Sig :=
  match best (vq_target (validate_quorum p)) (forks p) with
  | None => (None, p)
  | Some fork =>
      let p := match delays p !! av_height fork with
        | Some t => measure (quorum_delay (now - t)) (p <| delays ::= delete (av_height fork) |>)
        | None => p
        end in
      (Some (mkQuorum (av_height fork) (av_digest fork) (av_chain_key fork) (av_votes fork),
         mkPermit (av_height fork) (av_digest fork) (validation_generation p) (zlen (av_votes fork))), p)
  end.

Definition mark_valid permit p : Pool Sig :=
  p <| forks ::= split_off (p_height permit) |> <| digest_local := Some (p_digest permit) |>
    <| locally_validated_height ::= fun lock =>
         Some (match lock with Some h => Z.max h (p_height permit) | None => p_height permit end) |>.

Definition mark_invalid permit p : Pool Sig :=
  p <| forks ::= invalidate_fork (p_height permit) (p_digest permit) |>.

Definition mark_skipped permit p : Pool Sig :=
  p <| forks ::= drop_fork (p_height permit) (p_digest permit) |>.

Definition defer permit p : Pool Sig :=
  let key := (p_height permit, p_digest permit) in
  if (validation_generation p =? p_validation_generation permit) &&
     match by_digest (forks p) !! key with
     | Some fork => zlen (av_votes fork) =? p_vote_count permit
     | None => false
     end
  then p <| forks ::= fun f => f <| deferred ::= union {[key]} |> |>
  else p.

Definition mark_for_later permit (signed : SignedQuorum Sig) p : Pool Sig :=
  mark_valid permit (p <| valid ::= <[sq_height signed := signed]> |>).

(** [ValidBatch::pop]: the lowest height first. *)
Definition take_next_validated p : option (SignedQuorum Sig) * Pool Sig :=
  match lowest_key (valid p) with
  | Some h => (valid p !! h, p <| valid ::= delete h |>)
  | None => (None, p)
  end.

Definition next_generation p : Pool Sig :=
  p <| validation_generation ::= fun g => wrap 64 (g + 1) |>.

(** The reset shared by an interval change and a reversion. *)
Definition pool_reset p : Pool Sig :=
  next_generation p <| forks ::= forks_clear |> <| valid := ∅ |> <| delays := ∅ |>
    <| digest_local := None |> <| locally_validated_height := None |>.

(** ** The senders' calls, under the lock

    Each gives the new state and whether the sender then notifies the receiver. *)

Inductive SenderOp :=
| Send (now : Z) (vote : Vote Sig)
| NoteAttestationFinalization (height : Height) (digest : Digest)
| NoteAttestationIntervalChange (interval : Z)
| NoteAttestorsElected (attestors : list AccountId)
| NoteMaxCatchupChange (max_catchup : Z)
| NoteQuorumChange (threshold : Z)
| NoteMajorityNotReached (height : Height)
| NoteAttestationChainReversion (height : Height) (digest : Digest).

Definition sender_op (op : SenderOp) p : Pool Sig * bool :=
  match op with
  | Send now vote => let '(result, p) := pool_push now vote p in (p, is_ok result)
  | NoteAttestationFinalization height digest =>
      (p <| valid ::= drop_up_to height |> <| delays ::= drop_up_to height |>
         <| forks ::= note_finalized height digest |>, true)
  | NoteAttestationIntervalChange interval =>
      (pool_reset p <| validate_quorum ::= fun vq => vq <| vq_interval := interval |> |>, false)
  | NoteAttestorsElected attestors =>
      (next_generation p <| validate_attestor := list_to_set attestors |>
         <| forks ::= retain_signers (fun a => bool_decide (a ∈ attestors)) |>, true)
  | NoteMaxCatchupChange max_catchup =>
      (p <| validate_quorum ::= fun vq => vq <| vq_max_catchup := max_catchup |> |>, true)
  | NoteQuorumChange threshold =>
      if threshold =? 0 then (p, false)
      else (next_generation p <| validate_quorum ::= fun vq => vq <| vq_target := threshold |> |>
              <| forks ::= fun f => f <| deferred := ∅ |> |>, true)
  | NoteMajorityNotReached height =>
      if bool_decide (locally_validated_height p = Some height) then
        (p <| locally_validated_height := None |> <| digest_local := None |>, true)
      else (p, false)
  | NoteAttestationChainReversion height digest =>
      (pool_reset p <| forks ::= fun f => f <| last_finalized_height := Some height |>
         <| last_finalized_digest := Some digest |> |>, false)
  end.

Definition on_open {A} (f : Pool Sig -> Pool Sig * A) (none : A) (st : PoolState Sig) : PoolState Sig * A :=
  match st with
  | Open p => let '(p, a) := f p in (Open p, a)
  | Closed => (Closed, none)
  end.

(** ** The receiver's calls *)

Inductive ReceiverOp :=
| MarkValid (permit : Permit)
| MarkInvalid (permit : Permit)
| MarkSkipped (permit : Permit)
| Defer (permit : Permit)
| MarkForLater (permit : Permit) (signed : SignedQuorum Sig)
| TakeNextValidated.

Definition receiver_op (op : ReceiverOp) p : Pool Sig :=
  match op with
  | MarkValid permit => mark_valid permit p
  | MarkInvalid permit => mark_invalid permit p
  | MarkSkipped permit => mark_skipped permit p
  | Defer permit => defer permit p
  | MarkForLater permit signed => mark_for_later permit signed p
  | TakeNextValidated => (take_next_validated p).2
  end.
End Pool.
Arguments SenderOp : clear implicits.
Arguments ReceiverOp : clear implicits.

(** ** Threads

    [tokio::sync::Notify], as far as one waiter uses it: [notify_one], the
    subscription [notified().enable()], the end of the subscription when its future
    completes or is dropped, and whether the subscription has been woken. *)
Class Notify (N : Type) := {
  notify_new : N;
  notify_one : N -> N;
  subscribe : N -> N;
  unsubscribe : N -> N;
  subscribed : N -> bool;
  woken : N -> bool;
}.

(** Documented: the call wakes a subscribed waiter, and a wake is not lost while the
    waiter stays subscribed. *)
Class NotifyLaws (N : Type) `{!Notify N} : Prop := {
  subscribe_subscribed n : subscribed (subscribe n) = true;
  notify_one_wakes n : subscribed n = true -> woken (notify_one n) = true;
  notify_one_subscribed n : subscribed n = true -> subscribed (notify_one n) = true;
}.

(** Where the receiver's thread is: between calls, in [recv] with its subscription
    enabled, parked on it, or returned from [recv]. *)
Inductive RecvState (Sig : Type) :=
| Between
| Enabled
| Parked
| Returned (item : option (Quorum Sig * Permit)).
Arguments Between {Sig}.
Arguments Enabled {Sig}.
Arguments Parked {Sig}.
Arguments Returned {Sig}.

Record Shared (Sig N : Type) := mkShared {
  sh_pool : PoolState Sig;
  sh_senders : Z;
  sh_notify : N;
  sh_owed : nat;
  sh_closing : bool;
  sh_recv : RecvState Sig;
}.
Arguments mkShared {Sig N}.
Arguments sh_pool {Sig N}.
Arguments sh_senders {Sig N}.
Arguments sh_notify {Sig N}.
Arguments sh_owed {Sig N}.
Arguments sh_closing {Sig N}.
Arguments sh_recv {Sig N}.

#[export] Instance eta_Shared Sig N : Settable (Shared Sig N) := fun r =>
  mkShared (sh_pool r) (sh_senders r) (sh_notify r) (sh_owed r) (sh_closing r) (sh_recv r).

Section Threads.
Context {Sig N : Type} `{!Notify N}.
Implicit Types (s : Shared Sig N).

(** [attestation_pool] *)
Definition attestation_pool (config : PoolConfig) : Shared Sig N :=
  mkShared (Open (pool_new config)) 1 notify_new 0 false Between.

(** A vote as the type system admits it. *)
Definition vote_typed (v : Vote Sig) : Prop :=
  in_range 64 (vote_height v) /\ in_range 256 (vote_digest v) /\ in_range 256 (vote_attestor v).

Definition op_typed (op : SenderOp Sig) : Prop :=
  match op with
  | Send _ v => vote_typed v
  | NoteAttestationFinalization h d | NoteAttestationChainReversion h d => in_range 64 h
  | NoteMajorityNotReached h => in_range 64 h
  | _ => True
  end.

(** A permit the consumer holds comes from a quorum, so from stored votes. *)
Definition recv_typed (op : ReceiverOp Sig) : Prop :=
  match op with
  | MarkValid t | MarkForLater t _ => in_range 64 (p_height t)
  | _ => True
  end.

(** The receiver's look at the pool, inside [recv]. *)
Definition recv_peek (now : Z) s : Shared Sig N :=
  match sh_pool s with
  | Closed => s <| sh_recv := Returned None |> <| sh_notify ::= unsubscribe |>
  | Open p =>
      let '(item, p) := peek now p in
      let s := s <| sh_pool := Open p |> in
      match item with
      | Some _ => s <| sh_recv := Returned item |> <| sh_notify ::= unsubscribe |>
      | None => s <| sh_recv := Parked |>
      end
  end.

(** The atomic sections of the threads. A sender notifies after it has released the
    lock: what it owes in between is counted. A step of a sender carries its call. *)
Inductive pool_step : option (SenderOp Sig) -> Shared Sig N -> Shared Sig N -> Prop :=
| step_sender op s st (notifies : bool) : 0 < sh_senders s -> op_typed op ->
    on_open (sender_op op) false (sh_pool s) = (st, notifies) ->
    pool_step (Some op) s (s <| sh_pool := st |> <| sh_owed ::= Nat.add (if notifies then 1 else 0) |>)
| step_clone s : 0 < sh_senders s -> pool_step None s (s <| sh_senders ::= Z.add 1 |>)
| step_drop s : 0 < sh_senders s ->
    pool_step None s (s <| sh_senders ::= Z.add (-1) |> <| sh_closing := bool_decide (sh_senders s = 1) |>)
| step_close s : sh_closing s = true ->
    pool_step None s (s <| sh_pool := Closed |> <| sh_closing := false |> <| sh_owed ::= S |>)
| step_notify n s : sh_owed s = S n ->
    pool_step None s (s <| sh_owed := n |> <| sh_notify ::= notify_one |>)
| step_receiver op s : sh_recv s = Between -> recv_typed op ->
    pool_step None s (s <| sh_pool := (on_open (fun p => (receiver_op op p, tt)) tt (sh_pool s)).1 |>)
| step_recv s : sh_recv s = Between ->
    pool_step None s (s <| sh_recv := Enabled |> <| sh_notify ::= subscribe |>)
| step_peek now s : sh_recv s = Enabled -> pool_step None s (recv_peek now s)
| step_wake s : sh_recv s = Parked -> woken (sh_notify s) = true ->
    pool_step None s (s <| sh_recv := Between |> <| sh_notify ::= unsubscribe |>)
| step_cancel s : sh_recv s = Enabled \/ sh_recv s = Parked ->
    pool_step None s (s <| sh_recv := Between |> <| sh_notify ::= unsubscribe |>)
| step_consume item s : sh_recv s = Returned item -> pool_step None s (s <| sh_recv := Between |>).

Definition pool_reached (config : PoolConfig) : Shared Sig N -> Prop :=
  rtc (fun s s' => exists call, pool_step call s s') (attestation_pool config).
End Threads.
