(* ===== verification/VotePoolSpec.v ===== *)
(** * What the vote pool guarantees

    The pool's invariant and its preservation by every call, the choice of the fork
    that is handed out, what the consumer's decisions rule out from then on, and that
    a receiver never stays parked while there is something to receive. *)

From stdpp Require Import prelude gmap list sorting.
From Stdlib Require Import ZArith Lia.
From S2P Require Import Prelude Primitives Randomness VotePool.

(** ** The choice of a fork *)

#[export] Instance entry_ge_trans : Transitive entry_ge.
Proof. intros [[h n] d] [[h' n'] d'] [[h2 n2] d2]. unfold entry_ge. cbn. lia. Qed.

#[export] Instance entry_ge_total : Total entry_ge.
Proof. intros [[h n] d] [[h' n'] d']. unfold entry_ge. cbn. lia. Qed.

Lemma elem_of_descending x index : x ∈ descending index <-> x ∈ index.
Proof. unfold descending. rewrite merge_sort_Permutation. apply elem_of_elements. Qed.

Lemma descending_sorted index : StronglySorted entry_ge (descending index).
Proof. apply StronglySorted_merge_sort; apply _. Qed.

Lemma take_while_skip_while {A} (p : A -> bool) l : take_while p l ++ skip_while p l = l.
Proof. induction l as [|x l IH]; [done|]. cbn. destruct (p x); cbn; congruence. Qed.

Lemma elem_of_take_while {A} (p : A -> bool) l x : x ∈ take_while p l -> x ∈ l /\ p x = true.
Proof.
  induction l as [|y l IH]; cbn; [by intros ?%elem_of_nil|]. destruct (p y) eqn:Hp; [|by intros ?%elem_of_nil].
  intros [->|[Hin Hx]%IH]%elem_of_cons; (split; [set_solver|done]).
Qed.

Lemma length_skip_while {A} (p : A -> bool) l : (length (skip_while p l) <= length l)%nat.
Proof. induction l as [|x l IH]; cbn; [done|]. destruct (p x); cbn; lia. Qed.

Lemma find_sorted {A} (R : relation A) (P : A -> Prop) `{!forall x, Decision (P x)} l i e x :
  StronglySorted R l -> list_find P l = Some (i, e) -> x ∈ l -> P x -> x = e \/ R e x.
Proof.
  intros Hs. revert i. induction Hs as [|y l Hs IH Hall]; intros i Hf Hx HP; [by apply elem_of_nil in Hx|].
  cbn in Hf. destruct (decide (P y)) as [HPy|HPy].
  - injection Hf as <- <-. apply elem_of_cons in Hx as [->|Hx]; [by left|right]. by eapply Forall_forall in Hall.
  - apply fmap_Some in Hf as ([i' e'] & Hf & [= -> ->]). apply elem_of_cons in Hx as [->|Hx]; [done|by eapply IH].
Qed.

Lemma lookup_filter_kept `{Countable K} {V} (P : K * V -> Prop) `{!forall x, Decision (P x)} (m : gmap K V) i :
  (forall x, m !! i = Some x -> P (i, x)) -> filter P m !! i = m !! i.
Proof.
  intros HP. apply option_eq. intros x. rewrite map_lookup_filter_Some. split; [by intros [? _]|auto].
Qed.

Section Choice.
Variable ds : gset (Height * Digest).
Variable target : Z.
Implicit Types (l : list (Height * Z * Digest)).

(** The entry of a fork that leads its height. *)
Definition leads l (h : Height) (n : Z) (d : Digest) : Prop :=
  (h, n, d) ∈ l /\ (h, d) ∉ ds /\ target <= n /\
  forall n' d', (h, n', d') ∈ l -> (h, d') ∉ ds -> d' <> d -> n' < n.

Definition one_size l : Prop := forall h n n' d, (h, n, d) ∈ l -> (h, n', d) ∈ l -> n = n'.

(** In a descending list the entries of the first height come first. *)
Lemma sorted_same_height h n d l h' n' d' :
  StronglySorted entry_ge ((h, n, d) :: l) -> (h', n', d') ∈ l ->
  h' < h \/ h' = h /\ (h', n', d') ∈ take_while (same_height h) l /\ n' <= n.
Proof.
  intros [Hs Hall]%StronglySorted_inv Hin.
  assert (entry_ge (h, n, d) (h', n', d')) as Hge by (by eapply Forall_forall in Hall).
  unfold entry_ge in Hge. cbn in Hge. destruct (decide (h' = h)) as [->|]; [right|left; lia].
  split_and!; [done| |lia]. clear Hge. induction l as [|[[hx nx] dx] l IH]; [by apply elem_of_nil in Hin|].
  apply StronglySorted_inv in Hs as [Hs Hx]. apply Forall_cons in Hall as [Hxx Hall].
  assert (hx = h) as ->.
  { unfold entry_ge in Hxx. cbn in Hxx. apply elem_of_cons in Hin as [[= -> -> ->]|Hin]; [done|].
    eapply Forall_forall in Hx; [|exact Hin]. unfold entry_ge in Hx. cbn in Hx. lia. }
  cbn [take_while same_height fst]. unfold same_height at 1. cbn [fst]. rewrite Z.eqb_refl.
  apply elem_of_cons in Hin as [->|Hin]; [left|right; by apply IH].
Qed.

Lemma leads_ext l l' h n d :
  (forall n d, (h, d) ∉ ds -> (h, n, d) ∈ l <-> (h, n, d) ∈ l') -> leads l h n d <-> leads l' h n d.
Proof.
  intros Heq. unfold leads. split; intros (Hin & Hd & Ht & Hall); (split; [by apply Heq|]; do 2 (split; [done|]));
    intros n' d' Hin' Hd'; (apply Hall; [by apply Heq|done]).
Qed.

(** Nothing leads a height whose largest fork is tied or short of the target. *)
Lemma not_leading h n d l n' d' :
  StronglySorted entry_ge ((h, n, d) :: l) -> NoDup ((h, n, d) :: l) -> one_size ((h, n, d) :: l) ->
  (h, d) ∉ ds -> n < target \/ (exists e, (h, n, e) ∈ l /\ (h, e) ∉ ds) -> ~ leads ((h, n, d) :: l) h n' d'.
Proof.
  intros Hs [Hnew _]%NoDup_cons Hone Hd Hno (Hin & _ & Ht & Hall).
  assert (n' <= n) as Hle.
  { apply elem_of_cons in Hin as [[= -> ->]|Hin]; [done|]. destruct (sorted_same_height _ _ _ _ _ _ _ Hs Hin); lia. }
  destruct Hno as [|(e & He & Hde)]; [lia|].
  destruct (decide (d' = d)) as [->|].
  - assert (e <> d) as Hne by (intros ->; done).
    assert (n' = n) as -> by (eapply Hone; [exact Hin|left]). specialize (Hall n e ltac:(by right) Hde Hne). lia.
  - specialize (Hall n d ltac:(left) Hd). lia.
Qed.

(** The largest fork leads its height when the next one is smaller. *)
Lemma leads_first h n d l :
  StronglySorted entry_ge ((h, n, d) :: l) -> (h, d) ∉ ds -> target <= n ->
  match list_find (fun e => (e.1.1, e.2) ∉ ds) (take_while (same_height h) l) with
  | Some (_, e) => e.1.2 <> n
  | None => True
  end -> leads ((h, n, d) :: l) h n d.
Proof.
  intros Hs Hd Ht Hnext. split; [left|]. do 2 (split; [done|]). intros n' d' Hin Hd' Hne.
  apply elem_of_cons in Hin as [[= _ ->]|Hin]; [done|].
  destruct (sorted_same_height _ _ _ _ _ _ _ Hs Hin) as [|(_ & Htw & Hle)]; [lia|].
  apply StronglySorted_inv in Hs as [Hs Hall]. rewrite <- (take_while_skip_while (same_height h) l) in Hs.
  apply StronglySorted_app in Hs as (_ & Hs & _).
  destruct (list_find _ _) as [[i e]|] eqn:Hf.
  - destruct (find_sorted _ _ _ _ _ _ Hs Hf Htw Hd') as [<-|Hge]; [cbn in *; lia|].
    apply list_find_Some in Hf as (Hi%list_elem_of_lookup_2 & _). apply elem_of_take_while in Hi as [Hi Hh].
    eapply Forall_forall in Hall; [|exact Hi]. destruct e as [[he ne] de]. unfold same_height in Hh.
    unfold entry_ge in Hall, Hge. cbn in *. lia.
  - apply list_find_None in Hf. eapply Forall_forall in Hf; [|exact Htw]. by destruct Hf.
Qed.

Lemma one_size_sub l l' : (forall x, x ∈ l' -> x ∈ l) -> one_size l -> one_size l'.
Proof. intros Hsub Hone h n n' d Hin Hin'. eapply Hone; by apply Hsub. Qed.

(** Skipping a height without leader changes nothing. *)
Lemma leads_skip h n d l h' n' d' :
  StronglySorted entry_ge ((h, n, d) :: l) -> NoDup l -> (forall n' d', ~ leads ((h, n, d) :: l) h n' d') ->
  leads (skip_while (same_height h) l) h' n' d' <-> leads ((h, n, d) :: l) h' n' d'.
Proof.
  intros Hs Hnd Hno. pose proof (take_while_skip_while (same_height h) l) as Hsplit.
  assert (forall n2 d2, (h, n2, d2) ∉ skip_while (same_height h) l) as Hout.
  { intros n2 d2 Hin. assert ((h, n2, d2) ∈ l) as Hl by (rewrite <- Hsplit; apply elem_of_app; by right).
    destruct (sorted_same_height _ _ _ _ _ _ _ Hs Hl) as [|(_ & Htw & _)]; [lia|].
    rewrite <- Hsplit in Hnd. apply NoDup_app in Hnd as (_ & Hdisj & _). by eapply Hdisj. }
  destruct (decide (h' = h)) as [->|Hne].
  - split; [|by intros ?%Hno]. intros (Hin & _). by apply Hout in Hin.
  - apply leads_ext. intros n2 d2 _. rewrite <- Hsplit at 2. rewrite elem_of_cons, elem_of_app. split; [auto|].
    intros [[= -> _ _]|[[_ Hh]%elem_of_take_while|]]; [done| |done]. unfold same_height in Hh. cbn in Hh. lia.
Qed.

(** [r] is the leader of the highest height that has one. *)
Definition chosen l (r : option (Height * Digest)) : Prop :=
  match r with
  | Some (h, d) => (exists n, leads l h n d) /\ forall h' n' d', leads l h' n' d' -> h' <= h
  | None => forall h n d, ~ leads l h n d
  end.

Lemma chosen_ext l l' r :
  (forall h n d, leads l h n d <-> leads l' h n d) -> chosen l r -> chosen l' r.
Proof. intros Heq. destruct r as [[h d]|]; cbn; by setoid_rewrite Heq. Qed.

Lemma best_loop_spec fuel l :
  StronglySorted entry_ge l -> NoDup l -> one_size l -> (length l <= fuel)%nat ->
  chosen l (best_loop fuel ds target l).
Proof.
  revert l. induction fuel as [|fuel IH]; intros [|[[h n] d] l] Hs Hnd Hone Hlen; cbn [length] in Hlen; try lia;
    try by intros ??? [?%elem_of_nil _].
  pose proof (StronglySorted_inv Hs) as [Hs' Hall]. pose proof (NoDup_cons_1_2 _ _ Hnd) as Hnd'.
  assert (one_size l) as Hone' by (eapply one_size_sub, Hone; by right).
  pose proof (take_while_skip_while (same_height h) l) as Hsplit.
  cbn [best_loop]. case_bool_decide as Hd.
  { eapply chosen_ext, IH; [|done..|lia]. intros h' n' d'. apply leads_ext. intros n2 d2 Hd2.
    rewrite elem_of_cons. naive_solver. }
  pose proof (leads_first h n d l Hs Hd) as Hlead. pose proof (length_skip_while (same_height h) l) as Hlen'.
  assert ((forall n' d', ~ leads ((h, n, d) :: l) h n' d') ->
    chosen ((h, n, d) :: l) (best_loop fuel ds target (skip_while (same_height h) l))) as Hskip.
  { intros Hno. eapply chosen_ext; [intros h' n' d'; by apply leads_skip|]. apply IH; [| | |lia].
    - rewrite <- Hsplit in Hs'. by eapply StronglySorted_app_1_r.
    - rewrite <- Hsplit in Hnd'. by apply NoDup_app in Hnd' as (_ & _ & ?).
    - eapply one_size_sub, Hone'. intros x Hx. rewrite <- Hsplit. apply elem_of_app. by right. }
  assert (leads ((h, n, d) :: l) h n d -> chosen ((h, n, d) :: l) (Some (h, d))) as Htop.
  { intros Hl. split; [by eexists|]. intros h' n' d' (Hin & _).
    apply elem_of_cons in Hin as [[= -> _ _]|Hin]; [done|]. destruct (sorted_same_height _ _ _ _ _ _ _ Hs Hin); lia. }
  destruct (Z.leb_spec target n) as [Ht|Ht]; cbn [andb].
  - destruct (list_find _ _) as [[i e]|] eqn:Hf; cbn [andb negb].
    + destruct (Z.eqb_spec e.1.2 n) as [He|He]; cbn [negb].
      * apply Hskip. intros n' d'. apply not_leading; try done. right.
        apply list_find_Some in Hf as (Hi%list_elem_of_lookup_2 & Hde & _).
        apply elem_of_take_while in Hi as [Hi Hh]. destruct e as [[he ne] de]. unfold same_height in Hh. cbn in *.
        apply Z.eqb_eq in Hh as ->. subst ne. by exists de.
      * apply Htop. by apply Hlead.
    + apply Htop. by apply Hlead.
  - apply Hskip. intros n' d'. apply not_leading; try done. left. lia.
Qed.
End Choice.

(** ** The invariant of the forks *)

Section ForksInv.
Context {Sig : Type}.
Implicit Types (f : Forks Sig) (e : AttestationVote Sig) (k : Height * Digest).

(** A stored fork: one vote of each signer, all for its height and digest. *)
Record fork_ok k e : Prop := {
  fo_height : av_height e = k.1;
  fo_digest : av_digest e = k.2;
  fo_signers : forall a, a ∈ av_signers e <-> a ∈ vote_attestor <$> av_votes e;
  fo_once : NoDup (vote_attestor <$> av_votes e);
  fo_votes : av_votes e <> [];
  fo_for : Forall (fun v => vote_height v = k.1 /\ vote_digest v = k.2) (av_votes e);
  fo_typed : Forall vote_typed (av_votes e);
}.

(** The size index of a table of forks. *)
Definition indexes (m : gmap (Height * Digest) (AttestationVote Sig)) (index : gset (Height * Z * Digest)) : Prop :=
  forall h n d, (h, n, d) ∈ index <-> exists e, m !! (h, d) = Some e /\ n = signer_count e.

Record forks_inv f : Prop := {
  fi_fork k e : by_digest f !! k = Some e -> fork_ok k e;
  fi_index : indexes (by_digest f) (by_height_size f);
  fi_seen k e a : by_digest f !! k = Some e -> a ∈ av_signers e -> seen f !! (k.1, a) = Some k.2;
  fi_invalid k : k ∈ invalid f -> by_digest f !! k = None;
}.

(** The fork that leads its height, among those that are not set aside. *)
Definition dominant (target : Z) f k : Prop :=
  exists e, by_digest f !! k = Some e /\ k ∉ deferred f /\ target <= signer_count e /\
  forall d' e', by_digest f !! (k.1, d') = Some e' -> (k.1, d') ∉ deferred f -> d' <> k.2 ->
    signer_count e' < signer_count e.

Lemma fork_count k e : fork_ok k e -> signer_count e = zlen (av_votes e).
Proof.
  intros He. unfold signer_count, zlen. f_equal. rewrite <- (length_fmap vote_attestor).
  rewrite <- (size_list_to_set (C := gset AttestorId) _ (fo_once _ _ He)). f_equal.
  apply set_eq. intros a. rewrite elem_of_list_to_set. apply He.
Qed.

Lemma fork_typed k e : fork_ok k e -> in_range 64 k.1 /\ in_range 256 k.2.
Proof.
  intros He. pose proof (fo_votes _ _ He) as Hne. pose proof (fo_for _ _ He) as Hfor.
  pose proof (fo_typed _ _ He) as Ht. destruct (av_votes e) as [|v vs]; [done|].
  apply Forall_cons in Hfor as [[<- <-] _]. apply Forall_cons in Ht as [(? & ? & _) _]. done.
Qed.

Lemma signer_typed k e a : fork_ok k e -> a ∈ av_signers e -> in_range 256 a.
Proof.
  intros He Ha. apply (fo_signers _ _ He) in Ha. apply list_elem_of_fmap in Ha as (v & -> & Hv).
  pose proof (fo_typed _ _ He) as Ht. eapply Forall_forall in Ht; [|exact Hv]. apply Ht.
Qed.

Lemma best_fork_spec target f :
  forks_inv f ->
  match best target f with
  | Some e => let k := (av_height e, av_digest e) in
      by_digest f !! k = Some e /\ dominant target f k /\ forall k', dominant target f k' -> k'.1 <= k.1
  | None => forall k, ~ dominant target f k
  end.
Proof.
  intros Hf. pose proof (fi_index _ Hf) as Hidx. unfold indexes in Hidx.
  unfold best. set (l := descending (by_height_size f)).
  assert (forall h n d, leads (deferred f) target l h n d <->
    (exists e, by_digest f !! (h, d) = Some e /\ n = signer_count e) /\ dominant target f (h, d)) as Heq.
  { intros h n d. unfold leads, dominant, l. setoid_rewrite elem_of_descending. setoid_rewrite Hidx.
    cbn [fst snd]. naive_solver. }
  assert (chosen (deferred f) target l (best_loop (length l) (deferred f) target l)) as Hc.
  { apply best_loop_spec; [apply descending_sorted| | |done].
    - unfold l, descending. rewrite merge_sort_Permutation. apply NoDup_elements.
    - intros h n n' d. unfold l. rewrite !elem_of_descending, !Hidx. naive_solver. }
  destruct (best_loop _ _ _ _) as [[h d]|]; cbn in Hc |- *.
  - destruct Hc as [(n & Hl) Hmax]. apply Heq in Hl as [(e & He & ->) Hdom]. rewrite He.
    rewrite (fo_height _ _ (fi_fork _ Hf _ _ He)), (fo_digest _ _ (fi_fork _ Hf _ _ He)). cbn [fst snd].
    split_and!; try done. intros [h' d'] Hdom'. destruct (id Hdom') as (e' & He' & _).
    eapply (Hmax h' (signer_count e') d'). apply Heq. eauto.
  - intros [h d] Hdom. destruct (id Hdom) as (e & He & _). apply (Hc h (signer_count e) d). apply Heq. eauto.
Qed.

(** *** The size index *)

Lemma indexes_remove m index k e :
  indexes m index -> m !! k = Some e -> indexes (delete k m) (index ∖ {[(k.1, signer_count e, k.2)]}).
Proof.
  intros Hi He h n d. rewrite elem_of_difference, elem_of_singleton, (Hi h n d). destruct k as [kh kd]. cbn.
  setoid_rewrite lookup_delete_Some. split.
  - intros [(e' & He' & ->) Hne]. exists e'. split_and!; try done. intros [= -> ->]. congruence.
  - intros (e' & [Hne He'] & ->). split; [eauto|]. intros [= -> _ ->]. done.
Qed.

Lemma indexes_absent m index k n :
  indexes m index -> m !! k = None -> indexes m (index ∖ {[(k.1, n, k.2)]}).
Proof.
  intros Hi He h n' d. rewrite elem_of_difference, elem_of_singleton, (Hi h n' d). destruct k as [kh kd]. cbn.
  split; [by intros [? _]|]. intros (e & He' & ->). split; [eauto|]. intros [= -> _ ->]. congruence.
Qed.

Lemma indexes_insert m index k e :
  indexes m index -> m !! k = None -> indexes (<[k := e]> m) ({[(k.1, signer_count e, k.2)]} ∪ index).
Proof.
  intros Hi He h n d. rewrite elem_of_union, elem_of_singleton, (Hi h n d). destruct k as [kh kd]. cbn.
  setoid_rewrite lookup_insert_Some. split.
  - intros [[= -> -> ->]|(e' & He' & ->)]; [eauto|]. exists e'. split; [right|done]. split; [|done].
    intros [= -> ->]. congruence.
  - intros (e' & [[[= -> ->] ->]|[Hne He']] & ->); eauto.
Qed.

Lemma indexes_update m index k e e' :
  indexes m index -> m !! k = Some e ->
  indexes (<[k := e']> m) ({[(k.1, signer_count e', k.2)]} ∪ (index ∖ {[(k.1, signer_count e, k.2)]})).
Proof.
  intros Hi He. rewrite <- insert_delete_eq. apply indexes_insert; [by apply indexes_remove|apply lookup_delete_eq].
Qed.

Lemma indexes_same m index k e e' :
  indexes m index -> m !! k = Some e -> signer_count e' = signer_count e -> indexes (<[k := e']> m) index.
Proof.
  intros Hi He Hc h n d. rewrite (Hi h n d). setoid_rewrite lookup_insert_Some. split.
  - intros (e0 & He0 & ->). destruct (decide (k = (h, d))) as [->|Hne]; [|by eauto].
    exists e'. split; [by left|]. congruence.
  - intros (e0 & [[<- <-]|[Hne He0]] & ->); eauto.
Qed.

(** *** A vote *)

(** What a vote adds to its fork. *)
Definition with_vote f (vote : Vote Sig) : AttestationVote Sig :=
  let key := (vote_height vote, vote_digest vote) in
  default (mkAttestationVote (vote_height vote) (vote_digest vote) (vote_chain_key vote) [] ∅) (by_digest f !! key)
    <| av_signers ::= union {[vote_attestor vote]} |> <| av_votes ::= fun votes => votes ++ [vote] |>.

Lemma push_cases vote f r f' :
  forks_push vote f = (r, f') ->
  let key := (vote_height vote, vote_digest vote) in
  (f' = f /\ (r = Ok tt -> seen f !! (vote_height vote, vote_attestor vote) = Some (vote_digest vote))) \/
  (r = Ok tt /\ (key ∉ invalid f) /\ seen f !! (vote_height vote, vote_attestor vote) = None /\
   by_digest f' = <[key := with_vote f vote]> (by_digest f)).
Proof.
  intros Hpush key. unfold forks_push in Hpush. fold key in Hpush. case_bool_decide as Hinv.
  { injection Hpush as <- <-. by left. }
  destruct (seen f !! _) as [prev|] eqn:Hseen.
  - left. destruct (Z.eqb_spec prev (vote_digest vote)) as [->|]; injection Hpush as <- <-; (split; [done|]); by intros [=].
  - right. injection Hpush as <- <-. done.
Qed.

Lemma with_vote_ok f vote :
  forks_inv f -> vote_typed vote -> seen f !! (vote_height vote, vote_attestor vote) = None ->
  fork_ok (vote_height vote, vote_digest vote) (with_vote f vote) /\
  signer_count (with_vote f vote) =
    match by_digest f !! (vote_height vote, vote_digest vote) with Some e => signer_count e | None => 0 end + 1.
Proof.
  intros Hf Ht Hseen. unfold with_vote, signer_count.
  destruct (by_digest f !! _) as [e|] eqn:He; cbn [default id upd av_signers av_votes].
  - pose proof (fi_fork _ Hf _ _ He) as [H1 H2 H3 H4 H5 H6 H7].
    assert (vote_attestor vote ∉ av_signers e) as Hnew.
    { intros Hin. apply (fi_seen _ Hf _ _ _ He) in Hin. cbn in Hin. congruence. }
    split.
    + constructor; cbn; try done.
      * intros a. rewrite elem_of_union, elem_of_singleton, H3, fmap_app, elem_of_app. cbn. set_solver.
      * rewrite fmap_app. apply NoDup_app. split_and!; [done| |apply NoDup_singleton].
        intros a Ha%H3 Ha'%list_elem_of_singleton. congruence.
      * by destruct (av_votes e).
      * apply Forall_app. auto.
      * apply Forall_app. auto.
    + cbn. rewrite size_union, size_singleton by set_solver. lia.
  - split.
    + constructor; cbn; try done.
      * set_solver.
      * apply NoDup_singleton.
      * auto.
      * auto.
    + cbn. rewrite size_union, size_singleton, size_empty by set_solver. done.
Qed.

Lemma push_inv vote f r f' :
  forks_push vote f = (r, f') -> vote_typed vote -> forks_inv f -> forks_inv f'.
Proof.
  intros Hpush Ht Hf. destruct (push_cases _ _ _ _ Hpush) as [[-> _]|(-> & Hinv & Hseen & Hby)]; [done|].
  destruct (with_vote_ok f vote Hf Ht Hseen) as [Hok Hcount].
  unfold forks_push in Hpush. rewrite bool_decide_eq_false_2, Hseen in Hpush by done. injection Hpush as <-.
  fold (with_vote f vote). set (k := (vote_height vote, vote_digest vote)) in *.
  constructor; cbn.
  - intros k' e. fold k (with_vote f vote). rewrite lookup_insert_Some. intros [[<- <-]|[_ He]]; [done|by apply Hf].
  - fold k (with_vote f vote). destruct (by_digest f !! k) as [e|] eqn:He; cbn [default id].
    + apply (indexes_update _ _ k e); [apply Hf|done].
    + apply (indexes_insert _ _ k); [|done]. apply (indexes_absent _ _ k); [apply Hf|done].
  - intros k' e a. fold k (with_vote f vote). rewrite lookup_insert_Some. intros [[<- <-]|[_ He]] Ha.
    + cbn. destruct (decide (a = vote_attestor vote)) as [->|Hne]; [by rewrite lookup_insert_eq|].
      rewrite lookup_insert_ne by congruence. unfold with_vote in Ha. fold k in Ha.
      destruct (by_digest f !! k) as [e|] eqn:He; cbn in Ha; [|set_solver].
      apply (fi_seen _ Hf k e); [done|set_solver].
    + rewrite lookup_insert_ne; [by apply (fi_seen _ Hf _ _ _ He)|]. intros [= Hh <-].
      apply (fi_seen _ Hf _ _ _ He) in Ha. rewrite <- Hh in Ha. congruence.
  - intros k' Hk'. fold k (with_vote f vote). rewrite lookup_insert_None. split; [by apply Hf|by intros <-].
Qed.
(** *** Dropping forks *)

(** [f'] keeps some of the forks of [f], with some of their votes. *)
Definition shrinks f f' : Prop :=
  forall k e', by_digest f' !! k = Some e' ->
    exists e, by_digest f !! k = Some e /\ av_signers e' ⊆ av_signers e.

Lemma shrinks_refl f f' : by_digest f' = by_digest f -> shrinks f f'.
Proof. intros Hby k e He. exists e. by rewrite <- Hby. Qed.

Lemma forks_inv_shrinks f f' :
  forks_inv f -> shrinks f f' ->
  (forall k e, by_digest f' !! k = Some e -> fork_ok k e) ->
  indexes (by_digest f') (by_height_size f') ->
  (forall k e a, by_digest f' !! k = Some e -> a ∈ av_signers e -> seen f' !! (k.1, a) = seen f !! (k.1, a)) ->
  (forall k, k ∈ invalid f' -> k ∈ invalid f) -> forks_inv f'.
Proof.
  intros Hf Hshr Hok Hidx Hseen Hinv. constructor; try done.
  - intros k e' a He' Ha. rewrite (Hseen _ _ _ He' Ha). destruct (Hshr _ _ He') as (e & He & Hsub).
    apply (fi_seen _ Hf _ _ _ He). set_solver.
  - intros k Hk%Hinv. destruct (by_digest f' !! k) as [e'|] eqn:He'; [|done].
    destruct (Hshr _ _ He') as (e & He & _). apply (fi_invalid _ Hf) in Hk. congruence.
Qed.

Lemma drop_fork_by h d f : by_digest (drop_fork h d f) = delete (h, d) (by_digest f).
Proof.
  unfold drop_fork. cbn. destruct (by_digest f !! (h, d)) as [e|] eqn:He; cbn; [done|].
  by rewrite delete_id.
Qed.

Lemma drop_fork_shrinks h d f : shrinks f (drop_fork h d f).
Proof. intros k e. rewrite drop_fork_by, lookup_delete_Some. intros [_ He]. eauto. Qed.

Lemma drop_fork_inv h d f : forks_inv f -> forks_inv (drop_fork h d f).
Proof.
  intros Hf. pose proof (drop_fork_by h d f) as Hby.
  apply (forks_inv_shrinks f); [done|apply drop_fork_shrinks|..].
  - intros k e. rewrite Hby, lookup_delete_Some. intros [_ He]. by apply Hf.
  - rewrite Hby. unfold drop_fork. cbn. destruct (by_digest f !! (h, d)) as [e|] eqn:He; cbn.
    + apply (indexes_remove _ _ (h, d)); [apply Hf|done].
    + rewrite delete_id by done. apply Hf.
  - intros k e a _ _. unfold drop_fork. cbn. by case_match.
  - intros k. unfold drop_fork. cbn. by case_match.
Qed.

Lemma invalidate_fork_inv h d f : forks_inv f -> forks_inv (invalidate_fork h d f).
Proof.
  intros Hf%(drop_fork_inv h d). destruct Hf as [H1 H2 H3 H4]. constructor; try done.
  intros k. cbn. rewrite elem_of_union, elem_of_singleton. intros [->|Hk]; [|by apply H4].
  rewrite drop_fork_by. apply lookup_delete_eq.
Qed.

(** *** A new committee *)

(** The votes and signers that [keep] leaves. *)
Definition kept (keep : AttestorId -> bool) e : AttestationVote Sig :=
  e <| av_votes ::= filter (fun v => keep (vote_attestor v) = true) |>
    <| av_signers ::= filter (fun a => keep a = true) |>.

Lemma kept_ok keep k e : fork_ok k e -> av_signers (kept keep e) <> ∅ -> fork_ok k (kept keep e).
Proof.
  intros [H1 H2 H3 H4 H5 H6 H7] Hne.
  assert (forall a, a ∈ av_signers (kept keep e) <-> a ∈ vote_attestor <$> av_votes (kept keep e)) as Hs.
  { intros a. cbn. rewrite elem_of_filter, H3, !list_elem_of_fmap. setoid_rewrite list_elem_of_filter.
    split; [intros (Hk & v & -> & Hv); eauto|]. intros (v & -> & Hk & Hv). eauto. }
  constructor; try done; cbn.
  - clear -H4. induction (av_votes e) as [|v vs IH]; [constructor|]. apply NoDup_cons in H4 as [Hv H4].
    rewrite filter_cons. case_decide; [|by apply IH]. apply NoDup_cons. split; [|by apply IH].
    intros (w & Heq & [_ Hw]%list_elem_of_filter)%list_elem_of_fmap. apply Hv. apply list_elem_of_fmap. eauto.
  - intros Hnil. apply Hne. apply set_eq. intros a. rewrite Hs. cbn. rewrite Hnil. set_solver.
  - apply Forall_forall. intros v [_ Hv]%list_elem_of_filter. by eapply Forall_forall in H6.
  - apply Forall_forall. intros v [_ Hv]%list_elem_of_filter. by eapply Forall_forall in H7.
Qed.

Lemma retain_fork_by keep f k :
  match by_digest f !! k with
  | None => retain_fork keep f k = f
  | Some e => by_digest (retain_fork keep f k) = <[k := kept keep e]> (by_digest f) \/
      (av_signers (kept keep e) = ∅ /\ by_digest (retain_fork keep f k) = delete k (by_digest f))
  end.
Proof.
  unfold retain_fork. destruct (by_digest f !! k) as [e|] eqn:He; [|done].
  fold (kept keep e). destruct (_ =? _); [by left|]. case_bool_decide; [by right|by left].
Qed.

Lemma retain_fork_shrinks keep f k :
  shrinks f (retain_fork keep f k) /\
  forall e', by_digest (retain_fork keep f k) !! k = Some e' -> forall a, a ∈ av_signers e' -> keep a = true.
Proof.
  pose proof (retain_fork_by keep f k) as Hby. destruct (by_digest f !! k) as [e|] eqn:He.
  - destruct Hby as [Hby|[_ Hby]]; unfold shrinks; rewrite Hby; split.
    + intros k' e'. rewrite lookup_insert_Some. intros [[<- <-]|[_ He']]; [|eauto].
      exists e. split; [done|]. cbn. set_solver.
    + intros e'. rewrite lookup_insert_eq. intros [= <-] a. cbn. set_solver.
    + intros k' e'. rewrite lookup_delete_Some. intros [_ He']. eauto.
    + by rewrite lookup_delete_eq.
  - rewrite Hby, He. split; [by apply shrinks_refl|done].
Qed.

Lemma retain_fork_inv keep f k : forks_inv f -> forks_inv (retain_fork keep f k).
Proof.
  intros Hf. apply (forks_inv_shrinks f); [done|apply retain_fork_shrinks|..]; unfold retain_fork;
    (destruct (by_digest f !! k) as [e|] eqn:He; [|first [done|apply Hf]]); fold (kept keep e);
    pose proof (fi_fork _ Hf _ _ He) as Hok;
    destruct (Z.eqb_spec (signer_count (kept keep e)) (signer_count e)) as [Hc|Hc];
    try case_bool_decide as Hemp; cbn [by_digest by_height_size seen invalid upd]; try done.
  - intros k' e'. rewrite lookup_insert_Some. intros [[<- <-]|[_ He']]; [|by apply Hf]. apply kept_ok; [done|].
    intros Hemp. apply (fork_count k) in Hok as Hlen. pose proof (fo_votes _ _ Hok) as Hne.
    unfold signer_count in Hc at 1. rewrite Hemp, size_empty in Hc. destruct (av_votes e); [done|].
    unfold zlen in Hlen. cbn in Hlen, Hc. lia.
  - intros k' e'. rewrite lookup_delete_Some. intros [_ He']. by apply Hf.
  - intros k' e'. rewrite lookup_insert_Some. intros [[<- <-]|[_ He']]; [|by apply Hf]. by apply kept_ok.
  - apply (indexes_same _ _ k e); [apply Hf|done|done].
  - apply indexes_remove; [apply Hf|done].
  - apply (indexes_update _ _ k e); [apply Hf|done].
Qed.

Lemma retain_forks keep keys f :
  forks_inv f -> let f' := foldl (retain_fork keep) f keys in
  forks_inv f' /\ shrinks f f' /\
  (forall k e a, k ∈ keys -> by_digest f' !! k = Some e -> a ∈ av_signers e -> keep a = true) /\
  seen f' = seen f /\ invalid f' = invalid f /\ last_finalized_height f' = last_finalized_height f.
Proof.
  revert f. induction keys as [|k keys IH]; intros f Hf; cbn.
  { split_and!; try done; [by apply shrinks_refl|]. by intros ??? ?%elem_of_nil. }
  destruct (IH _ (retain_fork_inv keep f k Hf)) as (Hf' & Hshr & Hkeep & Hseen & Hinv & Hlf).
  destruct (retain_fork_shrinks keep f k) as [Hshr0 Hkeep0].
  assert (seen (retain_fork keep f k) = seen f /\ invalid (retain_fork keep f k) = invalid f /\
    last_finalized_height (retain_fork keep f k) = last_finalized_height f) as (Hs0 & Hi0 & Hl0).
  { unfold retain_fork. by repeat case_match. }
  split_and!; try done; [| |congruence..].
  - intros k' e' (e1 & He1 & Hs1)%Hshr. apply Hshr0 in He1 as (e & He & Hs). exists e. split; [done|]. by etrans.
  - intros k' e a [->|Hin]%elem_of_cons He Ha; [|by eapply Hkeep].
    destruct (Hshr _ _ He) as (e1 & He1 & Hs1). eapply Hkeep0; [exact He1|]. set_solver.
Qed.

Lemma retain_signers_spec keep f :
  forks_inv f -> let f' := retain_signers keep f in
  forks_inv f' /\ shrinks f f' /\ invalid f' = invalid f /\
  last_finalized_height f' = last_finalized_height f /\
  (forall k e a, by_digest f' !! k = Some e -> a ∈ av_signers e -> keep a = true).
Proof.
  intros Hf f'. unfold retain_signers in f'. set (f0 := f <| deferred := ∅ |>) in f'.
  assert (forks_inv f0) as Hf0 by (by destruct Hf). set (keys := merge_sort _ _) in f'.
  destruct (retain_forks keep keys f0 Hf0) as (Hf1 & Hshr & Hkeep & Hseen & Hinv & Hlf).
  assert (forall k e a, by_digest f' !! k = Some e -> a ∈ av_signers e -> keep a = true) as Hall.
  { intros k e a He Ha. apply (Hkeep k e a); [|done|done]. destruct (Hshr _ _ He) as (e0 & He0 & _). unfold keys.
    rewrite merge_sort_Permutation. apply list_elem_of_fmap. exists (k, e0). split; [done|].
    by apply elem_of_map_to_list. }
  split_and!; try done. eapply forks_inv_shrinks; [exact Hf1|by apply shrinks_refl|apply Hf1..| |done].
  intros k e a He Ha. cbn. apply lookup_filter_kept. intros d _. by eapply Hall.
Qed.

(** *** Heights below a bound *)

Lemma forget_forks (split : Z) l f :
  Forall (fun x => x.1.1 < split) l -> let f' := foldl forget_fork f l in
  by_digest f' = by_digest f /\ invalid f' = invalid f /\ deferred f' = deferred f /\
  last_finalized_height f' = last_finalized_height f /\
  (forall h n d, split <= h -> (h, n, d) ∈ by_height_size f' <-> (h, n, d) ∈ by_height_size f) /\
  (forall h a, split <= h -> seen f' !! (h, a) = seen f !! (h, a)).
Proof.
  revert f. induction l as [|[[h d] v] l IH]; intros f Hall; cbn; [done|].
  apply Forall_cons in Hall as [Hlt Hall]. cbn in Hlt.
  destruct (IH (forget_fork f (h, d, v)) Hall) as (H1 & H2 & H3 & H4 & H5 & H6). cbn in *.
  split_and!; try done.
  - intros h' n' d' Hle. rewrite (H5 _ _ _ Hle). rewrite elem_of_difference, elem_of_singleton.
    split; [by intros [? _]|]. intros Hin. split; [done|]. intros [= -> _ _]. lia.
  - intros h' a Hle. rewrite (H6 _ _ Hle). clear -Hle Hlt. induction (elements (av_signers v)) as [|x xs IHx]; cbn; [done|].
    rewrite lookup_delete_ne; [done|]. intros [= -> _]. lia.
Qed.

Lemma key_le_0 split (k : Z * Z) : 0 <= k.2 -> key_le (split, 0) k <-> split <= k.1.
Proof. unfold key_le. cbn. lia. Qed.

Lemma split_off_spec h f :
  forks_inv f -> let f' := split_off h f in let split := saturating_add 64 h 1 in
  forks_inv f' /\ invalid f' = invalid f /\ last_finalized_height f' = last_finalized_height f /\
  forall k e, by_digest f' !! k = Some e <-> by_digest f !! k = Some e /\ split <= k.1.
Proof.
  intros Hf f' split. unfold split_off in f'. fold split in f'.
  set (to_drop := map_to_list _) in f'. set (f0 := f <| by_digest ::= _ |>) in f'.
  assert (forall k e, by_digest f !! k = Some e -> key_le (split, 0) k <-> split <= k.1) as Hle.
  { intros k e He. apply key_le_0. apply (fi_fork _ Hf) in He. apply fork_typed in He. apply He. }
  assert (Forall (fun x => x.1.1 < split) to_drop) as Hdrop.
  { apply Forall_forall. intros [k e] Hin%elem_of_map_to_list. apply map_lookup_filter_Some in Hin as [He Hk].
    cbn in *. rewrite (Hle _ _ He) in Hk. lia. }
  destruct (forget_forks split to_drop f0 Hdrop) as (H1 & H2 & _ & H4 & H5 & H6).
  assert (forall k e, by_digest f' !! k = Some e <-> by_digest f !! k = Some e /\ split <= k.1) as Hby.
  { intros k e. unfold f'. cbn. rewrite H1. cbn. rewrite map_lookup_filter_Some. cbn.
    split; intros [He Hk]; (split; [done|]); by apply (Hle _ _ He). }
  split_and!; [|by unfold f'; cbn; rewrite H2|by unfold f'; cbn; rewrite H4|done].
  apply (forks_inv_shrinks f); [done| | | | |].
  - intros k e [He _]%Hby. eauto.
  - intros k e [He _]%Hby. by apply Hf.
  - intros h' n d. setoid_rewrite Hby. unfold f'. cbn. rewrite elem_of_filter. cbn. split.
    + intros [Hk Hin]. apply (H5 _ _ _ Hk) in Hin. apply (fi_index _ Hf) in Hin as (e & He & ->). eauto.
    + intros (e & [He Hk] & ->). split; [done|]. apply (H5 _ _ _ Hk). apply (fi_index _ Hf). eauto.
  - intros k e a [He Hk]%Hby Ha. unfold f'. cbn. etransitivity; [|exact (H6 _ a Hk)]. apply lookup_filter_kept.
    intros d _. cbn. apply key_le_0; [|done]. cbn. apply (fi_fork _ Hf) in He. by eapply signer_typed in Ha as [? _].
  - intros k. unfold f'. cbn. by rewrite H2.
Qed.
End ForksInv.

(** ** The invariant of the pool *)

Section PoolInv.
Context {Sig : Type}.
Implicit Types (p : Pool Sig).

(** Above a bound, but for the last height there is. *)
Definition above (bound : option Height) (h : Height) : Prop :=
  match bound with Some b => b < h \/ h = umax 64 | None => True end.

Lemma above_max a b h : above (option_max a b) h <-> above a h /\ above b h.
Proof. destruct a, b; cbn; lia. Qed.

Record pool_inv p : Prop := {
  po_forks : forks_inv (forks p);
  po_active k e a : by_digest (forks p) !! k = Some e -> a ∈ av_signers e -> a ∈ validate_attestor p;
  po_above k e : by_digest (forks p) !! k = Some e -> above (lower_bound p) k.1;
}.

(** Calls that add no fork keep the invariant. *)
Lemma pool_inv_shrinks p p' :
  pool_inv p -> forks_inv (forks p') -> shrinks (forks p) (forks p') ->
  (forall k e a, by_digest (forks p') !! k = Some e -> a ∈ av_signers e ->
     a ∈ validate_attestor p -> a ∈ validate_attestor p') ->
  (forall k e, by_digest (forks p') !! k = Some e -> above (lower_bound p) k.1 -> above (lower_bound p') k.1) ->
  pool_inv p'.
Proof.
  intros Hp Hf Hshr Hact Habove. constructor; [done|..].
  - intros k e a He Ha. destruct (Hshr _ _ He) as (e0 & He0 & Hsub). apply (Hact _ _ _ He Ha).
    apply (po_active _ Hp _ _ _ He0). set_solver.
  - intros k e He. destruct (Hshr _ _ He) as (e0 & He0 & _). apply (Habove _ _ He). by apply (po_above _ Hp _ _ He0).
Qed.

Lemma forks_inv_same (f f' : Forks Sig) :
  by_digest f' = by_digest f -> by_height_size f' = by_height_size f -> seen f' = seen f ->
  invalid f' = invalid f -> forks_inv f -> forks_inv f'.
Proof. intros H1 H2 H3 H4 [G1 G2 G3 G4]. constructor; rewrite ?H1, ?H2, ?H3, ?H4; done. Qed.

Lemma forks_clear_inv (f : Forks Sig) : forks_inv (forks_clear f).
Proof. by constructor; [|intros h n d; cbn; set_solver|..]. Qed.

Lemma note_finalized_inv h d (f : Forks Sig) : forks_inv f -> forks_inv (note_finalized h d f).
Proof.
  intros Hf. destruct (split_off_spec h f Hf) as ([G1 G2 G3 G4] & Hinv & _ & _).
  constructor; try done. intros k. cbn. rewrite elem_of_filter. intros [_ Hk]. by apply G4.
Qed.

(** Cutting the forks at a height raises the bound to it. *)
Lemma split_above h (f : Forks Sig) k e :
  forks_inv f -> in_range 64 h -> by_digest (split_off h f) !! k = Some e -> above (Some h) k.1.
Proof.
  intros Hf Hh He. destruct (split_off_spec h f Hf) as (_ & _ & _ & Hby). apply Hby in He as [He Hle].
  apply (fi_fork _ Hf), fork_typed in He as [[_ Hk] _]. cbn. words. lia.
Qed.

Lemma admissible_above vq h bound : height_admissible vq h bound = true -> above bound h.
Proof. unfold height_admissible. destruct bound as [b|]; cbn; [|done]. rewrite !andb_true_iff. lia. Qed.

Lemma pool_push_inv now vote p r p' :
  pool_push now vote p = (r, p') -> vote_typed vote -> pool_inv p -> pool_inv p'.
Proof.
  intros Hpush Ht Hp. unfold pool_push in Hpush. case_bool_decide as Hact; cbn [negb] in Hpush.
  2: { injection Hpush as _ <-. by destruct Hp. }
  destruct (height_admissible _ _ _) eqn:Hadm; cbn [negb] in Hpush; [|by injection Hpush as _ <-].
  destruct (forks_push vote (forks p)) as [r0 f'] eqn:Hf.
  assert (pool_inv (p <| forks := f' |>)) as Hp'.
  { pose proof (push_inv _ _ _ _ Hf Ht (po_forks _ Hp)) as Hinv.
    destruct (push_cases _ _ _ _ Hf) as [[-> _]|(_ & _ & _ & Hby)]; [by destruct Hp|].
    assert (last_finalized_height f' = last_finalized_height (forks p)) as Hlf.
    { unfold forks_push in Hf. by repeat case_match; simplify_eq. }
    constructor; cbn [forks upd validate_attestor]; rewrite ?Hby; [done|..].
    - intros k e a. rewrite lookup_insert_Some. intros [[<- <-]|[_ He]] Ha; [|by apply (po_active _ Hp _ _ _ He)].
      unfold with_vote in Ha. destruct (by_digest (forks p) !! _) as [e0|] eqn:He0; cbn in Ha; [|set_solver].
      apply elem_of_union in Ha as [->%elem_of_singleton|Ha]; [done|]. by apply (po_active _ Hp _ _ _ He0).
    - intros k e. unfold lower_bound. cbn [forks locally_validated_height]. rewrite Hlf, lookup_insert_Some.
      intros [[<- <-]|[_ He]]; [by eapply admissible_above|by apply (po_above _ Hp _ _ He)]. }
  destruct r0 as [|[]]; injection Hpush as _ <-; by destruct Hp'.
Qed.

Lemma pool_reset_inv p p' : forks p' = forks_clear (forks p) \/
    by_digest (forks p') = ∅ /\ forks_inv (forks p') -> pool_inv p'.
Proof.
  intros Hc. assert (by_digest (forks p') = ∅) as Hby by (by destruct Hc as [->|[? _]]).
  constructor; [|by rewrite Hby..]. destruct Hc as [->|[_ ?]]; [apply forks_clear_inv|done].
Qed.

Lemma sender_op_inv op p p' b :
  sender_op op p = (p', b) -> op_typed op -> pool_inv p -> pool_inv p'.
Proof.
  intros Hop Ht Hp. destruct op as [now v|h d|i|l|n|n|h|h d]; cbn [sender_op] in Hop.
  - destruct (pool_push now v p) as [r p1] eqn:Hpush. injection Hop as <- _. by eapply pool_push_inv.
  - injection Hop as <- _. pose proof (po_forks _ Hp) as Hf. destruct (split_off_spec h _ Hf) as (_ & _ & _ & Hby).
    apply (pool_inv_shrinks p); cbn [forks validate_attestor upd]; try done.
    + by apply note_finalized_inv.
    + intros k e He. apply Hby in He as [He _]. eauto.
    + intros k e He. unfold lower_bound. rewrite !above_max. cbn. intros [_ Hl]. split; [|done].
      by apply (split_above h _ k e) in He.
  - injection Hop as <- _. apply (pool_reset_inv p). by left.
  - injection Hop as <- _. pose proof (po_forks _ Hp) as Hf.
    destruct (retain_signers_spec (fun a => bool_decide (a ∈ l)) _ Hf) as (Hf' & Hshr & _ & Hlf & Hkeep).
    apply (pool_inv_shrinks p); cbn [forks validate_attestor upd next_generation]; try done.
    + intros k e a He Ha _. apply elem_of_list_to_set. by eapply bool_decide_eq_true, Hkeep.
    + intros k e _. unfold lower_bound. cbn [forks locally_validated_height upd next_generation]. by rewrite Hlf.
  - injection Hop as <- _. by destruct Hp.
  - destruct (n =? 0); injection Hop as <- _; [done|]. apply (pool_inv_shrinks p); cbn; try done.
    + by eapply forks_inv_same, Hp.
    + by apply shrinks_refl.
  - case_bool_decide; injection Hop as <- _; [|done]. apply (pool_inv_shrinks p); try done; [apply Hp|by apply shrinks_refl|].
    intros k e _. unfold lower_bound. rewrite !above_max. by intros [? _].
  - injection Hop as <- _. apply (pool_reset_inv p). right. split; [done|].
    apply (forks_clear_inv (mkForks ∅ ∅ ∅ ∅ ∅ (Some h) (Some d))).
Qed.

Lemma mark_valid_inv t p : in_range 64 (p_height t) -> pool_inv p -> pool_inv (mark_valid t p).
Proof.
  intros Ht Hp. pose proof (po_forks _ Hp) as Hf.
  destruct (split_off_spec (p_height t) _ Hf) as (Hf' & _ & Hlf & Hby).
  apply (pool_inv_shrinks p); cbn [forks validate_attestor upd mark_valid]; try done.
  - intros k e He. apply Hby in He as [He _]. eauto.
  - intros k e He. unfold lower_bound, mark_valid. rewrite !above_max. cbn [forks locally_validated_height upd].
    rewrite Hlf. intros [Hfin Hlock]. split; [done|]. apply (split_above _ _ _ _ Hf Ht) in He.
    destruct (locally_validated_height p); cbn in *; lia.
Qed.

Lemma receiver_op_inv op p : recv_typed op -> pool_inv p -> pool_inv (receiver_op op p).
Proof.
  intros Ht Hp. pose proof (po_forks _ Hp) as Hf. destruct op as [t|t|t|t|t q|]; cbn [receiver_op].
  - by apply mark_valid_inv.
  - apply (pool_inv_shrinks p); cbn; try done; [by apply invalidate_fork_inv|..].
    + apply drop_fork_shrinks.
    + intros k e _. unfold lower_bound, mark_invalid, invalidate_fork, drop_fork. cbn. by case_match.
  - apply (pool_inv_shrinks p); cbn; try done; [by apply drop_fork_inv|apply drop_fork_shrinks|].
    intros k e _. unfold lower_bound, mark_skipped, drop_fork. cbn. by case_match.
  - unfold defer. destruct (_ && _); [|done].
    apply (pool_inv_shrinks p); cbn; try done; [by eapply forks_inv_same, Hf|by apply shrinks_refl].
  - apply mark_valid_inv; [done|]. by destruct Hp.
  - unfold take_next_validated. case_match; by destruct Hp.
Qed.

Lemma peek_forks now p r p' : peek now p = (r, p') ->
  forks p' = forks p /\ validate_attestor p' = validate_attestor p /\ lower_bound p' = lower_bound p /\
  validate_quorum p' = validate_quorum p /\ locally_validated_height p' = locally_validated_height p.
Proof.
  unfold peek. destruct (best _ _) as [e|]; [|by intros [= _ <-]].
  destruct (delays p !! av_height e); by intros [= _ <-].
Qed.

Lemma peek_inv now p r p' : peek now p = (r, p') -> pool_inv p -> pool_inv p'.
Proof.
  intros (Hf & Ha & Hl & _)%peek_forks [H1 H2 H3]. constructor; rewrite ?Hf, ?Ha, ?Hl; done.
Qed.
End PoolInv.

(** ** Every reachable pool *)

Section Reached.
Context {Sig N : Type} `{!Notify N}.
Implicit Types (s : Shared Sig N) (p : Pool Sig).

Definition state_inv (st : PoolState Sig) : Prop :=
  match st with Open p => pool_inv p | Closed => True end.

Lemma pool_step_inv call s s' : pool_step call s s' -> state_inv (sh_pool s) -> state_inv (sh_pool s').
Proof.
  intros Hstep Hs. destruct Hstep as [op s st b _ Ht Hop| | | | |op s _ Ht| |now s _| | |]; cbn; try done.
  - destruct (sh_pool s) as [p|]; cbn in Hop; [|by injection Hop as <- _].
    destruct (sender_op op p) as [p' b'] eqn:Hp. injection Hop as <- _. by eapply sender_op_inv.
  - destruct (sh_pool s); cbn; [by apply receiver_op_inv|done].
  - unfold recv_peek. destruct (sh_pool s) as [p|] eqn:Hp; [|cbn; by rewrite Hp].
    destruct (peek now p) as [item p'] eqn:Hpeek. destruct item; cbn; by eapply peek_inv.
Qed.

Lemma pool_reached_inv config s : pool_reached config s -> state_inv (sh_pool s).
Proof.
  intros Hr. apply (rtc_ind_r (fun s => state_inv (sh_pool s)) (attestation_pool config)) in Hr; [done| |].
  - cbn. constructor; [|done..]. apply (forks_clear_inv (forks_new _ _)).
  - intros x y _ [call Hstep]. by eapply pool_step_inv.
Qed.

(** *** What is handed out *)

(** A quorum of distinct active attestors, each for the height and the digest. *)
Definition backed p (q : Quorum Sig) : Prop :=
  NoDup (vote_attestor <$> q_votes q) /\
  (forall v, v ∈ q_votes q -> vote_attestor v ∈ validate_attestor p /\
     vote_height v = q_height q /\ vote_digest v = q_digest q) /\
  vq_target (validate_quorum p) <= zlen (q_votes q).

Lemma peek_some now p q t p' :
  peek now p = (Some (q, t), p') -> pool_inv p ->
  let key := (q_height q, q_digest q) in
  exists e, by_digest (forks p) !! key = Some e /\ q_votes q = av_votes e /\
  (p_height t, p_digest t) = key /\ dominant (vq_target (validate_quorum p)) (forks p) key /\
  forall k, dominant (vq_target (validate_quorum p)) (forks p) k -> k.1 <= q_height q.
Proof.
  intros Hpeek Hp. pose proof (best_fork_spec (vq_target (validate_quorum p)) _ (po_forks _ Hp)) as Hbest.
  unfold peek in Hpeek. destruct (best _ _) as [e|]; [|done].
  destruct Hbest as (He & Hdom & Hmax). injection Hpeek as <- <- _. by exists e.
Qed.

(** Two forks of one height have no signer in common. *)
Lemma forks_disjoint (f : Forks Sig) h d d' e e' :
  forks_inv f -> by_digest f !! (h, d) = Some e -> by_digest f !! (h, d') = Some e' -> d <> d' ->
  av_signers e ## av_signers e'.
Proof.
  intros Hf He He' Hne a Ha Ha'. apply (fi_seen _ Hf _ _ _ He) in Ha. apply (fi_seen _ Hf _ _ _ He') in Ha'.
  cbn in *. congruence.
Qed.

(** Under a target of more than half of the active attestors, no two forks of a
    height reach it. *)
Lemma one_qualified p h d d' e e' :
  pool_inv p -> by_digest (forks p) !! (h, d) = Some e -> by_digest (forks p) !! (h, d') = Some e' ->
  d <> d' -> Z.of_nat (size (validate_attestor p)) < 2 * vq_target (validate_quorum p) ->
  vq_target (validate_quorum p) <= signer_count e -> signer_count e' < vq_target (validate_quorum p).
Proof.
  intros Hp He He' Hne Hmaj Hq. pose proof (forks_disjoint _ _ _ _ _ _ (po_forks _ Hp) He He' Hne) as Hdisj.
  pose proof (size_union _ _ Hdisj) as Hsize.
  assert (size (av_signers e ∪ av_signers e') <= size (validate_attestor p))%nat as Hle.
  { apply subseteq_size. intros a [Ha|Ha]%elem_of_union;
      [by apply (po_active _ Hp _ _ _ He)|by apply (po_active _ Hp _ _ _ He')]. }
  unfold signer_count in *. lia.
Qed.

Lemma qualified_dominant p h d e :
  pool_inv p -> by_digest (forks p) !! (h, d) = Some e -> (h, d) ∉ deferred (forks p) ->
  Z.of_nat (size (validate_attestor p)) < 2 * vq_target (validate_quorum p) ->
  vq_target (validate_quorum p) <= signer_count e ->
  dominant (vq_target (validate_quorum p)) (forks p) (h, d).
Proof.
  intros Hp He Hd Hmaj Hq. exists e. split_and!; try done. intros d' e' He' _ Hne.
  enough (signer_count e' < vq_target (validate_quorum p)) by lia.
  by eapply (one_qualified p h d d').
Qed.

(** C29: what the pool hands out. In every reachable state of the threads, a quorum
    is backed by enough distinct active attestors, each voting for its height and
    digest; it is above the finalized and the locally validated heights, or at the
    last height of the [u64] range; it was not rejected; it has more voters than
    every other fork of its height that has not been set aside (deferred), and while
    the target is more than half of the active attestors every other fork of its
    height, set aside or not, is short of the target; and no fork of a greater height
    qualifies. Nothing is handed out only when no fork dominates its height; while
    the target is more than half of the active attestors, that is when no fork that
    is not set aside has reached it. *)
Theorem pool_hands_out_dominant_quorums config s p now :
  pool_reached config s -> sh_pool s = Open p ->
  let target := vq_target (validate_quorum p) in
  let qualified := fun k => (k ∉ deferred (forks p)) /\
    exists e, by_digest (forks p) !! k = Some e /\ target <= signer_count e in
  match (peek now p).1 with
  | Some (q, t) =>
      let key := (q_height q, q_digest q) in
      (p_height t, p_digest t) = key /\ backed p q /\ above (lower_bound p) (q_height q) /\
      (key ∉ invalid (forks p)) /\ dominant target (forks p) key /\
      (forall k, dominant target (forks p) k -> k.1 <= q_height q) /\
      (Z.of_nat (size (validate_attestor p)) < 2 * target -> forall d e,
         by_digest (forks p) !! (q_height q, d) = Some e -> d <> q_digest q -> signer_count e < target)
  | None => (forall k, ~ dominant target (forks p) k) /\
      (Z.of_nat (size (validate_attestor p)) < 2 * target -> forall k, ~ qualified k)
  end.
Proof.
  intros Hr%pool_reached_inv Hs target qualified. rewrite Hs in Hr. cbn in Hr. pose proof (po_forks _ Hr) as Hf.
  destruct (peek now p) as [[[q t]|] p'] eqn:Hpeek; cbn [fst].
  - destruct (peek_some _ _ _ _ _ Hpeek Hr) as (e & He & Hv & Ht & Hdom & Hmax).
    pose proof (fi_fork _ Hf _ _ He) as Hok. split_and!; try done.
    + unfold backed. rewrite Hv. split_and!; [apply Hok| |].
      * intros v Hin. split; [|by pose proof (fo_for _ _ Hok) as Hall; eapply Forall_forall in Hall].
        apply (po_active _ Hr _ _ _ He). apply Hok. apply list_elem_of_fmap. eauto.
      * rewrite <- (fork_count _ _ Hok). destruct Hdom as (e' & He' & _ & Hq & _). congruence.
    + by apply (po_above _ Hr _ _ He).
    + intros Hin%(fi_invalid _ Hf). congruence.
    + intros Hmaj d e' He' Hne. destruct Hdom as (e0 & He0 & _ & Hq & _).
      by eapply (one_qualified p (q_height q) (q_digest q) d).
  - pose proof (best_fork_spec target _ Hf) as Hbest. unfold peek in Hpeek. fold target in Hpeek.
    destruct (best target (forks p)); [done|]. split; [done|]. intros Hmaj [h d] (Hd & e & He & Hq).
    by eapply Hbest, qualified_dominant.
Qed.

(** *** Waking the receiver *)

(** [recv] has something to return. *)
Definition ready (st : PoolState Sig) : Prop :=
  match st with
  | Open p => is_Some (best (vq_target (validate_quorum p)) (forks p))
  | Closed => True
  end.

Lemma best_none target (f : Forks Sig) : by_height_size f = ∅ -> best target f = None.
Proof. intros He. unfold best, descending. by rewrite He, elements_empty. Qed.

(** A call after which the sender does not notify makes nothing ready. *)
Lemma quiet_call op p p' : sender_op op p = (p', false) -> ready (Open p') -> ready (Open p).
Proof.
  intros Hop. destruct op as [now v|h d|i|l|n|n|h|h d]; cbn [sender_op] in Hop; try done.
  - destruct (pool_push now v p) as [r p1] eqn:Hpush. injection Hop as <- Hr. unfold pool_push in Hpush.
    destruct (negb _); [by injection Hpush as _ <-|]. destruct (negb _); [by injection Hpush as _ <-|].
    destruct (forks_push v (forks p)) as [r0 f'] eqn:Hf.
    destruct r0 as [|e]; [injection Hpush as <- _; done|].
    destruct (push_cases _ _ _ _ Hf) as [[-> _]|[? _]]; [|done]. destruct e; by injection Hpush as _ <-.
  - injection Hop as <-. cbn. by rewrite best_none by done.
  - destruct (n =? 0); [by injection Hop as <-|done].
  - case_bool_decide; [done|by injection Hop as <-].
  - injection Hop as <-. cbn. by rewrite best_none by done.
Qed.

Record wake_inv s : Prop := {
  wi_subscribed : sh_recv s = Enabled \/ sh_recv s = Parked -> subscribed (sh_notify s) = true;
  wi_parked : sh_recv s = Parked ->
    woken (sh_notify s) = true \/ (0 < sh_owed s)%nat \/ ~ ready (sh_pool s);
}.

Lemma peek_none now p p' : peek now p = (None, p') -> p' = p /\ ~ ready (Open p).
Proof.
  unfold peek, ready. destruct (best _ _) as [e|]; [done|]. intros [= <-]. split; [done|]. by intros [? ?].
Qed.

Lemma wake_step `{!NotifyLaws N} call s s' : pool_step call s s' -> wake_inv s -> wake_inv s'.
Proof.
  intros Hstep [Hsub Hpark].
  destruct Hstep as [op s st b _ _ Hop| | | |n s Ho|op s Hb _|s Hb|now s Hen| | |]; try (by constructor); cbn in *.
  - constructor; cbn; [done|]. intros Hp. destruct b; [right; left; cbn; lia|]. cbn.
    destruct (Hpark Hp) as [|[|Hno]]; [by left|by right; left|right; right]. intros Hrd. apply Hno.
    destruct (sh_pool s) as [p|]; cbn in Hop; [|done]. destruct (sender_op op p) as [p' b'] eqn:Hsend.
    injection Hop as <- ->. by eapply quiet_call.
  - constructor; cbn; [done|]. intros Hp. right. left. lia.
  - constructor; cbn; [intros Hp; by apply notify_one_subscribed, Hsub|]. intros Hp. left.
    apply notify_one_wakes, Hsub. by right.
  - constructor; cbn; rewrite Hb; [by intros []|done].
  - constructor; cbn; [|done]. intros _. apply subscribe_subscribed.
  - unfold recv_peek. destruct (sh_pool s) as [p|] eqn:Hpool; [|constructor; cbn; [by intros []|done]].
    destruct (peek now p) as [[item|] p'] eqn:Hpeek; constructor; cbn; try (by intros []); try done.
    + intros _. apply Hsub. by left.
    + intros _. right. right. by apply peek_none in Hpeek as [-> ?].
  - constructor; cbn; [by intros []|done].
  - constructor; cbn; [by intros []|done].
  - constructor; cbn; [by intros []|done].
Qed.

(** C30: no lost wakeup. However the senders' calls, their late notifications, the
    receiver's steps and the closing of the pool interleave: a receiver that is
    parked while a quorum is ready or the pool is closed has been woken, or some
    sender still owes the notification that will wake it; and a receiver that looks
    then returns. *)
Theorem no_lost_wakeup `{!NotifyLaws N} config s now :
  pool_reached config s -> ready (sh_pool s) ->
  (sh_recv s = Parked -> woken (sh_notify s) = true \/
     ((0 < sh_owed s)%nat /\ woken (notify_one (sh_notify s)) = true)) /\
  (sh_recv s = Enabled -> exists item, sh_recv (recv_peek now s) = Returned item).
Proof.
  intros Hr Hrd. assert (wake_inv s) as [Hsub Hpark].
  { clear Hrd. apply (rtc_ind_r wake_inv (attestation_pool config)) in Hr; [done| |].
    - by constructor; cbn; [intros []|].
    - intros x y _ [call Hstep]. by eapply wake_step. }
  split; intros Hrecv.
  - destruct (Hpark Hrecv) as [|[Ho|]]; [by left|right|done]. split; [done|]. apply notify_one_wakes, Hsub. by right.
  - unfold recv_peek. destruct (sh_pool s) as [p|]; [|by eexists].
    destruct (peek now p) as [[item|] p'] eqn:Hpeek; [by eexists|]. by apply peek_none in Hpeek as [_ ?].
Qed.

(** *** The consumer's decisions *)

(** A height for which a digest was chosen, or a digest that was rejected. *)
Inductive Decision := Chose (h : Height) | Rejected (h : Height) (d : Digest).

Definition reaches (bound : option Height) (h : Height) : Prop := exists b, bound = Some b /\ h <= b.

Definition stands (dec : Decision) p : Prop :=
  match dec with
  | Chose h => reaches (locally_validated_height p) h
  | Rejected h d => 0 <= d /\ ((h, d) ∈ invalid (forks p) \/ reaches (last_finalized_height (forks p)) h)
  end.

(** The calls that do not reopen a decision: the pool is not reset, no submission at
    or above a chosen height is reported as failed, and once finalization has
    reached the height of a rejected digest no lower height is noted as final. *)
Definition forward (dec : Decision) (op : SenderOp Sig) p : Prop :=
  match op, dec with
  | NoteAttestationIntervalChange _, _ | NoteAttestationChainReversion _ _, _ => False
  | NoteAttestationFinalization hf _, Rejected h _ => reaches (last_finalized_height (forks p)) h -> h <= hf
  | NoteMajorityNotReached x, Chose h => x < h
  | _, _ => True
  end.

Definition stands_in (dec : Decision) (st : PoolState Sig) : Prop :=
  match st with Open p => stands dec p | Closed => True end.

Definition forward_step (dec : Decision) s s' : Prop := exists call, pool_step call s s' /\
  match call, sh_pool s with Some op, Open p => forward dec op p | _, _ => True end.

(** A pool with at least the tombstones and bounds of another. *)
Lemma stands_mono dec p p' :
  (forall k, k ∈ invalid (forks p) -> k ∈ invalid (forks p')) ->
  last_finalized_height (forks p') = last_finalized_height (forks p) ->
  (forall h, reaches (locally_validated_height p) h -> reaches (locally_validated_height p') h) ->
  stands dec p -> stands dec p'.
Proof.
  intros Hinv Hlf Hlock. destruct dec as [h|h d]; cbn; [apply Hlock|rewrite Hlf]. intros [? [?|?]]; auto.
Qed.

Lemma push_view vote (f : Forks Sig) r f' :
  forks_push vote f = (r, f') -> invalid f' = invalid f /\ last_finalized_height f' = last_finalized_height f.
Proof. unfold forks_push. repeat case_match; by intros [= _ <-]. Qed.

Lemma sender_stands dec op p p' b :
  sender_op op p = (p', b) -> op_typed op -> forward dec op p -> pool_inv p -> stands dec p -> stands dec p'.
Proof.
  intros Hop Ht Hfw Hp. pose proof (po_forks _ Hp) as Hf. destruct op as [now v|hf df|i|l|n|n|x|hf df]; cbn [sender_op] in Hop.
  - destruct (pool_push now v p) as [r p1] eqn:Hpush. injection Hop as <- _. unfold pool_push in Hpush.
    destruct (negb _); [by injection Hpush as _ <-|]. destruct (negb _); [by injection Hpush as _ <-|].
    destruct (forks_push v (forks p)) as [r0 f'] eqn:Hfp. apply push_view in Hfp as [Hi Hl].
    assert (stands dec p -> stands dec (p <| forks := f' |>)) as Hst.
    { apply stands_mono; cbn; [by rewrite Hi|done|done]. }
    destruct r0 as [|[]]; by injection Hpush as _ <-.
  - injection Hop as <- _. destruct (split_off_spec hf _ Hf) as (_ & Hinv & _). cbn in Hfw.
    destruct dec as [h|h d]; unfold stands; [done|].
    intros [Hd [Hin|Hrch]]; (split; [done|]); [|right; exists hf; auto].
    destruct (Z.le_gt_cases h hf) as [|Hlt]; [right; by exists hf|left].
    apply elem_of_filter. rewrite Hinv. split; [|done]. unfold key_le. cbn in Ht |- *. words. lia.
  - done.
  - injection Hop as <- _. destruct (retain_signers_spec (fun a => bool_decide (a ∈ l)) _ Hf) as (_ & _ & Hi & Hl & _).
    apply stands_mono; [intros k Hk; rewrite <- Hi in Hk; exact Hk|exact Hl|done].
  - injection Hop as <- _. by apply stands_mono.
  - destruct (n =? 0); injection Hop as <- _; by apply stands_mono.
  - case_bool_decide as Hlock; injection Hop as <- _; [|done]. destruct dec as [h|h d]; [|done].
    unfold stands. rewrite Hlock. unfold reaches. cbn in Hfw |- *. naive_solver lia.
  - done.
Qed.

Lemma receiver_stands dec op p : pool_inv p -> stands dec p -> stands dec (receiver_op op p).
Proof.
  intros Hp. pose proof (po_forks _ Hp) as Hf.
  assert (forall t p, forks_inv (forks p) -> stands dec p -> stands dec (mark_valid t p)) as Hmark.
  { intros t p0 Hf0. destruct (split_off_spec (p_height t) _ Hf0) as (_ & Hi & Hl & _).
    apply stands_mono; [intros k Hk; rewrite <- Hi in Hk; exact Hk|exact Hl|].
    intros h (b & Hb & Hle). unfold reaches, mark_valid. cbn. rewrite Hb. eexists. split; [done|lia]. }
  destruct op as [t|t|t|t|t q|]; cbn [receiver_op].
  - by apply Hmark.
  - apply stands_mono; cbn; unfold drop_fork; cbn; [intros k|..]; try case_match; cbn; first [done|set_solver].
  - apply stands_mono; cbn; unfold drop_fork; cbn; [intros k|..]; by try case_match.
  - unfold defer. case_match; [|done]. by apply stands_mono.
  - intros Hs. by apply Hmark; [|destruct dec].
  - unfold take_next_validated. case_match; by destruct dec.
Qed.

Lemma step_stands dec s s' :
  forward_step dec s s' -> state_inv (sh_pool s) -> stands_in dec (sh_pool s) -> stands_in dec (sh_pool s').
Proof.
  intros (call & Hstep & Hfw) Hinv Hs.
  destruct Hstep as [op s st b _ Ht Hop| | | | |op s _ Ht| |now s _| | |]; cbn in *; try done.
  - destruct (sh_pool s) as [p|]; cbn in Hop; [|by injection Hop as <- _].
    destruct (sender_op op p) as [p' b'] eqn:Hp. injection Hop as <- _. by eapply sender_stands.
  - destruct (sh_pool s); cbn; [by apply receiver_stands|done].
  - unfold recv_peek. destruct (sh_pool s) as [p|] eqn:Hp; [|cbn; by rewrite Hp].
    destruct (peek now p) as [item p'] eqn:Hpeek.
    assert (stands dec p') as Hs'.
    { destruct (peek_forks _ _ _ _ Hpeek) as (Hf & _ & _ & _ & Hl). revert Hs. cbn.
      apply stands_mono; rewrite ?Hf, ?Hl; done. }
    by destruct item.
Qed.

(** The calls by which the consumer decides. *)
Definition decides (op : ReceiverOp Sig) (dec : Decision) : Prop :=
  match op, dec with
  | MarkValid t, Chose h | MarkForLater t _, Chose h => h = p_height t
  | MarkInvalid t, Rejected h d => h = p_height t /\ d = p_digest t /\ 0 <= d
  | _, _ => False
  end.

Lemma decides_stands op dec p : decides op dec -> stands dec (receiver_op op p).
Proof.
  assert (forall t q, stands (Chose (p_height t)) (mark_valid t q)) as Hmark.
  { intros t q. unfold stands, reaches, mark_valid. cbn. eexists. split; [done|].
    destruct (locally_validated_height q); lia. }
  destruct op, dec; cbn [decides]; try done.
  - intros ->. apply Hmark.
  - intros (-> & -> & Hd). split; [done|]. left. cbn. set_solver.
  - intros ->. apply Hmark.
Qed.

(** C32: decisions stick. Once the consumer has chosen a digest for a height, no
    quorum at or below that height is handed out, except one at the last height of
    the [u64] range; once it has rejected a digest, that digest is not handed out at
    its height again, unless that height is the last one. Both hold through every
    interleaving until the pool is reset by an interval change or a reversion; for a
    chosen height also until a submission at that height or above is reported to have
    failed; and for a rejected digest as long as, once finalization has reached its
    height, no lower height is noted as finalized. *)
Theorem decisions_stick config op dec s s' p p' now q t :
  pool_reached config s -> sh_pool s = Open p -> recv_typed op -> decides op dec ->
  rtc (forward_step dec) (s <| sh_pool := Open (receiver_op op p) |>) s' ->
  sh_pool s' = Open p' -> (peek now p').1 = Some (q, t) ->
  match dec with
  | Chose h => h < q_height q \/ q_height q = umax 64
  | Rejected h d => (q_height q, q_digest q) <> (h, d) \/ h = umax 64
  end.
Proof.
  intros Hr%pool_reached_inv Hs Ht Hdec Hrun Hs' Hpeek. rewrite Hs in Hr.
  assert (state_inv (sh_pool s') /\ stands_in dec (sh_pool s')) as [Hinv' Hst'].
  { clear Hs' Hpeek. remember (s <| sh_pool := _ |>) as s1 eqn:Hs1.
    assert (state_inv (sh_pool s1)) as H1 by (subst s1; by apply receiver_op_inv).
    assert (stands_in dec (sh_pool s1)) as H2 by (subst s1; by apply decides_stands).
    clear Hs1. induction Hrun as [s1|s1 s2 s' Hst Hrun IH]; [done|].
    apply IH; [|by eapply step_stands]. destruct Hst as (call & Hst & _). by eapply pool_step_inv. }
  rewrite Hs' in Hinv', Hst'. cbn in Hinv', Hst'. destruct (peek now p') as [r p1] eqn:Hp. cbn in Hpeek. subst r.
  destruct (peek_some _ _ _ _ _ Hp Hinv') as (e & He & _). pose proof (po_above _ Hinv' _ _ He) as Habove.
  destruct dec as [h|h d]; cbn in Hst'.
  - destruct Hst' as (b & Hb & Hle). unfold lower_bound in Habove. apply above_max in Habove as [_ Habove].
    rewrite Hb in Habove. cbn in Habove. lia.
  - destruct (decide ((q_height q, q_digest q) = (h, d))) as [Heq|]; [right|by left]. rewrite Heq in He, Habove.
    destruct Hst' as [_ [Hin|(b & Hb & Hle)]].
    + apply (fi_invalid _ (po_forks _ Hinv')) in Hin. congruence.
    + unfold lower_bound in Habove. apply above_max in Habove as [Habove _]. rewrite Hb in Habove. cbn in Habove. lia.
Qed.
End Reached.

(** ** A concrete run *)

(** A [Notify] with one waiter: a stored permit, the subscription, its wake. *)
Record ToyNotify := mkToyNotify { tn_permit : bool; tn_subscribed : bool; tn_woken : bool }.

#[export] Instance toy_notify : Notify ToyNotify := {|
  notify_new := mkToyNotify false false false;
  notify_one := fun n => if tn_subscribed n then mkToyNotify (tn_permit n) true true else mkToyNotify true false false;
  subscribe := fun n => mkToyNotify false true (tn_permit n);
  unsubscribe := fun n => mkToyNotify (tn_permit n) false false;
  subscribed := tn_subscribed;
  woken := tn_woken;
|}.

#[export] Instance toy_notify_laws : NotifyLaws ToyNotify.
Proof. constructor; intros [p s w]; cbn; [done|by intros ->..]. Qed.

(** Three attestors, whose quorum is all of them. *)
Definition pool_config1 : PoolConfig := mkPoolConfig [10; 20; 30] (calculate_quorum 3) 10 100 50 None None.

Definition vote1 (who h d : Z) : Vote Z := mkVote 1 h d who 0.

Definition after_call (op : SenderOp Z) (s : Shared Z ToyNotify) : Shared Z ToyNotify :=
  let '(st, b) := on_open (sender_op op) false (sh_pool s) in
  s <| sh_pool := st |> <| sh_owed ::= Nat.add (if b then 1%nat else 0%nat) |>.

Definition pool_at (s : Shared Z ToyNotify) : Pool Z :=
  match sh_pool s with Open p => p | Closed => pool_new pool_config1 end.

(** The receiver parks on the empty pool, then the three votes arrive. *)
Definition parked1 : Shared Z ToyNotify :=
  recv_peek 0 (attestation_pool pool_config1 <| sh_recv := Enabled |> <| sh_notify ::= subscribe |>).
Definition voted1 : Shared Z ToyNotify :=
  after_call (Send 3 (vote1 30 110 7)) (after_call (Send 2 (vote1 20 110 7)) (after_call (Send 1 (vote1 10 110 7)) parked1)).

Lemma after_call_reached op s :
  pool_reached pool_config1 s -> 0 < sh_senders s -> op_typed op -> pool_reached pool_config1 (after_call op s).
Proof.
  intros Hs Hn Ht. eapply rtc_r; [exact Hs|]. exists (Some op). unfold after_call.
  destruct (on_open _ _ _) as [st b] eqn:He. by apply step_sender.
Qed.

Lemma voted1_reached : pool_reached pool_config1 voted1.
Proof.
  do 3 (apply after_call_reached; [|decide_now|cbn [op_typed]; unfold vote_typed, in_range; decide_now]).
  eapply rtc_l; [exists None; by apply step_recv|]. apply rtc_once. exists None. by apply step_peek.
Qed.

Lemma voted1_open : sh_pool voted1 = Open (pool_at voted1).
Proof. vm_compute. reflexivity. Qed.

Definition quorum1 : Quorum Z := mkQuorum 110 7 1 [vote1 10 110 7; vote1 20 110 7; vote1 30 110 7].
Definition permit1 : Permit := mkPermit 110 7 0 3.

Lemma voted1_peek : (peek 5 (pool_at voted1)).1 = Some (quorum1, permit1).
Proof. vm_compute. reflexivity. Qed.

Lemma voted1_ready : ready (sh_pool voted1).
Proof. rewrite voted1_open. apply (bool_decide_eq_true_1 _). vm_compute. reflexivity. Qed.

Lemma pool_hands_out_dominant_quorums_witness : backed (pool_at voted1) quorum1.
Proof.
  pose proof (pool_hands_out_dominant_quorums pool_config1 voted1 (pool_at voted1) 5 voted1_reached voted1_open) as Hq.
  cbv zeta in Hq. rewrite voted1_peek in Hq. apply Hq.
Defined.

Lemma no_lost_wakeup_witness :
  woken (sh_notify voted1) = true \/
    ((0 < sh_owed voted1)%nat /\ woken (notify_one (sh_notify voted1)) = true).
Proof.
  apply (no_lost_wakeup pool_config1 voted1 5 voted1_reached voted1_ready). reflexivity.
Defined.

(** The consumer chooses the digest at 110; the votes for 120 follow. *)
Definition votes_at (h d : Z) (s : Shared Z ToyNotify) : Shared Z ToyNotify :=
  after_call (Send 3 (vote1 30 h d)) (after_call (Send 2 (vote1 20 h d)) (after_call (Send 1 (vote1 10 h d)) s)).
Definition voting1 : Shared Z ToyNotify := votes_at 110 7 (attestation_pool pool_config1).
Definition chosen1 : Shared Z ToyNotify :=
  voting1 <| sh_pool := Open (receiver_op (MarkValid permit1) (pool_at voting1)) |>.
Definition voted2 : Shared Z ToyNotify := votes_at 120 9 chosen1.

Lemma voting1_reached : pool_reached pool_config1 voting1.
Proof.
  do 3 (apply after_call_reached; [|decide_now|cbn [op_typed]; unfold vote_typed, in_range; decide_now]).
  apply rtc_refl.
Qed.

Lemma voting1_open : sh_pool voting1 = Open (pool_at voting1).
Proof. vm_compute. reflexivity. Qed.

Lemma vote_forward dec now v s :
  0 < sh_senders s -> op_typed (Send now v) -> forward_step dec s (after_call (Send now v) s).
Proof.
  intros Hn Ht. exists (Some (Send now v)). split; [|by destruct (sh_pool s)]. unfold after_call.
  destruct (on_open _ _ _) as [st b] eqn:He. by apply step_sender.
Qed.

Lemma chosen1_voted2 : rtc (forward_step (Chose 110)) chosen1 voted2.
Proof.
  do 3 (eapply rtc_r; [|apply vote_forward; [decide_now|cbn [op_typed]; unfold vote_typed, in_range; decide_now]]).
  apply rtc_refl.
Qed.

Lemma voted2_open : sh_pool voted2 = Open (pool_at voted2).
Proof. vm_compute. reflexivity. Qed.

Definition quorum2 : Quorum Z := mkQuorum 120 9 1 [vote1 10 120 9; vote1 20 120 9; vote1 30 120 9].

Lemma voted2_peek : (peek 5 (pool_at voted2)).1 = Some (quorum2, mkPermit 120 9 0 3).
Proof. vm_compute. reflexivity. Qed.

Lemma decisions_stick_witness : 110 < q_height quorum2 \/ q_height quorum2 = umax 64.
Proof.
  apply (decisions_stick pool_config1 (MarkValid permit1) (Chose 110) voting1 voted2 (pool_at voting1)
    (pool_at voted2) 5 quorum2 (mkPermit 120 9 0 3) voting1_reached voting1_open);
    [cbn [recv_typed]; unfold in_range; decide_now|reflexivity
    |exact chosen1_voted2|exact voted2_open|exact voted2_peek].
Defined.
