(* ===== verification/Submitter.v ===== *)
(** * The attestor as submitter

    [src/attestor/attestor/src]: the votes an attestor verifies ([vote.rs]), the
    proofs it caches ([proof_cache.rs]), the committee's keys ([bls.rs]), and what
    its validation task checks before it submits a quorum ([tasks/validation.rs]),
    with the two chain queries of [src/common/cc-client/src/lib.rs] it relies on.
    What it would submit is set against the pallet's own validation. *)

From stdpp Require Import prelude gmap list sorting strings.
From Stdlib Require Import ZArith Lia.
From S2P Require Import Prelude Primitives Frame SupportedChains Randomness Types Ledger Roster RosterSpec.
From S2P Require Import Settings Validate Checkpoints LadderSpec LadderRefine Pallet Runtime Concrete Guarantees VotePool.

(** ** Votes *)

Inductive VerifyResult := Accept | BadSignature | DivergentDigest | NoLocal | WrongChain | UnknownAttestor.

Record LocalAttestationData := mkLocalData { serialized : list Z; ld_digest : Digest }.

Definition verify_vote `{Bls} (vote : Vote Signature) (our_chain_key : ChainKey)
    (local : option LocalAttestationData) (pubkey : option PublicKey) : VerifyResult :=
  if negb (vote_chain_key vote =? our_chain_key) then WrongChain
  else match local with
  | None => NoLocal
  | Some local =>
      match pubkey with
      | None => UnknownAttestor
      | Some pubkey =>
          if negb (vote_digest vote =? ld_digest local) then DivergentDigest
          else if bls_verify (vote_signature_bls vote) (serialized local) pubkey then Accept
          else BadSignature
      end
  end.

(** ** The proof cache *)

Record CachedProof := mkCachedProof { cached_data : AttestationData; cached_proof : ContinuityProof }.

Record ProofCache := mkProofCache {
  by_height : gmap Height (gmap Digest CachedProof);
  local_data_by_height : gmap Height LocalAttestationData;
}.

Definition cache_new : ProofCache := mkProofCache ∅ ∅.

Definition local_of `{Keccak} (data : AttestationData) : LocalAttestationData :=
  mkLocalData (serialize data) (digest data).

Definition cache_insert `{Keccak} (data : AttestationData) (proof : ContinuityProof) (c : ProofCache) : ProofCache :=
  let height := ad_header_number data in
  mkProofCache
    (<[height := <[digest data := mkCachedProof data proof]> (default ∅ (by_height c !! height))]> (by_height c))
    (<[height := local_of data]> (local_data_by_height c)).

Definition cache_get (height : Height) (d : Digest) (c : ProofCache) : option CachedProof :=
  by_height c !! height ≫= fun m => m !! d.

Definition local_data (height : Height) (c : ProofCache) : option LocalAttestationData :=
  local_data_by_height c !! height.

Definition cache_note_finalized (height : Height) (c : ProofCache) : ProofCache :=
  mkProofCache (drop_up_to height (by_height c)) (drop_up_to height (local_data_by_height c)).

Definition cache_clear (c : ProofCache) : ProofCache := cache_new.

(** A cached proof is found under its own height and digest. *)
Definition cache_ok `{Keccak} (c : ProofCache) : Prop :=
  forall h d p, cache_get h d c = Some p -> ad_header_number (cached_data p) = h /\ digest (cached_data p) = d.

Inductive cache_step `{Keccak} : ProofCache -> ProofCache -> Prop :=
| cs_insert data proof c : cache_step c (cache_insert data proof c)
| cs_finalized h c : cache_step c (cache_note_finalized h c)
| cs_clear c : cache_step c (cache_clear c).

(** ** The committee's keys *)

Record ElectedSet `{Bls} := mkElectedSet { es_keys : gmap AccountId PublicKey; es_members : gset AccountId }.

(** [fetch], with the answers of [attestor_bls_pubkey]; [None] is the error on a key
    that is not one. *)
Fixpoint fetch_keys `{Bls} (pubkey_of : AccountId -> option BlsPublicKey) (attestors : list AccountId)
    (out : gmap AccountId PublicKey) : option (gmap AccountId PublicKey) :=
  match attestors with
  | [] => Some out
  | a :: attestors =>
      match pubkey_of a with
      | None => fetch_keys pubkey_of attestors out
      | Some raw =>
          key ← pk_from_bytes (to_be_bytes 48 raw);
          fetch_keys pubkey_of attestors (<[a := key]> out)
      end
  end.

Definition elected_set `{Bls} (pubkey_of : AccountId -> option BlsPublicKey) (attestors : list AccountId)
    : option ElectedSet :=
  keys ← fetch_keys pubkey_of attestors ∅;
  Some (mkElectedSet _ keys (list_to_set attestors)).

Definition pubkey `{Bls} (a : AccountId) (set : ElectedSet) : option PublicKey := es_keys set !! a.

Definition is_sole_member `{Bls} (a : AccountId) (set : ElectedSet) : bool :=
  bool_decide (size (es_members set) = 1%nat) && bool_decide (a ∈ es_members set).

(** ** The chain's answers *)

(** [Client::quorum] *)
Definition client_quorum {C} (s : State C) (ck : ChainKey) : Z :=
  calculate_quorum (Z.min (zlen (active_attestor_set s ck)) (umax 32)).

(** [Client::fetch_last_finalized] *)
Definition fetch_last_finalized {C} (s : State C) (ck : ChainKey) : option (Height * Digest) :=
  match LastDigest s !! ck with
  | Some last => Some last
  | None => (fun c => (cp_block_number c, cp_digest c)) <$> LastCheckpoint s !! ck
  end.

(** The answers to the queries of the validation task; an error is one that the
    retries did not get over. *)
Record Rpc := mkRpc {
  rpc_is_chain_supported : Result unit bool;
  rpc_contains_digest : Digest -> Height -> Result unit bool;
  rpc_quorum : Result unit Z;
  rpc_last_finalized : Result unit (option (Height * Digest));
}.

Definition rpc_at `{Config} {C} (env : Env) (s : State C) (ck : ChainKey) : Rpc :=
  mkRpc (Ok (env_is_chain_supported env ck)) (fun d h => Ok (contains_digest s ck d h))
    (Ok (client_quorum s ck)) (Ok (fetch_last_finalized s ck)).

(** ** Validation by the submitter *)

(** The [aggregate] of the BLS library, and the encoding of its result. *)
Class BlsAggregation `{Bls} := {
  aggregate_signatures : list Signature -> option Signature;
  sig_as_bytes : Signature -> list Z;
}.

(** Documented: the aggregate of signatures that each verify one message verifies it
    under the aggregate of their keys, in any order; an aggregate is encoded in 96
    bytes, which decode to it; a key's encoding is the bytes it was decoded from. *)
Class BlsLaws `{BlsAggregation} : Prop := {
  aggregate_verifies sigs pks pks' msg :
    sigs <> [] -> Forall2 (fun sg pk => bls_verify sg msg pk = true) sigs pks -> pks' ≡ₚ pks ->
    exists sg agg, aggregate_signatures sigs = Some sg /\ aggregate_public_keys pks' = Some agg /\
      verify_agg_message sg msg agg = true;
  aggregate_encodes sigs sg : aggregate_signatures sigs = Some sg ->
    zlen (sig_as_bytes sg) = 96 /\ Forall (in_range 8) (sig_as_bytes sg) /\
    sig_from_bytes (sig_as_bytes sg) = Some sg;
  pk_encodes bytes pk : pk_from_bytes bytes = Some pk -> pk_as_bytes pk = bytes;
}.

(** The number that bytes spell big-endian. *)
Definition from_be_bytes (bytes : list Z) : Z := foldl (fun n b => 256 * n + b) 0 bytes.

Record Aggregated (Sig : Type) := mkAggregated {
  ag_height : Height;
  ag_digest : Digest;
  ag_attestation_signed : SignedAttestation;
  ag_votes : list (Vote Sig);
}.
Arguments mkAggregated {Sig}.
Arguments ag_height {Sig}.
Arguments ag_digest {Sig}.
Arguments ag_attestation_signed {Sig}.
Arguments ag_votes {Sig}.

Inductive ValidationError :=
| Invalid
| AlreadyOnChain
| NoLocalProof
| InsufficientVotes (got threshold : Z)
| External.

Definition is_empty_roots (p : ContinuityProof) : bool := match roots p with [] => true | _ => false end.

Definition validate_proof_chain `{Keccak} (cached : CachedProof) (height : Height)
    (last_finalized : option (Height * Digest)) (digest_local : option Digest) (genesis : Height) : bool :=
  let proof := cached_proof cached in
  let data := cached_data cached in
  if is_empty_roots proof then
    if height =? genesis then true
    else match last_finalized with
    | None => false
    | Some (last_height, last_digest) =>
        bool_decide (ad_prev_digest data = Some last_digest) && (height =? saturating_add 64 last_height 1)
    end
  else
    let start := start_block_number proof height in
    let head := compute_continuity_digest proof start in
    if negb (bool_decide (Some head = ad_prev_digest data)) then false
    else match tail_prev_digest proof with
    | None => true
    | Some tail =>
        match last_finalized with
        | Some (last_height, last_digest) =>
            if tail =? last_digest then start =? saturating_add 64 last_height 1
            else bool_decide (digest_local = Some tail)
        | None => bool_decide (digest_local = Some tail)
        end
    end.

(** [quorum_anchor]: the digest a quorum's proof extends. *)
Definition quorum_anchor (signed : SignedAttestation) : option Digest :=
  match tail_prev_digest (sa_continuity_proof signed) with
  | Some d => Some d
  | None => sa_prev_digest signed
  end.

Definition rpc {A B} (r : Result unit A) (k : A -> Result ValidationError B) : Result ValidationError B :=
  match r with Ok a => k a | Err _ => Err External end.

Section Validation.
Context `{Keccak} `{BlsAggregation}.
Implicit Types (votes : list (Vote Signature)).

(** The votes of signers whose key is known. *)
Definition active_votes (keys : ElectedSet) votes : list (Vote Signature) :=
  filter (fun v => is_Some (pubkey (vote_attestor v) keys)) votes.

(** The aggregate of the votes' signatures, as the 96 bytes of the extrinsic. *)
Definition aggregate_votes votes : option (option BlsSignature) :=
  sg ← aggregate_signatures (vote_signature_bls <$> votes);
  let bytes := sig_as_bytes sg in
  Some (if 96 <=? zlen bytes then Some (from_be_bytes (take 96 bytes)) else None).

(** [shuffle] is the permutation that the random generator picks. *)
Definition aggregate_and_validate (answers : Rpc) (keys : ElectedSet) (cache : ProofCache) (genesis : Height)
    (shuffle : list (Vote Signature) -> list (Vote Signature)) (quorum : Quorum Signature)
    (digest_local : option Digest) : Result ValidationError (Aggregated Signature) :=
  let height := q_height quorum in
  let digest := q_digest quorum in
  rpc (rpc_is_chain_supported answers) (fun supported =>
  if negb supported then Err Invalid else
  rpc (rpc_contains_digest answers digest height) (fun is_dup =>
  if is_dup : bool then Err AlreadyOnChain else
  let votes_active := active_votes keys (q_votes quorum) in
  rpc (rpc_quorum answers) (fun threshold =>
  if zlen votes_active <? threshold then Err (InsufficientVotes (zlen votes_active) threshold) else
  match cache_get height digest cache with
  | None => Err NoLocalProof
  | Some cached =>
      rpc (rpc_last_finalized answers) (fun last_finalized =>
      if negb (validate_proof_chain cached height last_finalized digest_local genesis) then Err Invalid else
      let votes := shuffle votes_active in
      match aggregate_votes votes with
      | None => Err External
      | Some None => Err Invalid
      | Some (Some bls_aggregate) =>
          Ok (mkAggregated height digest
            (mkSignedAttestation (cached_data cached) bls_aggregate (vote_attestor <$> votes) (cached_proof cached))
            votes)
      end)
  end))).

(** [revalidate_stashed], with the digest of the finalized watch. *)
Definition revalidate_stashed (answers : Rpc) (keys : ElectedSet) (genesis : Height)
    (latest_finalized : option Digest) (stashed : SignedQuorum Signature) : option (Aggregated Signature) :=
  let anchored := bool_decide (sq_height stashed = genesis) ||
    match quorum_anchor (sq_signed stashed), latest_finalized with
    | Some anchor, Some finalized => anchor =? finalized
    | _, _ => false
    end in
  if negb anchored then None
  else match rpc_quorum answers with
  | Err _ => None
  | Ok threshold =>
      let votes := active_votes keys (sq_votes stashed) in
      if zlen votes <? threshold then None
      else if zlen votes <? zlen (sq_votes stashed) then
        bytes ← aggregate_votes votes;
        signature ← bytes;
        let signed := sq_signed stashed in
        Some (mkAggregated (sq_height stashed) (sq_digest stashed)
          (mkSignedAttestation (sa_attestation signed) signature (vote_attestor <$> votes)
            (sa_continuity_proof signed)) votes)
      else Some (mkAggregated (sq_height stashed) (sq_digest stashed) (sq_signed stashed) votes)
  end.
End Validation.

(** [take_reinject_budget] *)
Definition MAX_REINJECTS_PER_HEIGHT : Z := 3.

Definition take_reinject_budget (state : option (Height * Z)) (height : Height) : bool * option (Height * Z) :=
  match state with
  | Some (h, remaining) =>
      if h =? height then
        if remaining =? 0 then (false, state) else (true, Some (h, remaining - 1))
      else (true, Some (height, MAX_REINJECTS_PER_HEIGHT - 1))
  | None => (true, Some (height, MAX_REINJECTS_PER_HEIGHT - 1))
  end.

(** ** The cache and the keys *)

Lemma cache_step_ok `{Keccak} c c' : cache_step c c' -> cache_ok c -> cache_ok c'.
Proof.
  intros Hstep Hc h d p. destruct Hstep as [data proof c|x c|c]; unfold cache_get, cache_insert, cache_note_finalized; cbn.
  - destruct (decide (h = ad_header_number data)) as [->|Hne].
    + rewrite lookup_insert_eq. cbn. rewrite lookup_insert_Some. intros [[<- <-]|[_ Hp]]; [done|].
      destruct (by_height c !! ad_header_number data) as [m|] eqn:Hm; cbn in Hp; [|done].
      apply Hc. unfold cache_get. by rewrite Hm.
    + rewrite lookup_insert_ne by done. apply Hc.
  - intros (m & Hm & Hp)%bind_Some. apply map_lookup_filter_Some in Hm as [Hm _]. apply Hc. unfold cache_get. by rewrite Hm.
  - done.
Qed.

Lemma cache_reached_ok `{Keccak} c : rtc cache_step cache_new c -> cache_ok c.
Proof.
  intros Hr. apply (rtc_ind_r cache_ok cache_new) in Hr; [done| |].
  - by intros h d p.
  - intros x y _ Hstep. by apply cache_step_ok.
Qed.

(** The decoded key of an attestor. *)
Definition key_of `{Bls} (pubkey_of : AccountId -> option BlsPublicKey) (x : AccountId) : option PublicKey :=
  raw ← pubkey_of x; pk_from_bytes (to_be_bytes 48 raw).

Lemma fetch_keys_spec `{Bls} pubkey_of attestors out keys x pk :
  fetch_keys pubkey_of attestors out = Some keys ->
  (forall x pk, out !! x = Some pk -> key_of pubkey_of x = Some pk) ->
  keys !! x = Some pk <-> (is_Some (out !! x) \/ x ∈ attestors) /\ key_of pubkey_of x = Some pk.
Proof.
  revert out. induction attestors as [|y attestors IH]; intros out Hf Hout; cbn in Hf.
  { injection Hf as ->. split; [intros Hx; split; [eauto|by apply Hout]|].
    intros [[(pk' & Hx)|?%elem_of_nil] Hk]; [|done]. rewrite Hx. apply Hout in Hx. congruence. }
  rewrite elem_of_cons. destruct (pubkey_of y) as [raw|] eqn:Hy.
  - destruct (pk_from_bytes (to_be_bytes 48 raw)) as [key|] eqn:Hkey; cbn in Hf; [|done].
    assert (key_of pubkey_of y = Some key) as Hky by (unfold key_of; by rewrite Hy).
    rewrite (IH _ Hf) by (intros x' pk'; rewrite lookup_insert_Some; intros [[<- <-]|[_ ?]]; auto).
    destruct (decide (x = y)) as [->|Hne]; [rewrite lookup_insert_eq|rewrite lookup_insert_ne by done]; naive_solver.
  - rewrite (IH _ Hf Hout). assert (key_of pubkey_of y = None) as Hky by (unfold key_of; by rewrite Hy). naive_solver.
Qed.

Lemma elected_keys `{Bls} pubkey_of attestors set x pk :
  elected_set pubkey_of attestors = Some set ->
  pubkey x set = Some pk <-> x ∈ attestors /\ key_of pubkey_of x = Some pk.
Proof.
  unfold elected_set. destruct (fetch_keys _ _ _) as [keys|] eqn:Hf; cbn; [|done]. intros [= <-].
  unfold pubkey. cbn. rewrite (fetch_keys_spec _ _ _ _ _ _ Hf) by done. rewrite lookup_empty.
  split; intros [Hin Hk]; (split; [|done]); [|by right]. destruct Hin as [[? ?]|?]; done.
Qed.

(** ** Bytes *)

Lemma to_le_from_be bytes :
  Forall (in_range 8) bytes -> to_le_bytes (length bytes) (from_be_bytes (rev bytes)) = bytes.
Proof.
  induction bytes as [|b bytes IH]; intros Hall; [done|]. apply Forall_cons in Hall as [Hb Hall].
  unfold from_be_bytes. cbn [rev length]. rewrite foldl_app. cbn [foldl].
  change (foldl _ 0 (rev bytes)) with (from_be_bytes (rev bytes)). set (n := from_be_bytes (rev bytes)).
  change (to_le_bytes (S (length bytes)) (256 * n + b)) with
    ((256 * n + b) mod 256 :: to_le_bytes (length bytes) ((256 * n + b) / 256)).
  unfold in_range, umax in Hb. change (2 ^ 8) with 256 in Hb.
  rewrite Z.add_comm, (Z.mul_comm 256 n), Z.mod_add, Z.mod_small, Z.div_add, Z.div_small by lia.
  rewrite Z.add_0_l. unfold n. by rewrite IH.
Qed.

Lemma to_be_from_be bytes :
  Forall (in_range 8) bytes -> to_be_bytes (length bytes) (from_be_bytes bytes) = bytes.
Proof.
  intros Hall. pose proof (to_le_from_be (rev bytes) ltac:(by apply Forall_rev)) as Hle.
  rewrite length_rev, rev_involutive in Hle. unfold to_be_bytes. rewrite Hle. apply rev_involutive.
Qed.

(** ** Against the pallet's validation *)

Section Agreement.
Context {C : Type} `{!Currency C} `{!CurrencyLaws C} `{Config} `{!ConfigOk} `{Keccak} `{Arch} `{!ArchOk}
  `{BlsAggregation} `{!BlsLaws} `{FrameStorage Z} `{!FrameStorageLaws Z} `{FrameStorage (Z * Z)}.
Implicit Types (a : State C) (ck : ChainKey) (votes : list (Vote Signature)).

Lemma dedup_distinct (pks : list PublicKey) used :
  Forall (fun pk => zlen (pk_as_bytes pk) = 48 /\ pk_as_bytes pk ∉ used) pks -> NoDup (pk_as_bytes <$> pks) ->
  dedup_public_keys pks used = Ok pks.
Proof.
  revert used. induction pks as [|pk pks IH]; intros used Hall Hnd; [done|]. cbn [dedup_public_keys].
  apply Forall_cons in Hall as [[Hlen Hnew] Hall]. apply NoDup_cons in Hnd as [Hx Hnd]. rewrite Hlen, Z.eqb_refl.
  rewrite IH; [by rewrite bool_decide_eq_false_2|apply Forall_forall|done]. intros pk' Hin.
  eapply Forall_forall in Hall as [Hl Hn]; [|exact Hin]. split; [done|]. intros [Heq%elem_of_singleton|]%elem_of_union; [|done].
  apply Hx. rewrite <- Heq. apply list_elem_of_fmap. eauto.
Qed.

Lemma gather_keys_run a ck l pks :
  Forall2 (fun x pk => gather_attestor_public_key a ck x = Ok pk) l pks ->
  gather_attestor_public_keys a ck l = Ok pks.
Proof. induction 1 as [|x pk l pks Hx _ IH]; [done|]. cbn. by rewrite Hx, IH. Qed.

(** The committee's keys are those the pallet gathers. *)
Lemma gather_key a ck set x pk :
  elected_set (attestor_bls_pubkey a ck) (active_attestor_set a ck) = Some set -> pubkey x set = Some pk ->
  x ∈ active_attestor_set a ck /\ gather_attestor_public_key a ck x = Ok pk /\
  exists raw, attestor_bls_pubkey a ck x = Some raw /\ pk_as_bytes pk = to_be_bytes 48 raw.
Proof.
  intros Hset Hpk. apply (elected_keys _ _ _ _ _ Hset) in Hpk as [Hin Hk].
  unfold key_of in Hk. apply bind_Some in Hk as (raw & Hraw & Hpk). split_and!; [done| |].
  - unfold gather_attestor_public_key. unfold attestor_bls_pubkey in Hraw. rewrite Hraw. by rewrite Hpk.
  - exists raw. split; [done|]. by apply pk_encodes.
Qed.

(** The keys of distinct attestors have distinct encodings. *)
Definition keys_distinct a ck : Prop :=
  (forall x k, attestor_bls_pubkey a ck x = Some k -> in_range 384 k) /\
  forall x y k, attestor_bls_pubkey a ck x = Some k -> attestor_bls_pubkey a ck y = Some k -> x = y.

Lemma key_bytes_inj a ck x y rx ry :
  keys_distinct a ck -> attestor_bls_pubkey a ck x = Some rx -> attestor_bls_pubkey a ck y = Some ry ->
  to_be_bytes 48 rx = to_be_bytes 48 ry -> x = y.
Proof.
  intros [Ht Hid] Hx Hy Heq. pose proof (Ht _ _ Hx) as Rx. pose proof (Ht _ _ Hy) as Ry.
  unfold in_range, umax in Rx, Ry. change (2 ^ 384) with (256 ^ Z.of_nat 48) in Rx, Ry.
  apply to_be_bytes_inj in Heq; [|lia..]. subst ry. by eapply Hid.
Qed.

Lemma omap_all {A B} (f : A -> option B) l :
  Forall (fun x => is_Some (f x)) l -> Forall2 (fun x y => f x = Some y) l (omap f l).
Proof. induction 1 as [|x l [y Hy] _ IH]; cbn; [constructor|]. rewrite Hy. by constructor. Qed.

Lemma NoDup_related {A B K} (R : A -> B -> Prop) (g : B -> K) l k :
  Forall2 R l k -> NoDup l -> (forall x y p q, R x p -> R y q -> g p = g q -> x = y) -> NoDup (g <$> k).
Proof.
  intros Hr Hnd Hinj. induction Hr as [|x p l k Hx Hr IH]; [constructor|]. apply NoDup_cons in Hnd as [Hnew Hnd].
  cbn. apply NoDup_cons. split; [|by apply IH]. intros (q & Heq & Hq)%list_elem_of_fmap.
  apply list_elem_of_lookup in Hq as [i Hi]. destruct (Forall2_lookup_r _ _ _ _ _ Hr Hi) as (y & Hy & Ry).
  rewrite (Hinj _ _ _ _ Hx Ry Heq) in Hnew. apply Hnew. by eapply list_elem_of_lookup_2.
Qed.

(** The keys of a listing of attestors with known keys, as the pallet gathers them. *)
Lemma gathered a ck set signers :
  elected_set (attestor_bls_pubkey a ck) (active_attestor_set a ck) = Some set -> keys_distinct a ck ->
  NoDup signers -> Forall (fun x => is_Some (pubkey x set)) signers ->
  let pks := omap (fun x => pubkey x set) signers in
  gather_attestor_public_keys a ck signers = Ok pks /\ dedup_public_keys pks ∅ = Ok pks /\ zlen pks = zlen signers.
Proof.
  intros Hset Hdist Hnd Hkeys pks. pose proof (omap_all _ _ Hkeys) as Hpks. fold pks in Hpks.
  assert (forall x pk, pubkey x set = Some pk -> gather_attestor_public_key a ck x = Ok pk /\
    exists raw, attestor_bls_pubkey a ck x = Some raw /\ pk_as_bytes pk = to_be_bytes 48 raw) as Hkey.
  { intros x pk Hx. destruct (gather_key a ck set x pk Hset Hx) as (_ & ? & ?). done. }
  split_and!.
  - apply gather_keys_run. eapply Forall2_impl; [exact Hpks|]. intros x pk Hx. by apply Hkey.
  - apply dedup_distinct.
    + apply Forall_forall. intros pk Hin. apply list_elem_of_lookup in Hin as [i Hi].
      destruct (Forall2_lookup_r _ _ _ _ _ Hpks Hi) as (x & _ & Hx). destruct (Hkey _ _ Hx) as (_ & raw & _ & ->).
      split; [|set_solver]. unfold zlen. by rewrite length_to_be_bytes.
    + eapply NoDup_related; [exact Hpks|done|]. cbn. intros x y p q Hx Hy Heq.
      destruct (Hkey _ _ Hx) as (_ & rx & Rx & Bx). destruct (Hkey _ _ Hy) as (_ & ry & Ry & By).
      eapply key_bytes_inj; [done..|]. congruence.
  - unfold zlen. by rewrite (Forall2_length _ _ _ Hpks).
Qed.

Lemma all_eligible act att :
  NoDup (sa_attestors att) -> sa_attestors att ⊆ act ->
  eligible_attestors (btree_set act) att ≡ₚ sa_attestors att.
Proof.
  intros Hnd Hsub. unfold eligible_attestors.
  assert (List.filter (fun x => bool_decide (x ∈ btree_set act)) (sa_attestors att) = sa_attestors att) as ->.
  { assert (forall x, x ∈ sa_attestors att -> x ∈ act) as Hin by set_solver. clear -Hin.
    induction (sa_attestors att) as [|x l IH]; [done|]. cbn. rewrite bool_decide_eq_true_2.
    - f_equal. apply IH. intros y Hy. apply Hin. by right.
    - apply elem_of_btree_set, Hin. by left. }
  by apply btree_set_perm.
Qed.

(** The votes verify the attestation's data under the committee's keys. *)
Definition votes_verified (data : AttestationData) (set : ElectedSet) votes : Prop :=
  NoDup (vote_attestor <$> votes) /\
  Forall (fun v => forall pk, pubkey (vote_attestor v) set = Some pk ->
    bls_verify (vote_signature_bls v) (serialize data) pk = true) votes.

(** Their aggregate passes the pallet's checks of signers and signature. *)
Lemma aggregate_accepted a ck set votes data sg proof :
  let att := mkSignedAttestation data sg (vote_attestor <$> votes) proof in
  let eligible := eligible_attestors (btree_set (active_attestor_set a ck)) att in
  elected_set (attestor_bls_pubkey a ck) (active_attestor_set a ck) = Some set -> keys_distinct a ck ->
  votes_verified data set votes -> Forall (fun v => is_Some (pubkey (vote_attestor v) set)) votes ->
  votes <> [] -> aggregate_votes votes = Some (Some sg) ->
  zlen eligible = zlen votes /\ exists sig pks agg,
    extract_agg_signature sg = Ok sig /\ gather_attestor_public_keys a ck eligible = Ok pks /\
    dedup_public_keys pks ∅ = Ok pks /\ zlen pks = zlen votes /\ aggregate_public_keys pks = Some agg /\
    verify_agg_message sig (serialize data) agg = true.
Proof.
  intros att eligible Hset Hdist [Hnd Hver] Hkeys Hne Hagg.
  assert (eligible ≡ₚ vote_attestor <$> votes) as Hperm.
  { apply (all_eligible _ att); [done|]. cbn. intros x (v & -> & Hv)%list_elem_of_fmap.
    eapply Forall_forall in Hkeys as [pk Hpk]; [|exact Hv]. by eapply gather_key in Hset as (? & _). }
  assert (zlen eligible = zlen votes) as Hlen by (unfold zlen; by rewrite Hperm, length_fmap).
  split; [done|]. set (pks := omap (fun x => pubkey x set) eligible).
  assert (Forall (fun x => is_Some (pubkey x set)) (vote_attestor <$> votes)) as Hkeys' by (by apply Forall_fmap).
  destruct (gathered a ck set eligible Hset Hdist) as (Hg & Hd & Hl); [by rewrite Hperm..|]. fold pks in Hg, Hd, Hl.
  unfold aggregate_votes in Hagg. apply bind_Some in Hagg as (sig & Hsig & [= Hbytes]).
  destruct (aggregate_encodes _ _ Hsig) as (Hlen96 & Hrange & Hdec). rewrite Hlen96 in Hbytes. cbn in Hbytes.
  injection Hbytes as <-.
  destruct (aggregate_verifies (vote_signature_bls <$> votes) (omap (fun x => pubkey x set) (vote_attestor <$> votes))
    pks (serialize data)) as (sig' & agg & Hsig' & Hpk & Hok).
  - by destruct votes.
  - pose proof (omap_all _ _ Hkeys') as Hall. clear -Hall Hver. revert Hall.
    generalize (omap (fun x => pubkey x set) (vote_attestor <$> votes)) as ks. intros ks Hall.
    revert ks Hall. induction votes as [|v votes IH]; cbn; intros ks Hall; inversion Hall; subst; constructor.
    + apply Forall_cons in Hver as [Hv _]. by apply Hv.
    + apply Forall_cons in Hver as [_ Hver]. by apply IH.
  - unfold pks. by rewrite Hperm.
  - exists sig, pks, agg. split_and!; try done; [|by rewrite Hl|congruence].
    unfold extract_agg_signature.
    assert (length (sig_as_bytes sig) = 96%nat) as Hl96 by (unfold zlen in Hlen96; lia).
    rewrite take_ge by lia. pose proof (to_be_from_be _ Hrange) as Hround. rewrite Hl96 in Hround.
    by rewrite Hround, Hdec.
Qed.

(** What the client reads as the last finalized attestation is the pallet's head. *)
Lemma head_known a ck h d :
  ladder_inv (ladder_of ck a) -> l_cursor (ladder_of ck a) = None -> fetch_last_finalized a ck = Some (h, d) ->
  0 <= h /\ last_digest a ck = Some d /\ finalized_header_number a ck d = Some h /\
  (forall x y, LastDigest a !! ck = Some (x, y) -> x = h) /\
  (forall cp, LastCheckpoint a !! ck = Some cp -> cp_block_number cp <= h).
Proof.
  intros Hinv Hcur Hf. pose proof (li_known _ Hinv) as Hknown. pose proof (li_headless _ Hinv) as Hless.
  destruct (li_queue _ Hinv Hcur) as [_ Hq].
  assert (retained (ladder_of ck a) = [] -> dget (Attestations a) ck d = None) as Hnil.
  { intros He. apply eq_None_not_Some. intros Hs. apply Hq in Hs. rewrite He in Hs. by apply not_elem_of_nil in Hs. }
  assert (attestations_stable a ck = true) as Hst by (by apply bool_decide_eq_true).
  assert (forall cp, LastCheckpoint a !! ck = Some cp -> 0 <= cp_block_number cp) as Hcp.
  { intros cp Hcp. apply (li_u64 _ Hinv). rewrite (li_last _ Hinv cp Hcp). eauto. }
  unfold fetch_last_finalized, last_digest, finalized_header_number, get_attestation in *. rewrite Hst.
  destruct (LastDigest a !! ck) as [[hh hd]|] eqn:Hhd.
  - injection Hf as -> ->. destruct (LastCheckpoint a !! ck) as [cp|] eqn:Hlc.
    2: { destruct (li_none _ Hinv Hlc) as (_ & Hno & _). cbn in Hno. congruence. }
    pose proof (li_head _ Hinv cp h d Hlc Hhd) as Hle. specialize (Hcp cp eq_refl). split_and!; [lia|done| | |].
    + destruct (Hknown h d Hhd) as [[_ (att & Hat & Hnum)]|[Hl Hr]].
      * change (dget (Attestations a) ck d = Some att) in Hat. by rewrite Hat, Hnum.
      * rewrite (Hnil Hr). cbn in Hl. rewrite Hlc in Hl. injection Hl as ->. cbn. by rewrite Z.eqb_refl.
    + by intros x y [= <- _].
    + by intros ? [= <-].
  - rewrite (Hnil (Hless Hhd)). destruct (LastCheckpoint a !! ck) as [cp|] eqn:Hlc; cbn in Hf; [|done].
    injection Hf as <- <-. rewrite Z.eqb_refl. split_and!; try done; [by apply Hcp|]. by intros ? [= <-].
Qed.

(** Above the head: the pallet does not take it for a duplicate. *)
Lemma not_duplicate a att h d :
  let ck := sa_chain_key att in
  ladder_inv (ladder_of ck a) -> l_cursor (ladder_of ck a) = None -> fetch_last_finalized a ck = Some (h, d) ->
  h < sa_header_number att -> contains_digest a ck (sa_digest att) (sa_header_number att) = false ->
  check_duplicate a att = false.
Proof.
  intros ck Hinv Hcur Hf Hlt Hno. destruct (head_known a ck h d Hinv Hcur Hf) as (_ & _ & _ & Hld & Hlc).
  unfold contains_digest, get_attestation in Hno. apply orb_false_iff in Hno as [Hno _].
  replace (attestations_stable a ck) with true in Hno by (symmetry; by apply bool_decide_eq_true).
  unfold check_duplicate. fold ck. rewrite Hno. cbn [orb]. apply orb_false_iff. split.
  - destruct (LastDigest a !! ck) as [[x y]|] eqn:He; [|done]. rewrite (Hld _ _ eq_refl). lia.
  - destruct (LastCheckpoint a !! ck) as [cp|] eqn:He; [|done]. specialize (Hlc cp eq_refl). lia.
Qed.

(** The longest proof the pallet takes. *)
Definition max_roots a ck : Z :=
  wrap usize_bits (Z.max (max_catchup a ck) (chain_attestation_interval a ck)).

(** The reasons left for the pallet to refuse the continuity of an attestation that
    the submitter accepted. *)
Definition continuity_outcome a (att : SignedAttestation) (r : Result (DispatchError Error) unit) : Prop :=
  r = Ok tt \/
  (r = Err (ModuleError InvalidAttestationPrevDigest) /\ sa_prev_digest att = Some 0) \/
  (r = Err (ModuleError OversizedContinuityProof) /\
     max_roots a (sa_chain_key att) < zlen (roots (sa_continuity_proof att))).

Lemma continuity_agrees a att digest_local h d :
  let ck := sa_chain_key att in let height := sa_header_number att in
  let cached := mkCachedProof (sa_attestation att) (sa_continuity_proof att) in
  let genesis := attestation_chain_genesis_block_number a ck in
  ladder_inv (ladder_of ck a) -> l_cursor (ladder_of ck a) = None -> 0 <= height < umax 64 -> height <> genesis ->
  fetch_last_finalized a ck = Some (h, d) -> quorum_anchor att = Some d ->
  validate_proof_chain cached height (Some (h, d)) digest_local genesis = true ->
  h < height /\ continuity_outcome a att (validate_attestation_continuity att a).1.
Proof.
  intros ck height cached genesis Hinv Hcur Hht Hng Hf Hanchor Hval.
  destruct (head_known a ck h d Hinv Hcur Hf) as (Hh & Hlast & Hfin & _).
  unfold validate_proof_chain, is_empty_roots in Hval. cbn [cached_proof cached_data cached] in Hval.
  unfold quorum_anchor, tail_prev_digest in Hanchor. unfold continuity_outcome, validate_attestation_continuity.
  unfold gets, ok_or_m, ensure_m, ensure, lift, fail, mbind, M_bind. fold ck height. cbv zeta beta iota. fold genesis.
  rewrite (proj2 (Z.eqb_neq height genesis)) by done. rewrite (proj2 (Z.eqb_neq height genesis)) in Hval by done.
  unfold is_empty_proof.
  destruct (roots (sa_continuity_proof att)) as [|r rs] eqn:Hrs.
  - apply andb_true_iff in Hval as [Hp%bool_decide_eq_true Hh1].
    change (sa_prev_digest att = Some d) in Hp. rewrite Hp. unfold saturating_add in Hh1.
    assert (height = h + 1) as Hh2 by (fold height in Hh1; lia). split; [lia|].
    cbn. destruct (Z.eqb_spec d 0) as [->|Hd]; cbn; [by right; left|]. fold ck. rewrite Hlast. cbn.
    rewrite Z.eqb_refl. cbn. rewrite Hfin. cbn. rewrite wrap_small by (unfold umax in Hht; lia).
    replace (height =? h + 1) with true by (symmetry; lia). by left.
  - destruct (negb _) eqn:Hhead; [done|]. apply negb_false_iff, bool_decide_eq_true in Hhead.
    change (Some (compute_continuity_digest (sa_continuity_proof att) (start_block_number (sa_continuity_proof att) height))
      = sa_prev_digest att) in Hhead. unfold tail_prev_digest in Hval |- *. rewrite Hrs in Hval |- *.
    injection Hanchor as Hlow. rewrite Hlow, Z.eqb_refl in Hval. rewrite <- Hhead.
    set (start := start_block_number _ _) in *. set (prev := compute_continuity_digest _ _) in *.
    assert (start = h + 1 /\ h < height) as [Hstart Hlt].
    { assert (start <= height) by (unfold start, start_block_number, saturating_sub, zlen; lia).
      unfold saturating_add in Hval. lia. }
    split; [done|]. cbn. destruct (Z.eqb_spec prev 0) as [Hz|Hz]; cbn; [right; left; by rewrite Hz|].
    fold ck. rewrite Hlast. cbn. rewrite andb_false_r. cbn. fold (max_roots a ck).
    destruct (Z.leb_spec (zlen (r :: rs)) (max_roots a ck)) as [Hle|Hgt]; cbn; [|by right; right].
    rewrite Hlow, Z.eqb_refl. cbn. rewrite Hfin. cbn. fold height start.
    unfold checked_sub. replace (1 <=? start) with true by (symmetry; lia). cbn.
    replace (h =? start - 1) with true by (symmetry; lia). cbn. fold prev. rewrite Z.eqb_refl. by left.
Qed.

(** The attestor is up to date with the chain's state [a]: it holds the keys of the
    active set, and the votes of the quorum, one per attestor, were verified against
    the attestation it cached for this chain. *)
Record up_to_date a ck (set : ElectedSet) (cache : ProofCache) (q : Quorum Signature) : Prop := {
  ud_keys : elected_set (attestor_bls_pubkey a ck) (active_attestor_set a ck) = Some set;
  ud_typed : forall x k, attestor_bls_pubkey a ck x = Some k -> in_range 384 k;
  ud_cache : cache_ok cache;
  ud_once : NoDup (vote_attestor <$> q_votes q);
  ud_verified : forall p, cache_get (q_height q) (q_digest q) cache = Some p ->
    ad_chain_key (cached_data p) = ck /\
    Forall (fun v => forall pk, pubkey (vote_attestor v) set = Some pk ->
      verify_vote v ck (Some (local_of (cached_data p))) (Some pk) = Accept) (q_votes q);
}.

(** What the submitter does not check. *)
Definition refusal a (att : SignedAttestation) (e : DispatchError Error) : Prop :=
  let ck := sa_chain_key att in
  (e = ModuleError AttestationCleanupInProgress /\ commit_blocked_by_cleanup a ck = true) \/
  (e = ModuleError TooManyAttestors /\ attestors_within_bound a ck att = false) \/
  (e = ModuleError InvalidAttestationBlockNumber /\ exists h d, LastDigest a !! ck = Some (h, d) /\
     sa_header_number att < saturating_add 64 h (chain_attestation_interval a ck)) \/
  (e = ModuleError InvalidAttestationPrevDigest /\ sa_prev_digest att = Some 0) \/
  (e = ModuleError OversizedContinuityProof /\ max_roots a ck < zlen (roots (sa_continuity_proof att))).

Lemma verify_vote_accept vote ck local pk :
  verify_vote vote ck (Some local) (Some pk) = Accept ->
  bls_verify (vote_signature_bls vote) (serialized local) pk = true.
Proof. unfold verify_vote. repeat case_match; done. Qed.

(** What a successful validation by the submitter has established. *)
Lemma aggregate_ok answers set cache genesis shuffle q digest_local agg :
  aggregate_and_validate answers set cache genesis shuffle q digest_local = Ok agg ->
  let votes := shuffle (active_votes set (q_votes q)) in
  exists threshold cached last sg,
    rpc_is_chain_supported answers = Ok true /\ rpc_contains_digest answers (q_digest q) (q_height q) = Ok false /\
    rpc_quorum answers = Ok threshold /\ threshold <= zlen (active_votes set (q_votes q)) /\
    cache_get (q_height q) (q_digest q) cache = Some cached /\ rpc_last_finalized answers = Ok last /\
    validate_proof_chain cached (q_height q) last digest_local genesis = true /\
    aggregate_votes votes = Some (Some sg) /\
    agg = mkAggregated (q_height q) (q_digest q) (mkSignedAttestation (cached_data cached) sg
      (vote_attestor <$> votes) (cached_proof cached)) votes.
Proof.
  unfold aggregate_and_validate, rpc. intros Hagg.
  destruct (rpc_is_chain_supported answers) as [[|]|]; [|done|done]. cbn [negb] in Hagg.
  destruct (rpc_contains_digest answers _ _) as [[|]|]; [done| |done].
  destruct (rpc_quorum answers) as [threshold|]; [|done].
  destruct (Z.ltb_spec (zlen (active_votes set (q_votes q))) threshold); [done|].
  destruct (cache_get _ _ _) as [cached|]; [|done].
  destruct (rpc_last_finalized answers) as [last|]; [|done].
  destruct (validate_proof_chain _ _ _ _ _) eqn:Hval; [|done]. cbn [negb] in Hagg.
  destruct (aggregate_votes _) as [[sg|]|] eqn:Hsg; [|done|done]. injection Hagg as <-.
  by exists threshold, cached, last, sg.
Qed.

(** The pallet's validation up to continuity, for an attestation with a good quorum. *)
Lemma validate_run env a att sig pks agg :
  let ck := sa_chain_key att in
  let active := btree_set (active_attestor_set a ck) in
  let eligible := eligible_attestors active att in
  let threshold := calculate_quorum (wrap 32 (zlen active)) in
  env_is_chain_supported env ck = true ->
  (commit_blocked_by_cleanup a ck = false -> check_duplicate a att = false) ->
  threshold <= wrap 32 (zlen eligible) -> extract_agg_signature (sa_signature att) = Ok sig ->
  gather_attestor_public_keys a ck eligible = Ok pks -> dedup_public_keys pks ∅ = Ok pks ->
  threshold <= wrap 32 (zlen pks) -> aggregate_public_keys pks = Some agg ->
  verify_agg_message sig (serialize (sa_attestation att)) agg = true ->
  let r := (validate_attestation env ck att a).1 in
  (exists e, r = Err e /\ refusal a att e) \/
  (commit_blocked_by_cleanup a ck = false /\ r = (validate_attestation_continuity att a).1).
Proof.
  intros ck active eligible threshold Hsup Hdup Hq Hsig Hg Hd Hu Hagg Hver r. unfold refusal. fold ck.
  unfold r, validate_attestation, ensure_supported, verify_agg_signature, ok_or_m, ensure_m. rewrite run_ensure by done.
  rewrite run_gets. destruct (commit_blocked_by_cleanup a ck) eqn:Hb.
  { left. rewrite run_refuse by done. eauto. }
  rewrite run_ensure, run_gets by done. destruct (attestors_within_bound a ck att) eqn:Hw.
  2: { left. rewrite run_refuse by done. eauto 6. }
  rewrite run_ensure, run_gets, (Hdup eq_refl), run_ensure, run_gets by done.
  destruct (match LastDigest a !! ck with Some _ => _ | None => _ end) eqn:Hsp.
  2: { left. rewrite run_refuse by done. destruct (LastDigest a !! ck) as [[h d]|]; [|done].
    eexists. split; [done|]. right. right. left. split; [done|]. exists h, d. split; [done|lia]. }
  right. split; [done|]. rewrite run_ensure, run_gets by done. fold active. cbv zeta. fold eligible threshold.
  rewrite run_ensure by lia. rewrite (run_lift _ sig) by done. rewrite run_gets.
  rewrite (run_lift _ pks) by done. rewrite (run_lift _ pks) by done. rewrite run_ensure by lia.
  rewrite (run_lift _ agg) by (by rewrite Hagg). by rewrite run_ensure.
Qed.

Lemma active_votes_spec set votes v :
  v ∈ active_votes set votes <-> is_Some (pubkey (vote_attestor v) set) /\ v ∈ votes.
Proof. unfold active_votes. by rewrite list_elem_of_filter. Qed.

Lemma NoDup_active_votes set votes :
  NoDup (vote_attestor <$> votes) -> NoDup (vote_attestor <$> active_votes set votes).
Proof.
  unfold active_votes. induction votes as [|v votes IH]; [done|]. rewrite fmap_cons. intros [Hv Hnd]%NoDup_cons.
  rewrite filter_cons. case_decide; [|by apply IH]. rewrite fmap_cons. apply NoDup_cons. split; [|by apply IH].
  intros (w & Heq & [_ Hw]%list_elem_of_filter)%list_elem_of_fmap. apply Hv. apply list_elem_of_fmap. eauto.
Qed.

(** The votes that go into the aggregate. *)
Lemma shuffled_votes a ck set cache q cached votes :
  up_to_date a ck set cache q -> cache_get (q_height q) (q_digest q) cache = Some cached ->
  votes ≡ₚ active_votes set (q_votes q) ->
  Forall (fun v => is_Some (pubkey (vote_attestor v) set)) votes /\ votes_verified (cached_data cached) set votes.
Proof.
  intros Hud Hget Hperm. destruct (ud_verified _ _ _ _ _ Hud _ Hget) as [_ Hver].
  split; [|split; [rewrite Hperm; apply NoDup_active_votes, Hud|]]; rewrite Hperm; apply Forall_forall.
  - by intros v [? _]%active_votes_spec.
  - intros v [_ Hv]%active_votes_spec pk Hpk. eapply Forall_forall in Hver; [|exact Hv].
    by apply (verify_vote_accept _ _ _ _ (Hver pk Hpk)).
Qed.

(** A proof the submitter accepts has a finalized digest to extend. *)
Lemma anchored_head a att digest_local :
  let ck := sa_chain_key att in let genesis := attestation_chain_genesis_block_number a ck in
  sa_header_number att <> genesis ->
  validate_proof_chain (mkCachedProof (sa_attestation att) (sa_continuity_proof att)) (sa_header_number att)
    (fetch_last_finalized a ck) digest_local genesis = true ->
  quorum_anchor att = snd <$> fetch_last_finalized a ck -> is_Some (fetch_last_finalized a ck).
Proof.
  intros ck genesis Hng Hval Hanchor. destruct (fetch_last_finalized a ck) as [[h d]|]; [eauto|]. exfalso.
  unfold validate_proof_chain, is_empty_roots in Hval. unfold quorum_anchor, tail_prev_digest in Hanchor.
  cbn [cached_proof] in Hval. destruct (roots (sa_continuity_proof att)); [|done].
  by rewrite (proj2 (Z.eqb_neq _ _) Hng) in Hval.
Qed.

Variable cfg : ScConfig.
Implicit Types (s : @Runtime C).

(** The client's threshold is the pallet's, and counts of attestors fit their words. *)
Lemma client_quorum_spec s ck :
  reached cfg s -> live_chain (rn_listener s) ck -> let a := attestation s in
  calculate_quorum (wrap 32 (zlen (btree_set (active_attestor_set a ck)))) = client_quorum a ck /\
  0 < client_quorum a ck /\
  forall l, NoDup l -> l ⊆ active_attestor_set a ck -> wrap 32 (zlen l) = zlen l.
Proof.
  intros Hreach Hlive a. destruct (keys_identify _ s ck Hreach Hlive) as (_ & Hnd & Hbound & _). fold a in Hnd, Hbound.
  pose proof cfg_nodes as Hnodes. change (2 ^ 31) with 2147483648 in Hnodes.
  assert (forall n, 0 <= n <= zlen (active_attestor_set a ck) -> wrap 32 n = n) as Hfit.
  { intros n Hn. apply wrap_small. change (2 ^ 32) with 4294967296. lia. }
  assert (zlen (btree_set (active_attestor_set a ck)) = zlen (active_attestor_set a ck)) as Hlen.
  { unfold zlen. by rewrite btree_set_perm. }
  pose proof (zlen_nonneg (active_attestor_set a ck)). unfold client_quorum. rewrite umax_32.
  rewrite Z.min_l by lia. split_and!.
  - by rewrite Hlen, Hfit by lia.
  - unfold calculate_quorum, calculate_threshold.
    enough (0 <= saturating_mul 32 (zlen (active_attestor_set a ck)) 2 / 3) by lia.
    apply Z.div_pos; [|done]. unfold saturating_mul. rewrite umax_32. lia.
  - intros l Hl Hsub. apply Hfit. split; [apply zlen_nonneg|].
    pose proof (submseteq_length _ _ (NoDup_submseteq _ _ Hl Hsub)). unfold zlen. lia.
Qed.

(** What an up-to-date submitter accepts, the pallet refuses for few reasons. *)
Lemma accepted_quorum s env set cache shuffle q digest_local agg :
  let ck := q_chain_key q in
  let a := attestation s in
  let genesis := attestation_chain_genesis_block_number a ck in
  let att := ag_attestation_signed agg in
  reached cfg s -> live_chain (rn_listener s) ck -> up_to_date a ck set cache q ->
  (forall l, shuffle l ≡ₚ l) -> 0 <= q_height q < umax 64 -> q_height q <> genesis ->
  aggregate_and_validate (rpc_at env a ck) set cache genesis shuffle q digest_local = Ok agg ->
  quorum_anchor att = snd <$> fetch_last_finalized a ck ->
  match (validate_attestation env ck att a).1 with
  | Ok _ => True
  | Err e => refusal a att e
  end.
Proof.
  intros ck a genesis att Hreach Hlive Hud Hshuf Hht Hng Hagg Hanchor.
  pose proof (pi_ladder _ _ _ (reached_pallet _ _ Hreach) ck Hlive) as Hlad. fold a in Hlad.
  destruct (aggregate_ok _ _ _ _ _ _ _ _ Hagg)
    as (threshold & cached & last & sg & Hsup & Hno & Hq & Hle & Hget & Hlast & Hval & Hsg & ->).
  cbn in Hsup, Hno, Hq, Hlast. injection Hsup as Hsup. injection Hno as Hno. injection Hq as <-. injection Hlast as <-.
  destruct (client_quorum_spec s ck Hreach Hlive) as (Hcq & Hpos & Hfit). fold a in Hcq, Hpos, Hfit.
  destruct (ud_cache _ _ _ _ _ Hud _ _ _ Hget) as [Hnum Hdig]. destruct (ud_verified _ _ _ _ _ Hud _ Hget) as [Hck _].
  set (votes := shuffle (active_votes set (q_votes q))) in *.
  destruct (shuffled_votes _ _ _ _ _ _ votes Hud Hget (Hshuf _)) as [Hkeys Hvv].
  assert (zlen votes = zlen (active_votes set (q_votes q))) as Hlen by (unfold zlen, votes; by rewrite Hshuf).
  assert (votes <> []) as Hne by (intros Hnil; rewrite Hnil in Hlen; change (zlen []) with 0 in Hlen; lia).
  destruct (keys_identify _ s ck Hreach Hlive) as (Hid & _).
  destruct (aggregate_accepted a ck set votes (cached_data cached) sg (cached_proof cached) (ud_keys _ _ _ _ _ Hud)
    (conj (ud_typed _ _ _ _ _ Hud) Hid) Hvv Hkeys Hne Hsg) as (Hel & sig & pks & aggk & Hsig & Hg & Hd & Hpl & Hak & Hok).
  assert (sa_chain_key att = ck) as Hatt by done. assert (sa_header_number att = q_height q) as Hhn by done.
  change (zlen (eligible_attestors (btree_set (active_attestor_set a ck)) att) = zlen votes) in Hel.
  destruct (eligible_spec (active_attestor_set a ck) att) as (Hend & Hsub & _). specialize (Hfit _ Hend Hsub).
  assert (is_Some (fetch_last_finalized a ck)) as [[h d] Hf].
  { pose proof (anchored_head a att digest_local) as Hah. cbv zeta in Hah. rewrite Hatt, Hhn in Hah.
    apply Hah; [done| |done]. by destruct cached. }
  rewrite Hf in Hval, Hanchor.
  assert (l_cursor (ladder_of ck a) = None -> h < sa_header_number att /\
    continuity_outcome a att (validate_attestation_continuity att a).1) as Hcont.
  { intros Hcur. pose proof (continuity_agrees a att digest_local h d) as Hca. cbv zeta in Hca.
    rewrite Hatt, Hhn in Hca. rewrite Hhn. apply Hca; done. }
  destruct (validate_run env a att sig pks aggk) as [(e & He & Href)|[Hb Hr]]; rewrite ?Hatt; try done.
  - intros Hb. destruct (blocked_false a ck Hb) as [Hcur _]. destruct (Hcont Hcur) as [Hlt _].
    apply (not_duplicate a att h d); rewrite ?Hatt; try done. unfold sa_digest, sa_header_number. cbn. by rewrite Hdig, Hnum.
  - rewrite Hcq, Hfit, Hel. lia.
  - rewrite Hcq, Hpl, <- Hel, Hfit, Hel. lia.
  - rewrite Hatt in He. by rewrite He.
  - rewrite Hatt in Hb, Hr. rewrite Hr. destruct (blocked_false a ck Hb) as [Hcur _].
    destruct (Hcont Hcur) as [_ [->|[[-> Hz]|[-> Hlong]]]]; [done|..]; unfold refusal; tauto.
Qed.

(** C24: the submitter's checks are the runtime's. When an up-to-date attestor's
    validation accepts a quorum whose proof extends the last finalized digest, the
    attestation it would submit passes the pallet's validation in that state, unless
    a cleanup is under way, the attestor list exceeds the bound, the attestation comes
    before the interval is over, the proof is longer than the catch-up bound, or its
    digest is zero: never for want of votes, keys, a signature or continuity. *)
Theorem submitter_agrees_with_runtime s env set cache shuffle q digest_local agg :
  let ck := q_chain_key q in
  let a := attestation s in
  let genesis := attestation_chain_genesis_block_number a ck in
  let att := ag_attestation_signed agg in
  reached cfg s -> live_chain (rn_listener s) ck -> up_to_date a ck set cache q ->
  (forall l, shuffle l ≡ₚ l) -> 0 <= q_height q < umax 64 -> q_height q <> genesis ->
  aggregate_and_validate (rpc_at env a ck) set cache genesis shuffle q digest_local = Ok agg ->
  quorum_anchor att = snd <$> fetch_last_finalized a ck ->
  match (validate_attestation env ck att a).1 with
  | Ok _ => True
  | Err e => refusal a att e
  end.
Proof. apply accepted_quorum. Qed.
End Agreement.

(** ** On the concrete runtime *)

Definition toy_aggregate (sigs : list (list Z)) : option (list Z) :=
  if forallb (fun sg => bool_decide (sg = to_be_bytes 96 7)) sigs then Some (to_be_bytes 96 7) else None.

#[export] Instance toy_aggregation : BlsAggregation :=
  @Build_BlsAggregation toy_bls toy_aggregate (fun sg => sg).

#[export] Instance toy_laws : BlsLaws.
Proof.
  constructor.
  - intros sigs pks pks' msg Hne Hall Hperm. exists (to_be_bytes 96 7). cbn. unfold toy_aggregate. rewrite (proj2 (forallb_forall _ _)).
    + eexists. split_and!; [done..|]. by apply bool_decide_eq_true.
    + intros sg Hin%list_elem_of_In. apply list_elem_of_lookup in Hin as [i Hi].
      by destruct (Forall2_lookup_l _ _ _ _ _ Hall Hi) as (pk & _ & Hv).
  - intros sigs sg. cbn. unfold toy_aggregate. destruct (forallb _ _); [|done]. intros [= <-].
    split_and!; [vm_compute; reflexivity| |reflexivity]. unfold in_range. decide_now.
  - by intros bytes pk [= ->].
Qed.

Definition local_vote1 : Vote (list Z) := mkVote 1 110 (sa_digest commit1) 20 (to_be_bytes 96 7).
Definition local_quorum1 : Quorum Signature := mkQuorum 110 (sa_digest commit1) 1 [local_vote1].
Definition cache1 : ProofCache := cache_insert (sa_attestation commit1) (sa_continuity_proof commit1) cache_new.
Definition keys1 : ElectedSet := mkElectedSet _ {[20 := to_be_bytes 48 555]} {[20]}.
Definition submitted1 : Aggregated Signature := mkAggregated 110 (sa_digest commit1) commit1 [local_vote1].

Lemma run1_attestors : row (Attestors (attestation run1)) 1 = {[20 := mkAttestor (Some 555) Active 10]}.
Proof. vm_compute. reflexivity. Qed.

Lemma up_to_date1 : up_to_date (attestation run1) 1 keys1 cache1 local_quorum1.
Proof.
  constructor.
  - vm_compute. reflexivity.
  - intros x k. unfold attestor_bls_pubkey, dget. rewrite run1_attestors. intros (r & Hr & Hk)%bind_Some.
    apply lookup_singleton_Some in Hr as [_ <-]. injection Hk as <-. unfold in_range. decide_now.
  - apply cache_reached_ok. apply rtc_once. apply cs_insert.
  - apply NoDup_singleton.
  - intros p. assert (cache_get 110 (sa_digest commit1) cache1 =
      Some (mkCachedProof (sa_attestation commit1) (sa_continuity_proof commit1))) as Hget by (vm_compute; reflexivity).
    cbn [local_quorum1 q_height q_digest q_votes]. rewrite Hget. intros [= <-]. split; [reflexivity|].
    constructor; [|constructor]. intros pk _. vm_compute. reflexivity.
Qed.

Lemma submitter_agrees_with_runtime_witness :
  (validate_attestation env1 1 commit1 (attestation run1)).1 = Ok tt /\
  match (validate_attestation env1 1 (ag_attestation_signed submitted1) (attestation run1)).1 with
  | Ok _ => True
  | Err e => refusal (attestation run1) (ag_attestation_signed submitted1) e
  end.
Proof.
  split; [vm_compute; reflexivity|].
  apply (submitter_agrees_with_runtime sc_cfg run1 env1 keys1 cache1 id local_quorum1 None submitted1).
  - apply run1_reached.
  - apply live1. vm_compute. reflexivity.
  - apply up_to_date1.
  - intros l. apply Permutation_refl.
  - decide_now.
  - decide_now.
  - vm_compute. reflexivity.
  - vm_compute. reflexivity.
Defined.
