(* ===== verification/Sources.v ===== *)
(** * The source-chain streams of an attestor

    [src/common/streams/util/src/lib.rs], [src/common/eth/src/maturity.rs] and
    [src/common/streams/eth/src]: the trait [ChainData] of streams that can be reset,
    the maturity rule, the tip stream ([tip.rs]) and the root stream ([roots.rs]),
    whose block fetches and root computations run concurrently and are put back in
    order by a heap. The tasks, the heads and the lost connections are a schedule
    that the root stream is run on. *)

From stdpp Require Import prelude gmap gmultiset list sorting.
From Stdlib Require Import ZArith Lia.
From S2P Require Import Prelude Primitives.

Record RootInfo := mkRootInfo { ri_height : Height; ri_root : Digest; ri_hash : Digest }.

Record AttestationInfo := mkAttestationInfo { ai_height : Height; ai_digest : Digest }.

(** The heights of source chains stay below this. *)
Definition height_limit : Z := 2 ^ 63.

(** ** Streams *)

Inductive Poll (A : Type) := Ready (a : A) | Pending.
Arguments Ready {A}.
Arguments Pending {A}.

(** The trait [ChainData<T>]: [Stream]'s [poll_next], and [reset]. *)
Class ChainData (St T : Type) := {
  poll_next : St -> Poll (option T) * St;
  reset : AttestationInfo -> St -> St;
}.

(** A stream of the roots of the chain [source] keeps the height it yields next. *)
Class RootSource (R : Type) `{!ChainData R RootInfo} (source : Height -> RootInfo) := {
  rs_ok : R -> Prop;
  rs_next : R -> Height;
  rs_poll r : rs_ok r ->
    match poll_next r with
    | (Ready (Some info), r') => rs_ok r' /\ info = source (rs_next r) /\ rs_next r' = rs_next r + 1
    | (Ready None, r') | (Pending, r') => rs_ok r' /\ rs_next r' = rs_next r
    end;
  rs_reset info r : rs_ok r -> in_range 64 (ai_height info) ->
    rs_ok (reset info r) /\ rs_next (reset info r) = ai_height info;
}.

(** A stream of tips only yields tips above those it has yielded. *)
Class TipSource (T : Type) `{!ChainData T Height} := {
  ts_ok : T -> Prop;
  ts_last : T -> Z;
  ts_poll t : ts_ok t ->
    match poll_next t with
    | (Ready (Some tip), t') => ts_ok t' /\ ts_last t < tip < height_limit /\ ts_last t' = tip
    | (Ready None, t') | (Pending, t') => ts_ok t' /\ ts_last t' = ts_last t
    end;
  ts_bounds t : ts_ok t -> -1 <= ts_last t < height_limit;
  ts_reset info t : ts_ok t -> ts_ok (reset info t);
}.

(** ** Maturity *)

Inductive BlockTag := Safe | Finalized.

Inductive Maturity := FixedLag (lag : Z) | Tag (tag : BlockTag).

Definition needs_rpc (m : Maturity) : bool := match m with Tag _ => true | FixedLag _ => false end.

(** [by_tag] is the node's answer for the tag. *)
Definition mature_height (by_tag : BlockTag -> Result unit Height) (m : Maturity) (head : Height)
    : Result unit (option Height) :=
  match m with
  | FixedLag lag => Ok (checked_sub head lag)
  | Tag tag =>
      match by_tag tag with
      | Ok tagged => Ok (Some (Z.min tagged head))
      | Err e => Err e
      end
  end.

(** The range of heights [lo..=hi]. *)
Definition heights (lo hi : Height) : list Height := seqZ lo (hi - lo + 1).

Definition newly_mature (next_unfetched mature : Height) : list Height :=
  if next_unfetched <=? mature then heights next_unfetched mature else [].

(** ** The bounds of the root stream *)

Definition clamp_to_head (bound head : option Height) : option Height :=
  b ← bound; h ← head; Some (Z.min b h).

Definition newest_head (seen : option Height) (observed : Height) : option Height :=
  Some (match seen with Some s => Z.max s observed | None => observed end).

(** What a bound is computed from: a head with the node's answer for its tag, or a
    bound that was published. *)
Inductive Obs := Head (head : Height) (by_tag : BlockTag -> Result unit Height) | Bound (bound : option Height).

Inductive Boundary := Source (m : Maturity) | Attested.

(** The newest head and the last published bound, which an attested bound is clamped
    with. *)
Record BoundState := mkBoundState { bs_head : option Height; bs_bound : option Height }.

Definition candidate_bound (boundary : Boundary) (obs : Obs) (st : BoundState) : option Height * BoundState :=
  match boundary, obs with
  | Source m, Head head by_tag =>
      (match mature_height by_tag m head with Ok mature => mature | Err _ => None end, st)
  | Source _, Bound _ => (None, st)
  | Attested, Head head _ =>
      let st' := mkBoundState (newest_head (bs_head st) head) (bs_bound st) in
      (clamp_to_head (bs_bound st') (bs_head st'), st')
  | Attested, Bound bound =>
      let st' := mkBoundState (bs_head st) bound in
      (clamp_to_head (bs_bound st') (bs_head st'), st')
  end.

(** One step of [heights_to_fetch]: the heights a bound releases, and the next one. *)
Definition release_heights (next_unfetched : Height) (bound : option Height) : list Height * Height :=
  match bound with
  | None => ([], next_unfetched)
  | Some b =>
      let range := newly_mature next_unfetched b in
      (range, match range with [] => next_unfetched | _ => wrap 64 (b + 1) end)
  end.

Inductive Silence := QuietChain | DeadSubscription.

Definition judge_silence (baseline : option Height) (probe : Result unit Height) : Silence * option Height :=
  match baseline, probe with
  | None, Ok head => (QuietChain, Some head)
  | Some seen, Ok head => if head <=? seen then (QuietChain, Some seen) else (DeadSubscription, Some head)
  | seen, Err _ => (DeadSubscription, seen)
  end.

(** ** The root stream *)

Record RootsConfig := mkRootsConfig {
  rc_bound : Boundary;
  rc_max_concurrency : nat;
  rc_max_parallelism : nat;
  rc_stop_on_unrecoverable : bool;
}.

(** What [stream_rpc] holds: the heights that bounds have released and the block
    fetches under way. A block is known by its height. *)
Record Session := mkSession {
  se_unfetched : Height;
  se_bounds : BoundState;
  se_released : list Height;
  se_blocks : list Height;
  se_heads_ended : bool;
}.

(** What the generator of [StreamRoots] holds besides: the block it was handed while
    every root computation was taken, the computations under way, and the heap. *)
Record Roots := mkRoots {
  rt_next : Height;
  rt_session : Session;
  rt_handed : option Height;
  rt_computing : list Height;
  rt_heap : list RootInfo;
  rt_ended : bool;
}.

#[export] Instance eta_session : Settable Session :=
  fun s => mkSession (se_unfetched s) (se_bounds s) (se_released s) (se_blocks s) (se_heads_ended s).
#[export] Instance eta_roots : Settable Roots :=
  fun s => mkRoots (rt_next s) (rt_session s) (rt_handed s) (rt_computing s) (rt_heap s) (rt_ended s).

(** The derived order of [RootInfo], which the heap pops the least of. *)
Definition root_leb (x y : RootInfo) : bool :=
  (ri_height x <? ri_height y) ||
  (ri_height x =? ri_height y) &&
    ((ri_root x <? ri_root y) || (ri_root x =? ri_root y) && (ri_hash x <=? ri_hash y)).

Fixpoint heap_push (info : RootInfo) (heap : list RootInfo) : list RootInfo :=
  match heap with
  | [] => [info]
  | x :: heap' => if root_leb info x then info :: heap else x :: heap_push info heap'
  end.

Inductive FetchError := Shutdown | Unrecoverable | Transient.

(** What happens to the stream's tasks: a head or a bound arrives, the heads end, a
    released height is taken up, the [i]-th fetch is joined with its block or its
    error, the [i]-th root computation is joined, the block stream ends. *)
Inductive RootsEvent :=
| Observe (obs : Obs)
| HeadsEnd
| Spawn
| Fetched (i : nat)
| FetchFailed (i : nat) (err : FetchError)
| Computed (i : nat)
| StreamLost.

Definition session_at (start : Height) : Session := mkSession start (mkBoundState None None) [] [] false.

Definition roots_new (start : Height) : Roots := mkRoots start (session_at start) None [] [] false.

(** [Self::reconnect(&config, next)], after the heap and the computations are dropped. *)
Definition reconnect (st : Roots) : Roots :=
  st <| rt_heap := [] |> <| rt_computing := [] |> <| rt_session := session_at (rt_next st) |>.

Section Roots.
Context (cfg : RootsConfig) (source : Height -> RootInfo).

(** The handed block's computation is spawned once there is room. *)
Definition resume (st : Roots) : Roots :=
  match rt_handed st with
  | Some n =>
      if (length (rt_computing st) <? rc_max_parallelism cfg)%nat
      then st <| rt_handed := None |> <| rt_computing ::= fun l => l ++ [n] |>
      else st
  | None => st
  end.

(** An event; the generator listens to the block stream only when it holds no block. *)
Definition on_event (ev : RootsEvent) (st : Roots) : Roots :=
  let se := rt_session st in
  match ev with
  | Computed i =>
      match rt_computing st !! i with
      | Some n =>
          st <| rt_computing := delete i (rt_computing st) |> <| rt_heap ::= heap_push (source n) |>
      | None => st
      end
  | Observe obs =>
      if se_heads_ended se then st else
      let '(bound, bs) := candidate_bound (rc_bound cfg) obs (se_bounds se) in
      let '(range, unfetched) := release_heights (se_unfetched se) bound in
      st <| rt_session := se <| se_unfetched := unfetched |> <| se_bounds := bs |>
              <| se_released ::= fun l => l ++ range |> |>
  | HeadsEnd => st <| rt_session := se <| se_heads_ended := true |> |>
  | _ =>
    if bool_decide (is_Some (rt_handed st)) then st else
    match ev with
    | Spawn =>
        match se_released se with
        | n :: rest =>
            if (length (se_blocks se) <? rc_max_concurrency cfg)%nat
            then st <| rt_session := se <| se_released := rest |> <| se_blocks ::= fun l => l ++ [n] |> |>
            else st
        | [] => st
        end
    | Fetched i =>
        match se_blocks se !! i with
        | Some n => st <| rt_session := se <| se_blocks := delete i (se_blocks se) |> |> <| rt_handed := Some n |>
        | None => st
        end
    | FetchFailed i err =>
        match se_blocks se !! i with
        | Some _ =>
            match err with
            | Shutdown => st <| rt_computing := [] |> <| rt_ended := true |>
            | Unrecoverable =>
                if rc_stop_on_unrecoverable cfg
                then st <| rt_computing := [] |> <| rt_ended := true |>
                else reconnect st
            | Transient => reconnect st
            end
        | None => st
        end
    | StreamLost =>
        match se_heads_ended se, se_released se, se_blocks se with
        | true, [], [] => reconnect st
        | _, _, _ => st
        end
    | _ => st
    end
  end.

(** A poll: the heap is drained before anything else; then the events of the schedule
    are taken until a root is next or the schedule is empty. *)
Fixpoint roots_poll (events : list RootsEvent) (st : Roots) : Poll (option RootInfo) * (Roots * list RootsEvent) :=
  if rt_ended st then (Ready None, (st, events)) else
  let wait :=
    match events with
    | [] => (Pending, (st, []))
    | ev :: events' => roots_poll events' (on_event ev (resume st))
    end in
  match rt_heap st with
  | info :: heap =>
      if ri_height info =? rt_next st
      then (Ready (Some info), (st <| rt_next ::= fun n => wrap 64 (n + 1) |> <| rt_heap := heap |>, events))
      else wait
  | [] => wait
  end.

(** A run of the stream to the end of its schedule: what it yields. *)
Fixpoint roots_run (fuel : nat) (events : list RootsEvent) (st : Roots) : list RootInfo * Roots :=
  match fuel with
  | O => ([], st)
  | S fuel =>
      match roots_poll events st with
      | (Ready (Some info), (st', events')) => let '(yields, st'') := roots_run fuel events' st' in (info :: yields, st'')
      | (_, (st', _)) => ([], st')
      end
  end.
End Roots.

(** ** The tip stream *)

Inductive TipEvent := TipHead (head : Height) (by_tag : BlockTag -> Result unit Height) | TipHeadsLost.

(** The last tip, and whether heads below the start are still being skipped. *)
Record Tips := mkTips { tp_start : Height; tp_tip : option Height; tp_skipping : bool }.

Definition tips_new (start : Height) : Tips := mkTips start None true.

Fixpoint tips_poll (m : Maturity) (events : list TipEvent) (st : Tips) : Poll (option Height) * (Tips * list TipEvent) :=
  match events with
  | [] => (Pending, (st, []))
  | TipHeadsLost :: events' => tips_poll m events' (mkTips (tp_start st) (tp_tip st) true)
  | TipHead head by_tag :: events' =>
      if tp_skipping st && (head <? tp_start st) then tips_poll m events' st
      else
        let st' := mkTips (tp_start st) (tp_tip st) false in
        match mature_height by_tag m head with
        | Ok (Some tip_new) =>
            if match tp_tip st with None => true | Some tip => tip <? tip_new end
            then (Ready (Some tip_new), (mkTips (tp_start st) (Some tip_new) false, events'))
            else tips_poll m events' st'
        | _ => tips_poll m events' st'
        end
  end.

(** ** The root stream puts the roots in order and loses none *)

Section Order.
Context (cfg : RootsConfig) (source : Height -> RootInfo).
Hypothesis source_height : forall n, ri_height (source n) = n.
Implicit Types (st : Roots) (ev : RootsEvent).

(** The fixed lag of a maturity is a [u64]. *)
Definition boundary_typed (b : Boundary) : Prop :=
  match b with Source (FixedLag lag) => 0 <= lag | _ => True end.
Hypothesis bound_typed : boundary_typed (rc_bound cfg).

(** Heads are below the largest [u64]. *)
Definition event_typed ev : Prop := match ev with Observe (Head head _) => head < umax 64 | _ => True end.

(** The released heights that have not been yielded, wherever they are. *)
Definition in_flight st : gmultiset Height :=
  list_to_set_disj (se_released (rt_session st)) ⊎ list_to_set_disj (se_blocks (rt_session st)) ⊎
  list_to_set_disj (option_list (rt_handed st)) ⊎ list_to_set_disj (rt_computing st) ⊎
  list_to_set_disj (ri_height <$> rt_heap st).

Definition span (lo hi : Height) : gmultiset Height := list_to_set_disj (seqZ lo (hi - lo)).

Definition heap_ok (heap : list RootInfo) : Prop :=
  StronglySorted (fun x y => ri_height x <= ri_height y) heap /\ Forall (fun x => x = source (ri_height x)) heap.

(** Every released height is in flight exactly once, and tasks are within their bounds. *)
Record roots_inv st : Prop := {
  ri_flight : in_flight st = span (rt_next st) (se_unfetched (rt_session st));
  ri_order : 0 <= rt_next st <= se_unfetched (rt_session st);
  ri_fits : se_unfetched (rt_session st) <= umax 64;
  ri_heads : forall h, bs_head (se_bounds (rt_session st)) = Some h -> h < umax 64;
  ri_heap : heap_ok (rt_heap st);
  ri_blocks : (length (se_blocks (rt_session st)) <= rc_max_concurrency cfg)%nat;
  ri_computing : (length (rt_computing st) <= rc_max_parallelism cfg)%nat;
}.

Lemma span_nil n : span n n = ∅.
Proof. unfold span. by rewrite Z.sub_diag. Qed.

Lemma span_cons lo hi : lo < hi -> span lo hi = {[+ lo +]} ⊎ span (lo + 1) hi.
Proof.
  intros Hlt. unfold span. rewrite seqZ_cons by lia.
  rewrite list_to_set_disj_cons. do 3 f_equal; lia.
Qed.

Lemma span_app lo mid hi : lo <= mid <= hi -> span lo hi = span lo mid ⊎ span mid hi.
Proof.
  intros Hle. unfold span. rewrite <- list_to_set_disj_app. f_equal.
  replace (hi - lo) with ((mid - lo) + (hi - mid)) by lia. rewrite seqZ_app by lia. do 3 f_equal; lia.
Qed.

Lemma elem_of_span n lo hi : n ∈ span lo hi <-> lo <= n < hi.
Proof. unfold span. rewrite elem_of_list_to_set_disj, elem_of_seqZ. lia. Qed.

Lemma heap_push_heights info heap :
  list_to_set_disj (ri_height <$> heap_push info heap) =@{gmultiset Z}
  {[+ ri_height info +]} ⊎ list_to_set_disj (ri_height <$> heap).
Proof.
  induction heap as [|x heap IH]; [done|]. cbn [heap_push]. destruct (root_leb info x); [done|].
  rewrite !fmap_cons, !list_to_set_disj_cons, IH. multiset_solver.
Qed.

Lemma heap_push_ok info heap : info = source (ri_height info) -> heap_ok heap -> heap_ok (heap_push info heap).
Proof.
  intros Hinfo [Hs Hf]. unfold heap_ok. induction heap as [|x heap IH]; cbn [heap_push].
  { split; repeat constructor; done. }
  apply StronglySorted_inv in Hs as [Hs Hx]. apply Forall_cons in Hf as [Hfx Hf].
  destruct (root_leb info x) eqn:Hle.
  - assert (ri_height info <= ri_height x) as Hix by (unfold root_leb in Hle; lia).
    split; [|by repeat constructor]. constructor; [by constructor|]. constructor; [done|].
    eapply Forall_impl; [exact Hx|]. cbn. lia.
  - assert (ri_height x <= ri_height info) as Hxi by (unfold root_leb in Hle; lia).
    destruct (IH Hs Hf) as [Hs' Hf']. split; [|by constructor]. constructor; [done|].
    clear -Hx Hxi. induction heap as [|y heap IH]; cbn [heap_push]; [by repeat constructor|].
    apply Forall_cons in Hx as [Hy Hx]. destruct (root_leb info y); repeat constructor; auto.
Qed.

Lemma candidate_bound_fits obs bs :
  event_typed (Observe obs) -> (forall h, bs_head bs = Some h -> h < umax 64) ->
  let '(bound, bs') := candidate_bound (rc_bound cfg) obs bs in
  (forall b, bound = Some b -> b < umax 64) /\ (forall h, bs_head bs' = Some h -> h < umax 64).
Proof.
  intros Hobs Hbs. unfold candidate_bound. unfold boundary_typed in bound_typed.
  destruct (rc_bound cfg) as [[lag|tag]|], obs as [head by_tag|pub]; cbn in *; try done; split; try done.
  - intros b Hb%checked_sub_Some. lia.
  - intros b. destruct (by_tag tag) as [tagged|]; [|done]. intros [= <-]. lia.
  - unfold clamp_to_head. intros b (p & _ & [= <-])%bind_Some. destruct (bs_head bs) as [h|] eqn:Hh; cbn; [|lia].
    specialize (Hbs _ eq_refl). lia.
  - intros h [= <-]. destruct (bs_head bs) as [h|] eqn:Hh; [|done]. specialize (Hbs _ eq_refl). lia.
  - unfold clamp_to_head. intros b (p & _ & (h & Hh & [= <-])%bind_Some)%bind_Some. specialize (Hbs _ Hh). lia.
Qed.

Lemma release_heights_spec unfetched bound :
  (forall b, bound = Some b -> b < umax 64) -> 0 <= unfetched <= umax 64 ->
  let '(range, unfetched') := release_heights unfetched bound in
  unfetched <= unfetched' <= umax 64 /\ list_to_set_disj range = span unfetched unfetched'.
Proof.
  intros Hb Hu. unfold release_heights, newly_mature. destruct bound as [b|]; [|rewrite span_nil; split; [lia|done]].
  specialize (Hb b eq_refl). destruct (Z.leb_spec unfetched b) as [Hle|]; [|rewrite span_nil; split; [lia|done]].
  unfold heights. rewrite seqZ_cons by lia. rewrite wrap_small by (unfold umax in *; lia).
  split; [lia|]. unfold span. rewrite (seqZ_cons unfetched (b + 1 - unfetched)) by lia. do 3 f_equal. lia.
Qed.

Lemma list_to_set_disj_delete (l : list Height) i n :
  l !! i = Some n -> list_to_set_disj l =@{gmultiset Height} {[+ n +]} ⊎ list_to_set_disj (delete i l).
Proof. intros Hi. rewrite <- list_to_set_disj_cons. apply list_to_set_disj_perm, delete_Permutation, Hi. Qed.

#[local] Arguments list_to_set_disj : simpl never.

Ltac flight := unfold in_flight; cbn [option_list];
  rewrite ?list_to_set_disj_app, ?list_to_set_disj_cons, ?list_to_set_disj_nil; multiset_solver.

Lemma roots_new_inv start : in_range 64 start -> roots_inv (roots_new start).
Proof.
  intros [? ?]. constructor; cbn; try done; try lia; [by rewrite span_nil|]. split; constructor.
Qed.

Lemma reconnect_inv st : roots_inv st -> rt_handed st = None -> roots_inv (reconnect st).
Proof.
  intros [Hf Ho Hfit Hh Hheap Hb Hc] Hnone. constructor; cbn; try done; try lia; [|split; constructor].
  unfold in_flight. cbn. rewrite Hnone, span_nil. done.
Qed.

Lemma resume_inv st : roots_inv st -> roots_inv (resume cfg st).
Proof.
  intros [Hf Ho Hfit Hh Hheap Hb Hc]. unfold resume. destruct (rt_handed st) as [n|] eqn:Hn; [|by constructor].
  destruct (Nat.ltb_spec (length (rt_computing st)) (rc_max_parallelism cfg)); [|by constructor].
  constructor; cbn; try done; [|rewrite length_app; cbn; lia].
  rewrite <- Hf. unfold in_flight. cbn. rewrite Hn. flight.
Qed.

Lemma computed_inv st i n :
  roots_inv st -> rt_computing st !! i = Some n ->
  roots_inv (st <| rt_computing := delete i (rt_computing st) |> <| rt_heap ::= heap_push (source n) |>).
Proof.
  intros [Hf Ho Hfit Hh Hheap Hb Hc] Hi. constructor; cbn; try done.
  - rewrite <- Hf. unfold in_flight. cbn. rewrite heap_push_heights, source_height, (list_to_set_disj_delete _ _ _ Hi).
    multiset_solver.
  - by apply heap_push_ok; [rewrite source_height|].
  - rewrite length_delete by eauto. lia.
Qed.

Lemma observe_inv st obs : roots_inv st -> event_typed (Observe obs) -> roots_inv (on_event cfg source (Observe obs) st).
Proof.
  intros [Hf Ho Hfit Hh Hheap Hb Hc] Hobs. cbn. destruct (se_heads_ended _); [by constructor|].
  pose proof (candidate_bound_fits obs (se_bounds (rt_session st)) Hobs Hh) as Hcb.
  destruct (candidate_bound _ _ _) as [bound bs]. destruct Hcb as [Hbound Hbs].
  pose proof (release_heights_spec (se_unfetched (rt_session st)) bound Hbound ltac:(lia)) as Hrel.
  destruct (release_heights _ _) as [range unfetched]. destruct Hrel as [Hu Hrange]. constructor; cbn; try done; try lia.
  rewrite (span_app (rt_next st) (se_unfetched (rt_session st)) unfetched) by lia. rewrite <- Hf, <- Hrange. unfold in_flight. cbn. flight.
Qed.

Lemma on_event_inv st ev :
  roots_inv st -> event_typed ev ->
  let st' := on_event cfg source ev st in
  rt_next st' = rt_next st /\ (rt_ended st' = true \/ roots_inv st').
Proof.
  intros Hinv Hev. destruct ev as [obs| | |i|i err|i|].
  - split; [|right; by apply observe_inv]. cbn. destruct (se_heads_ended _); [done|].
    destruct (candidate_bound _ _ _). by destruct (release_heights _ _).
  - split; [done|]. right. destruct Hinv. by constructor.
  - cbn -[Nat.ltb]. destruct (rt_handed st) eqn:Hn; [by auto|].
    destruct (se_released (rt_session st)) as [|n rest] eqn:Hr; [by auto|].
    destruct (Nat.ltb_spec (length (se_blocks (rt_session st))) (rc_max_concurrency cfg)); [|by auto].
    split; [done|]. right. destruct Hinv as [Hf Ho Hfit Hh Hheap Hb Hc].
    constructor; cbn; try done; [|rewrite length_app; cbn; lia]. rewrite <- Hf. unfold in_flight. cbn. rewrite Hr, Hn. flight.
  - cbn. destruct (rt_handed st) eqn:Hn; [by auto|].
    destruct (se_blocks (rt_session st) !! i) as [n|] eqn:Hi; [|by auto]. split; [done|]. right.
    destruct Hinv as [Hf Ho Hfit Hh Hheap Hb Hc]. constructor; cbn; try done.
    + rewrite <- Hf. unfold in_flight. cbn. rewrite (list_to_set_disj_delete _ _ _ Hi), Hn. flight.
    + rewrite length_delete by eauto. lia.
  - cbn. destruct (rt_handed st) eqn:Hn; [by auto|].
    destruct (se_blocks (rt_session st) !! i) as [n|] eqn:Hi; [|by auto].
    pose proof (reconnect_inv _ Hinv Hn). destruct err; [by auto| |by auto].
    destruct (rc_stop_on_unrecoverable cfg); by auto.
  - cbn. destruct (rt_computing st !! i) as [n|] eqn:Hi; [|by auto].
    split; [done|]. right. by apply computed_inv.
  - cbn. destruct (rt_handed st) eqn:Hn; [by auto|]. pose proof (reconnect_inv _ Hinv Hn).
    repeat case_match; by auto.
Qed.

Definition roots_ok (events : list RootsEvent) st : Prop :=
  in_range 64 (rt_next st) /\ Forall event_typed events /\ (rt_ended st = true \/ roots_inv st).

(** The heap is drained. *)
Definition drained st : Prop := forall info, head (rt_heap st) = Some info -> ri_height info <> rt_next st.

Lemma heap_top st info heap :
  roots_inv st -> rt_heap st = info :: heap -> ri_height info = rt_next st ->
  info = source (rt_next st) /\ rt_next st < umax 64 /\ roots_inv (st <| rt_next ::= fun n => wrap 64 (n + 1) |> <| rt_heap := heap |>).
Proof.
  intros [Hf Ho Hfit Hh [Hs Hheap] Hb Hc] Htop Hn.
  assert (rt_next st ∈ in_flight st) as Hin.
  { unfold in_flight. rewrite Htop, fmap_cons, list_to_set_disj_cons, Hn. multiset_solver. }
  rewrite Hf in Hin. apply elem_of_span in Hin. rewrite Htop in Hs, Hheap.
  apply StronglySorted_inv in Hs as [Hs _]. apply Forall_cons in Hheap as [Hi Hheap].
  split; [by rewrite <- Hn|]. split; [lia|].
  assert (wrap 64 (rt_next st + 1) = rt_next st + 1) as Hw by (apply wrap_small; unfold umax in *; lia).
  constructor; cbn; rewrite ?Hw; try done; try lia.
  rewrite (span_cons (rt_next st)) in Hf by lia. unfold in_flight in *. cbn. rewrite Htop, fmap_cons, list_to_set_disj_cons, Hn in Hf.
  multiset_solver.
Qed.

(** A poll yields the next root of the chain, or parks with the heap drained. *)
Lemma roots_poll_ok events st :
  roots_ok events st ->
  let '(r, (st', events')) := roots_poll cfg source events st in
  roots_ok events' st' /\
  match r with
  | Ready (Some info) => info = source (rt_next st) /\ rt_next st' = rt_next st + 1
  | Ready None => rt_next st' = rt_next st /\ rt_ended st' = true
  | Pending => rt_next st' = rt_next st /\ events' = [] /\ rt_ended st' = false /\ drained st'
  end.
Proof.
  revert st. induction events as [|ev events IH]; intros st (Hr & Hev & Hst); cbn [roots_poll];
    (destruct (rt_ended st) eqn:Hend; [split; [split_and!; auto|done]|]); destruct Hst as [|Hinv]; try done.
  - destruct (rt_heap st) as [|info heap] eqn:Hh.
    + split; [split_and!; auto|]. split_and!; try done. intros info. by rewrite Hh.
    + destruct (Z.eqb_spec (ri_height info) (rt_next st)) as [Hn|Hn].
      * destruct (heap_top st info heap Hinv Hh Hn) as (-> & Hlt & Hinv').
        assert (wrap 64 (rt_next st + 1) = rt_next st + 1) as Hw by (apply wrap_small; unfold in_range, umax in *; lia).
        split; [|by cbn; rewrite Hw]. split_and!; [cbn; rewrite Hw; unfold in_range in *; lia|done|by right].
      * split; [split_and!; auto|]. split_and!; try done. intros info'. rewrite Hh. by intros [= <-].
  - apply Forall_cons in Hev as [He Hev].
    pose proof (resume_inv _ Hinv) as Hres.
    assert (rt_next (resume cfg st) = rt_next st) as Hrn by (unfold resume; repeat case_match; done).
    destruct (on_event_inv _ ev Hres He) as [Hn' Hinv'].
    specialize (IH (on_event cfg source ev (resume cfg st))). rewrite Hn', Hrn in IH.
    assert (roots_ok events (on_event cfg source ev (resume cfg st))) as Hok.
    { split_and!; [by rewrite Hn', Hrn|done|done]. }
    specialize (IH Hok). destruct (rt_heap st) as [|info heap] eqn:Hh; [done|].
    destruct (Z.eqb_spec (ri_height info) (rt_next st)) as [Hn|Hn]; [|done].
    destruct (heap_top st info heap Hinv Hh Hn) as (-> & Hlt & Hinv'').
    assert (wrap 64 (rt_next st + 1) = rt_next st + 1) as Hw by (apply wrap_small; unfold in_range, umax in *; lia).
    split; [|by cbn; rewrite Hw]. split_and!; [cbn; rewrite Hw; unfold in_range in *; lia|by constructor|by right].
Qed.

(** What is left to process: every yield uses some of it up. *)
Definition roots_load (events : list RootsEvent) st : nat := (length events + length (rt_heap st))%nat.

Lemma length_heap_push info heap : length (heap_push info heap) = S (length heap).
Proof. induction heap as [|x heap IH]; [done|]. cbn. destruct (root_leb info x); [done|]. cbn. by rewrite IH. Qed.

Lemma on_event_load ev st :
  (length (rt_heap (on_event cfg source ev (resume cfg st))) <= S (length (rt_heap st)))%nat.
Proof.
  assert (rt_heap (resume cfg st) = rt_heap st) as <- by (unfold resume; repeat case_match; done).
  destruct ev; cbn -[Nat.ltb]; repeat case_match; cbn; rewrite ?length_heap_push; lia.
Qed.

Lemma roots_poll_load events st :
  match roots_poll cfg source events st with
  | (Ready (Some _), (st', events')) => (roots_load events' st' < roots_load events st)%nat
  | _ => True
  end.
Proof.
  unfold roots_load. revert st. induction events as [|ev events IH]; intros st; cbn [roots_poll];
    (destruct (rt_ended st); [done|]); destruct (rt_heap st) as [|info heap] eqn:Hh; try done;
    try (destruct (ri_height info =? rt_next st); [cbn; lia|]); try done.
  all: specialize (IH (on_event cfg source ev (resume cfg st))); pose proof (on_event_load ev st) as Hl; rewrite Hh in Hl.
  all: destruct (roots_poll _ _ _ _) as [[[info'|]|] [st' events']]; [|done|done]; cbn in *; lia.
Qed.

Lemma roots_run_ok fuel events st :
  roots_ok events st -> (roots_load events st < fuel)%nat ->
  let '(yields, st') := roots_run cfg source fuel events st in
  rt_next st <= rt_next st' /\ yields = source <$> seqZ (rt_next st) (rt_next st' - rt_next st) /\
  (rt_ended st' = true \/ (roots_inv st' /\ drained st')).
Proof.
  revert events st. induction fuel as [|fuel IH]; intros events st Hok Hfuel; [lia|]. cbn [roots_run].
  pose proof (roots_poll_ok events st Hok) as Hp. pose proof (roots_poll_load events st) as Hl.
  destruct (roots_poll _ _ _ _) as [[[info|]|] [st' events']].
  - destruct Hp as (Hok' & -> & Hn). specialize (IH events' st' Hok' ltac:(lia)).
    destruct (roots_run _ _ _ _) as [yields st'']. destruct IH as (Hle & -> & Hend). rewrite Hn in *.
    split_and!; [lia| |done]. rewrite (seqZ_cons (rt_next st)) by lia. rewrite fmap_cons. do 3 f_equal; lia.
  - destruct Hp as (_ & Hn & Hend). rewrite Hn, Z.sub_diag. split_and!; [lia|done|by left].
  - destruct Hp as ((_ & _ & Hst) & Hn & _ & Hend & Hd). rewrite Hn, Z.sub_diag. split_and!; [lia|done|].
    destruct Hst as [|Hinv]; [congruence|by right].
Qed.

(** With nothing else in flight, a drained heap is empty. *)
Lemma drained_done st :
  roots_inv st -> drained st -> se_released (rt_session st) = [] -> se_blocks (rt_session st) = [] ->
  rt_handed st = None -> rt_computing st = [] -> rt_next st = se_unfetched (rt_session st).
Proof.
  intros [Hf Ho _ _ [Hs Hheap] _ _] Hd H1 H2 H3 H4. destruct (decide (rt_next st < se_unfetched (rt_session st))) as [Hlt|]; [|lia].
  exfalso. assert (rt_next st ∈ in_flight st) as Hin by (rewrite Hf; apply elem_of_span; lia).
  unfold in_flight in Hin. rewrite H1, H2, H3, H4 in Hin. cbn [option_list] in Hin. rewrite list_to_set_disj_nil in Hin.
  assert (rt_next st ∈ ri_height <$> rt_heap st) as (x & Hx & Hxin)%list_elem_of_fmap.
  { apply elem_of_list_to_set_disj. multiset_solver. }
  assert (forall y, y ∈ rt_heap st -> rt_next st <= ri_height y) as Hlow.
  { intros y Hy. enough (ri_height y ∈ span (rt_next st) (se_unfetched (rt_session st))) as ?%elem_of_span by lia.
    rewrite <- Hf. unfold in_flight. apply gmultiset_elem_of_disj_union. right. apply elem_of_list_to_set_disj.
    apply list_elem_of_fmap. eauto. }
  unfold drained in Hd. destruct (rt_heap st) as [|top heap]; [by apply elem_of_nil in Hxin|].
  apply (Hd top eq_refl). specialize (Hlow top ltac:(constructor)). apply StronglySorted_inv in Hs as [_ Hall].
  apply elem_of_cons in Hxin as [-> | Hxin]; [done|]. eapply Forall_forall in Hall; [|exact Hxin]. cbn in Hall. lia.
Qed.

(** C33: the root stream is ordered and loses nothing. However its block fetches, its root
    computations, heads and lost connections interleave, the stream yields the roots
    of consecutive heights from its start, each once. Every height released to be
    fetched and not yet yielded is in flight exactly once, no more tasks run than
    configured, and once no task is left everything released has been yielded. *)
Theorem root_stream_keeps_order start events fuel :
  in_range 64 start -> Forall event_typed events -> (length events < fuel)%nat ->
  let '(yields, st) := roots_run cfg source fuel events (roots_new start) in
  yields = source <$> seqZ start (rt_next st - start) /\
  (rt_ended st = false ->
    in_flight st = span (rt_next st) (se_unfetched (rt_session st)) /\
    (length (se_blocks (rt_session st)) <= rc_max_concurrency cfg)%nat /\
    (length (rt_computing st) <= rc_max_parallelism cfg)%nat /\
    (se_released (rt_session st) = [] -> se_blocks (rt_session st) = [] ->
     rt_handed st = None -> rt_computing st = [] -> rt_next st = se_unfetched (rt_session st))).
Proof.
  intros Hstart Hev Hfuel.
  pose proof (roots_run_ok fuel events (roots_new start)) as Hrun.
  destruct (roots_run _ _ _ _ _) as [yields st]. destruct Hrun as (Hle & Hy & Hend).
  { split_and!; [done|done|right; by apply roots_new_inv]. }
  { unfold roots_load. cbn. lia. }
  split; [done|]. intros Hne. destruct Hend as [|[Hinv Hd]]; [congruence|].
  split_and!; [apply Hinv..|]. intros. by apply drained_done.
Qed.
End Order.

(** ** The streams behind the trait *)

Section Instances.
Context (cfg : RootsConfig) (m : Maturity) (source : Height -> RootInfo).

#[export] Instance roots_chain_data : ChainData (Roots * list RootsEvent) RootInfo := {
  poll_next s := roots_poll cfg source s.2 s.1;
  reset info s := (roots_new (ai_height info), s.2);
}.

#[export] Instance tips_chain_data : ChainData (Tips * list TipEvent) Height := {
  poll_next s := tips_poll m s.2 s.1;
  reset info s := (tips_new (ai_height info), s.2);
}.

Hypothesis source_height : forall n, ri_height (source n) = n.
Hypothesis bound_typed : boundary_typed (rc_bound cfg).
Hypothesis lag_typed : boundary_typed (Source m).

#[export] Instance roots_source : RootSource (Roots * list RootsEvent) source.
Proof.
  refine {| rs_ok := fun s => roots_ok cfg source s.2 s.1; rs_next := fun s => rt_next s.1 |}.
  - intros [st events] Hok. pose proof (roots_poll_ok cfg source source_height bound_typed events st Hok) as Hp.
    cbn in *. destruct (roots_poll cfg source events st) as [[[info|]|] [st' events']]; cbn; tauto.
  - intros info [st events] (_ & Hev & _) Hinfo. split; [|done]. split_and!; [done|done|right].
    by apply roots_new_inv.
Defined.

Definition tip_event_typed (ev : TipEvent) : Prop :=
  match ev with
  | TipHead head by_tag => 0 <= head < height_limit /\ forall tag n, by_tag tag = Ok n -> 0 <= n
  | TipHeadsLost => True
  end.

Definition tips_ok (s : Tips * list TipEvent) : Prop :=
  Forall tip_event_typed s.2 /\ forall tip, tp_tip s.1 = Some tip -> 0 <= tip < height_limit.

Lemma mature_height_range by_tag head tip :
  tip_event_typed (TipHead head by_tag) -> mature_height by_tag m head = Ok (Some tip) -> 0 <= tip < height_limit.
Proof.
  unfold mature_height, boundary_typed in *. intros [[H0 H1] Htag]. destruct m as [lag|tag].
  - intros [= Hc]. apply checked_sub_Some in Hc. cbn in lag_typed. split; lia.
  - destruct (by_tag tag) as [tagged|] eqn:Ht; [|done]. intros [= <-]. specialize (Htag _ _ Ht). split; lia.
Qed.

Lemma tips_poll_ok events st :
  tips_ok (st, events) ->
  match tips_poll m events st with
  | (Ready (Some tip), s') => tips_ok s' /\ default (-1) (tp_tip st) < tip < height_limit /\ tp_tip s'.1 = Some tip
  | (_, s') => tips_ok s' /\ tp_tip s'.1 = tp_tip st
  end.
Proof.
  revert st. induction events as [|ev events IH]; intros st [Hev Hst]; [done|].
  cbn in Hev, Hst. apply Forall_cons in Hev as [He Hev]. destruct ev as [head by_tag|]; cbn [tips_poll].
  2: { by apply (IH (mkTips (tp_start st) (tp_tip st) true)). }
  destruct (tp_skipping st && (head <? tp_start st)); [by apply IH|].
  pose proof (IH (mkTips (tp_start st) (tp_tip st) false) (conj Hev Hst)) as IH'. cbn in IH'.
  destruct (mature_height by_tag m head) as [[tip|]|] eqn:Hm; [|done|done].
  apply (mature_height_range _ _ _ He) in Hm. destruct (tp_tip st) as [last|] eqn:Hl.
  - destruct (Z.ltb_spec last tip); [|done]. cbn. split_and!; [|done|apply Hm|done]. split; [done|]. by intros ? [= <-].
  - cbn. split_and!; [|destruct Hm; lia|apply Hm|done]. split; [done|]. by intros ? [= <-].
Qed.

#[export] Instance tips_source : TipSource (Tips * list TipEvent).
Proof.
  refine {| ts_ok := tips_ok; ts_last := fun s => default (-1) (tp_tip s.1) |}.
  - intros [st events] Hok. pose proof (tips_poll_ok events st Hok) as Hp.
    cbn in *. destruct (tips_poll m events st) as [[[tip|]|] s']; destruct Hp as [Hok' Hp].
    + destruct Hp as [Hlt ->]. done.
    + by rewrite Hp.
    + by rewrite Hp.
  - intros [st events] [_ Hst]. cbn in *. destruct (tp_tip st) as [tip|] eqn:Ht; cbn; [|unfold height_limit; lia].
    destruct (Hst tip eq_refl). lia.
  - intros info [st events] [Hev _]. by split.
Defined.
End Instances.

(** ** A run *)

Definition toy_source (n : Height) : RootInfo := mkRootInfo n (1000 + n) (2000 + n).

Definition toy_roots : RootsConfig := mkRootsConfig (Source (FixedLag 2)) 2 1 false.

Definition no_tag (tag : BlockTag) : Result unit Height := Err tt.

(** Blocks and roots complete out of order, and a fetch fails half way. *)
Definition toy_events : list RootsEvent :=
  [Observe (Head 7 no_tag); Spawn; Spawn; Spawn; Fetched 1; Fetched 0; Computed 0; Computed 0; Spawn; FetchFailed 0 Transient;
   Observe (Head 8 no_tag); Spawn; Spawn; Fetched 1; Computed 0; Fetched 0; Computed 0].

Lemma toy_run_yields :
  (roots_run toy_roots toy_source 18 toy_events (roots_new 3)).1 = toy_source <$> [3; 4; 5; 6].
Proof. vm_compute. reflexivity. Qed.

Lemma toy_events_typed : Forall event_typed toy_events.
Proof. repeat constructor. Qed.

Lemma root_stream_keeps_order_witness :
  let '(yields, st) := roots_run toy_roots toy_source 18 toy_events (roots_new 3) in
  yields = toy_source <$> seqZ 3 (rt_next st - 3).
Proof.
  pose proof (root_stream_keeps_order toy_roots toy_source (fun n => eq_refl) (Z.le_0_2) 3 toy_events 18
    ltac:(split; vm_compute; discriminate) toy_events_typed ltac:(cbn; lia)) as H.
  destruct (roots_run _ _ _ _ _) as [yields st]. exact (proj1 H).
Defined.
