(* ===== verification/AttestationStream.v ===== *)
(** * The attestation stream

    [src/common/streams/attestation/src/lib.rs]: [StreamAttestation] follows the tip
    and the roots of a source chain and produces, backwards from the tip, the
    attestations that extend the last finalized one. An assertion that fails is the
    outcome [Panicked]; the two loops of [poll_next] take fuel. [usize] is 64 bits
    wide, as on the hosts attestors run on. *)

From stdpp Require Import prelude gmap list sorting.
From Stdlib Require Import ZArith Lia.
From S2P Require Import Prelude Primitives Types Concrete Sources.

(** The attestor's keys, and the signing functions of their libraries. *)
Class Signer `{Bls} := {
  signer_id : AccountId;
  sr_sign : list Z -> list Z;
  bls_sign : list Z -> Signature;
}.

Record Attestation `{Bls} := mkAttestation {
  an_data : AttestationData;
  an_attestor : AccountId;
  an_signature : list Z;
  an_signature_bls : Signature;
  an_proof : ContinuityProof;
}.

Record StreamConfig (R T : Type) := mkStreamConfig {
  sc_chain_key : ChainKey;
  sc_roots : R;
  sc_tips : T;
  sc_interval : Z;
  sc_prev : AttestationInfo;
  sc_max_catchup : Z;
}.
Arguments mkStreamConfig {R T}.
Arguments sc_chain_key {R T}.
Arguments sc_roots {R T}.
Arguments sc_tips {R T}.
Arguments sc_interval {R T}.
Arguments sc_prev {R T}.
Arguments sc_max_catchup {R T}.

Record StreamAttestation (R T : Type) := mkStream {
  sa_key : ChainKey;
  stream_roots : R;
  stream_tip : T;
  fetching : bool;
  cache : list RootInfo;
  catchup : Z;
  interval : Z;
  prev : AttestationInfo;
  computed_start : Height;
  computed_end : Height;
  tip : Height;
  cursor : Height;
  waker : bool;
}.
Arguments mkStream {R T}.
Arguments sa_key {R T}.
Arguments stream_roots {R T}.
Arguments stream_tip {R T}.
Arguments fetching {R T}.
Arguments cache {R T}.
Arguments catchup {R T}.
Arguments interval {R T}.
Arguments prev {R T}.
Arguments computed_start {R T}.
Arguments computed_end {R T}.
Arguments tip {R T}.
Arguments cursor {R T}.
Arguments waker {R T}.

#[export] Instance eta_stream R T : Settable (StreamAttestation R T) := fun s =>
  mkStream (sa_key s) (stream_roots s) (stream_tip s) (fetching s) (cache s) (catchup s) (interval s) (prev s)
    (computed_start s) (computed_end s) (tip s) (cursor s) (waker s).

Inductive Outcome (A : Type) := Yield (a : A) | Parked | Ended | Panicked.
Arguments Yield {A}.
Arguments Parked {A}.
Arguments Ended {A}.
Arguments Panicked {A}.

(** The catch-up bound is aligned to the interval, and is at least one interval. *)
Definition align_catchup (max_catchup interval : Z) : Z :=
  let div := max_catchup / interval in
  saturating_mul 64 interval (if div =? 0 then 1 else div).

Section Stream.
Context `{Keccak} `{Signer} {R T : Type} `{!ChainData R RootInfo} `{!ChainData T Height}.
Implicit Types (s : StreamAttestation R T) (info : AttestationInfo).

(** The buffer allocated for the cache is left out: the capacity of a bound beyond
    what memory can address would be refused. *)
Definition stream_new (c : StreamConfig R T) : StreamAttestation R T :=
  mkStream (sc_chain_key c) (sc_roots c) (sc_tips c) false [] (align_catchup (sc_max_catchup c) (sc_interval c))
    (sc_interval c) (sc_prev c) (ai_height (sc_prev c)) (ai_height (sc_prev c)) 0 0 false.

Definition note_attestation_finalization info s : StreamAttestation R T :=
  if ai_height (prev s) <=? ai_height info then
    let last := Z.max (ai_height info) (computed_end s) in
    let drained :=
      match cache s with
      | [] => []
      | first :: _ =>
          if ri_height first <=? ai_height info then
            let index := Z.min (ai_height info - ri_height first) (zlen (cache s) - 1) in
            drop (Z.to_nat (index + 1)) (cache s)
          else cache s
      end in
    s <| computed_start := ai_height info |> <| computed_end := last |> <| cursor := last |>
      <| prev := info |> <| cache := drained |> <| waker := false |>
  else s.

(** The block after the last finalized one, at which the sources restart. *)
Definition next_info s : AttestationInfo :=
  mkAttestationInfo (wrap 64 (ai_height (prev s) + 1)) (ai_digest (prev s)).

Definition note_attestation_interval_change (interval_new : Z) s : StreamAttestation R T :=
  stream_new (mkStreamConfig (sa_key s) (reset (next_info s) (stream_roots s)) (reset (next_info s) (stream_tip s))
    interval_new (prev s) (catchup s)).

Definition note_max_catchup_change (max_catchup_new : Z) s : StreamAttestation R T :=
  stream_new (mkStreamConfig (sa_key s) (reset (next_info s) (stream_roots s)) (reset (next_info s) (stream_tip s))
    (interval s) (prev s) max_catchup_new).

(** [ChainData::reset] of the stream itself. *)
Definition stream_reset info s : StreamAttestation R T :=
  stream_new (mkStreamConfig (sa_key s) (reset info (stream_roots s)) (reset info (stream_tip s))
    (interval s) info (catchup s)).

Definition note_attestation_chain_reversion info s : StreamAttestation R T := stream_reset info s.

Definition sign_attestation (data : AttestationData) (proof : ContinuityProof) : Attestation :=
  let message := serialize data in
  mkAttestation _ data signer_id (sr_sign message) (bls_sign message) proof.

Definition generate_attestation_genesis (root : RootInfo) s : Attestation :=
  sign_attestation (mkAttestationData (sa_key s) (ri_height root) (ri_hash root) (ri_root root) None)
    (mkContinuityProof 0 []).

(** The fold over the cached roots below the target. *)
Definition chain_blocks (digest : Digest) (infos : list RootInfo) : list Block :=
  foldl (fun acc root =>
    let digest_prev := match last acc with Some block => b_digest block | None => digest end in
    acc ++ [new_from_prev_digest (ri_height root) (ri_root root) digest_prev]) [] infos.

Definition generate_attestation (target : Height) s : option Attestation :=
  match cache s, last (cache s) with
  | first :: _, Some block_last =>
      if (computed_start s <? target) && (target <=? computed_end s) &&
         (ri_height first <=? target) && (target <=? ri_height block_last)
      then
        let index := Z.to_nat (target - ri_height first) in
        root ← cache s !! index;
        if negb (ri_height root =? target) then None else
        let blocks := chain_blocks (ai_digest (prev s)) (take index (cache s)) in
        let continuity_proof := from_blocks blocks in
        let prev_digest :=
          match roots continuity_proof with
          | [] => Some (ai_digest (prev s))
          | _ => Some (compute_continuity_digest continuity_proof (ri_height first))
          end in
        Some (sign_attestation
          (mkAttestationData (sa_key s) target (ri_hash root) (ri_root root) prev_digest) continuity_proof)
      else None
  | _, _ => None
  end.

Definition last_cached s : Height := match last (cache s) with Some info => ri_height info | None => 0 end.

(** Where the next range ends. *)
Definition stop s : Height := Z.min (saturating_add 64 (computed_start s) (catchup s)) (tip s).

Definition missing_roots s : bool := last_cached s <? stop s.

Definition has_space_left s : bool := zlen (cache s) <=? catchup s.

(** The first multiple of the interval above the computed range. *)
Definition next_target s : Height :=
  let next := saturating_add 64 (computed_end s) (interval s) in next - next mod interval s.

(** The turns of the inner loop: a root if there is room for one, then a tip. *)
Inductive Turn := Progress | Stalled | Exhausted.

Definition poll_roots s : Turn * StreamAttestation R T :=
  if has_space_left s then
    match poll_next (stream_roots s) with
    | (Ready (Some root), r) =>
        let s := s <| stream_roots := r |> in
        (Progress, if computed_start s <? ri_height root then s <| cache ::= fun l => l ++ [root] |> else s)
    | (Ready None, r) => (Exhausted, s <| stream_roots := r |>)
    | (Pending, r) => (Stalled, s <| stream_roots := r |>)
    end
  else (Stalled, s).

Definition poll_tip s : Turn * StreamAttestation R T :=
  match poll_next (stream_tip s) with
  | (Ready (Some t), r) => (Progress, s <| stream_tip := r |> <| tip := t - t mod interval s |>)
  | (Ready None, r) => (Exhausted, s <| stream_tip := r |>)
  | (Pending, r) => (Stalled, s <| stream_tip := r |>)
  end.

(** The inner loop: [Yield] once the roots up to [stop] are cached. *)
Fixpoint fetch_roots (fuel : nat) (next : Height) s : option (Outcome unit * StreamAttestation R T) :=
  match fuel with
  | O => None
  | S fuel =>
      if negb ((tip s <? next) || missing_roots s) then Some (Yield tt, s) else
      match poll_roots s with
      | (Exhausted, s) => Some (Ended, s)
      | (roots_turn, s) =>
          match poll_tip s, roots_turn with
          | (Exhausted, s), _ => Some (Ended, s)
          | (Stalled, s), Stalled => Some (Parked, s)
          | (_, s), _ => fetch_roots fuel next s
          end
      end
  end.

(** An attestation below the interval is given up, with all that the range has left. *)
Definition skip_early s : StreamAttestation R T :=
  if cursor s <? saturating_add 64 (ai_height (prev s)) (interval s)
  then s <| cursor := computed_start s |> else s.

(** The outer loop. *)
Fixpoint stream_poll (fuel : nat) s : option (Outcome Attestation * StreamAttestation R T) :=
  match fuel with
  | O => None
  | S fuel' =>
      let s := skip_early s in
      if computed_start s <? cursor s then
        if negb (bool_decide (cache s <> []) && (cursor s <=? last_cached s)) then Some (Panicked, s)
        else match generate_attestation (cursor s) s with
        | None => Some (Panicked, s)
        | Some attestation =>
            Some (Yield attestation, s <| cursor := saturating_sub (cursor s) (interval s) |>)
        end
      else if negb (fetching s) && (catchup s <? zlen (cache s)) then Some (Parked, s <| waker := true |>)
      else
        match fetch_roots fuel (next_target s) (s <| fetching := true |>) with
        | None => None
        | Some (Ended, s) => Some (Ended, s)
        | Some (Parked, s) => Some (Parked, s)
        | Some (Panicked, s) => Some (Panicked, s)
        | Some (Yield _, s) =>
            let s := s <| fetching := false |> in
            if negb (zlen (cache s) <=? catchup s + 1) then Some (Panicked, s)
            else
              let last := stop s in
              stream_poll fuel' (s <| computed_start := computed_end s |> <| computed_end := last |> <| cursor := last |>)
        end
  end.

(** What happens to a stream. *)
Definition info_typed info : Prop := 0 <= ai_height info < height_limit.

(** Settings leave heights and sums of them within a word. *)
Definition setting_typed (n : Z) : Prop := 0 < n < 2 ^ 62.

Inductive stream_step : StreamAttestation R T -> StreamAttestation R T -> Prop :=
| step_poll fuel s r s' : stream_poll fuel s = Some (r, s') -> stream_step s s'
| step_finalized info s : info_typed info -> stream_step s (note_attestation_finalization info s)
| step_interval n s : setting_typed n -> stream_step s (note_attestation_interval_change n s)
| step_catchup n s : setting_typed n -> stream_step s (note_max_catchup_change n s)
| step_reverted info s : info_typed info -> stream_step s (note_attestation_chain_reversion info s).
End Stream.

(** ** Every attestation extends the last finalized one *)

Section Produced.
Context `{Keccak} `{Signer} {R T : Type} `{!ChainData R RootInfo} `{!ChainData T Height}
  (source : Height -> RootInfo) `{!RootSource R source} `{!TipSource T}.
Hypothesis source_height : forall n, ri_height (source n) = n.
Implicit Types (s : StreamAttestation R T) (info : AttestationInfo).

(** The attestation of a height, given the source chain and what it extends: the roots
    of the blocks in between, and the digest they hash to. *)
Definition between (lo hi : Height) : list H256 := ri_root ∘ source <$> seqZ (lo + 1) (hi - lo - 1).

Definition extension_proof info (height : Height) : ContinuityProof :=
  match between (ai_height info) height with
  | [] => mkContinuityProof 0 []
  | rs => mkContinuityProof (ai_digest info) rs
  end.

Definition extension_data (ck : ChainKey) info (height : Height) : AttestationData :=
  mkAttestationData ck height (ri_hash (source height)) (ri_root (source height))
    (Some (compute_continuity_digest (mkContinuityProof (ai_digest info) (between (ai_height info) height))
      (ai_height info + 1))).

Record stream_inv s : Prop := {
  iv_roots : rs_ok (stream_roots s);
  iv_tips : ts_ok (stream_tip s);
  iv_interval : setting_typed (interval s);
  iv_catchup : setting_typed (catchup s);
  iv_prev : info_typed (prev s);
  iv_cache : cache s = source <$> seqZ (ai_height (prev s) + 1) (zlen (cache s));
  iv_next : rs_next (stream_roots s) <= ai_height (prev s) + 1 + zlen (cache s);
  iv_follows : cache s <> [] -> rs_next (stream_roots s) = ai_height (prev s) + 1 + zlen (cache s);
  iv_range : ai_height (prev s) <= computed_start s <= computed_end s;
  iv_cached : computed_end s <= ai_height (prev s) + zlen (cache s);
  iv_end : computed_end s < height_limit;
  iv_cursor : cursor s <= computed_end s;
  iv_space : zlen (cache s) <= catchup s + 1;
  iv_fetching : fetching s = true -> computed_end s <= ai_height (prev s) + catchup s;
  iv_tip : 0 <= tip s < height_limit;
}.

Ltac open_inv H := destruct H as [Hroots Htips Hint Hcat Hprev Hcache Hnext Hfollows Hrange Hcached Hend Hcur
  Hspace Hfetch Htip].

Lemma align_catchup_spec n i :
  setting_typed n -> setting_typed i ->
  setting_typed (align_catchup n i) /\ align_catchup n i <= Z.max n i /\ i <= align_catchup n i.
Proof.
  unfold setting_typed, align_catchup, saturating_mul. intros Hn Hi. change (2 ^ 62) with 4611686018427387904 in *. rewrite umax_64.
  pose proof (Z.mul_div_le n i ltac:(lia)) as Hd. pose proof (Z.div_pos n i ltac:(lia) ltac:(lia)) as Hp.
  destruct (Z.eqb_spec (n / i) 0) as [Hz|Hz]; [lia|]. nia.
Qed.

Lemma stream_new_inv c :
  rs_ok (sc_roots c) -> ts_ok (sc_tips c) -> setting_typed (sc_interval c) -> setting_typed (sc_max_catchup c) ->
  info_typed (sc_prev c) -> rs_next (sc_roots c) <= ai_height (sc_prev c) + 1 -> stream_inv (stream_new c).
Proof.
  intros Hr Ht Hi Hc Hp Hn. destruct (align_catchup_spec _ _ Hc Hi) as (Ha & _). unfold info_typed, setting_typed in *.
  constructor; cbn; try done; change (zlen (@nil RootInfo)) with 0; try (unfold height_limit in *; lia).
Qed.

(** A stream rebuilt on its sources, restarted at or below the first block it needs. *)
Lemma rebuilt_inv n m p info s :
  stream_inv s -> setting_typed n -> setting_typed m -> info_typed p -> in_range 64 (ai_height info) ->
  ai_height info <= ai_height p + 1 ->
  stream_inv (stream_new (mkStreamConfig (sa_key s) (reset info (stream_roots s)) (reset info (stream_tip s)) n p m)).
Proof.
  intros Hs Hn Hm Hp Hrng Hle. open_inv Hs.
  destruct (rs_reset info (stream_roots s) Hroots Hrng) as [Hok Hnr].
  apply stream_new_inv; cbn [sc_roots sc_tips sc_interval sc_max_catchup sc_prev]; try done.
  - by apply ts_reset.
  - by rewrite Hnr.
Qed.

Lemma next_info_range s :
  info_typed (prev s) -> in_range 64 (ai_height (next_info s)) /\ ai_height (next_info s) = ai_height (prev s) + 1.
Proof.
  unfold info_typed, height_limit. intros Hp. cbn. rewrite wrap_small by lia. split; [words; lia|done].
Qed.

Lemma drop_fmap_seqZ {A} (f : Z -> A) lo n k :
  0 <= k <= n -> drop (Z.to_nat k) (f <$> seqZ lo n) = f <$> seqZ (lo + k) (n - k).
Proof.
  intros Hk. replace n with (k + (n - k)) at 1 by lia. rewrite seqZ_app by lia. rewrite fmap_app, drop_app_length'; [done|].
  rewrite length_fmap, length_seqZ. lia.
Qed.

Lemma zlen_fmap_seqZ {A} (f : Z -> A) lo n : 0 <= n -> zlen (f <$> seqZ lo n) = n.
Proof. intros Hn. unfold zlen. rewrite length_fmap, length_seqZ. lia. Qed.

(** Finalization drops the roots up to the finalized height. *)
Lemma drained_cache s info :
  stream_inv s -> ai_height (prev s) <= ai_height info ->
  let k := Z.min (ai_height info - ai_height (prev s)) (zlen (cache s)) in
  cache (note_attestation_finalization info s) = source <$> seqZ (ai_height (prev s) + 1 + k) (zlen (cache s) - k).
Proof.
  intros Hs Hle k. open_inv Hs. unfold note_attestation_finalization. rewrite (proj2 (Z.leb_le _ _) Hle). cbn [cache upd].
  pose proof (zlen_nonneg (cache s)) as Hlen.
  assert (forall j, 0 <= j <= zlen (cache s) ->
    drop (Z.to_nat j) (cache s) = source <$> seqZ (ai_height (prev s) + 1 + j) (zlen (cache s) - j)) as Hdrop.
  { intros j Hj. rewrite Hcache at 1. by apply drop_fmap_seqZ. }
  cbn. destruct (cache s) as [|first rest] eqn:Hc.
  { unfold k. change (zlen (@nil RootInfo)) with 0. rewrite Z.min_r by lia. done. }
  pose proof (zlen_nonneg rest) as Hrest. assert (zlen (first :: rest) = zlen rest + 1) as Hcons by apply zlen_cons.
  assert (ri_height first = ai_height (prev s) + 1) as Hfirst.
  { rewrite seqZ_cons in Hcache by lia. injection Hcache as -> _. apply source_height. }
  rewrite Hfirst. destruct (Z.leb_spec (ai_height (prev s) + 1) (ai_height info)).
  - rewrite <- (Hdrop k) by lia. f_equal. lia.
  - rewrite <- (Hdrop k) by lia. by replace k with 0 by lia.
Qed.

Lemma finalization_inv info s : stream_inv s -> info_typed info -> stream_inv (note_attestation_finalization info s).
Proof.
  intros Hs Hi. destruct (decide (ai_height (prev s) <= ai_height info)) as [Hle|Hgt].
  2: { unfold note_attestation_finalization. by rewrite (proj2 (Z.leb_gt _ _)) by lia. }
  pose proof (drained_cache s info Hs Hle) as Hd. cbv zeta in Hd. set (k := Z.min _ _) in Hd.
  set (s' := note_attestation_finalization info s) in *.
  assert (s' = s <| computed_start := ai_height info |> <| computed_end := Z.max (ai_height info) (computed_end s) |>
    <| cursor := Z.max (ai_height info) (computed_end s) |> <| prev := info |> <| cache := cache s' |> <| waker := false |>) as Heq.
  { unfold s', note_attestation_finalization. by rewrite (proj2 (Z.leb_le _ _) Hle). }
  pose proof (zlen_nonneg (cache s)) as Hlen. open_inv Hs.
  assert (zlen (cache s') = zlen (cache s) - k) as Hlen' by (rewrite Hd; apply zlen_fmap_seqZ; lia).
  assert (cache s' = source <$> seqZ (ai_height info + 1) (zlen (cache s'))) as Hcache'.
  { rewrite Hlen', Hd. destruct (decide (ai_height info - ai_height (prev s) <= zlen (cache s))) as [Hin|Hout].
    - do 2 f_equal. lia.
    - replace (zlen (cache s) - k) with 0 by lia. done. }
  unfold info_typed in *. rewrite Heq. constructor; cbn; try done; try lia.
  - intros Hne. assert (zlen (cache s') <> 0) as Hnz by (intros ?%zlen_nil_inv; done).
    rewrite Hfollows by (intros Hnil; assert (zlen (cache s) = 0) by (by rewrite Hnil); lia). lia.
  - intros Hf. specialize (Hfetch Hf). destruct Hcat. lia.
Qed.

(** Fetching leaves the settings and the range alone. *)
Definition same_range s s' : Prop :=
  sa_key s' = sa_key s /\ prev s' = prev s /\ interval s' = interval s /\ catchup s' = catchup s /\
  computed_start s' = computed_start s /\ computed_end s' = computed_end s /\ cursor s' = cursor s.

Lemma poll_roots_inv s :
  stream_inv s -> fetching s = true ->
  let '(turn, s') := poll_roots s in
  stream_inv s' /\ fetching s' = true /\ same_range s s' /\ tip s' = tip s /\ stream_tip s' = stream_tip s /\
  match turn with
  | Progress =>
      Z.max 0 (computed_start s' + 1 - rs_next (stream_roots s')) + (catchup s' + 1 - zlen (cache s')) <
      Z.max 0 (computed_start s + 1 - rs_next (stream_roots s)) + (catchup s + 1 - zlen (cache s))
  | _ => rs_next (stream_roots s') = rs_next (stream_roots s) /\ cache s' = cache s
  end.
Proof.
  intros Hs Hft. unfold poll_roots, has_space_left. destruct (Z.leb_spec (zlen (cache s)) (catchup s)) as [Hsp|]; [|done].
  pose proof Hs as Hs0. open_inv Hs. pose proof (rs_poll (stream_roots s) Hroots) as Hp. pose proof (zlen_nonneg (cache s)) as Hlen.
  destruct (poll_next (stream_roots s)) as [[[root|]|] r]; cbn.
  - destruct Hp as (Hok & -> & Hn). rewrite source_height.
    destruct (Z.ltb_spec (computed_start s) (rs_next (stream_roots s))) as [Hlt|Hge]; cbn.
    + assert (rs_next (stream_roots s) = ai_height (prev s) + 1 + zlen (cache s)) as Hpos.
      { destruct (decide (cache s = [])) as [He|He]; [|by apply Hfollows].
        rewrite He in *. change (zlen (@nil RootInfo)) with 0 in *. lia. }
      assert (zlen (cache s ++ [source (rs_next (stream_roots s))]) = zlen (cache s) + 1) as Hz.
      { rewrite zlen_app. done. }
      split_and!; try done; [|lia]. constructor; cbn; rewrite ?Hz, ?Hn; try done; try lia.
      rewrite seqZ_app by lia. rewrite fmap_app, <- Hcache. f_equal. cbn. rewrite Hpos. done.
    + assert (cache s = []) as He.
      { apply dec_stable. intros Hne. specialize (Hfollows Hne). lia. }
      split_and!; try done; [|lia]. constructor; cbn; rewrite ?Hn; try done; try lia.
  - destruct Hp as [Hok Hn]. split_and!; try done. constructor; cbn; rewrite ?Hn; done.
  - destruct Hp as [Hok Hn]. split_and!; try done. constructor; cbn; rewrite ?Hn; done.
Qed.

Lemma poll_tip_inv s :
  stream_inv s ->
  let '(turn, s') := poll_tip s in
  stream_inv s' /\ fetching s' = fetching s /\ same_range s s' /\ cache s' = cache s /\ stream_roots s' = stream_roots s /\
  match turn with
  | Progress => ts_last (stream_tip s) < ts_last (stream_tip s')
  | _ => ts_last (stream_tip s') = ts_last (stream_tip s) /\ tip s' = tip s
  end.
Proof.
  intros Hs. unfold poll_tip. open_inv Hs. pose proof (ts_poll (stream_tip s) Htips) as Hp.
  pose proof (ts_bounds _ Htips) as Hb. destruct (poll_next (stream_tip s)) as [[[t|]|] r]; cbn.
  - destruct Hp as (Hok & Hlt & Hl). split_and!; try done; [|lia]. constructor; cbn; try done.
    destruct Hint. pose proof (Z.mod_pos_bound t (interval s) ltac:(lia)). pose proof (Z.mod_le t (interval s) ltac:(lia) ltac:(lia)). lia.
  - destruct Hp as [Hok Hl]. split_and!; try done; by constructor.
  - destruct Hp as [Hok Hl]. split_and!; try done; by constructor.
Qed.

(** What the sources can still give before the cache is full. *)
Definition roots_load s : Z := Z.max 0 (computed_start s + 1 - rs_next (stream_roots s)) + (catchup s + 1 - zlen (cache s)).
Definition tips_load s : Z := height_limit - ts_last (stream_tip s).

Lemma roots_load_nonneg s : stream_inv s -> 0 <= roots_load s.
Proof. intros Hs. open_inv Hs. unfold roots_load. lia. Qed.

Lemma tips_load_nonneg s : stream_inv s -> 0 <= tips_load s.
Proof. intros Hs. unfold tips_load. pose proof (ts_bounds _ (iv_tips _ Hs)). lia. Qed.

Lemma same_range_trans s1 s2 s3 : same_range s1 s2 -> same_range s2 s3 -> same_range s1 s3.
Proof. unfold same_range. intuition congruence. Qed.

Lemma same_range_stop s s' : same_range s s' -> tip s' = tip s -> stop s' = stop s.
Proof. unfold same_range, stop. intros (_ & _ & _ & -> & -> & _ & _) ->. done. Qed.

Definition fetched (next : Height) s (r : Outcome unit) s' : Prop :=
  stream_inv s' /\ fetching s' = true /\ same_range s s' /\
  roots_load s' + tips_load s' <= roots_load s + tips_load s /\
  match r with
  | Yield _ => next <= tip s' /\ missing_roots s' = false
  | Parked => tip s' < next \/ missing_roots s' = true
  | Ended => True
  | Panicked => False
  end.

(** The inner loop ends; it leaves with the roots up to [stop] in the cache, or waits
    for a tip or for roots. *)
Lemma fetch_roots_ok fuel next s :
  stream_inv s -> fetching s = true -> roots_load s + tips_load s < Z.of_nat fuel ->
  exists r s', fetch_roots fuel next s = Some (r, s') /\ fetched next s r s'.
Proof.
  revert s. induction fuel as [|fuel IH]; intros s Hs Hft Hfuel.
  { pose proof (roots_load_nonneg s Hs). pose proof (tips_load_nonneg s Hs). lia. }
  cbn [fetch_roots]. destruct (negb _) eqn:Hcond.
  { exists (Yield tt), s. unfold fetched. split_and!; try done; [lia..|]. destruct (missing_roots s); [lia|done]. }
  pose proof (poll_roots_inv s Hs Hft) as Hr. destruct (poll_roots s) as [turn1 s1]. destruct Hr as (Hs1 & Hft1 & Hsr & Ht1 & Hst1 & Hr).
  assert (roots_load s1 + tips_load s1 <= roots_load s + tips_load s /\
    (turn1 = Progress -> roots_load s1 + tips_load s1 < roots_load s + tips_load s)) as [Hle1 Hlt1].
  { unfold roots_load, tips_load. rewrite Hst1. destruct turn1; [split; [|intros _]; lia|..];
    destruct Hr as [-> ->]; destruct Hsr as (_ & _ & _ & -> & -> & _ & _); (split; [lia|done]). }
  assert (turn1 = Exhausted \/ turn1 <> Exhausted) as [-> | Hne] by (destruct turn1; auto).
  { exists Ended, s1. by unfold fetched. }
  pose proof (poll_tip_inv s1 Hs1) as Hp. destruct (poll_tip s1) as [turn2 s2]. destruct Hp as (Hs2 & Hft2 & Hsr2 & Hc2 & Hrs2 & Hp).
  pose proof (same_range_trans _ _ _ Hsr Hsr2) as Hsr12. rewrite Hft1 in Hft2.
  assert (roots_load s2 = roots_load s1) as Hl2.
  { unfold roots_load. rewrite Hc2, Hrs2. destruct Hsr2 as (_ & _ & _ & -> & -> & _ & _). done. }
  assert (tips_load s2 <= tips_load s1) as Ht2.
  { unfold tips_load. destruct turn2; [lia|rewrite (proj1 Hp); lia..]. }
  assert (roots_load s2 + tips_load s2 < roots_load s + tips_load s ->
    exists r s', fetch_roots fuel next s2 = Some (r, s') /\ fetched next s r s') as Hgo.
  { intros Hlt. destruct (IH s2 Hs2 Hft2 ltac:(lia)) as (r & s' & Hf & Hs' & Hft' & Hsr' & Hl' & Hout).
    exists r, s'. unfold fetched. split_and!; try done; [by apply (same_range_trans _ s2)|lia]. }
  destruct turn2.
  - destruct turn1; [..|done]; apply Hgo; unfold tips_load in *; lia.
  - destruct Hp as [Hp Htip]. destruct turn1; [..|done].
    + apply Hgo. specialize (Hlt1 eq_refl). lia.
    + exists Parked, s2. unfold fetched. split_and!; try done; [lia|]. destruct Hr as [_ Hr].
      assert (missing_roots s2 = missing_roots s) as ->.
      { unfold missing_roots, last_cached. rewrite Hc2, Hr, (same_range_stop s s2); [done|done|congruence]. }
      rewrite Htip, Ht1. destruct (Z.ltb_spec (tip s) next); [by left|]. right. by destruct (missing_roots s).
  - exists Ended, s2. unfold fetched. destruct turn1; split_and!; try done; lia.
Qed.

Lemma chain_blocks_snoc d infos x :
  chain_blocks d (infos ++ [x]) = chain_blocks d infos ++ [new_from_prev_digest (ri_height x) (ri_root x)
    (match last (chain_blocks d infos) with Some block => b_digest block | None => d end)].
Proof. unfold chain_blocks. by rewrite foldl_app. Qed.

Lemma chain_blocks_proof d infos :
  from_blocks (chain_blocks d infos) =
    match infos with [] => mkContinuityProof 0 [] | _ => mkContinuityProof d (ri_root <$> infos) end.
Proof.
  assert (map b_root (chain_blocks d infos) = ri_root <$> infos) as Hroots.
  { induction infos as [|x infos IH] using rev_ind; [done|].
    rewrite chain_blocks_snoc, map_app, IH, fmap_app. done. }
  assert (forall b, head (chain_blocks d infos) = Some b -> b_prev_digest b = d) as Hhead.
  { clear Hroots. induction infos as [|x infos IH] using rev_ind; [done|]. rewrite chain_blocks_snoc. intros b.
    destruct (chain_blocks d infos) as [|b0 bs]; cbn; [by intros [= <-]|]. by apply IH. }
  unfold from_blocks. destruct (chain_blocks d infos) as [|b0 bs], infos as [|x infos]; try done.
  by rewrite (Hhead b0 eq_refl), Hroots.
Qed.

Lemma last_fmap_seqZ lo n : 0 < n -> last (source <$> seqZ lo n) = Some (source (lo + n - 1)).
Proof.
  intros Hn. replace n with ((n - 1) + 1) at 1 by lia. rewrite seqZ_app by lia. rewrite fmap_app, last_app. cbn. do 2 f_equal. lia.
Qed.

Lemma last_cached_spec s : stream_inv s -> cache s <> [] -> last_cached s = ai_height (prev s) + zlen (cache s).
Proof.
  intros Hs Hne. unfold last_cached. rewrite (iv_cache _ Hs) at 1. rewrite last_fmap_seqZ; [rewrite source_height; lia|].
  pose proof (zlen_nonneg (cache s)). enough (zlen (cache s) <> 0) by lia. by intros ?%zlen_nil_inv.
Qed.

Lemma generate_attestation_spec s target :
  stream_inv s -> computed_start s < target <= computed_end s ->
  cache s <> [] /\ target <= last_cached s /\
  generate_attestation target s =
    Some (sign_attestation (extension_data (sa_key s) (prev s) target) (extension_proof (prev s) target)).
Proof.
  intros Hs Ht. assert (cache s <> []) as Hne.
  { intros Hnil. pose proof (iv_cached _ Hs) as Hc. pose proof (iv_range _ Hs). rewrite Hnil in Hc.
    change (zlen (@nil RootInfo)) with 0 in Hc. lia. }
  pose proof (last_cached_spec s Hs Hne) as Hlast. open_inv Hs. split; [done|]. split; [lia|].
  set (n := zlen (cache s)) in *. assert (0 < n) as Hn by lia.
  unfold generate_attestation. pose proof (last_fmap_seqZ (ai_height (prev s) + 1) n Hn) as Hl. rewrite <- Hcache in Hl.
  rewrite Hl. destruct (cache s) as [|first rest] eqn:Hc; [done|].
  assert (first = source (ai_height (prev s) + 1)) as ->.
  { rewrite seqZ_cons in Hcache by lia. by injection Hcache as ->. }
  rewrite !source_height. replace (_ && _ && _ && _) with true by (symmetry; lia).
  set (index := Z.to_nat _). assert (Z.of_nat index = target - ai_height (prev s) - 1) as Hidx by lia.
  assert ((source (ai_height (prev s) + 1) :: rest) !! index = Some (source target)) as ->.
  { rewrite Hcache. rewrite list_lookup_fmap, (proj2 (lookup_seqZ _ _ index target)) by lia. done. }
  cbn [mbind option_bind]. rewrite source_height, Z.eqb_refl. cbn [negb]. rewrite chain_blocks_proof.
  assert (take index (source (ai_height (prev s) + 1) :: rest) = source <$> seqZ (ai_height (prev s) + 1) (target - ai_height (prev s) - 1)) as Htake.
  { rewrite Hcache. replace n with ((target - ai_height (prev s) - 1) + (n - (target - ai_height (prev s) - 1))) at 1 by lia.
    rewrite seqZ_app by lia. rewrite fmap_app. apply take_app_length'. rewrite length_fmap, length_seqZ. lia. }
  rewrite Htake. unfold extension_data, extension_proof, between. rewrite list_fmap_compose.
  destruct (source <$> seqZ _ (target - _ - 1)) as [|x xs]; done.
Qed.

(** ** Polling *)

(** An attestation is ready to be produced. *)
Definition due s : Prop :=
  computed_start s < cursor s /\ ai_height (prev s) + interval s <= cursor s.

Definition same_settings s s' : Prop :=
  sa_key s' = sa_key s /\ prev s' = prev s /\ interval s' = interval s /\ catchup s' = catchup s.

(** What a poll of [s] gives. *)
Definition polled s (r : Outcome Attestation) s' : Prop :=
  stream_inv s' /\ same_settings s s' /\
  match r with
  | Yield att => exists height,
      ai_height (prev s) + interval s <= height <= ai_height (prev s) + catchup s + 1 /\
      att = sign_attestation (extension_data (sa_key s) (prev s) height) (extension_proof (prev s) height)
  | Parked => ~ due s' /\ (catchup s' < zlen (cache s') \/ tip s' < next_target s' \/ missing_roots s' = true)
  | Ended => True
  | Panicked => False
  end.

Definition range_load s : Z :=
  2 * (height_limit - computed_end s) + (if computed_start s <? computed_end s then 1 else 0).

Lemma range_load_nonneg s : stream_inv s -> 0 <= range_load s.
Proof. intros Hs. pose proof (iv_end _ Hs). unfold range_load. case_match; lia. Qed.

Lemma next_target_above s : stream_inv s -> computed_end s < next_target s.
Proof.
  intros Hs. open_inv Hs. unfold next_target, saturating_add, setting_typed, height_limit, info_typed in *. rewrite umax_64.
  rewrite Z.min_l by lia. pose proof (Z.mod_pos_bound (computed_end s + interval s) (interval s) ltac:(lia)). lia.
Qed.

Lemma skip_early_spec s :
  stream_inv s -> stream_inv (skip_early s) /\ same_settings s (skip_early s) /\
  range_load (skip_early s) = range_load s /\ roots_load (skip_early s) = roots_load s /\ tips_load (skip_early s) = tips_load s /\
  fetching (skip_early s) = fetching s /\
  (computed_start (skip_early s) < cursor (skip_early s) -> due (skip_early s)) /\
  (due s -> skip_early s = s).
Proof.
  intros Hs. unfold skip_early, due.
  assert (saturating_add 64 (ai_height (prev s)) (interval s) = ai_height (prev s) + interval s) as ->.
  { open_inv Hs. unfold saturating_add, setting_typed, info_typed, height_limit in *. rewrite umax_64. lia. }
  destruct (Z.ltb_spec (cursor s) (ai_height (prev s) + interval s)); cbn.
  - split_and!; try done; try lia. open_inv Hs. constructor; cbn; try done; lia.
  - split_and!; try done; lia.
Qed.

(** Once the roots are there, the range moves on. *)
Lemma advance_range s :
  stream_inv s -> fetching s = true -> next_target s <= tip s -> missing_roots s = false ->
  let s' := s <| fetching := false |> <| computed_start := computed_end s |> <| computed_end := stop s |> <| cursor := stop s |> in
  stream_inv s' /\ range_load s' < range_load s /\ roots_load s' <= roots_load s /\ tips_load s' = tips_load s.
Proof.
  intros Hs Hf Htarget Hm s'. pose proof (next_target_above s Hs) as Habove. pose proof Hs as Hs0. open_inv Hs.
  assert (saturating_add 64 (computed_start s) (catchup s) = computed_start s + catchup s) as Hsat.
  { unfold saturating_add, setting_typed, height_limit in *. rewrite umax_64. lia. }
  specialize (Hfetch Hf). unfold missing_roots in Hm. apply Z.ltb_ge in Hm.
  assert (computed_end s <= stop s < height_limit) as Hstop by (unfold stop; rewrite Hsat; lia).
  assert (stop s = computed_end s -> computed_start s < computed_end s) as Hflag.
  { unfold stop. rewrite Hsat. destruct Hcat. lia. }
  assert (0 < stop s) as Hpos by (unfold stop, info_typed in *; rewrite Hsat; destruct Hcat; lia).
  assert (cache s <> []) as Hne.
  { intros Hnil. unfold last_cached in Hm. rewrite Hnil in Hm. cbn in Hm. lia. }
  rewrite (last_cached_spec s Hs0 Hne) in Hm. specialize (Hfollows Hne). split_and!.
  - constructor; cbn; try done; try lia.
  - unfold range_load. cbn. destruct (Z.ltb_spec (computed_start s) (computed_end s)), (Z.ltb_spec (computed_end s) (stop s)); lia.
  - unfold roots_load. cbn. lia.
  - done.
Qed.

Lemma same_settings_trans s1 s2 s3 : same_settings s1 s2 -> same_settings s2 s3 -> same_settings s1 s3.
Proof. unfold same_settings. intuition congruence. Qed.

Lemma polled_after s1 s2 r s' : same_settings s1 s2 -> polled s2 r s' -> polled s1 r s'.
Proof.
  intros Hs (Hinv & Hs2 & Hr). split; [done|]. split; [by apply (same_settings_trans _ s2)|].
  destruct r as [att| | |]; try done. destruct Hs as (E1 & E2 & E3 & E4). by rewrite E1, E2, E3, E4 in Hr.
Qed.

(** A poll that has an attestation to produce produces it. *)
Lemma poll_due fuel s :
  stream_inv s -> due s -> exists s', stream_poll (S fuel) s =
    Some (Yield (sign_attestation (extension_data (sa_key s) (prev s) (cursor s)) (extension_proof (prev s) (cursor s))), s') /\
    s' = s <| cursor := saturating_sub (cursor s) (interval s) |>.
Proof.
  intros Hs Hdue. destruct (skip_early_spec s Hs) as (_ & _ & _ & _ & _ & _ & _ & Hskip).
  cbn [stream_poll]. rewrite (Hskip Hdue). destruct Hdue as [Hlt Hint].
  rewrite (proj2 (Z.ltb_lt _ _) Hlt). pose proof (iv_cursor _ Hs).
  destruct (generate_attestation_spec s (cursor s) Hs ltac:(lia)) as (Hne & Hle & ->).
  rewrite (bool_decide_eq_true_2 _ Hne), (proj2 (Z.leb_le _ _) Hle). cbn [andb negb]. eauto.
Qed.

Lemma poll_due_polled s :
  stream_inv s -> due s ->
  polled s (Yield (sign_attestation (extension_data (sa_key s) (prev s) (cursor s)) (extension_proof (prev s) (cursor s))))
    (s <| cursor := saturating_sub (cursor s) (interval s) |>).
Proof.
  intros Hs [Hlt Hle]. open_inv Hs. split; [|split; [done|]].
  - constructor; cbn; try done. unfold saturating_sub, setting_typed, info_typed in *. lia.
  - exists (cursor s). split; [lia|done].
Qed.

Lemma stream_poll_ok fuel s :
  stream_inv s -> range_load s + roots_load s + tips_load s < Z.of_nat fuel ->
  exists r s', stream_poll fuel s = Some (r, s') /\ polled s r s' /\
    (due s -> exists att, r = Yield att /\ ad_header_number (an_data att) = cursor s).
Proof.
  revert s. induction fuel as [|fuel IH]; intros s Hs Hfuel.
  { pose proof (range_load_nonneg s Hs). pose proof (roots_load_nonneg s Hs). pose proof (tips_load_nonneg s Hs). lia. }
  destruct (skip_early_spec s Hs) as (Hs0 & Hset & Hl1 & Hl2 & Hl3 & Hft & Hready & Hskip).
  destruct (decide (computed_start (skip_early s) < cursor (skip_early s))) as [Hlt|Hge].
  { pose proof (Hready Hlt) as Hdue. destruct (poll_due fuel _ Hs0 Hdue) as (s' & Hp & ->).
    eexists _, _. split; [|split; [by eapply polled_after, poll_due_polled|]].
    - cbn [stream_poll] in Hp |- *. destruct (skip_early_spec _ Hs0) as (_ & _ & _ & _ & _ & _ & _ & Hidem).
      rewrite (Hidem Hdue) in Hp. exact Hp.
    - intros Hd. rewrite (Hskip Hd). eauto. }
  assert (~ due s) as Hnd by (intros Hd; rewrite (Hskip Hd) in Hge; destruct Hd; lia).
  cbn [stream_poll]. set (t := skip_early s) in *. rewrite (proj2 (Z.ltb_ge _ _)) by lia.
  destruct (negb (fetching t) && (catchup t <? zlen (cache t))) eqn:Hfull.
  { eexists Parked, _. split; [done|]. split; [|done]. split_and!; try done; [|apply Hset..| |].
    - destruct Hs0. by constructor.
    - unfold due. cbn. lia.
    - left. cbn. lia. }
  assert (stream_inv (t <| fetching := true |>)) as Hsf.
  { open_inv Hs0. constructor; cbn; try done. intros _. destruct (fetching t); [by apply Hfetch|]. cbn in Hfull. lia. }
  pose proof (range_load_nonneg t Hs0).
  destruct (fetch_roots_ok (S fuel) (next_target t) _ Hsf eq_refl) as (r & s1 & Hf & Hs1 & Hft1 & Hsr & Hload & Hr).
  { change (roots_load (t <| fetching := true |>)) with (roots_load t).
    change (tips_load (t <| fetching := true |>)) with (tips_load t). lia. }
  change (roots_load (t <| fetching := true |>)) with (roots_load t) in Hload.
  change (tips_load (t <| fetching := true |>)) with (tips_load t) in Hload. rewrite Hf.
  destruct Hsr as (E1 & E2 & E3 & E4 & E5 & E6 & E7). cbn in E1, E2, E3, E4, E5, E6, E7.
  assert (same_settings s s1) as Hset1 by (apply (same_settings_trans _ t); done).
  assert (next_target s1 = next_target t) as Hnt by (unfold next_target; by rewrite E3, E6).
  destruct r as [u| | |]; [|..|done].
  - destruct Hr as [Htip Hm]. rewrite <- Hnt in Htip.
    destruct (advance_range s1 Hs1 Hft1 Htip Hm) as (Hs2 & Hlr & Hlo & Hlt). cbn [upd] in *.
    assert (range_load s1 = range_load t) as Hrl by (unfold range_load; by rewrite E5, E6).
    cbn. replace (zlen (cache s1) <=? catchup s1 + 1) with true by (symmetry; pose proof (iv_space _ Hs1); lia). cbn [negb].
    destruct (IH _ Hs2 ltac:(lia)) as (r & s' & Hp & Hpol & _). exists r, s'. split; [exact Hp|]. split; [|done].
    by eapply polled_after, Hpol.
  - exists Parked, s1. split; [done|]. split; [|done]. split_and!; try done; [apply Hset1..| |].
    + unfold due. lia.
    + right. rewrite Hnt. tauto.
  - exists Ended, s1. split; [done|]. split; [|done]. split_and!; try done; apply Hset1.
Qed.

Lemma fetch_roots_mono fuel fuel' next s x :
  (fuel <= fuel')%nat -> fetch_roots fuel next s = Some x -> fetch_roots fuel' next s = Some x.
Proof.
  revert fuel' s. induction fuel as [|fuel IH]; intros [|fuel'] s Hle Hf; [done|done|lia|].
  cbn [fetch_roots] in *. assert (fuel <= fuel')%nat as Hle' by lia. repeat case_match; eauto.
Qed.

Lemma stream_poll_mono fuel fuel' s x :
  (fuel <= fuel')%nat -> stream_poll fuel s = Some x -> stream_poll fuel' s = Some x.
Proof.
  revert fuel' s. induction fuel as [|fuel IH]; intros [|fuel'] s Hle Hp; [done|done|lia|].
  cbn [stream_poll] in Hp |- *. set (t := skip_early s) in *.
  destruct (computed_start t <? cursor t); [done|]. destruct (_ && _); [done|].
  destruct (fetch_roots (S fuel) _ _) as [[r s1]|] eqn:Hf; [|done].
  rewrite (fetch_roots_mono (S fuel) (S fuel') _ _ _ ltac:(lia) Hf). destruct r; try done.
  cbn in Hp |- *. destruct (negb _); [done|]. apply IH; [lia|done].
Qed.

(** Whatever the fuel, a poll that ends gives this. *)
Lemma stream_poll_any fuel s r s' : stream_inv s -> stream_poll fuel s = Some (r, s') -> polled s r s'.
Proof.
  intros Hs Hp. set (big := Z.to_nat (range_load s + roots_load s + tips_load s + 1)).
  pose proof (range_load_nonneg s Hs). pose proof (roots_load_nonneg s Hs). pose proof (tips_load_nonneg s Hs).
  destruct (stream_poll_ok (Nat.max fuel big) s Hs ltac:(lia)) as (r' & s'' & Hp' & Hpol & _).
  apply (stream_poll_mono _ (Nat.max fuel big)) in Hp; [|lia]. rewrite Hp in Hp'. by injection Hp' as -> ->.
Qed.

Lemma stream_step_inv s s' : stream_step s s' -> stream_inv s -> stream_inv s'.
Proof.
  intros Hstep Hs. destruct Hstep as [fuel s r s' Hp|info s Hi|n s Hn|n s Hn|info s Hi].
  - by destruct (stream_poll_any fuel s r s' Hs Hp) as [? _].
  - by apply finalization_inv.
  - destruct (next_info_range s (iv_prev _ Hs)) as [Hr Hn1]. apply rebuilt_inv; try done; [apply Hs..|lia].
  - destruct (next_info_range s (iv_prev _ Hs)) as [Hr Hn1]. apply rebuilt_inv; try done; [apply Hs..|lia].
  - apply rebuilt_inv; try done; [apply Hs..| |lia]. unfold info_typed, height_limit in Hi. words. lia.
Qed.

(** A typed configuration whose root source starts no later than the first block that
    is needed. *)
Record config_ok (c : StreamConfig R T) : Prop := {
  co_roots : rs_ok (sc_roots c);
  co_tips : ts_ok (sc_tips c);
  co_interval : setting_typed (sc_interval c);
  co_catchup : setting_typed (sc_max_catchup c);
  co_prev : info_typed (sc_prev c);
  co_start : rs_next (sc_roots c) <= ai_height (sc_prev c) + 1;
}.

Lemma stream_reached_inv c s : config_ok c -> rtc stream_step (stream_new c) s -> stream_inv s.
Proof.
  intros [] Hr. apply (rtc_ind_r stream_inv (stream_new c)) in Hr; [done| |].
  - by apply stream_new_inv.
  - intros x y _ Hstep. by apply stream_step_inv.
Qed.

(** C25: the attestations an attestor produces. In every state the stream reaches, through
    polls, finalizations, reversions and changes of its settings, a poll ends and does
    not panic. What it yields is determined by the source chain, the last finalized
    attestation and the height alone: it extends that attestation by the blocks in
    between. It is at least an interval past it, and its proof is no longer than the
    catch-up bound. When an attestation is due at the stream's own cursor it is
    yielded; the stream parks only with nothing due there and a full cache, no new
    tip, or roots still missing. *)
Theorem produced_attestations_extend_head c s :
  config_ok c -> rtc stream_step (stream_new c) s ->
  exists fuel0, forall fuel, (fuel0 <= fuel)%nat ->
  exists r s', stream_poll fuel s = Some (r, s') /\
    match r with
    | Yield att => exists height,
        ai_height (prev s) + interval s <= height /\
        att = sign_attestation (extension_data (sa_key s) (prev s) height) (extension_proof (prev s) height) /\
        zlen (roots (an_proof att)) <= catchup s
    | Parked => ~ due s' /\ (catchup s' < zlen (cache s') \/ tip s' < next_target s' \/ missing_roots s' = true)
    | Ended => True
    | Panicked => False
    end /\
    (due s -> exists att, r = Yield att /\ ad_header_number (an_data att) = cursor s).
Proof.
  intros Hc Hr. pose proof (stream_reached_inv c s Hc Hr) as Hs.
  pose proof (range_load_nonneg s Hs). pose proof (roots_load_nonneg s Hs). pose proof (tips_load_nonneg s Hs).
  exists (Z.to_nat (range_load s + roots_load s + tips_load s + 1)). intros fuel Hfuel.
  destruct (stream_poll_ok fuel s Hs ltac:(lia)) as (r & s' & Hp & (_ & _ & Hpol) & Hdue).
  exists r, s'. split; [done|]. split; [|done]. destruct r as [att| | |]; try done.
  destruct Hpol as (h & Hh & ->). exists h. split; [lia|]. split; [done|]. cbn.
  unfold extension_proof. pose proof (iv_catchup _ Hs) as [? _]. pose proof (iv_interval _ Hs) as [? _].
  assert (zlen (between (ai_height (prev s)) h) = h - ai_height (prev s) - 1) as Hl by (apply zlen_fmap_seqZ; lia).
  destruct (between _ _); cbn; lia.
Qed.
End Produced.

(** ** A run *)

#[export] Instance toy_signer : Signer := {|
  signer_id := 20;
  sr_sign := fun m => m;
  bls_sign := fun _ => to_be_bytes 96 7;
|}.

#[export] Instance toy_root_data : ChainData (Roots * list RootsEvent) RootInfo := roots_chain_data toy_roots toy_source.
#[export] Instance toy_tip_data : ChainData (Tips * list TipEvent) Height := tips_chain_data (FixedLag 2).
#[export] Instance toy_root_source : RootSource (Roots * list RootsEvent) toy_source :=
  roots_source toy_roots toy_source (fun n => eq_refl) Z.le_0_2.
#[export] Instance toy_tip_source : TipSource (Tips * list TipEvent) := tips_source (FixedLag 2) Z.le_0_2.

Lemma polls_reach `{Keccak} `{Signer} {R T} `{!ChainData R RootInfo} `{!ChainData T Height} fuel (s : StreamAttestation R T) o :
  stream_poll fuel s = o -> rtc stream_step s (match o with Some (_, s') => s' | None => s end).
Proof. destruct o as [[r s']|]; intros Hp; [|done]. apply rtc_once. by apply (step_poll fuel s r). Qed.

(** The source chain reaches 112; two blocks are in flight at a time. *)
Definition stream_events : list RootsEvent :=
  Observe (Head 112 no_tag) :: concat (repeat [Spawn; Spawn; Fetched 1; Computed 0; Fetched 0; Computed 0] 5).

Definition stream_config : StreamConfig (Roots * list RootsEvent) (Tips * list TipEvent) :=
  mkStreamConfig 1 (roots_new 101, stream_events) (tips_new 101, [TipHead 112 no_tag]) 5 (mkAttestationInfo 100 77) 10.

Definition first_poll : option (Outcome Attestation * StreamAttestation (Roots * list RootsEvent) (Tips * list TipEvent)) :=
  stream_poll 60 (stream_new stream_config).

Definition stream1 : StreamAttestation (Roots * list RootsEvent) (Tips * list TipEvent) :=
  match first_poll with Some (_, s) => s | None => stream_new stream_config end.

Lemma first_poll_yields :
  match first_poll with Some (Yield att, s) => (ad_header_number (an_data att), zlen (roots (an_proof att))) = (110, 9) | _ => False end.
Proof. vm_compute. reflexivity. Qed.

Lemma stream1_due : due stream1 /\ cursor stream1 = 105.
Proof. split; [split|]; vm_compute; done. Qed.

Lemma stream_config_ok : config_ok toy_source stream_config.
Proof.
  assert (in_range 64 101) as H101 by (unfold in_range; decide_now).
  constructor; cbn -[stream_events].
  - split_and!; [done| |right; by apply roots_new_inv]. unfold event_typed. cbn. repeat constructor.
  - split; [|done]. constructor; [|constructor]. split; [split; vm_compute; congruence|done].
  - split; vm_compute; reflexivity.
  - split; vm_compute; reflexivity.
  - split; vm_compute; congruence.
  - done.
Qed.

Lemma stream1_reached : rtc stream_step (stream_new stream_config) stream1.
Proof. exact (polls_reach 60 (stream_new stream_config) first_poll eq_refl). Qed.

Lemma produced_attestations_extend_head_witness :
  exists fuel0, forall fuel, (fuel0 <= fuel)%nat ->
  exists r s', stream_poll fuel stream1 = Some (r, s') /\ exists att, r = Yield att /\ ad_header_number (an_data att) = 105.
Proof.
  destruct (produced_attestations_extend_head toy_source (fun n => eq_refl) stream_config stream1 stream_config_ok stream1_reached)
    as (fuel0 & Hf).
  exists fuel0. intros fuel Hle. destruct (Hf fuel Hle) as (r & s' & Hp & _ & Hdue). exists r, s'. split; [exact Hp|].
  rewrite <- (proj2 stream1_due). exact (Hdue (proj1 stream1_due)).
Defined.
