(* ===== verification/Production.v ===== *)
(** * The production task of an attestor

    [src/attestor/attestor/src/tasks/production.rs], with [sign_vote] of [vote.rs] and
    the shared state of [shared.rs]: the task follows the chain's events, keeps the
    vote pool, the proof cache, the committee's keys and the attestation stream in
    step with them, and casts a vote for every attestation the stream yields while the
    node may attest. The warm-up timers and the other tasks' calls on the pool
    interleave with it. Metrics and logs are left out. *)

From stdpp Require Import prelude gmap list sorting strings.
From Stdlib Require Import ZArith Lia.
From S2P Require Import Prelude Primitives Frame SupportedChains Randomness Types Ledger Roster RosterSpec.
From S2P Require Import Settings Validate Checkpoints LadderSpec LadderRefine Pallet Runtime Concrete Guarantees.
From S2P Require Import VotePool VotePoolSpec Submitter Sources AttestationStream.

Definition sign_vote `{Signer} (attestor : AttestorId) (chain_key : ChainKey) (height : Height)
    (local : LocalAttestationData) : Vote Signature :=
  mkVote chain_key height (ld_digest local) attestor (bls_sign (serialized local)).

(** The events of the chain, of the node's source chain. *)
Inductive CcEvent :=
| BlockAttested (info : AttestationInfo)
| RandomnessChanged (epoch : Z)
| CheckpointReached (cp : AttestationCheckpoint)
| AttestationIntervalChanged (raw : Z)
| TargetSampleSizeChanged (target : Z)
| CheckpointIntervalChanged (n : Z)
| MaxCatchupChanged (raw : Z)
| AttestorsElected (attestors : list AccountId)
| AttestorActivated (who : AccountId)
| AttestorChilled (who : AccountId)
| AttestorKicked (who : AccountId)
| AttestationChainGenesisBlockNumberSet (h : Height)
| RevertedAttestationChainTo (info : AttestationInfo).

(** What the chain answers to the queries of a handler. *)
Record CommitteeRpc := mkCommitteeRpc {
  cr_active_set : Result unit (list AccountId);
  cr_pubkeys : Result unit (AccountId -> option BlsPublicKey);
  cr_quorum : Result unit Z;
}.

Inductive EligibilityAction := NoOp | DisableNow | WarmUpEnable.

Definition eligibility_action (prev_target new_eligible : bool) : EligibilityAction :=
  if Bool.eqb prev_target new_eligible then NoOp else if new_eligible then WarmUpEnable else DisableNow.

Section Node.
Context `{Keccak} `{Signer} {R T : Type} `{!ChainData R RootInfo} `{!ChainData T Height}.

(** The shared state, with the pending warm-up timers and the votes and evictions
    handed to the gossip task. *)
Record Node := mkNode {
  nd_chain_key : ChainKey;
  nd_account : AccountId;
  nd_stream : StreamAttestation R T;
  nd_pool : PoolState Signature;
  nd_keys : ElectedSet;
  nd_cache : ProofCache;
  nd_latest_cc3 : AttestationInfo;
  nd_latest_finalized : option AttestationInfo;
  nd_local_produced : option Height;
  nd_can_attest : bool;
  nd_attest_target : bool;
  nd_eligibility_gen : Z;
  nd_warmups : list Z;
  nd_armed : nat;
  nd_interval : Z;
  nd_max_catchup : Z;
  nd_gossip : list (Vote Signature);
  nd_evictions : list AttestorId;
  nd_attest_expected : bool;
  nd_p2p_expected : bool;
}.

#[export] Instance eta_node : Settable Node := fun n =>
  mkNode (nd_chain_key n) (nd_account n) (nd_stream n) (nd_pool n) (nd_keys n) (nd_cache n) (nd_latest_cc3 n)
    (nd_latest_finalized n) (nd_local_produced n) (nd_can_attest n) (nd_attest_target n) (nd_eligibility_gen n)
    (nd_warmups n) (nd_armed n) (nd_interval n) (nd_max_catchup n) (nd_gossip n) (nd_evictions n) (nd_attest_expected n)
    (nd_p2p_expected n).

Implicit Types (n : Node) (info : AttestationInfo).

(** A handler fails when a query does, and the task with it. *)
Abbreviation NM := (M Node unit) (only parsing).

Definition pool_send (op : SenderOp Signature) : NM unit :=
  modify (fun n => n <| nd_pool ::= fun st => (on_open (sender_op op) false st).1 |>).

Definition update_stream (f : StreamAttestation R T -> StreamAttestation R T) : NM unit :=
  modify (fun n => n <| nd_stream ::= f |>).

(** [BlsStore::note_attestors_elected] *)
Definition refresh_keys (answers : CommitteeRpc) (attestors : list AccountId) : NM unit :=
  pubkeys ← lift (cr_pubkeys answers);
  set ← lift (ok_or tt (elected_set pubkeys attestors));
  modify (fun n => n <| nd_keys := set |>).

Definition refresh_quorum (answers : CommitteeRpc) : NM unit :=
  threshold ← lift (cr_quorum answers);
  pool_send (NoteQuorumChange threshold);;
  modify (fun n => n <| nd_p2p_expected := 1 <? threshold |>).

Definition apply_eligibility (eligible : bool) : NM unit :=
  prev_target ← gets nd_attest_target;
  modify (fun n => n <| nd_attest_target := eligible |>);;
  match eligibility_action prev_target eligible with
  | NoOp => mret tt
  | DisableNow =>
      modify (fun n => n <| nd_eligibility_gen ::= fun g => wrap 64 (g + 1) |> <| nd_attest_expected := false |>
        <| nd_can_attest := false |>)
  | WarmUpEnable =>
      modify (fun n =>
        let gen := wrap 64 (nd_eligibility_gen n + 1) in
        n <| nd_eligibility_gen := gen |> <| nd_attest_expected := true |> <| nd_warmups ::= fun l => l ++ [gen] |>)
  end.

(** The committee as the node sees it, then its own place in it. *)
Definition refresh_committee (answers : CommitteeRpc) (attestors : list AccountId) : NM unit :=
  account ← gets nd_account;
  refresh_keys answers attestors;;
  pool_send (NoteAttestorsElected attestors);;
  refresh_quorum answers;;
  apply_eligibility (bool_decide (account ∈ attestors)).

Definition reconcile_committee_from_chain (answers : CommitteeRpc) : NM unit :=
  attestors ← lift (cr_active_set answers);
  refresh_committee answers attestors.

Definition block_attested info : NM unit :=
  modify (fun n => n <| nd_latest_cc3 := info |>);;
  update_stream (note_attestation_finalization info);;
  pool_send (NoteAttestationFinalization (ai_height info) (ai_digest info));;
  modify (fun n => n <| nd_cache ::= cache_note_finalized (ai_height info) |> <| nd_latest_finalized := Some info |>).

Definition handle_one (answers : CommitteeRpc) (event : CcEvent) : NM unit :=
  match event with
  | BlockAttested info =>
      latest ← gets nd_latest_cc3;
      when (ai_height latest <? ai_height info) (block_attested info)
  | AttestationIntervalChanged raw =>
      when (negb (raw =? 0)) (
        modify (fun n => n <| nd_interval := raw |>);;
        update_stream (note_attestation_interval_change raw);;
        pool_send (NoteAttestationIntervalChange raw))
  | TargetSampleSizeChanged _ => refresh_quorum answers
  | MaxCatchupChanged raw =>
      when (negb (raw =? 0)) (
        modify (fun n => n <| nd_max_catchup := raw |>);;
        update_stream (note_max_catchup_change raw);;
        pool_send (NoteMaxCatchupChange raw))
  | AttestorsElected attestors => refresh_committee answers attestors
  | AttestorChilled who | AttestorKicked who =>
      account ← gets nd_account;
      reconcile_committee_from_chain answers;;
      when (negb (who =? account)) (modify (fun n => n <| nd_evictions ::= fun l => l ++ [who] |>))
  | RandomnessChanged _ => reconcile_committee_from_chain answers
  | RevertedAttestationChainTo info =>
      modify (fun n => n <| nd_latest_cc3 := info |>);;
      pool_send (NoteAttestationChainReversion (ai_height info) (ai_digest info));;
      modify (fun n => n <| nd_cache ::= cache_clear |>);;
      update_stream (note_attestation_chain_reversion info);;
      modify (fun n => n <| nd_latest_finalized := Some info |> <| nd_local_produced := Some (ai_height info) |>)
  | AttestorActivated _ | AttestationChainGenesisBlockNumberSet _ | CheckpointReached _ | CheckpointIntervalChanged _ =>
      mret tt
  end.

(** Cache the proof, then cast the vote, to the pool and to the gossip task. *)
Definition emit_local (now : Z) (attestation : Attestation) (n : Node) : Node :=
  let data := an_data attestation in
  let height := ad_header_number data in
  let vote := sign_vote signer_id (nd_chain_key n) height (local_of data) in
  n <| nd_cache ::= cache_insert data (an_proof attestation) |> <| nd_local_produced := Some height |>
    <| nd_pool ::= fun st => (on_open (sender_op (Send now vote)) false st).1 |> <| nd_gossip ::= fun l => l ++ [vote] |>.

(** The arm of the main loop that polls the stream. *)
Definition produce (fuel : nat) (now : Z) (n : Node) : option Node :=
  if nd_can_attest n then
    match stream_poll fuel (nd_stream n) with
    | Some (Yield attestation, s) => Some (emit_local now attestation (n <| nd_stream := s |>))
    | Some (_, s) => Some (n <| nd_stream := s |>)
    | None => None
    end
  else Some n.

(** A warm-up timer fires: it looks at the generation, and then, in a second step, lets
    the node attest. *)
Definition warm_up_check (i : nat) (n : Node) : option Node :=
  gen ← nd_warmups n !! i;
  let n := n <| nd_warmups ::= delete i |> in
  Some (if nd_eligibility_gen n =? gen then n <| nd_armed ::= S |> else n).

Definition warm_up_send (n : Node) : option Node :=
  match nd_armed n with
  | O => None
  | S k => Some (n <| nd_armed := k |> <| nd_can_attest := true |>)
  end.

(** The node before its first event: [start_attestation] is the last finalized one, or
    none on a chain that has not started. *)
Definition node_new (config : StreamConfig R T) (account : AccountId) (pool : PoolConfig) (keys : ElectedSet)
    (start_attestation : option AttestationInfo) : Node :=
  mkNode (sc_chain_key config) account (stream_new config) (Open (pool_new pool)) keys cache_new
    (sc_prev config) start_attestation None true true 0 [] 0 (sc_interval config) (sc_max_catchup config)
    [] [] true true.

(** The genesis vote. *)
Definition emit_genesis (now : Z) (root : RootInfo) (n : Node) : Node :=
  emit_local now (generate_attestation_genesis root (nd_stream n)) n.

(** [wait_for_block_attested]: whether the wait is over, after an event. *)
Definition wait_event (genesis : Height) (answers : CommitteeRpc) (event : CcEvent) : NM bool :=
  match event with
  | BlockAttested info =>
      if genesis <=? ai_height info then block_attested info;; mret true else mret false
  | _ => handle_one answers event;; mret false
  end.
End Node.
Arguments Node {_} _ _.

(** ** Interleaving *)

Inductive Phase := Waiting (genesis : Height) | Running.

(** The calls that other tasks make on the pool. *)
Inductive other_call {Sig} : PoolState Sig -> PoolState Sig -> Prop :=
| oc_receiver op p : other_call (Open p) (Open (receiver_op op p))
| oc_peek now p : other_call (Open p) (Open (peek now p).2)
| oc_vote now vote p : other_call (Open p) (Open (sender_op (Send now vote) p).1)
| oc_failed height p : other_call (Open p) (Open (sender_op (NoteMajorityNotReached height) p).1)
| oc_close st : other_call st Closed.

Section Steps.
Context `{Keccak} `{Signer} {R T : Type} `{!ChainData R RootInfo} `{!ChainData T Height}.
Implicit Types (n : Node R T).

(** Events carry typed heights and settings, and the interval changes only while it is
    within the catch-up bound, as the pallet sees to. *)
Definition cc_event_typed (event : CcEvent) n : Prop :=
  match event with
  | BlockAttested info | RevertedAttestationChainTo info => info_typed info
  | AttestationIntervalChanged raw => raw <> 0 -> setting_typed raw /\ nd_interval n <= nd_max_catchup n
  | MaxCatchupChanged raw => raw <> 0 -> setting_typed raw
  | _ => True
  end.

Inductive node_step : Phase * Node R T -> Phase * Node R T -> Prop :=
| ns_event answers event n n' :
    cc_event_typed event n -> handle_one answers event n = (Ok tt, n') -> node_step (Running, n) (Running, n')
| ns_wait genesis answers event n over n' :
    cc_event_typed event n -> wait_event genesis answers event n = (Ok over, n') ->
    node_step (Waiting genesis, n) (if over : bool then Running else Waiting genesis, n')
| ns_produce fuel now n n' : produce fuel now n = Some n' -> node_step (Running, n) (Running, n')
| ns_check phase i n n' : warm_up_check i n = Some n' -> node_step (phase, n) (phase, n')
| ns_send phase n n' : warm_up_send n = Some n' -> node_step (phase, n) (phase, n')
| ns_pool phase n st : other_call (nd_pool n) st -> node_step (phase, n) (phase, n <| nd_pool := st |>).

(** A step after which the node, while it waits for the genesis attestation, has not
    been reverted to a height above it. *)
Definition aligned_step (a b : Phase * Node R T) : Prop :=
  node_step a b /\ match b.1 with Waiting genesis => ai_height (nd_latest_cc3 b.2) <= genesis | Running => True end.

(** A step in which no change of eligibility lands between a timer's check and its
    message, and the generation does not wrap. *)
Definition calm_step (a b : Phase * Node R T) : Prop :=
  node_step a b /\ nd_eligibility_gen a.2 <= nd_eligibility_gen b.2 /\
  (nd_armed a.2 = O \/ nd_attest_target b.2 = nd_attest_target a.2).
End Steps.

(** ** The node stays in step with the chain *)

Section InStep.
Context `{Keccak} `{Signer} {R T : Type} `{!ChainData R RootInfo} `{!ChainData T Height}
  (source : Height -> RootInfo) `{!RootSource R source} `{!TipSource T}.
Hypothesis source_height : forall n, ri_height (source n) = n.
Implicit Types (n : Node R T) (info : AttestationInfo).

(** A cached proof is the source chain's: an extension of an earlier attestation, or
    the genesis attestation. *)
Definition from_source (ck : ChainKey) (c : CachedProof) : Prop :=
  let h := ad_header_number (cached_data c) in
  (exists info, ai_height info < h /\ cached_data c = extension_data source ck info h /\
     cached_proof c = extension_proof source info h) \/
  (cached_data c = mkAttestationData ck h (ri_hash (source h)) (ri_root (source h)) None /\
   cached_proof c = mkContinuityProof 0 []).

Record cache_inv (ck : ChainKey) (c : ProofCache) : Prop := {
  ci_ok : cache_ok c;
  ci_source : forall h d p, cache_get h d c = Some p -> from_source ck p;
  ci_local : forall h l, local_data h c = Some l ->
    exists p, cache_get h (ld_digest l) c = Some p /\ l = local_of (cached_data p);
}.

Lemma cache_get_insert (h : Height) d data proof c :
  cache_get h d (cache_insert data proof c) =
    if decide (h = ad_header_number data /\ d = digest data) then Some (mkCachedProof data proof) else cache_get h d c.
Proof.
  unfold cache_get, cache_insert. cbn. destruct (decide (h = ad_header_number data)) as [->|Hne].
  - rewrite lookup_insert_eq. cbn. destruct (decide (d = digest data)) as [->|Hd].
    + rewrite lookup_insert_eq. by rewrite decide_True.
    + rewrite lookup_insert_ne by done. rewrite decide_False by tauto. by destruct (by_height c !! _).
  - rewrite lookup_insert_ne by done. by rewrite decide_False by tauto.
Qed.

Lemma cache_insert_inv ck data proof c :
  from_source ck (mkCachedProof data proof) -> cache_inv ck c -> cache_inv ck (cache_insert data proof c).
Proof.
  intros Hsrc [Hok Hs Hl]. constructor.
  - apply (cache_step_ok c); [constructor|done].
  - intros h d p. rewrite cache_get_insert. case_decide; [by intros [= <-]|by apply Hs].
  - intros h l. unfold local_data, cache_insert at 1. cbn. destruct (decide (h = ad_header_number data)) as [->|Hne].
    + rewrite lookup_insert_eq. intros [= <-]. exists (mkCachedProof data proof). rewrite cache_get_insert. by rewrite decide_True.
    + rewrite lookup_insert_ne by done. intros (p & Hp & ->)%Hl. exists p. rewrite cache_get_insert. by rewrite decide_False by tauto.
Qed.

Lemma cache_get_finalized h d f c :
  cache_get h d (cache_note_finalized f c) = if decide (saturating_add 64 f 1 <= h) then cache_get h d c else None.
Proof.
  unfold cache_get, cache_note_finalized, drop_up_to. cbn. destruct (decide (saturating_add 64 f 1 <= h)) as [Hle|Hgt].
  - destruct (by_height c !! h) as [m|] eqn:Hm.
    + by rewrite (proj2 (map_lookup_filter_Some _ _ _ _) (conj Hm Hle)).
    + rewrite (proj2 (map_lookup_filter_None _ _ _)); [done|by left].
  - rewrite (proj2 (map_lookup_filter_None _ _ _)); [done|right]. intros m _ Hk. by apply Hgt.
Qed.

Lemma cache_finalized_inv ck f c : cache_inv ck c -> cache_inv ck (cache_note_finalized f c).
Proof.
  intros [Hok Hs Hl]. constructor.
  - apply (cache_step_ok c); [constructor|done].
  - intros h d p. rewrite cache_get_finalized. case_decide; [apply Hs|done].
  - intros h l. unfold local_data, cache_note_finalized, drop_up_to. cbn. intros [Hh Hle]%map_lookup_filter_Some.
    apply Hl in Hh as (p & Hp & ->). exists p. split; [|done]. fold (drop_up_to f (by_height c)).
    change (cache_get h (ld_digest (local_of (cached_data p))) (cache_note_finalized f c) = Some p).
    rewrite cache_get_finalized. by rewrite decide_True.
Qed.

Lemma cache_new_inv ck : cache_inv ck cache_new.
Proof. constructor; intros h; [intros d p|intros d p|intros l]; done. Qed.

(** What the pool has been told. *)
Definition pool_view {Sig} (p : Pool Sig) : option Height * Z * Z :=
  (last_finalized_height (forks p), vq_interval (validate_quorum p), vq_max_catchup (validate_quorum p)).

Lemma foldl_view {A} (f : Forks Signature -> A -> Forks Signature) l x :
  (forall g a, last_finalized_height (f g a) = last_finalized_height g) ->
  last_finalized_height (foldl f x l) = last_finalized_height x.
Proof. intros Hf. revert x. induction l as [|a l IH]; intros x; [done|]. cbn. by rewrite IH. Qed.

Lemma split_off_view h (f : Forks Signature) : last_finalized_height (split_off h f) = last_finalized_height f.
Proof. unfold split_off. cbn. rewrite foldl_view; [done|]. by intros g [[? ?] ?]. Qed.

Lemma retain_signers_view keep (f : Forks Signature) : last_finalized_height (retain_signers keep f) = last_finalized_height f.
Proof. unfold retain_signers. cbn. rewrite foldl_view; [done|]. intros g k. unfold retain_fork. by repeat case_match. Qed.

Lemma pool_push_view now vote (p : Pool Signature) r p' : pool_push now vote p = (r, p') -> pool_view p' = pool_view p.
Proof.
  unfold pool_push, pool_view. destruct (negb _); [by intros [= _ <-]|]. destruct (negb _); [by intros [= _ <-]|].
  destruct (forks_push vote (forks p)) as [r0 f'] eqn:Hf. apply push_view in Hf as [_ Hf].
  destruct r0 as [|[]]; intros [= _ <-]; cbn; by rewrite Hf.
Qed.

Lemma sender_op_view op (p : Pool Signature) :
  pool_view (sender_op op p).1 =
    match op with
    | NoteAttestationFinalization h _ | NoteAttestationChainReversion h _ =>
        (Some h, vq_interval (validate_quorum p), vq_max_catchup (validate_quorum p))
    | NoteAttestationIntervalChange i => (last_finalized_height (forks p), i, vq_max_catchup (validate_quorum p))
    | NoteMaxCatchupChange m => (last_finalized_height (forks p), vq_interval (validate_quorum p), m)
    | _ => pool_view p
    end.
Proof.
  destruct op; cbn -[retain_signers]; try done.
  - destruct (pool_push now vote p) as [r p'] eqn:Hp. by apply pool_push_view in Hp.
  - unfold pool_view. cbn -[retain_signers]. by rewrite retain_signers_view.
  - by destruct (_ =? 0).
  - by case_bool_decide.
Qed.

Lemma other_call_view st st' :
  other_call st st' -> forall p', st' = Open p' -> exists p : Pool Signature, st = Open p /\ pool_view p' = pool_view p.
Proof.
  intros Hc p' Heq. destruct Hc as [op p|now p|now vote p|h p|st]; [..|done]; injection Heq as <-; exists p; (split; [done|]).
  - destruct op; cbn [receiver_op].
    + unfold mark_valid, pool_view. cbn -[split_off]. by rewrite split_off_view.
    + unfold mark_invalid, invalidate_fork, drop_fork, pool_view. cbn. by case_match.
    + unfold mark_skipped, drop_fork, pool_view. cbn. by case_match.
    + unfold defer, drop_fork, pool_view. cbn. by repeat case_match.
    + unfold mark_for_later, mark_valid, pool_view. cbn -[split_off]. by rewrite split_off_view.
    + unfold take_next_validated. by repeat case_match.
  - unfold peek. by repeat case_match.
  - apply (sender_op_view (Send now vote)).
  - apply (sender_op_view (NoteMajorityNotReached h)).
Qed.

(** The part of the node that the committee's changes leave alone, and the part that
    is about eligibility. *)
Definition pool_seen {Sig} (st : PoolState Sig) : option (option Height * Z * Z) :=
  match st with Open p => Some (pool_view p) | Closed => None end.

Definition core n :=
  (nd_stream n, nd_chain_key n, nd_latest_cc3 n, nd_latest_finalized n, nd_cache n, nd_interval n, nd_max_catchup n,
   pool_seen (nd_pool n)).
Definition electing n := (nd_can_attest n, nd_attest_target n, nd_eligibility_gen n, nd_warmups n, nd_armed n).

(** Settings and the proof cache. *)
Record base_inv n : Prop := {
  ni_stream : stream_inv source (nd_stream n);
  ni_key : sa_key (nd_stream n) = nd_chain_key n;
  ni_interval : interval (nd_stream n) = nd_interval n;
  ni_max_catchup : setting_typed (nd_max_catchup n);
  ni_catchup : catchup (nd_stream n) <= Z.max (nd_max_catchup n) (nd_interval n);
  ni_cache : cache_inv (nd_chain_key n) (nd_cache n);
  ni_pool : forall f i m, pool_seen (nd_pool n) = Some (f, i, m) -> i = nd_interval n /\ m = nd_max_catchup n;
}.

(** The last finalized attestation. *)
Record sync_inv (phase : Phase) n : Prop := {
  ni_prev : prev (nd_stream n) = nd_latest_cc3 n;
  ni_phase : match phase with
    | Running => nd_latest_finalized n = Some (nd_latest_cc3 n) /\
        (forall f i m, pool_seen (nd_pool n) = Some (f, i, m) -> f = Some (ai_height (nd_latest_cc3 n))) /\
        (forall h d p, cache_get h d (nd_cache n) = Some p -> ai_height (nd_latest_cc3 n) < h)
    | Waiting genesis => ai_height (nd_latest_cc3 n) <= genesis
    end;
}.

(** Eligibility. *)
Record elect_inv n : Prop := {
  ni_allowed : nd_can_attest n = true -> nd_attest_target n = true;
  ni_armed : (0 < nd_armed n)%nat -> nd_attest_target n = true;
  ni_gens : 0 <= nd_eligibility_gen n <= umax 64 /\ Forall (fun g => 0 <= g <= nd_eligibility_gen n) (nd_warmups n);
  ni_current : nd_eligibility_gen n ∈ nd_warmups n -> nd_attest_target n = true;
  ni_enabled : nd_attest_target n = true ->
    nd_can_attest n = true \/ (0 < nd_armed n)%nat \/ nd_eligibility_gen n ∈ nd_warmups n;
}.

Lemma base_core n n' : core n' = core n -> base_inv n -> base_inv n'.
Proof. intros [= E1 E2 E3 E4 E5 E6 E7 E8] []. constructor; rewrite ?E1, ?E2, ?E5, ?E6, ?E7, ?E8; done. Qed.

Lemma sync_core phase n n' : core n' = core n -> sync_inv phase n -> sync_inv phase n'.
Proof.
  intros [= E1 E2 E3 E4 E5 E6 E7 E8] []. constructor; [by rewrite E1, E3|]. destruct phase; [by rewrite E3|].
  by rewrite E3, E4, E5, E8.
Qed.

Lemma elect_same n n' : electing n' = electing n -> elect_inv n -> elect_inv n'.
Proof. intros [= E1 E2 E3 E4 E5] []. constructor; rewrite ?E1, ?E2, ?E3, ?E4, ?E5; done. Qed.

(** *** Calls on the pool *)

Lemma pool_seen_send op (st : PoolState Signature) :
  pool_seen (on_open (sender_op op) false st).1 =
    match st with Open p => Some (pool_view (sender_op op p).1) | Closed => None end.
Proof. destruct st as [p|]; cbn; [|done]. by destruct (sender_op op p). Qed.

Lemma pool_seen_same op (st : PoolState Signature) :
  (forall p, pool_view (sender_op op p).1 = pool_view p) -> pool_seen (on_open (sender_op op) false st).1 = pool_seen st.
Proof. intros Hop. rewrite pool_seen_send. destruct st; cbn; by rewrite ?Hop. Qed.

Lemma pool_seen_other st st' : @other_call Signature st st' -> pool_seen st' = pool_seen st \/ pool_seen st' = None.
Proof.
  intros Hc. destruct st' as [p'|] eqn:Hst; [left|by right]. destruct (other_call_view _ _ Hc p' eq_refl) as (p & -> & Hv).
  cbn. by rewrite Hv.
Qed.

(** *** The committee *)

Lemma pool_send_core op : (forall p, pool_view (sender_op op p).1 = pool_view p) -> leaves core (pool_send (R := R) (T := T) op).
Proof. intros Hop. apply leaves_modify. intros n. unfold core. cbn. by rewrite pool_seen_same. Qed.

Lemma refresh_keys_core answers l : leaves core (refresh_keys (R := R) (T := T) answers l).
Proof. unfold refresh_keys. leaves. Qed.

Lemma refresh_quorum_core answers : leaves core (refresh_quorum (R := R) (T := T) answers).
Proof.
  apply leaves_bind; [apply leaves_lift|intros threshold]. apply leaves_bind; [|leaves].
  apply pool_send_core. intros p. apply (sender_op_view (NoteQuorumChange threshold)).
Qed.

Lemma refresh_committee_core answers l : leaves core (refresh_committee (R := R) (T := T) answers l).
Proof.
  apply leaves_bind; [apply leaves_gets|intros account]. apply leaves_bind; [apply refresh_keys_core|intros _].
  apply leaves_bind; [apply pool_send_core, (sender_op_view (NoteAttestorsElected l))|intros _].
  apply leaves_bind; [apply refresh_quorum_core|intros _]. unfold apply_eligibility. leaves.
Qed.

Lemma reconcile_core answers : leaves core (reconcile_committee_from_chain (R := R) (T := T) answers).
Proof. apply leaves_bind; [apply leaves_lift|intros l]. apply refresh_committee_core. Qed.

(** The events that are not about the committee. *)
Definition on_chain_state (event : CcEvent) : bool :=
  match event with
  | BlockAttested _ | AttestationIntervalChanged _ | MaxCatchupChanged _ | RevertedAttestationChainTo _ => true
  | _ => false
  end.

Lemma committee_event_core answers event : on_chain_state event = false -> leaves core (handle_one (R := R) (T := T) answers event).
Proof.
  destruct event; intros He; try done; cbn [handle_one];
    first [apply leaves_ret|apply reconcile_core|apply refresh_quorum_core|apply refresh_committee_core|idtac];
    (apply leaves_bind; [apply leaves_gets|intros account]; apply leaves_bind; [apply reconcile_core|intros _]; leaves).
Qed.

(** *** Settings and caches, whatever interleaves *)

Lemma block_attested_base info n u n' :
  base_inv n -> info_typed info -> block_attested info n = (Ok u, n') -> base_inv n'.
Proof.
  intros [] Hi Hrun. injection Hrun as _ <-. constructor; cbn -[cache_note_finalized]; try done.
  - by apply finalization_inv.
  - unfold note_attestation_finalization. by destruct (_ <=? _).
  - unfold note_attestation_finalization. by destruct (_ <=? _).
  - unfold note_attestation_finalization. by destruct (_ <=? _).
  - by apply cache_finalized_inv.
  - intros f i m. rewrite pool_seen_send. destruct (nd_pool n) as [p|]; [|done].
    rewrite (sender_op_view (NoteAttestationFinalization (ai_height info) (ai_digest info))). intros [= _ <- <-].
    by eapply ni_pool0.
Qed.

Lemma interval_changed_base raw n :
  base_inv n -> setting_typed raw -> nd_interval n <= nd_max_catchup n ->
  base_inv (n <| nd_interval := raw |> <| nd_stream ::= note_attestation_interval_change raw |>
    <| nd_pool ::= fun st => (on_open (sender_op (NoteAttestationIntervalChange raw)) false st).1 |>).
Proof.
  intros [Hstream Hkey Hint Hmax Hcatch Hcache Hpool] Hraw Hcons.
  destruct (next_info_range (nd_stream n) (iv_prev _ _ Hstream)) as [Hr Hn1].
  pose proof (iv_catchup _ _ Hstream) as Hcat. destruct (align_catchup_spec (catchup (nd_stream n)) raw Hcat Hraw) as (_ & Ha & _).
  constructor; cbn -[align_catchup]; try done.
  - apply rebuilt_inv; try done; [apply Hstream|lia].
  - lia.
  - intros f i m. rewrite pool_seen_send. destruct (nd_pool n) as [p|]; [|done].
    rewrite (sender_op_view (NoteAttestationIntervalChange raw)). intros [= _ <- <-]. split; [done|by eapply Hpool].
Qed.

Lemma max_catchup_changed_base raw n :
  base_inv n -> setting_typed raw ->
  base_inv (n <| nd_max_catchup := raw |> <| nd_stream ::= note_max_catchup_change raw |>
    <| nd_pool ::= fun st => (on_open (sender_op (NoteMaxCatchupChange raw)) false st).1 |>).
Proof.
  intros [Hstream Hkey Hint Hmax Hcatch Hcache Hpool] Hraw.
  destruct (next_info_range (nd_stream n) (iv_prev _ _ Hstream)) as [Hr Hn1].
  pose proof (iv_interval _ _ Hstream) as Hi. destruct (align_catchup_spec raw (interval (nd_stream n)) Hraw Hi) as (_ & Ha & _).
  constructor; cbn -[align_catchup]; try done.
  - apply rebuilt_inv; try done; [apply Hstream|lia].
  - by rewrite <- Hint.
  - intros f i m. rewrite pool_seen_send. destruct (nd_pool n) as [p|]; [|done].
    rewrite (sender_op_view (NoteMaxCatchupChange raw)). intros [= _ <- <-]. split; [by eapply Hpool|done].
Qed.

Lemma reverted_base info n answers u n' :
  base_inv n -> info_typed info -> handle_one answers (RevertedAttestationChainTo info) n = (Ok u, n') -> base_inv n'.
Proof.
  intros [Hstream Hkey Hint Hmax Hcatch Hcache Hpool] Hi Hrun. injection Hrun as _ <-.
  pose proof (iv_catchup _ _ Hstream) as Hcat. pose proof (iv_interval _ _ Hstream) as Hiv.
  destruct (align_catchup_spec (catchup (nd_stream n)) (interval (nd_stream n)) Hcat Hiv) as (_ & Ha & _).
  constructor; cbn -[align_catchup]; try done.
  - apply rebuilt_inv; try done; [|lia]. unfold info_typed, height_limit in Hi. words. lia.
  - lia.
  - intros f i m. rewrite pool_seen_send. destruct (nd_pool n) as [p|]; [|done].
    rewrite (sender_op_view (NoteAttestationChainReversion (ai_height info) (ai_digest info))). intros [= _ <- <-].
    by eapply Hpool.
Qed.

Lemma handle_one_base answers event n u n' :
  base_inv n -> cc_event_typed event n -> handle_one answers event n = (Ok u, n') -> base_inv n'.
Proof.
  intros Hn Ht Hrun. destruct (on_chain_state event) eqn:He.
  2: { apply (committee_event_core answers) in He. by eapply base_core; [eapply He|]. }
  destruct event; try done; [| | |by eapply reverted_base]; cbn [handle_one cc_event_typed] in Hrun, Ht.
  - rewrite run_gets in Hrun. unfold when in Hrun. destruct (_ <? _); [by eapply block_attested_base|by injection Hrun as _ <-].
  - destruct (Z.eqb_spec raw 0) as [_|Hz]; [by injection Hrun as _ <-|]. destruct (Ht Hz) as [Hraw Hle].
    injection Hrun as _ <-. by apply interval_changed_base.
  - destruct (Z.eqb_spec raw 0) as [_|Hz]; [by injection Hrun as _ <-|]. specialize (Ht Hz).
    injection Hrun as _ <-. by apply max_catchup_changed_base.
Qed.

(** What a poll that is due leaves, and what it casts a vote for. *)
Lemma produce_spec fuel now n n' :
  base_inv n -> produce fuel now n = Some n' ->
  exists s', stream_inv source s' /\ sa_key s' = nd_chain_key n /\ prev s' = prev (nd_stream n) /\
    interval s' = nd_interval n /\ catchup s' = catchup (nd_stream n) /\
  (n' = n <| nd_stream := s' |> \/ exists height, ai_height (prev (nd_stream n)) < height /\
     n' = emit_local now (sign_attestation (extension_data source (nd_chain_key n) (prev (nd_stream n)) height)
       (extension_proof source (prev (nd_stream n)) height)) (n <| nd_stream := s' |>)).
Proof.
  intros [Hs Hkey Hint _ _ _ _] Hp. unfold produce in Hp. destruct (nd_can_attest n).
  2: { injection Hp as <-. exists (nd_stream n). split_and!; try done. left. by destruct n. }
  destruct (stream_poll fuel (nd_stream n)) as [[r s']|] eqn:Hpoll; [|done].
  destruct (stream_poll_any source source_height _ _ _ _ Hs Hpoll) as (Hs' & (E1 & E2 & E3 & E4) & Hr).
  pose proof (iv_interval _ _ Hs) as [? _]. exists s'. split_and!; try done; try congruence.
  destruct r as [att| | |]; injection Hp as <-; try (by left). right. destruct Hr as (h & Hh & Hatt).
  exists h. split; [lia|]. by rewrite Hatt, Hkey.
Qed.

Lemma node_step_base a b : node_step a b -> base_inv a.2 -> base_inv b.2.
Proof.
  intros Hstep Hn. destruct Hstep as [answers event n n' Ht Hrun|genesis answers event n over n' Ht Hrun
    |fuel now n n' Hp|phase i n n' Hc|phase n n' Hs|phase n st Hc]; cbn [fst snd] in *.
  - by eapply handle_one_base.
  - destruct event as [info|e|cp|raw|t|i|raw|l|who|who|who|h|info]; cbn [wait_event] in Hrun.
    2-13: apply bind_ok in Hrun as ([] & n1 & Hrun & [-> ->]%ret_ok); by eapply handle_one_base.
    destruct (_ <=? _); [|by injection Hrun as _ <-].
    apply bind_ok in Hrun as ([] & n1 & Hrun & [-> ->]%ret_ok). by eapply block_attested_base.
  - destruct (produce_spec _ _ _ _ Hn Hp) as (s' & Hs' & E1 & E2 & E3 & E4 & Hn').
    assert (base_inv (n <| nd_stream := s' |>)) as Hb by (destruct Hn; constructor; cbn; rewrite ?E1, ?E3, ?E4; done).
    destruct Hn' as [-> |(h & Hlt & ->)]; [done|]. destruct Hb. constructor; cbn -[cache_insert on_open]; try done.
    + apply cache_insert_inv; [|done]. left. by exists (prev (nd_stream n)).
    + by rewrite (pool_seen_same (Send now _)) by apply (sender_op_view (Send now _)).
  - apply bind_Some in Hc as (gen & Hi & [= <-]). destruct Hn. by destruct (_ =? _); constructor.
  - unfold warm_up_send in Hs. destruct (nd_armed n); [done|]. injection Hs as <-. by destruct Hn.
  - destruct Hn. constructor; cbn; try done. by destruct (pool_seen_other _ _ Hc) as [-> | ->].
Qed.

(** *** The last finalized attestation *)

Lemma finalized_fresh f c h d p :
  0 <= f < height_limit -> cache_get h d (cache_note_finalized f c) = Some p -> f < h.
Proof.
  intros Hf. rewrite cache_get_finalized. case_decide as Hle; [|done]. intros _.
  unfold saturating_add, height_limit in *. rewrite umax_64 in Hle. lia.
Qed.

Lemma block_attested_sync phase info n u n' :
  sync_inv phase n -> info_typed info -> ai_height (nd_latest_cc3 n) <= ai_height info ->
  block_attested info n = (Ok u, n') -> sync_inv Running n'.
Proof.
  intros [Hprev _] Hi Hle Hrun. injection Hrun as _ <-. rewrite <- Hprev in Hle.
  constructor; cbn -[cache_note_finalized on_open]; [|split_and!; [done| |]].
  - unfold note_attestation_finalization. by rewrite (proj2 (Z.leb_le _ _) Hle).
  - intros f i m. rewrite pool_seen_send. destruct (nd_pool n) as [p|]; [|done].
    rewrite (sender_op_view (NoteAttestationFinalization (ai_height info) (ai_digest info))). by intros [= <- _ _].
  - intros h d p Hp. by eapply finalized_fresh.
Qed.

Lemma reverted_sync phase info n answers u n' :
  handle_one answers (RevertedAttestationChainTo info) n = (Ok u, n') ->
  match phase with Waiting genesis => ai_height (nd_latest_cc3 n') <= genesis | Running => True end -> sync_inv phase n'.
Proof.
  intros Hrun. injection Hrun as _ <-. cbn. intros Hw. constructor; cbn -[on_open]; [done|].
  destruct phase; [done|]. split_and!; [done| |by intros h d p].
  intros f i m. rewrite pool_seen_send. destruct (nd_pool n) as [p|]; [|done].
  rewrite (sender_op_view (NoteAttestationChainReversion (ai_height info) (ai_digest info))). by intros [= <- _ _].
Qed.

(** A change of the interval or the catch-up bound. *)
Lemma setting_sync phase op raw n n' :
  sync_inv phase n -> prev (nd_stream n') = prev (nd_stream n) -> nd_latest_cc3 n' = nd_latest_cc3 n ->
  nd_latest_finalized n' = nd_latest_finalized n -> nd_cache n' = nd_cache n ->
  (op = NoteAttestationIntervalChange raw \/ op = NoteMaxCatchupChange raw) ->
  nd_pool n' = (on_open (sender_op op) false (nd_pool n)).1 -> sync_inv phase n'.
Proof.
  intros [Hprev Hphase] E1 E2 E3 E4 Hop E5. constructor; [by rewrite E1, E2|]. rewrite E2. destruct phase; [done|].
  destruct Hphase as (Hw & Hpool & Hc). rewrite E3, E4, E5. split_and!; try done.
  intros f i m. rewrite pool_seen_send. destruct (nd_pool n) as [p|]; [|done]. rewrite (sender_op_view op).
  destruct Hop as [-> | ->]; intros [= <- _ _]; by eapply (Hpool _ _ _ eq_refl).
Qed.

Lemma handle_one_sync phase answers event n u n' :
  sync_inv phase n -> cc_event_typed event n -> handle_one answers event n = (Ok u, n') ->
  match phase with Waiting genesis => ai_height (nd_latest_cc3 n') <= genesis | Running => True end ->
  (phase = Running \/ forall info, event <> BlockAttested info) -> sync_inv phase n'.
Proof.
  intros Hn Ht Hrun Hw Hb. destruct (on_chain_state event) eqn:He.
  2: { apply (committee_event_core answers) in He. by eapply sync_core; [eapply He|]. }
  destruct event; try done; [| | |by eapply reverted_sync]; cbn [handle_one cc_event_typed] in Hrun, Ht.
  - destruct Hb as [-> |Hb]; [|by destruct (Hb info)]. rewrite run_gets in Hrun. unfold when in Hrun.
    destruct (Z.ltb_spec (ai_height (nd_latest_cc3 n)) (ai_height info)); [|by injection Hrun as _ <-].
    eapply block_attested_sync; [exact Hn|exact Ht|lia|exact Hrun].
  - destruct (Z.eqb_spec raw 0) as [_|Hz]; [by injection Hrun as _ <-|].
    injection Hrun as _ <-. eapply (setting_sync phase (NoteAttestationIntervalChange raw)); [exact Hn|done..|by left|done].
  - destruct (Z.eqb_spec raw 0) as [_|Hz]; [by injection Hrun as _ <-|].
    injection Hrun as _ <-. eapply (setting_sync phase (NoteMaxCatchupChange raw)); [exact Hn|done..|by right|done].
Qed.

Lemma produce_sync fuel now n n' :
  base_inv n -> sync_inv Running n -> produce fuel now n = Some n' -> sync_inv Running n'.
Proof.
  intros Hbase [Hprev (Hw & Hpool & Hc)] Hp.
  destruct (produce_spec _ _ _ _ Hbase Hp) as (s' & _ & _ & E & _ & _ & [-> |(h & Hlt & ->)]).
  - constructor; cbn; [by rewrite E|done].
  - rewrite Hprev in *. constructor; cbn -[cache_insert on_open]; [done|split_and!; [done| |]].
    + by rewrite (pool_seen_same (Send now _)) by apply (sender_op_view (Send now _)).
    + intros h' d p. rewrite cache_get_insert. case_decide as Hd; [|apply Hc]. destruct Hd as [-> _]. by intros _.
Qed.

Lemma aligned_step_sync a b : aligned_step a b -> base_inv a.2 -> sync_inv a.1 a.2 -> sync_inv b.1 b.2.
Proof.
  intros [Hstep Hw] Hbase Hn. destruct Hstep as [answers event n n' Ht Hrun|genesis answers event n over n' Ht Hrun
    |fuel now n n' Hp|phase i n n' Hc|phase n n' Hs|phase n st Hc]; cbn [fst snd] in *.
  - eapply handle_one_sync; [exact Hn|exact Ht|exact Hrun|done|by left].
  - destruct event as [info|e|cp|raw|t|i|raw|l|who|who|who|h|info]; cbn [wait_event] in Hrun.
    2-13: apply bind_ok in Hrun as ([] & n1 & Hrun & [-> ->]%ret_ok);
      (eapply handle_one_sync; [exact Hn|exact Ht|exact Hrun|exact Hw|by right]).
    destruct (Z.leb_spec genesis (ai_height info)); [|by injection Hrun as <- <-].
    apply bind_ok in Hrun as ([] & n1 & Hrun & [-> ->]%ret_ok). pose proof (ni_phase _ _ Hn) as Hg. cbn in Hg.
    eapply block_attested_sync; [exact Hn|exact Ht|lia|exact Hrun].
  - by eapply produce_sync.
  - apply bind_Some in Hc as (gen & Hi & [= <-]). by destruct (_ =? _); apply (sync_core phase n).
  - unfold warm_up_send in Hs. destruct (nd_armed n); [done|]. injection Hs as <-. by apply (sync_core phase n).
  - destruct Hn as [Hprev Hphase]. constructor; cbn; [done|]. destruct phase; [done|].
    destruct Hphase as (Hw' & Hpool & Hfresh). by destruct (pool_seen_other _ _ Hc) as [-> | ->].
Qed.

(** *** Eligibility *)

Lemma refresh_quorum_electing answers : leaves electing (refresh_quorum (R := R) (T := T) answers).
Proof. unfold refresh_quorum, pool_send. leaves. Qed.

Lemma refresh_committee_electing answers l n u n' :
  refresh_committee answers l n = (Ok u, n') ->
  exists eligible n1, electing n1 = electing n /\ apply_eligibility eligible n1 = (Ok u, n').
Proof.
  intros Hrun. unfold refresh_committee in Hrun. rewrite run_gets in Hrun. set (eligible := bool_decide _) in Hrun.
  apply bind_ok in Hrun as ([] & n1 & K1 & Hrun). apply bind_ok in Hrun as ([] & n2 & K2 & Hrun).
  apply bind_ok in Hrun as ([] & n3 & K3 & Hrun). exists eligible, n3. split; [|done].
  assert (leaves electing (refresh_keys (R := R) (T := T) answers l)) as Hk by (unfold refresh_keys; leaves).
  assert (leaves electing (pool_send (R := R) (T := T) (NoteAttestorsElected l))) as Hp by (unfold pool_send; leaves).
  by rewrite (refresh_quorum_electing answers _ _ _ K3), (Hp _ _ _ K2), (Hk _ _ _ K1).
Qed.

(** An event leaves eligibility alone or sets it once. *)
Lemma handle_one_electing answers event n u n' :
  handle_one answers event n = (Ok u, n') ->
  electing n' = electing n \/
  exists eligible n1 n2, electing n1 = electing n /\ apply_eligibility eligible n1 = (Ok tt, n2) /\ electing n' = electing n2.
Proof.
  assert (forall l n u n', refresh_committee answers l n = (Ok u, n') -> exists eligible n1 n2,
    electing n1 = electing n /\ apply_eligibility eligible n1 = (Ok tt, n2) /\ electing n' = electing n2) as Hrc.
  { intros l m [] m' (eligible & n1 & He & Ha)%refresh_committee_electing. by exists eligible, n1, m'. }
  assert (forall n u n', reconcile_committee_from_chain answers n = (Ok u, n') -> exists eligible n1 n2,
    electing n1 = electing n /\ apply_eligibility eligible n1 = (Ok tt, n2) /\ electing n' = electing n2) as Hre.
  { intros m v m' Hrun. apply bind_ok in Hrun as (l & n1 & [_ ->]%lift_ok & Hrun). by eapply Hrc. }
  intros Hrun. destruct event; cbn [handle_one] in Hrun;
    try (right; first [by eapply Hre|by eapply Hrc]);
    try (left; refine ((_ : leaves electing _) _ _ _ Hrun); unfold block_attested, update_stream, pool_send; leaves; fail).
  all: right; rewrite run_gets in Hrun; apply bind_ok in Hrun as ([] & m & Hm & Hrun);
    destruct (Hre _ _ _ Hm) as (e & n1 & n2 & E1 & E2 & E3); exists e, n1, n2; split_and!; try done; rewrite <- E3;
    destruct (negb _); by injection Hrun as _ <-.
Qed.

Lemma apply_eligibility_elect eligible n u n' :
  elect_inv n -> apply_eligibility eligible n = (Ok u, n') -> nd_eligibility_gen n <= nd_eligibility_gen n' ->
  nd_armed n = O \/ nd_attest_target n' = nd_attest_target n -> elect_inv n'.
Proof.
  intros Hn Hrun Hgen Hq. unfold apply_eligibility, eligibility_action in Hrun. rewrite run_gets in Hrun.
  apply bind_ok in Hrun as ([] & n1 & Hm%modify_ok & Hrun). destruct Hn as [Hallow Harmed [Hg Hall] Hcurrent Henabled].
  assert (nd_eligibility_gen n <= wrap 64 (nd_eligibility_gen n + 1) -> 
    nd_eligibility_gen n < umax 64 /\ wrap 64 (nd_eligibility_gen n + 1) = nd_eligibility_gen n + 1) as Hw.
  { intros Hle. destruct (decide (nd_eligibility_gen n = umax 64)) as [Heq|Hne]; [by rewrite Heq in Hle|].
    split; [lia|]. apply wrap_small. unfold umax in *. lia. }
  destruct (nd_attest_target n) eqn:Ht, eligible; cbn in Hrun; injection Hrun as _ <-; subst n1; cbn in Hgen, Hq.
  - constructor; cbn; rewrite ?Ht; try done; try by auto.
  - destruct Hq as [Hz|]; [|done]. destruct (Hw Hgen) as [Hlt Hw']. constructor; cbn; rewrite ?Hw', ?Hz; try done; try lia.
    + split; [lia|]. eapply Forall_impl; [exact Hall|]. cbn. lia.
    + intros Hin. eapply Forall_forall in Hall; [|exact Hin]. cbn in Hall. lia.
  - destruct (Hw Hgen) as [Hlt Hw']. constructor; cbn; rewrite ?Hw'; try done; try lia.
    + split; [lia|]. apply Forall_app. split; [|repeat constructor; lia]. eapply Forall_impl; [exact Hall|]. cbn. lia.
    + intros _. right. right. apply elem_of_app. right. by apply list_elem_of_singleton.
  - constructor; cbn; rewrite ?Ht; try done; try by auto.
Qed.

Lemma handle_one_elect answers event n u n' :
  elect_inv n -> handle_one answers event n = (Ok u, n') -> nd_eligibility_gen n <= nd_eligibility_gen n' ->
  nd_armed n = O \/ nd_attest_target n' = nd_attest_target n -> elect_inv n'.
Proof.
  intros Hn Hrun Hg Hq. destruct (handle_one_electing _ _ _ _ _ Hrun) as [He|(e & n1 & n2 & E1 & Ha & E2)];
    [by eapply elect_same|]. apply (elect_same n2 n' E2). apply (elect_same n n1 E1) in Hn.
  injection E1 as _ F2 F3 _ F5. injection E2 as _ G2 G3 _ _.
  eapply apply_eligibility_elect; [exact Hn|exact Ha|by rewrite F3, <- G3|by rewrite F5, F2, <- G2].
Qed.

Lemma warm_up_check_elect i n n' : elect_inv n -> warm_up_check i n = Some n' -> elect_inv n'.
Proof.
  intros Hn (gen & Hi & [= <-])%bind_Some. destruct Hn as [Hallow Harmed [Hg Hall] Hcurrent Henabled].
  assert (nd_warmups n ≡ₚ gen :: delete i (nd_warmups n)) as Hperm by (by apply delete_Permutation).
  assert (gen ∈ nd_warmups n) as Hin by (by eapply list_elem_of_lookup_2). rewrite Hperm in Hall. apply Forall_cons in Hall as [_ Hall].
  cbn. destruct (Z.eqb_spec (nd_eligibility_gen n) gen) as [Heq|Hne]; constructor; cbn; try done.
  - intros _. apply Hcurrent. by rewrite Heq.
  - intros Hc. apply Hcurrent. rewrite Hperm. by right.
  - intros _. right. left. lia.
  - intros Hc. apply Hcurrent. rewrite Hperm. by right.
  - intros Ht. destruct (Henabled Ht) as [|[|Hc]]; [by left|by right; left|right; right].
    rewrite Hperm in Hc. by apply elem_of_cons in Hc as [|].
Qed.

Lemma calm_step_elect a b : calm_step a b -> elect_inv a.2 -> elect_inv b.2.
Proof.
  intros (Hstep & Hg & Hq) Hn. destruct Hstep as [answers event n n' Ht Hrun|genesis answers event n over n' Ht Hrun
    |fuel now n n' Hp|phase i n n' Hc|phase n n' Hs|phase n st Hc]; cbn [fst snd] in *.
  - by eapply handle_one_elect.
  - destruct event as [info|e|cp|raw|t|i|raw|l|who|who|who|h|info]; cbn [wait_event] in Hrun.
    2-13: apply bind_ok in Hrun as ([] & n1 & Hrun & [-> ->]%ret_ok); by eapply handle_one_elect.
    destruct (_ <=? _); [|by injection Hrun as _ <-].
    apply bind_ok in Hrun as ([] & n1 & Hrun & [-> ->]%ret_ok). apply (elect_same n); [|done]. by injection Hrun as <-.
  - apply (elect_same n); [|done]. unfold produce in Hp. destruct (nd_can_attest n) eqn:Hcan; [|by injection Hp as <-].
    destruct (stream_poll _ _) as [[[] s']|]; try done; by injection Hp as <-.
  - by eapply warm_up_check_elect.
  - unfold warm_up_send in Hs. destruct (nd_armed n) as [|k] eqn:Ha; [done|]. injection Hs as <-.
    destruct Hn as [Hallow Harmed Hgens Hcurrent Henabled]. constructor; cbn; try done; try (intros _; apply Harmed; lia). by left.
  - by apply (elect_same n).
Qed.

Definition node_start (config : StreamConfig R T) (account : AccountId) (pool : PoolConfig) (keys : ElectedSet)
    (start : option AttestationInfo) (now : Z) : Phase * Node R T :=
  let n := node_new config account pool keys start in
  match start with
  | Some _ => (Running, n)
  | None => let genesis := ai_height (sc_prev config) in (Waiting genesis, emit_genesis now (source genesis) n)
  end.

(** The pool and the stream are configured alike. *)
Record start_ok (config : StreamConfig R T) (pool : PoolConfig) (start : option AttestationInfo) : Prop := {
  start_config : config_ok source config;
  start_interval : pc_attestation_interval pool = sc_interval config;
  start_max_catchup : pc_max_catchup pool = sc_max_catchup config;
  start_finalized : pc_start_height_finalized pool = ai_height <$> start;
  start_at : forall info, start = Some info -> sc_prev config = info;
}.

Lemma node_start_inv config account pool keys start now :
  start_ok config pool start ->
  let b := node_start config account pool keys start now in base_inv b.2 /\ sync_inv b.1 b.2 /\ elect_inv b.2.
Proof.
  intros [[Hr Ht Hi Hc Hp Hn] Hpi Hpm Hpf Hst]. destruct (align_catchup_spec _ _ Hc Hi) as (_ & Ha & _).
  assert (stream_inv source (stream_new config)) as Hs by (by apply stream_new_inv).
  destruct start as [info|]; split_and!; constructor; cbn -[align_catchup cache_insert on_open]; try done; try lia; try (by auto).
  - intros f i m [= _ <- <-]. done.
  - rewrite (Hst info eq_refl). split_and!; [done| |by intros h d p]. intros f i m [= <- _ _]. by rewrite Hpf.
  - apply cache_insert_inv; [|apply cache_new_inv]. right. cbn. by rewrite source_height.
  - rewrite (pool_seen_same (Send now _)) by apply (sender_op_view (Send now _)). intros f i m [= _ <- <-]. done.
Qed.

Section Runs.
Context (config : StreamConfig R T) (account : AccountId) (pool : PoolConfig) (keys : ElectedSet)
  (start : option AttestationInfo) (now : Z) (phase : Phase) (n : Node R T) (started : start_ok config pool start).
Abbreviation from := (node_start config account pool keys start now) (only parsing).

Lemma node_reached_base : rtc node_step from (phase, n) -> base_inv n.
Proof.
  intros Hr. apply (rtc_ind_r (fun b => base_inv b.2) from) in Hr; [done|by apply node_start_inv|].
  intros a b _ Hstep. by apply node_step_base.
Qed.

Lemma aligned_reached_inv : rtc aligned_step from (phase, n) -> base_inv n /\ sync_inv phase n.
Proof.
  intros Hr. apply (rtc_ind_r (fun b => base_inv b.2 /\ sync_inv b.1 b.2) from) in Hr; [done| |].
  - destruct (node_start_inv config account pool keys start now started) as (? & ? & _). done.
  - intros a b _ Hstep [Hb Hs]. split; [by eapply node_step_base; [apply Hstep|]|by eapply aligned_step_sync].
Qed.

Lemma calm_reached_inv : rtc calm_step from (phase, n) -> elect_inv n.
Proof.
  intros Hr. apply (rtc_ind_r (fun b => elect_inv b.2) from) in Hr; [done|by apply node_start_inv|].
  intros a b _ Hstep. by apply calm_step_elect.
Qed.
End Runs.

End InStep.

(** ** A node on the concrete chain *)

Definition node_config : StreamConfig (Roots * list RootsEvent) (Tips * list TipEvent) :=
  mkStreamConfig 1 (roots_new 101, stream_events) (tips_new 101, [TipHead 112 no_tag]) 10 (mkAttestationInfo 100 777) 500.

Definition node_pool : PoolConfig := mkPoolConfig [20] 1 10 101 500 (Some 777) (Some 100).

Definition node1 : Node (Roots * list RootsEvent) (Tips * list TipEvent) :=
  node_new node_config 20 node_pool keys1 (Some (mkAttestationInfo 100 777)).

Definition yielded {A S} (o : option (Outcome A * S)) : option (A * S) :=
  match o with Some (Yield a, s) => Some (a, s) | _ => None end.

Lemma yielded_Some {A S} (o : option (Outcome A * S)) x :
  yielded o = Some x -> o = Some (Yield x.1, x.2).
Proof. by destruct o as [[[a| | |] s]|]; intros [= <-]. Qed.

Definition att1 : Attestation :=
  default (sign_attestation (mkAttestationData 0 0 0 0 None) (mkContinuityProof 0 [])) (fst <$> yielded (stream_poll 60 (nd_stream node1))).
Definition st1 : StreamAttestation (Roots * list RootsEvent) (Tips * list TipEvent) :=
  default (nd_stream node1) (snd <$> yielded (stream_poll 60 (nd_stream node1))).

Lemma poll1_yields : stream_poll 60 (nd_stream node1) = Some (Yield att1, st1).
Proof.
  assert (is_Some (yielded (stream_poll 60 (nd_stream node1)))) as [x Hx].
  { apply (bool_decide_eq_true_1 (is_Some (yielded (stream_poll 60 (nd_stream node1))))). vm_compute. reflexivity. }
  unfold att1, st1. rewrite Hx. exact (yielded_Some _ x Hx).
Qed.

Definition node2 : Node (Roots * list RootsEvent) (Tips * list TipEvent) := emit_local 5 att1 (node1 <| nd_stream := st1 |>).

Lemma node_start_ok : start_ok toy_source node_config node_pool (Some (mkAttestationInfo 100 777)).
Proof.
  assert (in_range 64 101) as H101 by (unfold in_range; decide_now).
  constructor; [|done..|by intros info [= <-]]. constructor; cbn -[stream_events].
  - split_and!; [done| |right; by apply roots_new_inv]. unfold event_typed. cbn. repeat constructor.
  - split; [|done]. constructor; [|constructor]. split; [split; vm_compute; congruence|done].
  - split; vm_compute; reflexivity.
  - split; vm_compute; reflexivity.
  - split; vm_compute; congruence.
  - done.
Qed.

Lemma node2_step : node_step (Running, node1) (Running, node2).
Proof. apply (ns_produce 60 5 node1). unfold produce. by rewrite poll1_yields. Qed.

Lemma node2_cached : cache_get 110 (digest (an_data att1)) (nd_cache node2) = Some (mkCachedProof (an_data att1) (an_proof att1)).
Proof. vm_compute. reflexivity. Qed.


(** The timers check the generation and then enable the node in two steps. A removal
    that lands in between is overruled: the node attests although it is not elected. *)
Lemma warm_up_race :
  let answers := mkCommitteeRpc (Ok []) (Ok (fun _ => None)) (Ok 1) in
  let removed := (handle_one answers (AttestorsElected [30]) node1).2 in
  let elected := (handle_one answers (AttestorsElected [20]) removed).2 in
  exists armed sent, warm_up_check 0 elected = Some armed /\
    warm_up_send (handle_one answers (AttestorsElected [30]) armed).2 = Some sent /\
    nd_can_attest sent = true /\ nd_attest_target sent = false.
Proof. eexists _, _. split_and!; [vm_compute; reflexivity..]. Qed.

(** A reversion above genesis while the node waits goes to the stream, which then
    ignores the lower genesis attestation that ends the wait. *)
Lemma reverted_while_waiting :
  let answers := mkCommitteeRpc (Ok []) (Ok (fun _ => None)) (Ok 1) in
  let reverted := (wait_event 100 answers (RevertedAttestationChainTo (mkAttestationInfo 200 9)) node1).2 in
  let started := (wait_event 100 answers (BlockAttested (mkAttestationInfo 100 777)) reverted).2 in
  ai_height (nd_latest_cc3 started) = 100 /\ ai_height (prev (nd_stream started)) = 200.
Proof. split; vm_compute; reflexivity. Qed.
