(* ===== verification/Commitment.v ===== *)
(** * From production to commitment

    The attestor and the runtime together: what the production task votes for
    ([src/attestor/attestor/src/tasks/production.rs], the attestation stream behind it)
    is what the validation task submits ([tasks/validation.rs]) and what the pallet's
    [commit_attestation] accepts. *)

From stdpp Require Import prelude gmap list sorting strings.
From Stdlib Require Import ZArith Lia.
From S2P Require Import Prelude Primitives Frame SupportedChains Randomness Types Ledger Roster RosterSpec.
From S2P Require Import Settings Validate Checkpoints LadderSpec LadderRefine Pallet Runtime Concrete Guarantees.
From S2P Require Import VotePool VotePoolSpec Submitter Sources AttestationStream Production.

(** ** The submitter's check of an extension *)

Section Extension.
Context `{Keccak} (source : Height -> RootInfo).

Lemma extension_validates ck info height digest_local genesis :
  0 <= ai_height info < height -> height < umax 64 ->
  validate_proof_chain (mkCachedProof (extension_data source ck info height) (extension_proof source info height)) height
    (Some (ai_height info, ai_digest info)) digest_local genesis = true.
Proof.
  intros Hlt Hmax. assert (zlen (between source (ai_height info) height) = height - ai_height info - 1) as Hlen.
  { apply zlen_fmap_seqZ. lia. }
  assert (saturating_add 64 (ai_height info) 1 = ai_height info + 1) as Hsat by (unfold saturating_add; lia).
  unfold validate_proof_chain, is_empty_roots, extension_proof, extension_data. cbn [cached_proof cached_data ad_prev_digest].
  destruct (between source (ai_height info) height) as [|r rs] eqn:Hb.
  - cbn [roots]. destruct (height =? genesis); [done|]. change (zlen (@nil Z)) with 0 in Hlen.
    rewrite bool_decide_eq_true_2 by done. rewrite Hsat. lia.
  - cbn [roots]. assert (start_block_number (mkContinuityProof (ai_digest info) (r :: rs)) height = ai_height info + 1) as Hstart.
    { unfold start_block_number, saturating_sub. cbn [roots]. lia. }
    rewrite Hstart, bool_decide_eq_true_2 by done. cbn [negb tail_prev_digest roots lower_endpoint_digest].
    rewrite Z.eqb_refl, Hsat. lia.
Qed.

(** It is anchored in the attestation it extends. *)
Lemma extension_anchor ck info height sg attestors :
  quorum_anchor (mkSignedAttestation (extension_data source ck info height) sg attestors (extension_proof source info height))
    = Some (ai_digest info).
Proof.
  unfold quorum_anchor, sa_prev_digest, extension_proof, extension_data. cbn.
  destruct (between source (ai_height info) height) as [|r rs]; done.
Qed.
End Extension.

(** ** The aggregate *)

Section Aggregate.
Context `{Keccak} `{BlsAggregation} `{!BlsLaws}.

(** Verified votes have an aggregate. *)
Lemma verified_votes_aggregate data set votes :
  votes_verified data set votes -> Forall (fun v => is_Some (pubkey (vote_attestor v) set)) votes -> votes <> [] ->
  exists sg, aggregate_votes votes = Some (Some sg).
Proof.
  intros [_ Hver] Hkeys Hne.
  destruct (aggregate_verifies (vote_signature_bls <$> votes) (omap (fun v => pubkey (vote_attestor v) set) votes)
    (omap (fun v => pubkey (vote_attestor v) set) votes) (serialize data)) as (sg & _ & Hsg & _).
  - by destruct votes.
  - clear Hne. induction votes as [|v votes IH]; [constructor|]. apply Forall_cons in Hver as [Hv Hver].
    apply Forall_cons in Hkeys as [[pk Hpk] Hkeys]. cbn. rewrite Hpk. constructor; [by apply Hv|by apply IH].
  - done.
  - exists (from_be_bytes (take 96 (sig_as_bytes sg))). unfold aggregate_votes. rewrite Hsg. cbn.
    destruct (aggregate_encodes _ _ Hsg) as (Hlen & _ & _). by rewrite Hlen.
Qed.
End Aggregate.

(** ** End to end *)

Section Commitment.
Context {C : Type} `{!Currency C} `{!CurrencyLaws C} `{Config} `{!ConfigOk} `{Keccak} `{Arch} `{!ArchOk}
  `{BlsAggregation} `{!BlsLaws} `{FrameStorage Z} `{!FrameStorageLaws Z} `{FrameStorage (Z * Z)}.
Context `{!Signer} {R T : Type} `{!ChainData R RootInfo} `{!ChainData T Height}
  (source : Height -> RootInfo) `{!RootSource R source} `{!TipSource T}.
Hypothesis source_height : forall n, ri_height (source n) = n.
Variable cfg : ScConfig.
Implicit Types (s : @Runtime C) (n : Node R T).

(** The node has seen the chain's head and its settings. *)
Definition caught_up (a : State C) n : Prop :=
  let ck := nd_chain_key n in
  fetch_last_finalized a ck = Some (ai_height (nd_latest_cc3 n), ai_digest (nd_latest_cc3 n)) /\
  nd_interval n = chain_attestation_interval a ck /\ nd_max_catchup n = max_catchup a ck.

(** What is left to keep the pallet from accepting. *)
Definition deferred_refusal (a : State C) (att : SignedAttestation) (e : DispatchError Error) : Prop :=
  let ck := sa_chain_key att in
  (e = ModuleError AttestationCleanupInProgress /\ commit_blocked_by_cleanup a ck = true) \/
  (e = ModuleError TooManyAttestors /\ attestors_within_bound a ck att = false) \/
  (e = ModuleError InvalidAttestationPrevDigest /\ sa_prev_digest att = Some 0).

Lemma max_roots_exact s ck :
  reached cfg s -> max_roots (attestation s) ck = Z.max (max_catchup (attestation s) ck) (chain_attestation_interval (attestation s) ck).
Proof.
  intros Hr. destruct (pi_settings _ _ _ (reached_pallet _ _ Hr) ck) as [Hi Hc Hrch _ _ _ _ _ _ _ _].
  pose proof cfg_ceiling as Hceil. rewrite umax_32 in Hceil. unfold max_roots. apply wrap_small.
  pose proof (Z.pow_le_mono_r 2 32 usize_bits ltac:(lia) usize_ok) as Hp. change (2 ^ 32) with 4294967296 in Hp. lia.
Qed.

(** The extension of the head keeps the interval and the length of proofs. *)
Lemma extension_refusal s n height sg attestors e :
  let a := attestation s in let ck := nd_chain_key n in
  let att := mkSignedAttestation (extension_data source ck (nd_latest_cc3 n) height) sg attestors
    (extension_proof source (nd_latest_cc3 n) height) in
  reached cfg s -> caught_up a n -> 0 <= ai_height (nd_latest_cc3 n) < height ->
  ai_height (nd_latest_cc3 n) + nd_interval n <= height -> zlen (roots (extension_proof source (nd_latest_cc3 n) height)) <= Z.max (nd_max_catchup n) (nd_interval n) ->
  refusal a att e -> deferred_refusal a att e.
Proof.
  intros a ck att Hreach (Hf & Hi & Hm) Hlt Hint Hlen Href. unfold deferred_refusal. cbn -[attestors_within_bound] in Href |- *.
  destruct Href as [?|[?|[[-> (h & d & Hld & Hearly)]|[?|[-> Hlong]]]]]; try tauto; exfalso.
  - unfold fetch_last_finalized in Hf. fold ck in Hf, Hi. change (LastDigest a !! ck = Some (h, d)) in Hld. rewrite Hld in Hf.
    injection Hf as -> ->. change (sa_header_number att) with height in Hearly. change (sa_chain_key att) with ck in Hearly.
    rewrite <- Hi in Hearly. unfold saturating_add in Hearly. lia.
  - change (sa_chain_key att) with ck in Hlong. unfold a in Hlong. rewrite (max_roots_exact s ck Hreach) in Hlong. fold a in Hlong.
    fold ck in Hi, Hm. rewrite <- Hi, <- Hm in Hlong. change (sa_continuity_proof att) with (extension_proof source (nd_latest_cc3 n) height) in Hlong. lia.
Qed.

Lemma aggregate_run env (a : State C) ck set cache genesis shuffle q digest_local cached last sg :
  rpc_at env a ck = mkRpc (Ok true) (fun d h => Ok (contains_digest a ck d h)) (Ok (client_quorum a ck)) (Ok last) ->
  contains_digest a ck (q_digest q) (q_height q) = false ->
  client_quorum a ck <= zlen (active_votes set (q_votes q)) -> cache_get (q_height q) (q_digest q) cache = Some cached ->
  validate_proof_chain cached (q_height q) last digest_local genesis = true ->
  aggregate_votes (shuffle (active_votes set (q_votes q))) = Some (Some sg) ->
  aggregate_and_validate (rpc_at env a ck) set cache genesis shuffle q digest_local =
    Ok (mkAggregated (q_height q) (q_digest q) (mkSignedAttestation (cached_data cached) sg
      (vote_attestor <$> shuffle (active_votes set (q_votes q))) (cached_proof cached)) (shuffle (active_votes set (q_votes q)))).
Proof.
  intros -> Hno Hle Hget Hval Hsg. unfold aggregate_and_validate, rpc. cbn -[active_votes aggregate_votes].
  rewrite Hno, (proj2 (Z.ltb_ge _ _) Hle), Hget, Hval. cbn -[active_votes aggregate_votes]. by rewrite Hsg.
Qed.

(** C22: produced attestations commit. A node that has seen the chain's head, and was
    not reverted above genesis while it waited for its genesis attestation, votes for
    attestations that can be committed: once a quorum of verified votes stands behind
    one it has just produced, its validation accepts the quorum, and what it submits
    passes the pallet's validation in that state, unless a cleanup is under way, the
    attestor list exceeds the bound or the digest is zero. *)
Theorem produced_attestations_commit s env config account pool keys start now0 n fuel now att st shuffle q digest_local :
  let a := attestation s in
  let ck := nd_chain_key n in
  let n' := emit_local now att (n <| nd_stream := st |>) in
  let genesis := attestation_chain_genesis_block_number a ck in
  reached cfg s -> live_chain (rn_listener s) ck -> env_is_chain_supported env ck = true ->
  start_ok source config pool start -> rtc aligned_step (node_start source config account pool keys start now0) (Running, n) ->
  caught_up a n -> stream_poll fuel (nd_stream n) = Some (Yield att, st) ->
  q_chain_key q = ck -> q_height q = ad_header_number (an_data att) -> q_digest q = digest (an_data att) ->
  q_height q <> genesis -> contains_digest a ck (q_digest q) (q_height q) = false ->
  up_to_date a ck (nd_keys n') (nd_cache n') q -> (forall l, shuffle l ≡ₚ l) ->
  client_quorum a ck <= zlen (active_votes (nd_keys n') (q_votes q)) ->
  exists agg,
    aggregate_and_validate (rpc_at env a ck) (nd_keys n') (nd_cache n') genesis shuffle q digest_local = Ok agg /\
    match (validate_attestation env ck (ag_attestation_signed agg) a).1 with
    | Ok _ => True
    | Err e => deferred_refusal a (ag_attestation_signed agg) e
    end.
Proof.
  intros a ck n' genesis Hreach Hlive Hsup Hstart Hnode Hcaught Hpoll Hqk Hqh Hqd Hng Hno Hud Hshuf Hq.
  destruct (aligned_reached_inv source source_height _ _ _ _ _ _ _ _ Hstart Hnode) as [Hn Hsync].
  pose proof (ni_stream _ _ Hn) as Hs. destruct (stream_poll_any source source_height _ _ _ _ Hs Hpoll) as (_ & _ & Hyield).
  rewrite (ni_prev _ _ Hsync), (ni_interval _ _ Hn), (ni_key _ _ Hn) in Hyield.
  destruct Hyield as (h & Hh & Hatt). set (info := nd_latest_cc3 n) in *.
  pose proof (iv_interval _ _ Hs) as Hi. rewrite (ni_interval _ _ Hn) in Hi. pose proof (iv_catchup _ _ Hs) as Hc.
  pose proof (iv_prev _ _ Hs) as Hp. rewrite (ni_prev _ _ Hsync) in Hp. fold info in Hp. pose proof (ni_catchup _ _ Hn) as Hcb.
  unfold setting_typed, info_typed, height_limit in Hi, Hc, Hp.
  assert (h < umax 64) as Hmax by (rewrite umax_64; lia).
  set (cached := mkCachedProof (extension_data source ck info h) (extension_proof source info h)).
  assert (q_height q = h /\ q_digest q = digest (cached_data cached)) as [Eh Ed] by (subst att; done).
  assert (cache_get (q_height q) (q_digest q) (nd_cache n') = Some cached) as Hget.
  { unfold n'. rewrite Hatt. cbn -[cache_insert]. rewrite cache_get_insert. by rewrite decide_True by done. }
  pose proof (shuffled_votes a ck _ _ q cached _ Hud Hget (Hshuf (active_votes (nd_keys n') (q_votes q)))) as [Hkeys Hvv].
  destruct (client_quorum_spec cfg s ck Hreach Hlive) as (_ & Hpos & _). fold a in Hpos.
  assert (shuffle (active_votes (nd_keys n') (q_votes q)) <> []) as Hne.
  { intros Hnil. pose proof (Hshuf (active_votes (nd_keys n') (q_votes q))) as Hperm. rewrite Hnil in Hperm.
    apply Permutation_nil_l in Hperm. rewrite <- Hperm in Hq. change (zlen []) with 0 in Hq. lia. }
  destruct (verified_votes_aggregate _ _ _ Hvv Hkeys Hne) as [sg Hsg].
  pose proof (extension_validates source ck info h digest_local genesis ltac:(lia) Hmax) as Hval.
  destruct Hcaught as (Hf & Hci & Hcm). fold info ck in Hf.
  set (agg := mkAggregated (q_height q) (q_digest q) (mkSignedAttestation (cached_data cached) sg
    (vote_attestor <$> shuffle (active_votes (nd_keys n') (q_votes q))) (cached_proof cached))
    (shuffle (active_votes (nd_keys n') (q_votes q)))).
  assert (aggregate_and_validate (rpc_at env a ck) (nd_keys n') (nd_cache n') genesis shuffle q digest_local = Ok agg) as Hrun.
  { apply (aggregate_run env a ck _ _ _ _ _ _ cached (Some (ai_height info, ai_digest info)) sg); try done.
    - unfold rpc_at. by rewrite Hsup, Hf.
    - by rewrite Eh. }
  exists agg. split; [exact Hrun|].
  pose proof (accepted_quorum cfg s env (nd_keys n') (nd_cache n') shuffle q digest_local agg) as Hacc. cbv zeta in Hacc.
  rewrite Hqk in Hacc. fold a ck genesis in Hacc.
  specialize (Hacc Hreach Hlive Hud Hshuf ltac:(lia) Hng Hrun).
  assert (quorum_anchor (ag_attestation_signed agg) = snd <$> fetch_last_finalized a ck) as Hanchor.
  { rewrite Hf. apply extension_anchor. }
  specialize (Hacc Hanchor). destruct (validate_attestation env ck (ag_attestation_signed agg) a) as [[u|e] a']; [done|].
  cbn [fst] in Hacc |- *. apply (extension_refusal s n h sg _ e); try done; [fold info; lia..|].
  assert (zlen (between source (ai_height info) h) = h - ai_height info - 1) as Hl by (apply zlen_fmap_seqZ; lia).
  unfold extension_proof. fold info. destruct (between source (ai_height info) h); cbn [roots]; [change (zlen (@nil Z)) with 0; lia|lia].
Qed.
End Commitment.

(** ** On the concrete runtime *)

Definition vote2 : Vote Signature := sign_vote 20 1 110 (local_of (an_data att1)).
Definition quorum2 : Quorum Signature := mkQuorum 110 (digest (an_data att1)) 1 [vote2].

Lemma up_to_date2 : up_to_date (attestation run1) 1 keys1 (nd_cache node2) quorum2.
Proof.
  constructor.
  - exact (ud_keys _ _ _ _ _ up_to_date1).
  - exact (ud_typed _ _ _ _ _ up_to_date1).
  - apply (cache_step_ok cache_new); [apply cs_insert|by intros h d p].
  - apply NoDup_singleton.
  - cbn [quorum2 q_height q_digest q_votes]. rewrite node2_cached. intros p <-%(inj Some). split; [vm_compute; reflexivity|].
    constructor; [|constructor]. intros pk _. vm_compute. reflexivity.
Qed.

Lemma node1_caught_up : caught_up (attestation run1) node1.
Proof. split_and!; vm_compute; reflexivity. Qed.

Lemma att1_height : ad_header_number (an_data att1) = 110.
Proof. vm_compute. reflexivity. Qed.

Lemma quorum2_above_genesis :
  q_height quorum2 <> attestation_chain_genesis_block_number (attestation run1) (nd_chain_key node1).
Proof. decide_now. Qed.

Lemma produced_attestations_commit_witness :
  exists agg,
    aggregate_and_validate (rpc_at env1 (attestation run1) (nd_chain_key node1)) (nd_keys node2) (nd_cache node2)
      (attestation_chain_genesis_block_number (attestation run1) (nd_chain_key node1)) id quorum2 None = Ok agg /\
    match (validate_attestation env1 (nd_chain_key node1) (ag_attestation_signed agg) (attestation run1)).1 with
    | Ok _ => True
    | Err e => deferred_refusal (attestation run1) (ag_attestation_signed agg) e
    end.
Proof.
  pose proof (produced_attestations_commit toy_source (fun n => eq_refl) sc_cfg run1 env1 node_config 20 node_pool keys1
    (Some (mkAttestationInfo 100 777)) 0 node1 60 5 att1 st1 id quorum2 None) as Hthm.
  cbv zeta in Hthm.
  exact (Hthm run1_reached ltac:(apply live1; vm_compute; reflexivity) eq_refl node_start_ok ltac:(apply rtc_refl)
    node1_caught_up poll1_yields eq_refl (eq_sym att1_height) eq_refl quorum2_above_genesis ltac:(vm_compute; reflexivity)
    up_to_date2 (fun l => Permutation_refl l) ltac:(vm_compute; discriminate)).
Defined.
