(* ===== verification/ProofSource.v ===== *)
(** * Source data for proofs

    The source chain as the proof server sees it: fetched blocks and their
    checks ([OrderedBlock::try_from_fetched_block] of
    [src/common/eth/src/lib.rs]), the chain of digests over a range of blocks
    ([src/common/eth/src/continuity.rs]), the archiver's roots
    ([src/common/continuity/src/archiver.rs]), and the provider interface over
    both ([src/common/continuity/src/rpc.rs]) with what it promises. *)

From stdpp Require Import prelude gmap list sorting strings.
From Stdlib Require Import ZArith Lia.
From S2P Require Import Prelude Primitives Merkle.

#[export] Instance Result_ret E : MRet (Result E) := fun _ a => Ok a.
#[export] Instance Result_bind E : MBind (Result E) := fun _ _ k r =>
  match r with Ok a => k a | Err e => Err e end.

(** [collect::<Result<Vec<_>, _>>()]: all of them, or the first error. *)
Fixpoint collect {E A B} (f : A -> Result E B) (l : list A) : Result E (list B) :=
  match l with
  | [] => Ok []
  | x :: l' => y ← f x; ys ← collect f l'; mret (y :: ys)
  end.

(** ** Errors *)

Record ArchiverStatusError := mkArchiverStatus {
  as_status : Z;
  as_body : string;
  as_from : Height;
  as_to : Height;
  as_latest_archived : option Height;
}.

Definition ARCHIVER_TIP_LAG_TOLERANCE : Z := 500.

Definition is_data_unavailable (e : ArchiverStatusError) : bool := as_status e =? 404.

Definition is_range_rejection (e : ArchiverStatusError) : bool :=
  (400 <=? as_status e) && (as_status e <? 500) && negb (as_status e =? 404).

Definition is_catching_up_at_tip (e : ArchiverStatusError) : bool :=
  is_data_unavailable e &&
  match as_latest_archived e with
  | Some latest => (latest <? as_to e) && (as_to e - latest <=? ARCHIVER_TIP_LAG_TOLERANCE)
  | None => false
  end.

(** The client's errors that the server tells apart. *)
Inductive EthError :=
| FailedToGetBlock (number : Height)
| FailedToGetReceipts (number : Height)
| BlockHeaderRootsMismatch (number : Height)
| TransactionsReceiptsMismatch (number : Height)
| NotFullTransactionsFetched (number : Height)
| ReceiptsBlockMismatch (number : Height) (block receipts : H256)
| TransactionConversion (text : string)
| OtherEthError (text : string).

Definition inconsistent_block_number_hint (e : EthError) : option Height :=
  match e with
  | BlockHeaderRootsMismatch n | TransactionsReceiptsMismatch n | NotFullTransactionsFetched n
  | ReceiptsBlockMismatch n _ _ => Some n
  | _ => None
  end.

Definition inconsistent_block_payload_for_fallback (e : EthError) : bool :=
  match e with
  | BlockHeaderRootsMismatch _ | TransactionsReceiptsMismatch _ | NotFullTransactionsFetched _
  | ReceiptsBlockMismatch _ _ _ => true
  | _ => false
  end.

(** An [anyhow::Error]: the chain of its causes, outermost first. *)
Inductive Cause :=
| EthCause (e : EthError)
| ArchiverCause (e : ArchiverStatusError)
| CauseText (text : string).

Definition Anyhow : Type := list Cause.

Definition eth_cause (c : Cause) : option EthError := match c with EthCause e => Some e | _ => None end.

Definition anyhow_chain_is_inconsistent_block_payload (err : Anyhow) : bool :=
  existsb inconsistent_block_payload_for_fallback (omap eth_cause err).

Definition anyhow_chain_inconsistent_block_number_hint (err : Anyhow) : option Height :=
  head (omap (fun c => e ← eth_cause c; inconsistent_block_number_hint e) err).

Definition anyhow_chain_archiver_status (err : Anyhow) : option ArchiverStatusError :=
  head (omap (fun c => match c with ArchiverCause e => Some e | _ => None end) err).

(** ** Blocks of the source chain *)

Record RpcTransaction := mkRpcTransaction {
  rt_transaction_index : option Z;
  rt_hash : H256;
  rt_inner : list Z;
}.

Record TransactionReceipt := mkReceipt {
  rx_transaction_index : option Z;
  rx_block_hash : option H256;
  rx_inner : list Z;
}.

Record RpcBlock := mkRpcBlock {
  rb_number : Height;
  rb_hash : H256;
  rb_transactions_root : H256;
  rb_receipts_root : H256;
  rb_transactions : list RpcTransaction;
}.

(** The trie roots and the ABI encoding of a transaction with its receipt, which the
    source takes to succeed ([payload_bytes] expects it). *)
Class EthFormats := {
  calculate_transaction_root : list (list Z) -> H256;
  calculate_receipt_root : list (list Z) -> H256;
  abi_encode : list Z -> list Z -> list Z;
}.

(** A block with its items: each transaction's hash and encoded bytes. *)
Record OrderedBlock := mkOrderedBlock {
  ob_number : Height;
  ob_hash : H256;
  ob_items : list (H256 * list Z);
}.

Definition ETHEREUM_MAINNET_CHAIN_ID : Z := 1.
Definition ETHEREUM_BYZANTIUM_BLOCK : Height := 4370000.

Definition index_le {A} (index : A -> option Z) (x y : A) : Prop := default 0 (index x) <= default 0 (index y).

#[export] Instance index_le_dec {A} (index : A -> option Z) : RelDecision (index_le index).
Proof. intros x y. unfold index_le. apply _. Defined.

Section Fetched.
Context `{EthFormats}.

(** [TxRx::try_create], which never fails: the item's hash and its bytes. *)
Definition try_create (tx_rx : RpcTransaction * TransactionReceipt) : Result string (H256 * list Z) :=
  Ok (rt_hash tx_rx.1, abi_encode (rt_inner tx_rx.1) (rx_inner tx_rx.2)).

Definition try_from_fetched_block (chain_id : Z) (block : RpcBlock) (receipts : list TransactionReceipt)
    (expected_number : Height) : Result EthError OrderedBlock :=
  let txs := rb_transactions block in
  if negb (rb_number block =? expected_number) then Err (FailedToGetBlock expected_number)
  else match List.find (fun receipt_hash => negb (receipt_hash =? rb_hash block)) (omap rx_block_hash receipts) with
  | Some receipts_hash => Err (ReceiptsBlockMismatch expected_number (rb_hash block) receipts_hash)
  | None =>
  if bool_decide (txs = []) && bool_decide (receipts = []) then
    Ok (mkOrderedBlock expected_number (rb_hash block) [])
  else if negb (length txs =? length receipts)%nat then
    Err (TransactionsReceiptsMismatch expected_number)
  else if existsb (fun t => negb (bool_decide (is_Some (rt_transaction_index t)))) txs then
    Err (NotFullTransactionsFetched expected_number)
  else if existsb (fun r => negb (bool_decide (is_Some (rx_transaction_index r)))) receipts then
    Err (FailedToGetReceipts expected_number)
  else
    let txs := merge_sort (index_le rt_transaction_index) txs in
    let receipts := merge_sort (index_le rx_transaction_index) receipts in
    if negb (calculate_transaction_root (map rt_inner txs) =? rb_transactions_root block) then
      Err (BlockHeaderRootsMismatch expected_number)
    else
      let skip_receipt_root := (chain_id =? ETHEREUM_MAINNET_CHAIN_ID) &&
        (expected_number <? ETHEREUM_BYZANTIUM_BLOCK) in
      if negb skip_receipt_root &&
         negb (calculate_receipt_root (map rx_inner receipts) =? rb_receipts_root block) then
        Err (BlockHeaderRootsMismatch expected_number)
      else
        match collect try_create (zip txs receipts) with
        | Ok items => Ok (mkOrderedBlock expected_number (rb_hash block) items)
        | Err e => Err (TransactionConversion e)
        end
  end.
End Fetched.

(** ** Chains of digests *)

Definition simple_merkle_tree `{Keccak} (block : OrderedBlock) : KeccakMerkleTree :=
  default (mkTree []) (merkle_new (map snd (ob_items block))).

(** The loop of [create]: each block on the digest of the one before. *)
Fixpoint chain_fetched `{Keccak} (prev_digest : Digest) (result : list Block) (blocks : list (Height * H256))
    : Result Anyhow (list Block) :=
  match blocks with
  | [] => Ok result
  | (number, root) :: blocks' =>
      let next_block := new_from_prev_digest number root prev_digest in
      if match last result with
         | Some prev => negb (b_block_number next_block =? wrap 64 (b_block_number prev + 1))
         | None => false
         end
      then Err [CauseText "block number mismatch"]
      else chain_fetched (b_digest next_block) (result ++ [next_block]) blocks'
  end.

(** The source chain's client: its blocks, and the position of a transaction. *)
Class EthClient := {
  client_get_block : Height -> Result Anyhow OrderedBlock;
  client_tx_position : H256 -> Result Anyhow (option (Height * Z));
}.

(** [Manager::create] *)
Definition create `{Keccak} `{EthClient} (start_block end_block : Height) (prev_digest : Digest)
    : Result Anyhow (list Block) :=
  collected ← collect client_get_block (seqZ start_block (end_block - start_block + 1));
  chain_fetched prev_digest [] (map (fun b => (ob_number b, merkle_root (simple_merkle_tree b))) collected).

(** The archiver's HTTP interface. *)
Class ArchiverClient := {
  get_roots : Height -> Height -> Result Anyhow (list (Height * H256));
}.

(** The loop over the archiver's roots, the next of which is at [expected_height]. *)
Fixpoint chain_archived `{Keccak} (expected_height : Height) (prev_digest : Digest)
    (roots : list (Height * H256)) : Result Anyhow (list Block) :=
  match roots with
  | [] => Ok []
  | (height, root) :: roots' =>
      if negb (height =? expected_height) then Err [CauseText "out-of-order entry"]
      else
        let block := new_from_prev_digest height root prev_digest in
        blocks ← chain_archived (expected_height + 1) (b_digest block) roots';
        mret (block :: blocks)
  end.

Definition archiver_build_continuity_blocks `{Keccak} `{ArchiverClient} (lower_digest : Digest)
    (start_block end_block : Height) : Result Anyhow (list Block) :=
  roots ← get_roots start_block end_block;
  if bool_decide (roots = []) then Err [CauseText "archiver returned no roots"]
  else if negb (zlen roots =? wrap 64 (wrap 64 (end_block - start_block) + 1)) then
    Err [CauseText "archiver returned another number of roots"]
  else chain_archived start_block lower_digest roots.

(** ** Providers *)

Class EthRpcProvider := {
  build_continuity_blocks : Digest -> Height -> Height -> Result Anyhow (list Block);
  get_block_tx_bytes_and_tx_hash : Height -> Z -> Result Anyhow (list (list Z) * option H256);
  get_block_tx_data : Height -> Result Anyhow (list (H256 * list Z));
  get_tx_position_by_hash : H256 -> Result Anyhow (option (Height * Z));
}.

(** [ReconnectingEthRpcProvider], over the client it ends up with. *)
Definition rpc_provider `{Keccak} `{EthClient} : EthRpcProvider := {|
  build_continuity_blocks := fun lower_digest start_block end_block => create start_block end_block lower_digest;
  get_block_tx_bytes_and_tx_hash := fun block_number tx_index =>
    ordered ← client_get_block block_number;
    mret (map snd (ob_items ordered), fst <$> ob_items ordered !! Z.to_nat tx_index);
  get_block_tx_data := fun block_number =>
    ordered ← client_get_block block_number;
    mret (ob_items ordered);
  get_tx_position_by_hash := client_tx_position;
|}.

(** [ArchiverEthProvider]: roots from the archiver, transactions from another
    provider. *)
Definition archiver_provider `{Keccak} `{ArchiverClient} (eth_fallback : EthRpcProvider) : EthRpcProvider := {|
  build_continuity_blocks := archiver_build_continuity_blocks;
  get_block_tx_bytes_and_tx_hash := get_block_tx_bytes_and_tx_hash;
  get_block_tx_data := get_block_tx_data;
  get_tx_position_by_hash := get_tx_position_by_hash;
|}.


(** The client that fetches blocks and receipts from its endpoints. *)
Definition fetched_client `{EthFormats} (chain_id : Z)
    (fetch_pair : Height -> Result EthError (RpcBlock * list TransactionReceipt))
    (position : H256 -> Result Anyhow (option (Height * Z))) : EthClient := {|
  client_get_block := fun number =>
    match fetch_pair number with
    | Ok (block, receipts) =>
        match try_from_fetched_block chain_id block receipts number with
        | Ok ordered => Ok ordered
        | Err e => Err [EthCause e]
        end
    | Err e => Err [EthCause e]
    end;
  client_tx_position := position;
|}.

(** ** What a provider promises

    Its answers describe one source chain, whose blocks hold the items
    [block_items]: the blocks built over a range are linked from the given digest,
    one for each height, with the Merkle roots of their transactions. *)

Definition items_root `{Keccak} (items : list (H256 * list Z)) : H256 :=
  merkle_root (default (mkTree []) (merkle_new (map snd items))).

Class SourceChain `{Keccak} (P : EthRpcProvider) := {
  block_items : Height -> list (H256 * list Z);
  build_sound d a b bs :
    0 <= a <= b -> b < 2 ^ 64 -> build_continuity_blocks d a b = Ok bs ->
    linked a d bs /\ map b_root bs = map (fun n => items_root (block_items n)) (seqZ a (b - a + 1));
  tx_bytes_sound n i bytes hash :
    get_block_tx_bytes_and_tx_hash n i = Ok (bytes, hash) ->
    bytes = map snd (block_items n) /\ hash = fst <$> block_items n !! Z.to_nat i;
  tx_data_sound n items : get_block_tx_data n = Ok items -> items = block_items n;
  position_sound x n i : get_tx_position_by_hash x = Ok (Some (n, i)) ->
    is_u64 n /\ is_u64 i /\ exists tx, block_items n !! Z.to_nat i = Some (x, tx);
}.

Lemma collect_ok {E A B} (f : A -> Result E B) l ys :
  collect f l = Ok ys -> Forall2 (fun x y => f x = Ok y) l ys.
Proof.
  revert ys. induction l as [|x l IH]; intros ys; cbn; [by intros [= <-]|].
  unfold mbind, Result_bind. destruct (f x) as [y|] eqn:Hx; [|done].
  destruct (collect f l) as [ys'|]; [|done]. intros [= <-]. constructor; auto.
Qed.

Section Providers.
Context `{Keccak}.

(** The digest after a linked chain. *)
Definition tip_digest (d : Digest) (bs : list Block) : Digest :=
  match last bs with Some b => b_digest b | None => d end.

Lemma linked_snoc start d bs b :
  linked start d (bs ++ [b]) <->
  linked start d bs /\ linked (start + zlen bs) (tip_digest d bs) [b].
Proof.
  revert start d. induction bs as [|x bs IH]; intros start d.
  { cbn [app]. change (zlen []) with 0. rewrite Z.add_0_r. cbn. tauto. }
  cbn [app linked]. rewrite IH, zlen_cons. replace (start + (zlen bs + 1)) with (start + 1 + zlen bs) by lia.
  assert (tip_digest (b_digest x) bs = tip_digest d (x :: bs)) as ->.
  { unfold tip_digest. rewrite last_cons. by destruct (last bs). }
  idtac. naive_solver.
Qed.

Lemma linked_one start d number root :
  number = wrap 64 start -> linked start d [new_from_prev_digest number root d].
Proof. intros ->. cbn. auto. Qed.

Lemma tip_digest_snoc d bs b : tip_digest d (bs ++ [b]) = b_digest b.
Proof. unfold tip_digest. by rewrite last_snoc. Qed.

Lemma chain_fetched_ok start d result blocks bs :
  chain_fetched (tip_digest d result) result blocks = Ok bs -> linked start d result ->
  map fst blocks = seqZ (start + zlen result) (zlen blocks) ->
  0 <= start -> start + zlen result + zlen blocks <= 2 ^ 64 ->
  linked start d bs /\ map b_root bs = map b_root result ++ map snd blocks.
Proof.
  revert result. induction blocks as [|[number root] blocks IH]; intros result Hrun Hl Hnum Hs Hmax.
  { injection Hrun as <-. cbn. by rewrite app_nil_r. }
  cbn [chain_fetched] in Hrun. cbv zeta in Hrun. destruct (match last result with Some _ => _ | None => _ end); [done|].
  pose proof (zlen_nonneg result). pose proof (zlen_nonneg blocks). rewrite zlen_cons in Hnum, Hmax.
  rewrite seqZ_cons in Hnum by lia. injection Hnum as -> Hnum.
  rewrite <- (tip_digest_snoc d result) in Hrun.
  apply IH in Hrun as [Hlk Hroots]; [|..|done|rewrite zlen_app, zlen_cons; change (zlen []) with 0; lia].
  - split; [done|]. rewrite Hroots, map_app, <- app_assoc. done.
  - apply linked_snoc. split; [done|]. apply linked_one. rewrite wrap_small; lia.
  - rewrite Hnum, zlen_app, zlen_cons. change (zlen []) with 0. f_equal; lia.
Qed.

Lemma chain_archived_ok start d rs bs :
  chain_archived start d rs = Ok bs -> 0 <= start -> start + zlen rs <= 2 ^ 64 ->
  linked start d bs /\ map fst rs = seqZ start (zlen rs) /\ map b_root bs = map snd rs.
Proof.
  revert start d bs. induction rs as [|[height root] rs IH]; intros start d bs Hrun Hs Hmax.
  { by injection Hrun as <-. }
  cbn [chain_archived] in Hrun. pose proof (zlen_nonneg rs). rewrite zlen_cons in *.
  destruct (Z.eqb_spec height start) as [->|]; [|done]. cbn [negb] in Hrun. cbv zeta in Hrun.
  unfold mbind, Result_bind in Hrun. destruct (chain_archived _ _ rs) as [bs'|] eqn:Hrec; [|done].
  injection Hrun as <-. apply IH in Hrec as (Hlk & Hnum & Hroots); [|lia..].
  split_and!.
  - cbn. rewrite wrap_small by lia. auto.
  - cbn. rewrite Hnum, (seqZ_cons start) by lia. f_equal. f_equal; lia.
  - cbn. by rewrite Hroots.
Qed.
End Providers.

(** Blocks that pass the checks carry the number asked for. *)
Lemma fetched_number `{EthFormats} chain_id block receipts number ordered :
  try_from_fetched_block chain_id block receipts number = Ok ordered -> ob_number ordered = number.
Proof. unfold try_from_fetched_block. cbv zeta. repeat case_match; by intros [= <-]. Qed.

(** What the endpoints answer for a transaction is its position in a block they
    serve. *)
Definition positions_served `{EthClient} : Prop :=
  forall x n i, client_tx_position x = Ok (Some (n, i)) -> is_u64 n /\ is_u64 i /\
    exists b tx, client_get_block n = Ok b /\ ob_items b !! Z.to_nat i = Some (x, tx).

Definition rpc_source `{Keccak} `{EthFormats} chain_id fetch_pair position
  (Hpos : @positions_served (fetched_client chain_id fetch_pair position)) :
  SourceChain (@rpc_provider _ (fetched_client chain_id fetch_pair position)).
Proof.
  set (client := fetched_client chain_id fetch_pair position).
  refine {| block_items := fun n =>
    match client_get_block (EthClient := client) n with Ok b => ob_items b | Err _ => [] end |}.
  - intros d a b bs Hab Hb Hrun. cbn [build_continuity_blocks rpc_provider] in Hrun. unfold create in Hrun.
    unfold mbind, Result_bind in Hrun. destruct (collect _ _) as [collected|] eqn:Hc; [|done].
    apply collect_ok in Hc.
    assert (Forall2 (fun n x => client_get_block n = Ok x /\ ob_number x = n) (seqZ a (b - a + 1)) collected) as Hf.
    { eapply Forall2_impl; [exact Hc|]. intros n x Hx. split; [done|]. revert Hx. cbn.
      repeat case_match; try done. intros [= <-]. by eapply fetched_number. }
    assert (map ob_number collected = seqZ a (b - a + 1)) as Hnum.
    { clear -Hf. induction Hf as [|n x l k [_ Hx] _ IH]; [done|]. cbn. by rewrite Hx, IH. }
    assert (zlen collected = b - a + 1) as Hlen.
    { unfold zlen. rewrite <- (length_map ob_number), Hnum, length_seqZ. lia. }
    apply (chain_fetched_ok a d []) in Hrun as [Hlk Hroots]; [|done|..].
    + split; [done|]. rewrite Hroots. cbn [map app]. rewrite map_map. cbn [snd].
      clear -Hf. induction Hf as [|n x l k [Hx _] _ IH]; [done|]. cbn [map]. rewrite IH. f_equal.
      by rewrite Hx.
    + rewrite map_map. cbn [fst]. change (zlen []) with 0. rewrite Z.add_0_r. unfold zlen at 1. rewrite length_map.
      fold (zlen collected). by rewrite Hlen.
    + lia.
    + change (zlen []) with 0. unfold zlen. rewrite length_map. fold (zlen collected). lia.
  - intros n i bytes hash. cbn [get_block_tx_bytes_and_tx_hash rpc_provider]. unfold mbind, Result_bind.
    destruct (client_get_block n); [|done]. by intros [= <- <-].
  - intros n items. cbn [get_block_tx_data rpc_provider]. unfold mbind, Result_bind.
    destruct (client_get_block n); [|done]. by intros [= <-].
  - intros x n i (Hn & Hi & b & tx & Hb & Htx)%Hpos. split_and!; [done|done|]. exists tx. fold client in Hb. by rewrite Hb.
Defined.

(** The archiver's roots are those of the provider's blocks. *)
Definition archived `{Keccak} `{ArchiverClient} (P : EthRpcProvider) `{!SourceChain P} : Prop :=
  forall a b rs, get_roots a b = Ok rs -> Forall (fun hr => hr.2 = items_root (block_items hr.1)) rs.

Definition archiver_source `{Keccak} `{ArchiverClient} (P : EthRpcProvider) `{!SourceChain P}
  (Harchived : archived P) : SourceChain (archiver_provider P).
Proof.
  refine {| block_items := block_items (P := P) |}; [|exact tx_bytes_sound|exact tx_data_sound|exact (position_sound (P := P))].
  intros d a b bs Hab Hb Hrun. cbn [build_continuity_blocks archiver_provider] in Hrun.
  unfold archiver_build_continuity_blocks, mbind, Result_bind in Hrun.
  destruct (get_roots a b) as [rs|] eqn:Hget; [|done]. apply Harchived in Hget.
  case_bool_decide as Hne; [done|]. destruct (Z.eqb_spec (zlen rs) (wrap 64 (wrap 64 (b - a) + 1))) as [Hlen|]; [|done].
  cbn [negb] in Hrun.
  assert (zlen rs = b - a + 1 \/ (zlen rs = 0 /\ b - a = 2 ^ 64 - 1)) as [Hn|[Hn _]].
  { rewrite (wrap_small 64 (b - a)) in Hlen by lia. destruct (decide (b - a = 2 ^ 64 - 1)) as [He|].
    - right. split; [|done]. rewrite Hlen, He. done.
    - left. rewrite Hlen, wrap_small; lia. }
  - apply chain_archived_ok in Hrun as (Hlk & Hnum & Hroots); [|lia..]. split; [done|].
    rewrite Hroots, <- Hn, <- Hnum. clear -Hget.
    induction Hget as [|[h r] rs Hr _ IH]; [done|]. cbn in *. by rewrite Hr, IH.
  - by apply zlen_nil_inv in Hn.
Defined.
