(* ===== verification/MerkleCache.v ===== *)
(** * The proof server's Merkle cache

    [src/proof-gen-api-server/src/services/continuity_service/merkle_cache.rs]:
    one Merkle tree per cached block of the source chain, an index from
    transaction hashes into those blocks, the set of processed heights, and the
    bytes the cached blocks take. *)

From stdpp Require Import prelude gmap list sorting strings.
From Stdlib Require Import ZArith Lia.
From S2P Require Import Prelude Primitives Merkle ProofSource.

(** A proof as it is cached and served. *)
Record MerkleProofItem := mkProofItem {
  pi_chain_key : ChainKey;
  pi_header_number : Height;
  pi_tx_index : option Z;
  pi_tx_hash : option H256;
  pi_tx_bytes : option (list Z);
  pi_merkle_proof : TransactionMerkleProof;
  pi_merkle_root : H256;
}.

Record CachedMerkleBlock := mkCachedBlock {
  cb_header_number : Height;
  cb_tx_hashes : list H256;
  cb_tx_bytes : list (list Z);
  cb_tree : KeccakMerkleTree;
  cb_heap_bytes : Z;
}.

Record ChainMerkleCache := mkMerkleCache {
  mc_by_block : gmap Height CachedMerkleBlock;
  mc_by_tx_hash : gmap H256 (Height * nat);
  mc_processed_blocks : gset Height;
  mc_cached_bytes : Z;
}.

#[export] Instance eta_ChainMerkleCache : Settable ChainMerkleCache := fun r =>
  mkMerkleCache (mc_by_block r) (mc_by_tx_hash r) (mc_processed_blocks r) (mc_cached_bytes r).

Record MerkleCacheStats := mkStats { st_blocks : Z; st_txs : Z; st_bytes : Z }.

Definition PER_TX_INDEX_OVERHEAD_BYTES : Z := 64.

(** The server runs on a 64-bit host. *)
#[local] Instance server_arch : Arch := 64.

Section Cache.
Context `{Keccak}.
Implicit Types (c : ChainMerkleCache) (b : CachedMerkleBlock).

(** [size_of::<H256>()] is 32 and [size_of::<Vec<u8>>()] three words. *)
Definition measure_heap_bytes (tx_hashes : list H256) (tx_bytes : list (list Z)) (tree : KeccakMerkleTree) : Z :=
  let hashes := saturating_mul usize_bits 32 (zlen tx_hashes) in
  let payloads := foldl (fun acc tx =>
    saturating_add usize_bits (saturating_add usize_bits acc (zlen tx)) (3 * (usize_bits / 8))) 0 tx_bytes in
  let index := saturating_mul usize_bits PER_TX_INDEX_OVERHEAD_BYTES (zlen tx_hashes) in
  wrap 64 (saturating_add usize_bits (saturating_add usize_bits (saturating_add usize_bits hashes payloads) index)
    (heap_bytes tree)).

Definition cached_block_new (header_number : Height) (txs : list (H256 * list Z)) : CachedMerkleBlock :=
  let tx_hashes := map fst txs in
  let tx_bytes := map snd txs in
  let tree := default (mkTree []) (merkle_new tx_bytes) in
  mkCachedBlock header_number tx_hashes tx_bytes tree (measure_heap_bytes tx_hashes tx_bytes tree).

Definition proof_item (ck : ChainKey) b (tx_index : nat) : option MerkleProofItem :=
  tx_hash ← cb_tx_hashes b !! tx_index;
  tx_bytes ← cb_tx_bytes b !! tx_index;
  match generate_proof (cb_tree b) tx_index with
  | Ok merkle_proof =>
      Some (mkProofItem ck (cb_header_number b) (Some (Z.of_nat tx_index)) (Some tx_hash) (Some tx_bytes)
        merkle_proof (mp_root merkle_proof))
  | Err _ => None
  end.

(** Take the hashes of dropped blocks out of the index. *)
Definition remove_hashes (tx_hashes : list H256) (index : gmap H256 (Height * nat)) : gmap H256 (Height * nat) :=
  foldl (fun index tx_hash => delete tx_hash index) index tx_hashes.

Definition drop_block (header_number : Height) c : ChainMerkleCache :=
  match mc_by_block c !! header_number with
  | None => c
  | Some old =>
      c <| mc_by_block ::= delete header_number |>
        <| mc_cached_bytes ::= fun n => saturating_sub n (cb_heap_bytes old) |>
        <| mc_by_tx_hash ::= remove_hashes (cb_tx_hashes old) |>
  end.

Definition insert_cached_block (header_number : Height) b c : ChainMerkleCache :=
  let c := drop_block header_number c in
  c <| mc_by_tx_hash ::= fun index =>
         foldl (fun index '(tx_index, tx_hash) => <[tx_hash := (header_number, tx_index)]> index) index
           (imap pair (cb_tx_hashes b)) |>
    <| mc_processed_blocks ::= union {[header_number]} |>
    <| mc_cached_bytes ::= fun n => saturating_add 64 n (cb_heap_bytes b) |>
    <| mc_by_block ::= <[header_number := b]> |>.

Definition insert_block (header_number : Height) (txs : list (H256 * list Z)) c : Z * ChainMerkleCache :=
  let b := cached_block_new header_number txs in
  (zlen (cb_tx_hashes b), insert_cached_block header_number b c).

Definition mark_processed_empty (header_number : Height) c : ChainMerkleCache :=
  drop_block header_number c <| mc_processed_blocks ::= union {[header_number]} |>.

Definition get_by_tx_hash (ck : ChainKey) (tx_hash : H256) c : option MerkleProofItem :=
  '(header_number, tx_index) ← mc_by_tx_hash c !! tx_hash;
  b ← mc_by_block c !! header_number;
  proof_item ck b tx_index.

Definition get_by_block_index (ck : ChainKey) (header_number : Height) (tx_index : Z) c : option MerkleProofItem :=
  b ← mc_by_block c !! header_number;
  proof_item ck b (Z.to_nat tx_index).

Definition size_stats c : MerkleCacheStats :=
  mkStats (Z.of_nat (size (mc_by_block c))) (Z.of_nat (size (mc_by_tx_hash c))) (mc_cached_bytes c).

Definition mean_bytes_per_block (stats : MerkleCacheStats) : option Z :=
  if (st_blocks stats =? 0) || (st_bytes stats =? 0) then None
  else Some (Z.max (st_bytes stats / st_blocks stats) 1).

Definition unprocessed_heights_desc (start stop : Height) (limit : nat) c : list Height :=
  take limit (filter (fun h => h ∉ mc_processed_blocks c) (reverse (seqZ start (stop - start + 1)))).

(** Drop the blocks of [removed], whose entries are no longer in [by_block]. *)
Definition drop_removed (removed : list CachedMerkleBlock) c : ChainMerkleCache :=
  foldl (fun c b => c <| mc_cached_bytes ::= fun n => saturating_sub n (cb_heap_bytes b) |>
    <| mc_by_tx_hash ::= remove_hashes (cb_tx_hashes b) |>) c removed.

Definition prune_keeping (keep : Height -> bool) c : ChainMerkleCache :=
  drop_removed (snd <$> map_to_list (filter (fun kb => keep kb.1 = false) (mc_by_block c)))
    (c <| mc_by_block ::= filter (fun kb => keep kb.1 = true) |>
       <| mc_processed_blocks ::= filter (fun h => keep h = true) |>).

Definition prune_below (min_height : Height) c : ChainMerkleCache := prune_keeping (fun h => min_height <=? h) c.

Definition prune_above (max_height : Height) c : ChainMerkleCache :=
  prune_keeping (fun h => h <? saturating_add 64 max_height 1) c.
End Cache.

(** ** The invariant *)

Definition sumZ (l : list Z) : Z := foldr Z.add 0 l.

(** The bytes of a set of cached blocks. *)
Definition total_bytes (m : gmap Height CachedMerkleBlock) : Z :=
  sumZ ((fun kb => cb_heap_bytes kb.2) <$> map_to_list m).

Lemma sumZ_perm l k : l ≡ₚ k -> sumZ l = sumZ k.
Proof. unfold sumZ. induction 1; cbn in *; lia. Qed.

Lemma total_bytes_insert m h b :
  m !! h = None -> total_bytes (<[h := b]> m) = cb_heap_bytes b + total_bytes m.
Proof.
  intros Hm. unfold total_bytes.
  by rewrite (sumZ_perm _ _ (fmap_Permutation _ _ _ (map_to_list_insert m h b Hm))).
Qed.

Lemma total_bytes_delete m h b :
  m !! h = Some b -> total_bytes m = cb_heap_bytes b + total_bytes (delete h m).
Proof.
  intros Hm. rewrite <- (insert_delete_id m h b) at 1 by done. apply total_bytes_insert, lookup_delete_eq.
Qed.

Lemma total_bytes_split (keep : Height -> bool) m :
  total_bytes m = total_bytes (filter (fun kb => keep kb.1 = true) m) +
    total_bytes (filter (fun kb => keep kb.1 = false) m).
Proof.
  induction m as [|h b m Hm IH] using map_ind; [done|].
  assert (forall r, filter (fun kb : Height * CachedMerkleBlock => keep kb.1 = r) m !! h = None) as Hf
    by (intros r; apply map_lookup_filter_None; by left).
  rewrite total_bytes_insert, IH by done. destruct (keep h) eqn:Hk.
  - rewrite map_filter_insert_True by done. rewrite (map_filter_insert_False _ _ h b) by (cbn; congruence).
    rewrite total_bytes_insert by done. rewrite (delete_id m h) by done. lia.
  - rewrite (map_filter_insert_True (fun kb : Height * CachedMerkleBlock => keep kb.1 = false)) by done.
    rewrite (map_filter_insert_False _ _ h b) by (cbn; congruence).
    rewrite total_bytes_insert by done. rewrite (delete_id m h) by done. lia.
Qed.

Lemma remove_hashes_lookup l (index : gmap H256 (Height * nat)) x :
  remove_hashes l index !! x = if bool_decide (x ∈ l) then None else index !! x.
Proof.
  unfold remove_hashes. revert index. induction l as [|y l IH]; intros index; cbn [foldl].
  - by rewrite bool_decide_eq_false_2 by apply not_elem_of_nil.
  - rewrite IH. destruct (decide (x = y)) as [->|Hne].
    + rewrite lookup_delete_eq. rewrite (bool_decide_eq_true_2 (y ∈ y :: l)) by left. by case_bool_decide.
    + rewrite lookup_delete_ne by done.
      by rewrite (bool_decide_ext (x ∈ y :: l) (x ∈ l)) by (rewrite elem_of_cons; naive_solver).
Qed.

(** The index after the hashes of a block: its own positions, or what was there. *)
Lemma index_block_lookup h k hashes (index : gmap H256 (Height * nat)) x g i :
  foldl (fun index '(tx_index, tx_hash) => <[tx_hash := (h, tx_index)]> index) index
    (imap (fun i x => (k + i, x)%nat) hashes) !! x = Some (g, i) ->
  (g = h /\ exists j, i = (k + j)%nat /\ hashes !! j = Some x) \/ (x ∉ hashes /\ index !! x = Some (g, i)).
Proof.
  revert k index. induction hashes as [|y hashes IH]; intros k index; cbn [imap foldl].
  { intros Hx. right. split; [apply not_elem_of_nil|done]. }
  assert (forall hs, imap ((fun i x => (k + i, x)%nat) ∘ S) hs = imap (fun i (x : H256) => (S k + i, x)%nat) hs) as ->.
  { intros hs. apply imap_ext. intros j z _. cbn. f_equal. lia. }
  intros [(-> & j & -> & Hj)|[Hx Hi]]%IH.
  - left. split; [done|]. exists (S j). split; [lia|done].
  - destruct (decide (x = y)) as [->|Hne].
    + rewrite lookup_insert_eq in Hi. injection Hi as <- <-. left. split; [done|]. by exists 0%nat.
    + rewrite lookup_insert_ne in Hi by done. right. split; [|done]. rewrite not_elem_of_cons. done.
Qed.

Section Sound.
Context `{Keccak}.
Variable served : Height -> list (H256 * list Z) -> Prop.
Implicit Types (c : ChainMerkleCache) (b : CachedMerkleBlock).

(** The cached blocks are the source's, and the index points at their hashes. *)
Record cache_ok c : Prop := {
  ci_block h b : mc_by_block c !! h = Some b ->
    h ∈ mc_processed_blocks c /\ exists txs, txs <> [] /\ served h txs /\ b = cached_block_new h txs;
  ci_index x h i : mc_by_tx_hash c !! x = Some (h, i) ->
    exists b, mc_by_block c !! h = Some b /\ cb_tx_hashes b !! i = Some x;
}.

Definition cache_inv c : Prop := cache_ok c /\ mc_cached_bytes c = total_bytes (mc_by_block c).

(** Fills with what the source served, and prunings; a fill fits in memory. *)
Inductive cache_step : ChainMerkleCache -> ChainMerkleCache -> Prop :=
| cs_fill h txs c :
    txs <> [] -> served h txs ->
    total_bytes (<[h := cached_block_new h txs]> (mc_by_block c)) <= umax 64 ->
    cache_step c (insert_block h txs c).2
| cs_empty h c : cache_step c (mark_processed_empty h c)
| cs_below h c : cache_step c (prune_below h c)
| cs_above h c : cache_step c (prune_above h c).

Definition empty_cache : ChainMerkleCache := mkMerkleCache ∅ ∅ ∅ 0.

Lemma heap_bytes_nonneg h txs : 0 <= cb_heap_bytes (cached_block_new h txs).
Proof. cbn. unfold measure_heap_bytes. cbv zeta. unfold wrap. apply Z.mod_pos_bound. lia. Qed.

Lemma total_bytes_nonneg m :
  (forall h b, m !! h = Some b -> 0 <= cb_heap_bytes b) -> 0 <= total_bytes m.
Proof.
  induction m as [|h b m Hm IH] using map_ind; intros Hb; [done|].
  rewrite total_bytes_insert by done. pose proof (Hb h b (lookup_insert_eq _ _ _)).
  enough (0 <= total_bytes m) by lia. apply IH. intros k x Hx. apply (Hb k).
  rewrite lookup_insert_ne; [done|]. congruence.
Qed.

Lemma cached_nonneg c h b : cache_ok c -> mc_by_block c !! h = Some b -> 0 <= cb_heap_bytes b.
Proof. intros Hc Hb. apply (ci_block _ Hc) in Hb as (_ & txs & _ & _ & ->). apply heap_bytes_nonneg. Qed.

Lemma drop_block_none h c : mc_by_block (drop_block h c) !! h = None.
Proof. unfold drop_block. destruct (mc_by_block c !! h) eqn:Hb; [apply lookup_delete_eq|done]. Qed.

Lemma drop_block_ok h c : cache_ok c -> cache_ok (drop_block h c).
Proof.
  intros Hc. unfold drop_block. destruct (mc_by_block c !! h) as [old|] eqn:Hold; [|done]. constructor; cbn.
  - intros k b [_ Hb]%lookup_delete_Some. by apply (ci_block _ Hc).
  - intros x k i. rewrite remove_hashes_lookup. case_bool_decide as Hx; [done|].
    intros (b & Hb & Hi)%(ci_index _ Hc). exists b. split; [|done]. rewrite lookup_delete_ne; [done|].
    intros ->. rewrite Hb in Hold. injection Hold as ->. apply Hx. by eapply list_elem_of_lookup_2.
Qed.

Lemma drop_block_inv h c : cache_inv c -> cache_inv (drop_block h c).
Proof.
  intros [Hc Hbytes]. split; [by apply drop_block_ok|]. unfold drop_block.
  destruct (mc_by_block c !! h) as [old|] eqn:Hold; [|done]. pose proof (cached_nonneg c h old Hc Hold). cbn.
  unfold saturating_sub. rewrite Hbytes, (total_bytes_delete _ _ _ Hold).
  enough (0 <= total_bytes (delete h (mc_by_block c))) by lia. apply total_bytes_nonneg.
  intros k b [_ Hb]%lookup_delete_Some. by eapply cached_nonneg.
Qed.

Lemma fill_ok h txs c : cache_ok c -> txs <> [] -> served h txs -> cache_ok (insert_block h txs c).2.
Proof.
  intros Hc Hne Hs. unfold insert_block. cbv zeta. cbn [snd]. remember (cached_block_new h txs) as b eqn:Hb.
  pose proof (drop_block_ok h c Hc) as Hd. unfold insert_cached_block. cbv zeta.
  set (d := drop_block h c) in *. pose proof (drop_block_none h c : mc_by_block d !! h = None) as Hnone.
  clearbody d. constructor; cbn.
  - intros k x [[<- <-]|[Hk Hx]]%lookup_insert_Some.
    + split; [set_solver|]. by exists txs.
    + apply (ci_block _ Hd) in Hx as [Hx ?]. split; [set_solver|done].
  - intros x k i Hx. apply (index_block_lookup h 0) in Hx as [(-> & j & -> & Hj)|[Hx Hi]].
    + exists b. split; [apply lookup_insert_eq|done].
    + apply (ci_index _ Hd) in Hi as (y & Hy & Hi). exists y. split; [|done].
      rewrite lookup_insert_ne; [done|]. congruence.
Qed.

Lemma fill_inv h txs c :
  cache_inv c -> txs <> [] -> served h txs ->
  total_bytes (<[h := cached_block_new h txs]> (mc_by_block c)) <= umax 64 ->
  cache_inv (insert_block h txs c).2.
Proof.
  intros Hc Hne Hs Hmax. split; [by apply fill_ok; [destruct Hc|..]|].
  unfold insert_block in *. cbv zeta. cbn [snd]. remember (cached_block_new h txs) as b eqn:Hb.
  pose proof (drop_block_inv h c Hc) as [_ Hd]. pose proof (drop_block_none h c) as Hnone.
  assert (<[h := b]> (mc_by_block c) = <[h := b]> (mc_by_block (drop_block h c))) as Heq.
  { unfold drop_block. destruct (mc_by_block c !! h) as [old|]; [|done]. cbn. by rewrite insert_delete_eq. }
  unfold insert_cached_block. cbv zeta. set (d := drop_block h c) in *. clearbody d. cbn.
  unfold saturating_add. rewrite Hd. rewrite Heq, total_bytes_insert in Hmax by done.
  rewrite total_bytes_insert by done. lia.
Qed.

Lemma drop_removed_view removed c :
  mc_by_block (drop_removed removed c) = mc_by_block c /\
  mc_processed_blocks (drop_removed removed c) = mc_processed_blocks c /\
  (forall x, mc_by_tx_hash (drop_removed removed c) !! x =
     if bool_decide (Exists (fun b => x ∈ cb_tx_hashes b) removed) then None else mc_by_tx_hash c !! x) /\
  (forall n, Forall (fun b => 0 <= cb_heap_bytes b) removed -> 0 <= n ->
     mc_cached_bytes c = n + sumZ (cb_heap_bytes <$> removed) ->
     mc_cached_bytes (drop_removed removed c) = n).
Proof.
  unfold drop_removed. revert c. induction removed as [|b removed IH]; intros c; cbn [foldl].
  { split_and!; [done|done| |].
    - intros x. rewrite bool_decide_eq_false_2; [done|]. intros Hx. by apply Exists_nil in Hx.
    - intros n _ _ ->. cbn. lia. }
  destruct (IH (c <| mc_cached_bytes ::= fun n => saturating_sub n (cb_heap_bytes b) |>
    <| mc_by_tx_hash ::= remove_hashes (cb_tx_hashes b) |>)) as (H1 & H2 & H3 & H4).
  split_and!; [done|done| |].
  - intros x. rewrite H3. cbn. rewrite remove_hashes_lookup.
    destruct (decide (x ∈ cb_tx_hashes b)) as [Hx|Hx].
    + rewrite (bool_decide_eq_true_2 (x ∈ cb_tx_hashes b)) by done.
      rewrite (bool_decide_eq_true_2 (Exists _ (b :: removed))) by (by left). by case_bool_decide.
    + rewrite (bool_decide_eq_false_2 (x ∈ cb_tx_hashes b)) by done.
      by rewrite (bool_decide_ext (Exists _ (b :: removed)) (Exists (fun b => x ∈ cb_tx_hashes b) removed))
        by (rewrite Exists_cons; naive_solver).
  - intros n [Hb Hr]%Forall_cons Hn Hbytes. apply H4; [done|done|]. cbn in *. rewrite Hbytes.
    assert (0 <= sumZ (cb_heap_bytes <$> removed)) by (clear -Hr; induction Hr; cbn in *; [done|unfold sumZ in *; cbn in *; lia]).
    unfold saturating_sub, sumZ in *. cbn in *. lia.
Qed.

(** The blocks a pruning removes. *)
Lemma elem_of_removed (keep : Height -> bool) c b :
  b ∈ (snd <$> map_to_list (filter (fun kb => keep kb.1 = false) (mc_by_block c))) <->
  exists h, mc_by_block c !! h = Some b /\ keep h = false.
Proof.
  rewrite list_elem_of_fmap. split.
  - intros ([h x] & -> & [Hx Hk]%elem_of_map_to_list%map_lookup_filter_Some). eauto.
  - intros (h & Hb & Hk). exists (h, b). split; [done|].
    apply elem_of_map_to_list, map_lookup_filter_Some. done.
Qed.

Lemma prune_ok keep c : cache_ok c -> cache_ok (prune_keeping keep c).
Proof.
  intros Hc. unfold prune_keeping. set (removed := snd <$> _).
  destruct (drop_removed_view removed (c <| mc_by_block ::= filter (fun kb => keep kb.1 = true) |>
    <| mc_processed_blocks ::= filter (fun h => keep h = true) |>)) as (H1 & H2 & H3 & _). constructor.
  - intros h b. rewrite H1, H2. cbn. intros [Hb Hk]%map_lookup_filter_Some.
    apply (ci_block _ Hc) in Hb as [Hh Hb]. split; [|done]. by apply elem_of_filter.
  - intros x h i. rewrite H3, H1. cbn. case_bool_decide as Hx; [done|].
    intros (b & Hb & Hi)%(ci_index _ Hc). exists b. split; [|done]. apply map_lookup_filter_Some. split; [done|].
    cbn. destruct (keep h) eqn:Hk; [done|]. exfalso. apply Hx, Exists_exists. exists b.
    split; [apply elem_of_removed; eauto|by eapply list_elem_of_lookup_2].
Qed.

Lemma pruned_inv keep c : cache_inv c -> cache_inv (prune_keeping keep c).
Proof.
  intros [Hc Hbytes]. split; [by apply prune_ok|]. unfold prune_keeping. set (removed := snd <$> _).
  destruct (drop_removed_view removed (c <| mc_by_block ::= filter (fun kb => keep kb.1 = true) |>
    <| mc_processed_blocks ::= filter (fun h => keep h = true) |>)) as (H1 & _ & _ & H4).
  rewrite H1. cbn. apply H4.
  - apply Forall_forall. intros b (h & Hb & _)%elem_of_removed. by eapply cached_nonneg.
  - apply total_bytes_nonneg. intros h b [Hb _]%map_lookup_filter_Some. by eapply cached_nonneg.
  - cbn. rewrite Hbytes, (total_bytes_split keep). f_equal. unfold removed, total_bytes.
    by rewrite <- list_fmap_compose.
Qed.

Lemma mark_empty_ok h c : cache_ok c -> cache_ok (mark_processed_empty h c).
Proof.
  intros Hc. destruct (drop_block_ok h c Hc) as [Hb Hi]. constructor; cbn; [|done].
  intros k b [Hk ?]%Hb. split; [set_solver|done].
Qed.

Lemma cache_step_inv c c' : cache_step c c' -> cache_inv c -> cache_inv c'.
Proof.
  destruct 1 as [h txs c Hne Hs Hmax|h c|h c|h c]; intros Hc.
  - by apply fill_inv.
  - split; [by apply mark_empty_ok; destruct Hc|]. by destruct (drop_block_inv h c Hc).
  - by apply pruned_inv.
  - by apply pruned_inv.
Qed.

(** An item of a cached block. *)
Definition proves_item (ck : ChainKey) (item : MerkleProofItem) : Prop :=
  exists txs i hash bytes, served (pi_header_number item) txs /\ txs !! i = Some (hash, bytes) /\
    pi_chain_key item = ck /\ pi_tx_index item = Some (Z.of_nat i) /\ pi_tx_hash item = Some hash /\
    pi_tx_bytes item = Some bytes /\ pi_merkle_root item = items_root txs /\
    mp_root (pi_merkle_proof item) = items_root txs /\
    merkle_verify (pi_merkle_proof item) bytes = true /\
    path_index (mp_siblings (pi_merkle_proof item)) = Z.of_nat i.

Lemma proof_item_proves ck h txs i item :
  served h txs -> proof_item ck (cached_block_new h txs) i = Some item ->
  proves_item ck item /\ pi_header_number item = h /\ pi_tx_index item = Some (Z.of_nat i) /\
  pi_tx_hash item = map fst txs !! i.
Proof.
  intros Hs. unfold proof_item, cached_block_new. cbv zeta. cbn [cb_tx_hashes cb_tx_bytes cb_tree cb_header_number].
  destruct (merkle_new_total (map snd txs)) as [t Ht]. rewrite Ht. rewrite !list_lookup_fmap.
  destruct (txs !! i) as [[hash bytes]|] eqn:Hi; [|done]. cbn -[generate_proof].
  destruct (generated_proofs _ _ Ht) as [Hgen _].
  destruct (Hgen i bytes) as (p & -> & Hroot & Hv & Hp); [by rewrite list_lookup_fmap, Hi|].
  assert (merkle_root t = items_root txs) as Hr by (unfold items_root; by rewrite Ht).
  intros [= <-]. cbn. split; [|done]. exists txs, i, hash, bytes. cbn. split_and!; congruence.
Qed.

Lemma lookups_sound c :
  cache_ok c ->
  (forall ck x item, get_by_tx_hash ck x c = Some item -> proves_item ck item /\ pi_tx_hash item = Some x) /\
  (forall ck h i item, 0 <= i -> get_by_block_index ck h i c = Some item ->
     proves_item ck item /\ pi_header_number item = h /\ pi_tx_index item = Some i).
Proof.
  intros Hc. split.
  - intros ck x item. unfold get_by_tx_hash. destruct (mc_by_tx_hash c !! x) as [[h i]|] eqn:Hx; [|done]. cbn.
    apply (ci_index _ Hc) in Hx as (b & Hb & Hi). rewrite Hb. cbn.
    apply (ci_block _ Hc) in Hb as (_ & txs & _ & Hs & ->).
    intros (Hp & _ & _ & Hh)%proof_item_proves; [|done]. split; [done|]. by rewrite Hh.
  - intros ck h i item Hi. unfold get_by_block_index. destruct (mc_by_block c !! h) as [b|] eqn:Hb; [|done]. cbn.
    apply (ci_block _ Hc) in Hb as (_ & txs & _ & Hs & ->).
    intros (Hp & Hh & Hj & _)%proof_item_proves; [|done]. by rewrite Hj, Z2Nat.id.
Qed.

(** C28: the Merkle cache is sound. However fills of blocks the source served and
    prunings interleave, a lookup by transaction hash or by position returns a proof
    that verifies for the very transaction asked for, under the root of a block the
    source served at that height; the byte count is exactly that of the cached
    blocks; and every cached height counts as processed, so that the backfill lists
    no height it already holds. *)
Theorem merkle_cache_sound c :
  rtc cache_step empty_cache c ->
  (forall ck x item, get_by_tx_hash ck x c = Some item -> proves_item ck item /\ pi_tx_hash item = Some x) /\
  (forall ck h i item, 0 <= i -> get_by_block_index ck h i c = Some item ->
     proves_item ck item /\ pi_header_number item = h /\ pi_tx_index item = Some i) /\
  st_bytes (size_stats c) = total_bytes (mc_by_block c) /\
  (forall start stop limit h, h ∈ unprocessed_heights_desc start stop limit c ->
     start <= h <= stop /\ mc_by_block c !! h = None).
Proof.
  intros Hr. assert (cache_inv c) as [Hc Hbytes].
  { apply (rtc_ind_r cache_inv empty_cache) in Hr; [done| |]; [by split|].
    intros x y _ Hstep Hx. by eapply cache_step_inv. }
  destruct (lookups_sound c Hc) as [H1 H2]. split_and!; [done|done|apply Hbytes|].
  intros start stop limit h (j & Hj & _)%elem_of_take.
  apply list_elem_of_lookup_2, list_elem_of_filter in Hj as [Hh Hin].
  rewrite elem_of_reverse, elem_of_seqZ in Hin. split; [lia|].
  destruct (mc_by_block c !! h) as [b|] eqn:Hb; [|done]. by apply (ci_block _ Hc) in Hb as [? _].
Qed.
End Sound.

(** ** A cache in use *)

Definition cached_txs (h : Height) : list (H256 * list Z) := [(10 * h, [1]); (10 * h + 1, [3])].
Definition cache1 : ChainMerkleCache :=
  prune_below 7 (insert_block (H := toy_keccak) 8 (cached_txs 8)
    (insert_block (H := toy_keccak) 5 (cached_txs 5) empty_cache).2).2.

Lemma cache1_reached : rtc (cache_step (H := toy_keccak) (fun h txs => txs = cached_txs h)) empty_cache cache1.
Proof.
  eapply rtc_l; [apply (cs_fill _ 5 (cached_txs 5)); [done|done|vm_compute; done]|].
  eapply rtc_l; [apply (cs_fill _ 8 (cached_txs 8)); [done|done|vm_compute; done]|].
  apply rtc_once, cs_below.
Qed.

Lemma merkle_cache_sound_witness :
  st_bytes (size_stats cache1) = 386 /\ get_by_tx_hash 1 50 cache1 = None /\
  exists item, get_by_tx_hash 1 81 cache1 = Some item /\ pi_tx_hash item = Some 81 /\
    proves_item (H := toy_keccak) (fun h txs => txs = cached_txs h) 1 item.
Proof.
  destruct (merkle_cache_sound (fun h txs => txs = cached_txs h) cache1 cache1_reached) as (Hget & _ & Hb & _).
  split; [rewrite Hb; vm_compute; reflexivity|]. split; [vm_compute; reflexivity|].
  eexists. split; [vm_compute; reflexivity|].
  apply and_comm, (Hget 1 81). vm_compute. reflexivity.
Defined.
