(* ===== verification/ServerState.v ===== *)
(** * The proof server's state

    The caches of [src/proof-gen-api-server/src/services/continuity_service/mod.rs]:
    per source chain the digests of attestations and checkpoints, the Merkle
    cache, and the settings its window depends on; the handler of the chain's
    events ([src/proof-gen-api-server/src/events/mod.rs]) that keeps them, fed by
    [extract_events] of [src/common/cc-client/src/attestation.rs]; and the lookups
    of the boundaries of a query. *)

From stdpp Require Import prelude gmap list sorting strings.
From Stdlib Require Import ZArith Lia.
From S2P Require Import Prelude Primitives Merkle Frame Types ProofSource MerkleCache.

(** ** Ordered maps *)

(** The keys of a [BTreeMap], in order. *)
Definition keys {V} (m : gmap Z V) : list Z := btree_set (map_keys m).

Definition entry_at {V} (m : gmap Z V) (k : option Z) : option (Z * V) := k ← k; pair k <$> m !! k.

Definition first_key {V} (m : gmap Z V) : option Z := head (keys m).
Definition last_key {V} (m : gmap Z V) : option Z := last (keys m).

(** [range(..q).next_back()] *)
Definition entry_below {V} (m : gmap Z V) (q : Z) : option (Z * V) :=
  entry_at m (last (filter (fun k => k < q) (keys m))).

(** [range(q..).next()] *)
Definition entry_from {V} (m : gmap Z V) (q : Z) : option (Z * V) :=
  entry_at m (head (filter (fun k => q <= k) (keys m))).

(** [split_off(&q)]: what stays, and what is returned. *)
Definition below {V} (q : Z) (m : gmap Z V) : gmap Z V := filter (fun kv => kv.1 < q) m.
Definition from {V} (q : Z) (m : gmap Z V) : gmap Z V := filter (fun kv => q <= kv.1) m.

Definition pop_first {V} (m : gmap Z V) : gmap Z V :=
  match first_key m with Some k => delete k m | None => m end.

(** ** State *)

Record ChainCacheConfig := mkCacheConfig {
  merkle_retention_blocks : option Z;
  merkle_max_bytes : option Z;
  checkpoint_cache_max_entries : option nat;
}.

Record ChainState := mkChainState {
  ch_chain_key : ChainKey;
  checkpoint_cache : gmap Height Digest;
  attestation_cache : gmap Height Digest;
  merkle_proof_cache : ChainMerkleCache;
  attestation_genesis_block : Height;
  checkpoint_interval : Z;
  attestation_interval : Z;
  cache_config : ChainCacheConfig;
  builder_last_checkpoint_block : option Height;
}.

#[export] Instance eta_ChainState : Settable ChainState := fun r =>
  mkChainState (ch_chain_key r) (checkpoint_cache r) (attestation_cache r) (merkle_proof_cache r)
    (attestation_genesis_block r) (checkpoint_interval r) (attestation_interval r) (cache_config r)
    (builder_last_checkpoint_block r).

(** The service's chains, with the maps the event handler shares. *)
Record Server := mkServer {
  chains : gmap ChainKey ChainState;
  last_attestations : list (ChainKey * (Height * Digest));
  checkpoint_intervals : gmap ChainKey Z;
  last_checkpoint_blocks : gmap ChainKey Height;
}.

#[export] Instance eta_Server : Settable Server := fun r =>
  mkServer (chains r) (last_attestations r) (checkpoint_intervals r) (last_checkpoint_blocks r).

Definition MERKLE_PROOF_CACHE_CHECKPOINT_RETENTION_MULTIPLIER : Z := 4.

Implicit Types (chain : ChainState) (srv : Server) (ck : ChainKey).

(** ** Heights *)

Definition cached_attestation_height chain : option Height := last_key (attestation_cache chain).
Definition cached_checkpoint_height chain : option Height := last_key (checkpoint_cache chain).

(** [Option::max]: [None] is below every height. *)
Definition cached_attested_height chain : option Height :=
  union_with (fun a b => Some (Z.max a b)) (cached_attestation_height chain) (cached_checkpoint_height chain).

(** ** The Merkle cache's window *)

Definition derived_retention_blocks chain : Z :=
  saturating_mul 64 (saturating_mul 64 (attestation_interval chain) (checkpoint_interval chain))
    MERKLE_PROOF_CACHE_CHECKPOINT_RETENTION_MULTIPLIER.

Definition retention_blocks_for chain (stats : MerkleCacheStats) : Z :=
  let configured := default (derived_retention_blocks chain) (merkle_retention_blocks (cache_config chain)) in
  match merkle_max_bytes (cache_config chain), mean_bytes_per_block stats with
  | Some budget, Some mean_bytes =>
      let floor := Z.max (attestation_interval chain) 1 in
      let affordable := Z.max (budget / mean_bytes) floor in
      Z.min configured affordable
  | _, _ => configured
  end.

Definition merkle_cache_retention_blocks chain : Z :=
  retention_blocks_for chain (size_stats (merkle_proof_cache chain)).

(** ** Updates *)

Definition insert_attestation (block_number : Height) (digest : Digest) chain : ChainState :=
  chain <| attestation_cache ::= <[block_number := digest]> |>.

(** Drop the oldest checkpoints while there are more than [max_entries]. *)
Definition cap_checkpoints (max_entries : nat) (m : gmap Height Digest) : gmap Height Digest :=
  Nat.iter (size m - max_entries) pop_first m.

Definition server_insert_checkpoint (block_number : Height) (digest : Digest) chain : ChainState :=
  let chain := chain <| checkpoint_cache ::= fun cp =>
    let cp := <[block_number := digest]> cp in
    match checkpoint_cache_max_entries (cache_config chain) with
    | Some max_entries => cap_checkpoints max_entries cp
    | None => cp
    end |> in
  let min_retained := Z.max (saturating_sub block_number (merkle_cache_retention_blocks chain))
    (attestation_genesis_block chain) in
  chain <| merkle_proof_cache ::= prune_below min_retained |>.

Definition prune_attestations_at_or_below (height : Height) chain : ChainState :=
  chain <| attestation_cache ::= from (saturating_add 64 height 1) |>.

Definition revert_caches (revert_height : Height) chain : ChainState :=
  let split_key := saturating_add 64 revert_height 1 in
  chain <| attestation_cache ::= below split_key |>
        <| checkpoint_cache ::= below split_key |>
        <| merkle_proof_cache ::= prune_above revert_height |>
        <| builder_last_checkpoint_block := None |>.

Definition update_last_checkpoint_block (block_number : Height) chain : ChainState :=
  match builder_last_checkpoint_block chain with
  | Some current =>
      if current <? block_number then chain <| builder_last_checkpoint_block := Some block_number |> else chain
  | None => chain <| builder_last_checkpoint_block := Some block_number |>
  end.

(** ** Events *)

Inductive CcEvent :=
| CcBlockAttested ck (header_number : Height) (digest : Digest)
| CcRandomnessChanged (epoch : Z) (randomness : Z)
| CcCheckpointReached ck (checkpoint : AttestationCheckpoint)
| CcAttestationIntervalChanged ck (n : Z)
| CcTargetSampleSizeChanged ck (n : Z)
| CcCheckpointIntervalChanged ck (n : Z)
| CcMaxCatchupChanged ck (n : Z)
| CcAttestorsElected ck (attestors : list AccountId)
| CcAttestorActivated ck (a : AccountId)
| CcAttestorChilled ck (a : AccountId)
| CcAttestorKicked (a : AccountId)
| CcAttestationChainGenesisBlockNumberSet ck (h : Height)
| CcRevertedAttestationChainTo ck (h : Height) (d : Digest).

(** The events of a block, by the pallet that deposits them. *)
Inductive RuntimeEvent :=
| AttestationEvent (e : Event)
| StoreRandomnessForEpoch (epoch_index : Z) (randomness : Z)
| Kicked (nominator stash : AccountId)
| OtherEvent.

Definition extract_event (chain_filter : list ChainKey) (e : RuntimeEvent) : option CcEvent :=
  let keep ck e := if bool_decide (ck ∈ chain_filter) then Some e else None in
  match e with
  | AttestationEvent e =>
      match e with
      | BlockAttested ck h d => keep ck (CcBlockAttested ck h d)
      | CheckpointReached ck cp => keep ck (CcCheckpointReached ck cp)
      | TargetSampleSizeChanged ck n => keep ck (CcTargetSampleSizeChanged ck n)
      | AttestationIntervalChanged ck n => keep ck (CcAttestationIntervalChanged ck n)
      | MaxCatchupChanged ck n => keep ck (CcMaxCatchupChanged ck n)
      | CheckpointIntervalChanged ck n => keep ck (CcCheckpointIntervalChanged ck n)
      | AttestorsElected _ ck attestors => keep ck (CcAttestorsElected ck attestors)
      | AttestorActivated ck a _ => keep ck (CcAttestorActivated ck a)
      | AttestorChilled ck a => keep ck (CcAttestorChilled ck a)
      | AttestationChainGenesisBlockNumberSet ck h => keep ck (CcAttestationChainGenesisBlockNumberSet ck h)
      | RevertedAttestationChainTo ck h d => keep ck (CcRevertedAttestationChainTo ck h d)
      | _ => None
      end
  | StoreRandomnessForEpoch epoch r => Some (CcRandomnessChanged epoch r)
  | Kicked _ stash => Some (CcAttestorKicked stash)
  | OtherEvent => None
  end.

Definition extract_events (chain_filter : list ChainKey) (es : list RuntimeEvent) : list CcEvent :=
  omap (extract_event chain_filter) es.

(** Replace the chain's entry, or append one. *)
Fixpoint set_last_attestation ck (a : Height * Digest) (l : list (ChainKey * (Height * Digest)))
    : list (ChainKey * (Height * Digest)) :=
  match l with
  | [] => [(ck, a)]
  | (k, x) :: l' => if k =? ck then (ck, a) :: l' else (k, x) :: set_last_attestation ck a l'
  end.

(** Apply [f] to the chain's state, if the server has the chain. *)
Definition on_chain ck (f : ChainState -> ChainState) srv : Server := srv <| chains ::= alter f ck |>.

Definition serves_chain srv ck : bool := bool_decide (is_Some (chains srv !! ck)).

Definition on_block_attested ck (header_number : Height) (digest : Digest) srv : Server :=
  on_chain ck (insert_attestation header_number digest)
    (srv <| last_attestations ::= set_last_attestation ck (header_number, digest) |>).

Definition on_checkpoint_reached ck (checkpoint : AttestationCheckpoint) srv : Server :=
  let block_number := cp_block_number checkpoint in
  let srv := if default 0 (last_checkpoint_blocks srv !! ck) <? block_number
    then on_chain ck (update_last_checkpoint_block block_number)
      (srv <| last_checkpoint_blocks ::= <[ck := block_number]> |>)
    else srv in
  on_chain ck (prune_attestations_at_or_below block_number)
    (on_chain ck (server_insert_checkpoint block_number (cp_digest checkpoint)) srv).

Definition on_reverted ck (revert_height : Height) srv : Server :=
  on_chain ck (revert_caches revert_height) srv
    <| last_attestations ::= filter (fun a => a.1 <> ck) |>
    <| last_checkpoint_blocks ::= delete ck |>.

Definition process_cc_event (e : CcEvent) srv : Server :=
  let served ck srv' := if serves_chain srv ck then srv' else srv in
  match e with
  | CcBlockAttested ck header_number digest => served ck (on_block_attested ck header_number digest srv)
  | CcCheckpointReached ck checkpoint => served ck (on_checkpoint_reached ck checkpoint srv)
  | CcAttestationIntervalChanged ck n =>
      served ck (on_chain ck (fun chain => chain <| attestation_interval := n |>) srv)
  | CcCheckpointIntervalChanged ck n =>
      served ck (on_chain ck (fun chain => chain <| checkpoint_interval := n |>)
        (srv <| checkpoint_intervals ::= <[ck := n]> |>))
  | CcAttestationChainGenesisBlockNumberSet ck h =>
      served ck (on_chain ck (fun chain => chain <| attestation_genesis_block := h |>) srv)
  | CcRevertedAttestationChainTo ck h _ => served ck (on_reverted ck h srv)
  | _ => srv
  end.

(** The events of a block, one after another. *)
Definition process_block (es : list RuntimeEvent) srv : Server :=
  foldl (fun srv e => process_cc_event e srv) srv (extract_events (elements (dom (chains srv))) es).

(** ** Boundaries of a query *)

Definition Boundaries : Type := Height * Digest * Height * Digest.

Definition bracket (lower upper : option (Height * Digest)) : option Boundaries :=
  '(lower_block, lower_digest) ← lower;
  '(upper_block, upper_digest) ← upper;
  Some (lower_block, lower_digest, upper_block, upper_digest).

Definition get_attestation_boundaries chain (min_query max_query : Height) : option Boundaries :=
  bracket (entry_below (attestation_cache chain) min_query) (entry_from (attestation_cache chain) max_query).

Definition get_checkpoint_boundaries chain (min_query max_query : Height) : option Boundaries :=
  bracket (entry_below (checkpoint_cache chain) min_query) (entry_from (checkpoint_cache chain) max_query).

Definition get_mixed_boundaries chain (min_query max_query : Height) : option Boundaries :=
  match bracket (entry_below (checkpoint_cache chain) min_query) (entry_from (attestation_cache chain) max_query) with
  | Some b => Some b
  | None => bracket (entry_below (attestation_cache chain) min_query) (entry_from (checkpoint_cache chain) max_query)
  end.

(** ** Facts *)

Section Ordered.
Context {V : Type}.
Implicit Types (m : gmap Z V) (k q : Z).

Lemma elem_of_keys m k : k ∈ keys m <-> is_Some (m !! k).
Proof. unfold keys. by rewrite elem_of_btree_set, elem_of_map_keys. Qed.

Lemma keys_sorted m : StronglySorted Z.le (keys m).
Proof. apply (StronglySorted_merge_sort Z.le). Qed.

Lemma sorted_last l k : StronglySorted Z.le l -> last l = Some k -> forall x, x ∈ l -> x <= k.
Proof.
  intros Hs. revert k. induction Hs as [|y l Hs IH Hall]; intros k Hk x Hx; [done|].
  rewrite last_cons in Hk. apply elem_of_cons in Hx. rewrite Forall_forall in Hall.
  destruct (last l) as [z|] eqn:Hl; injection Hk as <-.
  - destruct Hx as [->|Hx]; [|by apply IH]. apply Hall. by apply last_Some_elem_of.
  - apply last_None in Hl as ->. destruct Hx as [->|Hx]; [done|by apply elem_of_nil in Hx].
Qed.

Lemma sorted_head l k : StronglySorted Z.le l -> head l = Some k -> forall x, x ∈ l -> k <= x.
Proof.
  intros Hs Hk x Hx. destruct Hs as [|y l Hs Hall]; [done|]. injection Hk as ->.
  rewrite Forall_forall in Hall. apply elem_of_cons in Hx as [->|Hx]; [done|by apply Hall].
Qed.

Lemma sorted_filter P `{!forall x : Z, Decision (P x)} l :
  StronglySorted Z.le l -> StronglySorted Z.le (filter P l).
Proof.
  induction 1 as [|y l Hs IH Hall]; [constructor|]. rewrite filter_cons. case_decide; [|done].
  constructor; [done|]. rewrite Forall_forall in *. intros x [_ Hx]%list_elem_of_filter. by apply Hall.
Qed.

Lemma last_key_max m k : last_key m = Some k -> is_Some (m !! k) /\ forall x, is_Some (m !! x) -> x <= k.
Proof.
  intros Hk. split; [by apply elem_of_keys, last_Some_elem_of|].
  intros x Hx. eapply sorted_last; [apply keys_sorted|exact Hk|by apply elem_of_keys].
Qed.

Lemma last_key_none m : last_key m = None -> m = ∅.
Proof.
  intros Hk%last_None. apply map_empty. intros k. apply eq_None_not_Some. intros Hs.
  apply elem_of_keys in Hs. rewrite Hk in Hs. by apply elem_of_nil in Hs.
Qed.

(** The greatest entry below [q]. *)
Lemma entry_below_some m q k v :
  entry_below m q = Some (k, v) -> m !! k = Some v /\ k < q /\ forall x, is_Some (m !! x) -> x < q -> x <= k.
Proof.
  unfold entry_below, entry_at. destruct (last _) as [k'|] eqn:Hl; [|done]. cbn.
  destruct (m !! k') as [v'|] eqn:Hv; [|done]. intros [= <- <-]. split; [done|].
  pose proof (last_Some_elem_of _ _ Hl) as [Hq _]%list_elem_of_filter. split; [done|].
  intros x Hx Hlt. refine (sorted_last _ _ (sorted_filter _ _ (keys_sorted m)) Hl x _).
  apply list_elem_of_filter. split; [done|by apply elem_of_keys].
Qed.

Lemma entry_from_some m q k v :
  entry_from m q = Some (k, v) -> m !! k = Some v /\ q <= k /\ forall x, is_Some (m !! x) -> q <= x -> k <= x.
Proof.
  unfold entry_from, entry_at. destruct (head _) as [k'|] eqn:Hl; [|done]. cbn.
  destruct (m !! k') as [v'|] eqn:Hv; [|done]. intros [= <- <-]. split; [done|].
  pose proof (head_Some_elem_of _ _ Hl) as [Hq _]%list_elem_of_filter. split; [done|].
  intros x Hx Hlt. refine (sorted_head _ _ (sorted_filter _ _ (keys_sorted m)) Hl x _).
  apply list_elem_of_filter. split; [done|by apply elem_of_keys].
Qed.

Lemma entry_at_is_some m o k : o = Some k -> is_Some (m !! k) -> is_Some (entry_at m o).
Proof. intros -> [v Hv]. unfold entry_at. cbn. rewrite Hv. by eexists. Qed.

(** The lookups find an entry when there is one. *)
Lemma entry_below_is_some m q k : is_Some (m !! k) -> k < q -> is_Some (entry_below m q).
Proof.
  intros Hk Hlt. assert (k ∈ filter (fun k => k < q) (keys m)) as Hin.
  { apply list_elem_of_filter. split; [done|by apply elem_of_keys]. }
  unfold entry_below. destruct (last _) as [x|] eqn:Hl; [|by apply last_None in Hl; rewrite Hl in Hin; apply elem_of_nil in Hin].
  eapply entry_at_is_some; [done|]. apply elem_of_keys. by apply last_Some_elem_of, list_elem_of_filter in Hl as [_ ?].
Qed.

Lemma entry_from_is_some m q k : is_Some (m !! k) -> q <= k -> is_Some (entry_from m q).
Proof.
  intros Hk Hlt. assert (k ∈ filter (fun k => q <= k) (keys m)) as Hin.
  { apply list_elem_of_filter. split; [done|by apply elem_of_keys]. }
  unfold entry_from. destruct (head _) as [x|] eqn:Hl; [|by apply head_None in Hl; rewrite Hl in Hin; apply elem_of_nil in Hin].
  eapply entry_at_is_some; [done|]. apply elem_of_keys. by apply head_Some_elem_of, list_elem_of_filter in Hl as [_ ?].
Qed.
End Ordered.
