(* ===== verification/ProofService.v ===== *)
(** * The proof server's requests

    [ContinuityService] of
    [src/proof-gen-api-server/src/services/continuity_service/{mod,helpers}.rs]:
    the validation of a request, the continuity proof between two cached
    boundaries, the Merkle proofs, the four requests with the checks of their
    routes ([src/proof-gen-api-server/src/networking/routes/continuity.rs]), and
    the Merkle cache's backfill. *)

From stdpp Require Import prelude gmap list sorting strings.
From Stdlib Require Import ZArith Lia Ascii.
From S2P Require Import Prelude Primitives Merkle Frame Types ProofSource MerkleCache ServerState.

Inductive ServiceError :=
| UnsupportedBlockFormat (block_number : Height)
| UnknownChain (chain_key : ChainKey)
| AttestationsMissing (chain_key : ChainKey)
| TxIndexOutOfBounds (height : Height) (tx_index len : Z)
| EmptyBlockTxProof (height : Height)
| RpcUnavailable (cause : Anyhow)
| MerkleFailure
| InvalidParameter (message : string)
| Internal (message : string)
| TxHashNotFound (tx_hash : string)
| BlockNotReady (block_number last_attested_block : Height)
| BlockBeforeOrAtGenesis (requested_block genesis_block : Height)
| EmptyProofQueries
| TooManyProofQueries
| TooManyTxQueriesInProofQuery
| EmptyTxHashes
| TooManyTxHashes
| BatchSpanTooLarge (from_block to_block span max_span : Z)
| ArchiverRangeRejected (from to : Height) (detail : string)
| ArchiverDataUnavailable (from to : Height) (detail : string)
| ArchiverCatchingUp (from to latest_archived : Height)
(** The handler's task panics. *)
| Panicked.

(** ** Hexadecimal *)

Definition hex_digit (n : Z) : Ascii.ascii :=
  Ascii.ascii_of_nat (Z.to_nat (if n <? 10 then 48 + n else 87 + n)).

Definition hex_value (c : Ascii.ascii) : option Z :=
  let n := Z.of_nat (Ascii.nat_of_ascii c) in
  if (48 <=? n) && (n <=? 57) then Some (n - 48)
  else if (97 <=? n) && (n <=? 102) then Some (n - 87)
  else if (65 <=? n) && (n <=? 70) then Some (n - 55)
  else None.

Fixpoint hex_encode (bytes : list Z) : string :=
  match bytes with
  | [] => EmptyString
  | b :: bytes' => String (hex_digit (b / 16)) (String (hex_digit (b mod 16)) (hex_encode bytes'))
  end.

Fixpoint hex_decode (s : string) : option (list Z) :=
  match s with
  | EmptyString => Some []
  | String _ EmptyString => None
  | String c1 (String c2 s') =>
      hi ← hex_value c1; lo ← hex_value c2; bytes ← hex_decode s'; Some (16 * hi + lo :: bytes)
  end.

(** [trim_start_matches("0x")] *)
Fixpoint trim_0x (s : string) : string :=
  match s with
  | String c1 (String c2 s') =>
      if (Ascii.eqb c1 "0" && Ascii.eqb c2 "x")%char then trim_0x s' else s
  | _ => s
  end.

Definition of_be_bytes (bytes : list Z) : Z := foldl (fun n b => 256 * n + b) 0 bytes.

Definition with_0x (bytes : list Z) : string := String "0"%char (String "x"%char (hex_encode bytes)).

Definition parse_tx_hash (tx_hash : string) : Result ServiceError H256 :=
  match hex_decode (trim_0x tx_hash) with
  | None => Err (InvalidParameter "invalid tx_hash hex")
  | Some bytes =>
      if zlen bytes =? 32 then Ok (of_be_bytes bytes)
      else Err (InvalidParameter "tx_hash must be 32 bytes")
  end.

(** ** Errors of the source *)

Definition classify_eth_rpc_anyhow_as_inconsistent (err : Anyhow) (fallback_block_number : Height)
    : option ServiceError :=
  if anyhow_chain_is_inconsistent_block_payload err then
    Some (UnsupportedBlockFormat (default fallback_block_number (anyhow_chain_inconsistent_block_number_hint err)))
  else None.

Definition classify_archiver_client_rejection (err : Anyhow) : option ServiceError :=
  status_err ← anyhow_chain_archiver_status err;
  if is_catching_up_at_tip status_err then
    (* [expect]: the test implies a known latest height *)
    Some (match as_latest_archived status_err with
      | Some latest => ArchiverCatchingUp (as_from status_err) (as_to status_err) latest
      | None => Panicked
      end)
  else if is_data_unavailable status_err then
    Some (ArchiverDataUnavailable (as_from status_err) (as_to status_err) (as_body status_err))
  else if negb (is_range_rejection status_err) then None
  else Some (ArchiverRangeRejected (as_from status_err) (as_to status_err) (as_body status_err)).

Definition map_eth_rpc_anyhow_to_service_error_with (err : Anyhow) (fallback_block_number : Height)
    (on_other : Anyhow -> ServiceError) : ServiceError :=
  match classify_eth_rpc_anyhow_as_inconsistent err fallback_block_number with
  | Some svc_err => svc_err
  | None =>
      match classify_archiver_client_rejection err with
      | Some svc_err => svc_err
      | None => on_other err
      end
  end.

Definition map_eth_rpc_anyhow_to_service_error (err : Anyhow) (fallback_block_number : Height) : ServiceError :=
  map_eth_rpc_anyhow_to_service_error_with err fallback_block_number RpcUnavailable.

Definition map_err {E F A} (f : E -> F) (r : Result E A) : Result F A :=
  match r with Ok a => Ok a | Err e => Err (f e) end.

(** ** Responses *)

Record SingleContinuityResponse := mkSingle {
  sr_chain_key : ChainKey;
  sr_header_number : Height;
  sr_tx_index : Z;
  sr_tx_hash : option string;
  sr_tx_bytes : option string;
  sr_continuity_proof : ContinuityProof;
  sr_merkle_proof : TransactionMerkleProof;
  sr_cached : bool;
}.

Record BatchedMerkleProofEntry := mkBatchEntry {
  be_tx_hash : option string;
  be_tx_bytes : option string;
  be_merkle_proof : TransactionMerkleProof;
}.

Record BatchedContinuityResponse := mkBatched {
  br_chain_key : ChainKey;
  br_from_header : Height;
  br_to_header : Height;
  br_continuity_proof : ContinuityProof;
  br_merkle_proofs : gmap Height (gmap Z BatchedMerkleProofEntry);
}.

Record ProofQuery := mkProofQuery { pq_header_number : Height; pq_tx_indexes : list Z }.

Definition MERKLE_BACKFILL_MAX_BLOCKS_PER_TICK : nat := 50.

(** The least and the greatest of some heights. *)
Definition least (l : list Z) : option Z := head (btree_set l).
Definition greatest (l : list Z) : option Z := last (btree_set l).

(** Requests run on the state of their chain. *)
Abbreviation SM := (M ChainState ServiceError).

Section Service.
Context `{Keccak} `{EthRpcProvider}.
Implicit Types (chain : ChainState).

(** [tokio::try_join!] of two futures, the left one finishing first or not. *)
Definition try_join {A B} (left_first : bool) (l : SM A) (r : SM B) : SM (A * B) :=
  if left_first then a ← l; b ← r; mret (a, b) else b ← r; a ← l; mret (a, b).

(** ** Validation *)

Definition validate_blocks (header_numbers : list Height) chain : Result ServiceError Height :=
  let genesis_block := attestation_genesis_block chain in
  match List.find (fun h => h <=? genesis_block) header_numbers with
  | Some header_number => Err (BlockBeforeOrAtGenesis header_number genesis_block)
  | None =>
      match cached_attested_height chain with
      | None => Err (AttestationsMissing (ch_chain_key chain))
      | Some latest_attested =>
          match List.find (fun h => latest_attested <? h) header_numbers with
          | Some header_number => Err (BlockNotReady header_number latest_attested)
          | None => Ok latest_attested
          end
      end
  end.

(** ** The continuity proof *)

Definition boundary_lookup_failed_error chain (max_query : Height) : ServiceError :=
  match cached_attested_height chain with
  | None => AttestationsMissing (ch_chain_key chain)
  | Some last_coverage =>
      if last_coverage <? max_query then BlockNotReady max_query last_coverage
      else Internal "no attestation or checkpoint window in cache"
  end.

Definition build_proof_from_roots (min_query lower_checkpoint : Height) (lower_checkpoint_digest : Digest)
    (upper_checkpoint : Height) (upper_checkpoint_digest : Digest) : Result ServiceError ContinuityProof :=
  let build_from := lower_checkpoint + 1 in
  blocks ← map_err (fun err => map_eth_rpc_anyhow_to_service_error_with err min_query
      (fun _ => Internal "failed to build continuity blocks"))
    (build_continuity_blocks lower_checkpoint_digest build_from upper_checkpoint);
  match List.find (fun b => b_block_number b =? upper_checkpoint) blocks with
  | None => Err (Internal "eth provider returned no block at upper checkpoint boundary")
  | Some b =>
      if negb (b_digest b =? upper_checkpoint_digest) then
        Err (Internal "continuity upper-boundary digest mismatch")
      else
        let lower_endpoint_digest := default lower_checkpoint_digest
          (b_digest <$> last (take_while (fun b => b_block_number b <? min_query) blocks)) in
        let proof_roots := b_root <$> filter (fun b => min_query <= b_block_number b) blocks in
        Ok (mkContinuityProof lower_endpoint_digest proof_roots)
  end.

(** The boundaries from one cache, or else one from each. *)
Definition cached_boundaries chain (min_query max_query : Height) : option Boundaries :=
  match get_attestation_boundaries chain min_query max_query with
  | Some bounds => Some bounds
  | None =>
      match get_checkpoint_boundaries chain min_query max_query with
      | Some bounds => Some bounds
      | None => get_mixed_boundaries chain min_query max_query
      end
  end.

Definition build_continuity (header_numbers : list Height) chain : Result ServiceError ContinuityProof :=
  match least header_numbers, greatest header_numbers with
  | Some min_query, Some max_query =>
      match cached_boundaries chain min_query max_query with
      | Some (lower, lower_digest, upper, upper_digest) =>
          build_proof_from_roots min_query lower lower_digest upper upper_digest
      | None => Err (boundary_lookup_failed_error chain max_query)
      end
  | _, _ => Err (Internal "header_numbers is empty")
  end.

(** ** Merkle proofs *)

Definition get_height_and_index_for_tx_hash (tx_hash : H256) : Result ServiceError (Height * Z) :=
  match get_tx_position_by_hash tx_hash with
  | Ok (Some position) => Ok position
  | Ok None => Err (TxHashNotFound (with_0x (h256_bytes tx_hash)))
  | Err e => Err (map_eth_rpc_anyhow_to_service_error e 0)
  end.

Definition generate_merkle_proof ck (header_number : Height) (tx_index : Z)
    : Result ServiceError MerkleProofItem :=
  fetched ← map_err (fun e => map_eth_rpc_anyhow_to_service_error e header_number)
    (get_block_tx_bytes_and_tx_hash header_number tx_index);
  let '(tx_bytes, fetched_tx_hash) := fetched in
  if bool_decide (tx_bytes = []) then Err (EmptyBlockTxProof header_number)
  else if zlen tx_bytes <=? tx_index then Err (TxIndexOutOfBounds header_number tx_index (zlen tx_bytes))
  else
    let tree := default (mkTree []) (merkle_new tx_bytes) in
    match generate_proof tree (Z.to_nat tx_index) with
    | Err _ => Err MerkleFailure
    | Ok merkle_proof =>
        Ok (mkProofItem ck header_number (Some tx_index) fetched_tx_hash
          (tx_bytes !! Z.to_nat tx_index) merkle_proof (merkle_root tree))
    end.

(** ** Filling the Merkle cache *)

Definition fetch_and_cache_block (header_number : Height) : SM Z :=
  txs ← lift (map_err (fun e => map_eth_rpc_anyhow_to_service_error e header_number)
    (get_block_tx_data header_number));
  if bool_decide (txs = []) then
    modify (fun chain => chain <| merkle_proof_cache ::= mark_processed_empty header_number |>);;
    mret 0
  else
    n ← gets (fun chain => (insert_block header_number txs (merkle_proof_cache chain)).1);
    modify (fun chain => chain <| merkle_proof_cache ::= fun c => (insert_block header_number txs c).2 |>);;
    mret n.

(** One caller at a time: whoever comes second finds the block processed. *)
Definition fill_block_single_flight (header_number : Height) : SM Z :=
  processed ← gets (fun chain => bool_decide (header_number ∈ mc_processed_blocks (merkle_proof_cache chain)));
  if processed : bool then mret 0 else fetch_and_cache_block header_number.

Definition precompute_merkle_cache_block_for_tx (header_number : Height) (tx_index : Z)
    : SM (option MerkleProofItem) :=
  let cached := gets (fun chain =>
    get_by_block_index (ch_chain_key chain) header_number tx_index (merkle_proof_cache chain)) in
  item ← cached;
  match item with
  | Some item => mret (Some item)
  | None => fill_block_single_flight header_number;; cached
  end.

(** ** Requests *)

Definition single_response_from_merkle ck (continuity_proof : ContinuityProof) (merkle : MerkleProofItem)
    (cached : bool) : SingleContinuityResponse :=
  mkSingle ck (pi_header_number merkle) (default 0 (pi_tx_index merkle))
    ((fun h => with_0x (h256_bytes h)) <$> pi_tx_hash merkle) (with_0x <$> pi_tx_bytes merkle)
    continuity_proof (pi_merkle_proof merkle) cached.

Definition get_proof (left_first : bool) (header_number : Height) (tx_index : Z) : SM SingleContinuityResponse :=
  chain ← gets id;
  let ck := ch_chain_key chain in
  lift (validate_blocks [header_number] chain);;
  joined ← try_join left_first (lift (build_continuity [header_number] chain))
    (lift (generate_merkle_proof ck header_number tx_index));
  let '(continuity_proof, merkle) := joined in
  mret (mkSingle ck header_number tx_index ((fun h => with_0x (h256_bytes h)) <$> pi_tx_hash merkle)
    (with_0x <$> pi_tx_bytes merkle) continuity_proof (pi_merkle_proof merkle) false).

Definition get_proof_with_cached_merkle (merkle : MerkleProofItem) : SM SingleContinuityResponse :=
  if bool_decide (pi_tx_index merkle = None) then fail (Internal "cached merkle proof missing tx_index")
  else
    chain ← gets id;
    lift (validate_blocks [pi_header_number merkle] chain);;
    continuity_proof ← lift (build_continuity [pi_header_number merkle] chain);
    mret (single_response_from_merkle (ch_chain_key chain) continuity_proof merkle true).

(** The response's hash must be the requested one. *)
Definition check_tx_hash (tx_hash : H256) (response : SingleContinuityResponse)
    : Result ServiceError SingleContinuityResponse :=
  match sr_tx_hash response with
  | Some computed_hash =>
      parsed ← parse_tx_hash computed_hash;
      if parsed =? tx_hash then Ok response else Err (TxHashNotFound computed_hash)
  | None => Err (Internal "tx_hash missing from proof")
  end.

Definition get_proof_by_tx_hash (left_first : bool) (tx_hash : string) : SM SingleContinuityResponse :=
  tx_h256 ← lift (parse_tx_hash tx_hash);
  chain ← gets id;
  let ck := ch_chain_key chain in
  let by_hash := gets (fun chain => get_by_tx_hash ck tx_h256 (merkle_proof_cache chain)) in
  hit ← by_hash;
  match hit with
  | Some merkle =>
      response ← get_proof_with_cached_merkle merkle;
      lift (check_tx_hash tx_h256 response)
  | None =>
      position ← lift (get_height_and_index_for_tx_hash tx_h256);
      let '(header_number, tx_index) := position in
      lift (validate_blocks [header_number] chain);;
      joined ← try_join left_first (lift (build_continuity [header_number] chain))
        (precompute_merkle_cache_block_for_tx header_number tx_index);
      let '(continuity_proof, on_demand_merkle) := joined in
      by_tx_hash ← by_hash;
      by_index ← gets (fun chain => get_by_block_index ck header_number tx_index (merkle_proof_cache chain));
      let cached_merkle :=
        match on_demand_merkle with
        | Some m => Some m
        | None => match by_tx_hash with Some m => Some m | None => by_index end
        end in
      response ← match cached_merkle with
        | Some merkle => mret (single_response_from_merkle ck continuity_proof merkle true)
        | None =>
            merkle ← lift (generate_merkle_proof ck header_number tx_index);
            mret (single_response_from_merkle ck continuity_proof merkle false)
        end;
      lift (check_tx_hash tx_h256 response)
  end.

(** The queries' transactions with their proofs. *)
Definition merkle_results ck (queries : list ProofQuery)
    : Result ServiceError (list (Height * Z * BatchedMerkleProofEntry)) :=
  collect (fun '(header_number, tx_index) =>
      merkle ← generate_merkle_proof ck header_number tx_index;
      mret (header_number, tx_index, mkBatchEntry ((fun h => with_0x (h256_bytes h)) <$> pi_tx_hash merkle)
        (with_0x <$> pi_tx_bytes merkle) (pi_merkle_proof merkle)))
    (flat_map (fun q => map (pair (pq_header_number q)) (pq_tx_indexes q)) queries).

Definition group_proofs (results : list (Height * Z * BatchedMerkleProofEntry))
    : gmap Height (gmap Z BatchedMerkleProofEntry) :=
  foldl (fun m '(header_number, tx_index, entry) =>
    <[header_number := <[tx_index := entry]> (default ∅ (m !! header_number))]> m) ∅ results.

Definition get_proof_batch (max_batch_span : Z) (left_first : bool) (queries : list ProofQuery)
    : SM BatchedContinuityResponse :=
  chain ← gets id;
  let ck := ch_chain_key chain in
  let header_numbers := map pq_header_number queries in
  lift (validate_blocks header_numbers chain);;
  match least header_numbers, greatest header_numbers with
  | Some from_header, Some to_header =>
      let span := to_header - from_header in
      if max_batch_span <? span then fail (BatchSpanTooLarge from_header to_header span max_batch_span)
      else
        joined ← try_join left_first (lift (build_continuity header_numbers chain))
          (lift (merkle_results ck queries));
        let '(continuity_proof, results) := joined in
        mret (mkBatched ck from_header to_header continuity_proof (group_proofs results))
  | _, _ => fail Panicked
  end.

(** One query per block, in increasing order of height. *)
Definition queries_of (positions : list (Height * Z)) : list ProofQuery :=
  map (fun h => mkProofQuery h (map snd (filter (fun p => p.1 = h) positions))) (btree_set (map fst positions)).

Definition get_proof_batch_by_tx_hashes (max_batch_span : Z) (left_first : bool) (tx_hashes : list string)
    : SM BatchedContinuityResponse :=
  parsed_hashes ← lift (collect parse_tx_hash tx_hashes);
  positions ← lift (collect get_height_and_index_for_tx_hash parsed_hashes);
  get_proof_batch max_batch_span left_first (queries_of positions).

(** The route's limits, and one query per block with each index once. *)
Definition unique_queries (proof_queries : list ProofQuery) : list ProofQuery :=
  map (fun h => mkProofQuery h (btree_set (flat_map pq_tx_indexes
    (filter (fun q => pq_header_number q = h) proof_queries)))) (btree_set (map pq_header_number proof_queries)).

Definition route_get_proof_batch (max_batch_span : Z) (left_first : bool) (proof_queries : list ProofQuery)
    : SM BatchedContinuityResponse :=
  if bool_decide (proof_queries = []) then fail EmptyProofQueries
  else if 10 <? zlen proof_queries then fail TooManyProofQueries
  else if existsb (fun q => 10 <? zlen (pq_tx_indexes q)) proof_queries then fail TooManyTxQueriesInProofQuery
  else get_proof_batch max_batch_span left_first (unique_queries proof_queries).

Definition route_get_proof_batch_by_tx_hash (max_batch_span : Z) (left_first : bool) (tx_hashes : list string)
    : SM BatchedContinuityResponse :=
  if bool_decide (tx_hashes = []) then fail EmptyTxHashes
  else if 100 <? zlen tx_hashes then fail TooManyTxHashes
  else get_proof_batch_by_tx_hashes max_batch_span left_first (elements (list_to_set tx_hashes : gset string)).

(** ** Backfill *)

Definition backfill_merkle_cache_for_chain : SM unit :=
  chain ← gets id;
  match cached_attested_height chain with
  | None => mret tt
  | Some cache_tip =>
      let start := Z.max (saturating_sub cache_tip (merkle_cache_retention_blocks chain))
        (attestation_genesis_block chain) in
      if cache_tip <? start then mret tt
      else
        modify (fun chain => chain <| merkle_proof_cache ::= prune_below start |>);;
        heights ← gets (fun chain => unprocessed_heights_desc start cache_tip
          MERKLE_BACKFILL_MAX_BLOCKS_PER_TICK (merkle_proof_cache chain));
        for_each (fun height => attempt (fill_block_single_flight height);; mret tt) heights
  end.
End Service.
