(* ===== verification/Serving.v ===== *)
(** * Served proofs verify

    The proof server against the block prover: whatever it answers from caches
    whose entries the chain still holds, over a provider that describes one source
    chain, the prover accepts; and it answers whenever the caches bound the query
    and the source agrees with them. *)

From stdpp Require Import prelude gmap list sorting strings.
From Stdlib Require Import ZArith Lia Ascii.
From S2P Require Import Prelude Primitives Merkle Frame SupportedChains Types History BlockProver Inclusion.
From S2P Require Import Randomness Pallet Runtime Concrete Guarantees ProofSource MerkleCache ServerState ProofService.

(** ** Hexadecimal *)

Definition is_byte (b : Z) : Prop := 0 <= b < 256.

#[export] Instance is_byte_dec b : Decision (is_byte b).
Proof. unfold is_byte. apply _. Defined.

Lemma hex_digits n : 0 <= n < 16 -> hex_value (hex_digit n) = Some n /\ hex_digit n <> "x"%char.
Proof.
  intros Hn. assert (n ∈ seqZ 0 16) as Hin by (apply elem_of_seqZ; lia).
  assert (Forall (fun n => hex_value (hex_digit n) = Some n /\ hex_digit n <> "x"%char) (seqZ 0 16)) as Hall
    by decide_now.
  rewrite Forall_forall in Hall. by apply Hall.
Qed.

Lemma hex_decode_encode bytes : Forall is_byte bytes -> hex_decode (hex_encode bytes) = Some bytes.
Proof.
  induction 1 as [|b bytes Hb _ IH]; [done|]. unfold is_byte in Hb. cbn [hex_encode hex_decode].
  assert (0 <= b / 16 < 16) by (split; [apply Z.div_pos; lia|apply Z.div_lt_upper_bound; lia]).
  pose proof (Z.mod_pos_bound b 16 ltac:(lia)).
  rewrite (proj1 (hex_digits (b / 16) ltac:(lia))), (proj1 (hex_digits (b mod 16) ltac:(lia))). cbn.
  rewrite IH. cbn. do 2 f_equal. rewrite (Z.div_mod b 16) at 3 by lia. lia.
Qed.

Lemma trim_hex bytes : Forall is_byte bytes -> trim_0x (hex_encode bytes) = hex_encode bytes.
Proof.
  intros [|b l Hb _]; [done|]. cbn [hex_encode trim_0x].
  destruct (Ascii.eqb_spec (hex_digit (b mod 16)) "x") as [He|]; [|by rewrite andb_false_r].
  pose proof (Z.mod_pos_bound b 16 ltac:(lia)). by apply (hex_digits (b mod 16)) in He.
Qed.

Lemma to_be_bytes_spec n z :
  0 <= z < 256 ^ Z.of_nat n -> Forall is_byte (to_be_bytes n z) /\ of_be_bytes (to_be_bytes n z) = z.
Proof.
  unfold of_be_bytes, to_be_bytes. revert z. induction n as [|n IH]; intros z Hz.
  { change (rev (to_le_bytes 0 z)) with (@nil Z). change (256 ^ Z.of_nat 0) with 1 in Hz.
    split; [constructor|cbn; lia]. }
  rewrite Nat2Z.inj_succ, Z.pow_succ_r in Hz by lia.
  destruct (IH (z / 256)) as [Hb Hv].
  { split; [apply Z.div_pos; lia|]. apply Z.div_lt_upper_bound; lia. }
  change (to_le_bytes (S n) z) with (z mod 256 :: to_le_bytes n (z / 256)). cbn [rev]. rewrite foldl_app, Hv.
  split.
  - apply Forall_app. split; [done|]. repeat constructor; apply Z.mod_pos_bound; lia.
  - cbn. rewrite (Z.div_mod z 256) at 3 by lia. lia.
Qed.

(** The bytes of a transaction are recovered from the string they are served as,
    and a transaction hash from its string, with or without the prefix. *)
Lemma hex_roundtrip :
  (forall bytes, Forall is_byte bytes -> hex_decode (trim_0x (with_0x bytes)) = Some bytes) /\
  (forall hash, is_h256 hash ->
     parse_tx_hash (with_0x (h256_bytes hash)) = Ok hash /\ parse_tx_hash (hex_encode (h256_bytes hash)) = Ok hash).
Proof.
  assert (forall bytes, Forall is_byte bytes -> hex_decode (trim_0x (hex_encode bytes)) = Some bytes) as Hhex
    by (intros bytes Hb; rewrite trim_hex by done; by apply hex_decode_encode).
  split; [exact Hhex|]. intros hash Hh. destruct (to_be_bytes_spec 32 hash Hh) as [Hb Hv].
  assert (parse_tx_hash (hex_encode (h256_bytes hash)) = Ok hash) as Hp; [|by split].
  unfold parse_tx_hash. rewrite Hhex by done. unfold zlen. rewrite length_h256_bytes. cbn. by f_equal.
Qed.

(** ** Linked blocks *)

Section Linked.
Context `{Keccak}.

Lemma linked_digest start d bs :
  linked start d bs -> continuity_digest_loop start 0 d (map b_root bs) = tip_digest d bs.
Proof.
  induction bs as [|b bs IH] using rev_ind; [done|]. rewrite linked_snoc. intros [Hl (Hn & _ & Hd & _)].
  rewrite map_app, continuity_digest_loop_app, IH, tip_digest_snoc by done. cbn. unfold chain_step. cbn.
  rewrite Hd, Hn, length_map. done.
Qed.

Lemma linked_app start d l1 l2 :
  linked start d (l1 ++ l2) -> linked start d l1 /\ linked (start + zlen l1) (tip_digest d l1) l2.
Proof.
  induction l2 as [|b l2 IH] using rev_ind; [by rewrite app_nil_r|]. rewrite app_assoc, !linked_snoc.
  intros [[H1 H2]%IH Hb]. split; [done|]. split; [done|].
  replace (start + zlen l1 + zlen l2) with (start + zlen (l1 ++ l2)) by (rewrite zlen_app; lia).
  replace (tip_digest (tip_digest d l1) l2) with (tip_digest d (l1 ++ l2)); [done|].
  unfold tip_digest. rewrite last_app. by destruct (last l2).
Qed.

Lemma linked_numbers start d bs :
  linked start d bs -> 0 <= start -> start + zlen bs <= 2 ^ 64 -> map b_block_number bs = seqZ start (zlen bs).
Proof.
  revert start d. induction bs as [|b bs IH]; intros start d; [done|]. intros (Hn & _ & _ & Hl) Hs Hmax.
  rewrite zlen_cons in *. pose proof (zlen_nonneg bs). rewrite seqZ_cons by lia. cbn [map]. f_equal.
  - rewrite Hn, wrap_small; lia.
  - rewrite (IH _ _ Hl) by lia. f_equal; lia.
Qed.
End Linked.

(** A list of increasing numbers splits at [q]. *)
Lemma split_at q start (bs : list Block) :
  map b_block_number bs = seqZ start (zlen bs) ->
  take_while (fun b => b_block_number b <? q) bs = take (Z.to_nat (q - start)) bs /\
  filter (fun b => q <= b_block_number b) bs = drop (Z.to_nat (q - start)) bs.
Proof.
  revert start. induction bs as [|b bs IH]; intros start Hn; [by rewrite take_nil, drop_nil|].
  rewrite zlen_cons in Hn. pose proof (zlen_nonneg bs). rewrite seqZ_cons in Hn by lia. injection Hn as Hb Hn.
  destruct (IH (start + 1)) as [H1 H2]; [rewrite Hn; f_equal; lia|]. cbn [take_while]. rewrite filter_cons.
  destruct (Z.ltb_spec (b_block_number b) q) as [Hlt|Hge].
  - replace (Z.to_nat (q - start)) with (S (Z.to_nat (q - (start + 1)))) by lia. cbn [take drop].
    rewrite decide_False by lia. by rewrite H1, H2.
  - replace (Z.to_nat (q - start)) with 0%nat by lia. rewrite decide_True by lia.
    replace (Z.to_nat (q - (start + 1))) with 0%nat in H2 by lia. by rewrite H2.
Qed.

(** The numbers are distinct: the block found at the last number is the last. *)
Lemma find_last start (bs : list Block) b :
  map b_block_number bs = seqZ start (zlen bs) ->
  List.find (fun b => b_block_number b =? start + zlen bs - 1) bs = Some b -> last bs = Some b.
Proof.
  intros Hn [Hin Hb]%List.find_some. apply list_elem_of_In, list_elem_of_lookup in Hin as [i Hi].
  apply Z.eqb_eq in Hb. assert (map b_block_number bs !! i = Some (b_block_number b)) as Hm
    by (by rewrite list_lookup_fmap, Hi).
  rewrite Hn in Hm. apply lookup_seqZ in Hm as [Hm _]. rewrite last_lookup.
  assert (i = pred (length bs)) as ->; [|done]. pose proof (lookup_lt_Some _ _ _ Hi). unfold zlen in *. lia.
Qed.

(** ** Answers *)

Section Answers.
Context `{Keccak} {P : EthRpcProvider} `{!SourceChain P}.
Implicit Types (chain : ChainState).

(** The proof between two boundaries: the source's roots from the query to the
    upper boundary, ending in the digest there. *)
Lemma built_proof q lower ld upper ud p :
  0 <= lower < q -> q <= upper -> upper < 2 ^ 64 ->
  build_proof_from_roots q lower ld upper ud = Ok p ->
  roots p = map (fun n => items_root (block_items n)) (seqZ q (upper - q + 1)) /\
  compute_continuity_digest p q = ud.
Proof.
  intros Hlo Hq Hup Hrun. unfold build_proof_from_roots, mbind, Result_bind in Hrun.
  destruct (build_continuity_blocks _ _ _) as [bs|] eqn:Hb; [|done]. cbn [map_err] in Hrun.
  apply build_sound in Hb as [Hl Hr]; [|lia..]. replace (upper - (lower + 1) + 1) with (upper - lower) in Hr by lia.
  assert (zlen bs = upper - lower) as Hlen.
  { unfold zlen. rewrite <- (length_map b_root), Hr, length_map, length_seqZ. lia. }
  pose proof (linked_numbers _ _ _ Hl ltac:(lia) ltac:(lia)) as Hn.
  destruct (List.find _ bs) as [b|] eqn:Hfind; [|done].
  replace upper with (lower + 1 + zlen bs - 1) in Hfind by lia. apply find_last in Hfind as Hlast; [|done].
  destruct (Z.eqb_spec (b_digest b) ud) as [<-|]; [|done]. cbn [negb] in Hrun. injection Hrun as <-.
  destruct (split_at q (lower + 1) bs Hn) as [-> ->]. set (k := Z.to_nat (q - (lower + 1))).
  assert (default ld (b_digest <$> last (take k bs)) = tip_digest ld (take k bs)) as ->.
  { unfold tip_digest. by destruct (last (take k bs)). }
  rewrite <- (take_drop k bs) in Hl. apply linked_app in Hl as [_ Hl].
  assert (zlen (take k bs) = q - (lower + 1)) as Hk.
  { unfold zlen, k in *. rewrite length_take. lia. }
  rewrite Hk in Hl. replace (lower + 1 + (q - (lower + 1))) with q in Hl by lia. cbn [roots]. split.
  - rewrite fmap_drop. change (b_root <$> bs) with (map b_root bs). rewrite Hr.
    replace (upper - lower) with (q - (lower + 1) + (upper - q + 1)) by lia. rewrite seqZ_app by lia.
    replace (lower + 1 + (q - (lower + 1))) with q by lia. rewrite map_app, drop_app_length'; [done|].
    by rewrite length_map, length_seqZ.
  - unfold compute_continuity_digest. cbn [roots lower_endpoint_digest].
    change (b_root <$> drop k bs) with (map b_root (drop k bs)). rewrite (linked_digest _ _ _ Hl). unfold tip_digest at 1.
    rewrite <- (take_drop k bs), last_app in Hlast. destruct (last (drop k bs)) as [x|] eqn:Hx; [by injection Hlast as ->|].
    apply last_None, (f_equal length) in Hx. rewrite length_drop in Hx. cbn in Hx. unfold zlen, k in *. lia.
Qed.

(** An entry of one of the caches. *)
Definition cached chain (h : Height) (d : Digest) : Prop :=
  attestation_cache chain !! h = Some d \/ checkpoint_cache chain !! h = Some d.

Lemma bracket_some lower upper lo ld up ud :
  bracket lower upper = Some (lo, ld, up, ud) -> lower = Some (lo, ld) /\ upper = Some (up, ud).
Proof. unfold bracket. destruct lower as [[? ?]|]; [|done]. destruct upper as [[? ?]|]; [|done]. by intros [= <- <- <- <-]. Qed.

Lemma bracket_is_some lower upper : is_Some lower -> is_Some upper -> is_Some (bracket lower upper).
Proof. intros [[? ?] ->] [[? ?] ->]. by eexists. Qed.

(** The boundaries found are cached, on the two sides of the query. *)
Lemma boundaries_sound chain lo hi l ld u ud :
  cached_boundaries chain lo hi = Some (l, ld, u, ud) ->
  cached chain l ld /\ l < lo /\ cached chain u ud /\ hi <= u.
Proof.
  intros Hb. unfold cached_boundaries, get_attestation_boundaries, get_checkpoint_boundaries, get_mixed_boundaries in Hb.
  assert (exists (lower upper : gmap Height Digest), bracket (entry_below lower lo) (entry_from upper hi) = Some (l, ld, u, ud) /\
    (lower = attestation_cache chain \/ lower = checkpoint_cache chain) /\
    (upper = attestation_cache chain \/ upper = checkpoint_cache chain)) as (lower & upper & Hbr & Hl & Hu).
  { repeat case_match; simplify_eq; eauto 10. }
  apply bracket_some in Hbr as [(H1 & H2 & _)%entry_below_some (H3 & H4 & _)%entry_from_some].
  unfold cached. split_and!; [|done| |done]; naive_solver.
Qed.

(** And they are found whenever there are entries on both sides. *)
Lemma boundaries_complete chain lo hi l ld u ud :
  cached chain l ld -> l < lo -> cached chain u ud -> hi <= u -> is_Some (cached_boundaries chain lo hi).
Proof.
  assert (forall m : gmap Height Digest, m !! l = Some ld -> l < lo -> is_Some (entry_below m lo)) as Hbelow
    by (intros m Hm Hlt; by apply (entry_below_is_some m lo l)).
  assert (forall m : gmap Height Digest, m !! u = Some ud -> hi <= u -> is_Some (entry_from m hi)) as Hfrom
    by (intros m Hm Hlt; by apply (entry_from_is_some m hi u)).
  unfold cached_boundaries, get_attestation_boundaries, get_checkpoint_boundaries, get_mixed_boundaries.
  intros [Hl|Hl] Hlo [Hu|Hu] Hhi; apply Hbelow in Hl; apply Hfrom in Hu; try done;
    pose proof (bracket_is_some _ _ Hl Hu) as Hb; repeat case_match; try done; try (by eexists);
    by apply is_Some_None in Hb.
Qed.

Lemma least_greatest (l : list Z) lo hi :
  least l = Some lo -> greatest l = Some hi -> lo ∈ l /\ hi ∈ l /\ forall x, x ∈ l -> lo <= x <= hi.
Proof.
  unfold least, greatest. intros Hlo Hhi.
  assert (StronglySorted Z.le (btree_set l)) as Hs by apply (StronglySorted_merge_sort Z.le).
  split_and!; [by apply elem_of_btree_set, head_Some_elem_of|by apply elem_of_btree_set, last_Some_elem_of|].
  intros x Hx%elem_of_btree_set. split; [by eapply sorted_head|by eapply sorted_last].
Qed.

(** The heights a chain's state holds are u64. *)
Definition chain_typed chain : Prop :=
  is_u64 (attestation_genesis_block chain) /\ forall h d, cached chain h d -> is_u64 h.

(** What an answer to [build_continuity] is. *)
Lemma continuity_answer hs lo hi chain p :
  chain_typed chain -> least hs = Some lo -> greatest hs = Some hi -> build_continuity hs chain = Ok p ->
  exists upper ud, cached chain upper ud /\ hi <= upper /\
    roots p = map (fun n => items_root (block_items n)) (seqZ lo (upper - lo + 1)) /\
    compute_continuity_digest p lo = ud.
Proof.
  intros [_ Ht] Hlo Hhi. unfold build_continuity. rewrite Hlo, Hhi.
  destruct (cached_boundaries chain lo hi) as [[[[l ld] u] ud]|] eqn:Hb; [|done].
  apply boundaries_sound in Hb as (Hl & Hlt & Hu & Hle). pose proof (Ht _ _ Hl) as [? ?]. pose proof (Ht _ _ Hu) as [? ?].
  destruct (least_greatest hs lo hi Hlo Hhi) as (_ & Hin & Hall). apply Hall in Hin.
  intros [Hr Hd]%built_proof; [|lia..]. by exists u, ud.
Qed.

(** Items of the source's blocks. *)
Definition sourced (n : Height) (txs : list (H256 * list Z)) : Prop := txs = block_items n.

Lemma merkle_answer ck n i item :
  0 <= i -> generate_merkle_proof ck n i = Ok item ->
  proves_item sourced ck item /\ pi_header_number item = n /\ pi_tx_index item = Some i.
Proof.
  intros Hi. unfold generate_merkle_proof, mbind, Result_bind.
  destruct (get_block_tx_bytes_and_tx_hash n i) as [[bytes hash]|] eqn:Hget; [|done]. cbn [map_err].
  apply tx_bytes_sound in Hget as [-> ->]. case_bool_decide; [done|].
  destruct (Z.leb_spec (zlen (map snd (block_items n))) i) as [|Hlt]; [done|].
  destruct (merkle_new_total (map snd (block_items n))) as [t Ht]. rewrite Ht. change (default (mkTree []) (Some t)) with t.
  unfold zlen in Hlt. rewrite length_map in Hlt.
  destruct (lookup_lt_is_Some_2 (block_items n) (Z.to_nat i)) as [[h tx] Htx]; [lia|].
  destruct (generated_proofs _ _ Ht) as [Hgen _].
  destruct (Hgen (Z.to_nat i) tx) as (p & -> & Hroot & Hv & Hp); [by rewrite list_lookup_fmap, Htx|].
  assert (merkle_root t = items_root (block_items n)) as Hr by (unfold items_root; by rewrite Ht).
  intros [= <-]. split; [|done]. exists (block_items n), (Z.to_nat i), h, tx. cbn.
  rewrite list_lookup_fmap, Htx, Z2Nat.id in * by lia. split_and!; try done; congruence.
Qed.
End Answers.

(** ** Verification *)

Section Serving.
Context {C H : Type} `{Keccak} `{Arch} `{HL : HandleLaws H} `{Ethabi} {P : EthRpcProvider} `{!SourceChain P}.
Implicit Types (sc : ScState (State C)) (chain : ChainState).

(** The chain still holds what is cached. *)
Definition caches_anchored sc chain : Prop :=
  forall h d, cached chain h d -> anchored sc (ch_chain_key chain) h d = true.

(** The prover accepts the transaction, given the gas and a proof within its
    maximum. *)
Definition accepted sc ck (n : Height) (tx : list Z) (mp : TransactionMerkleProof) (p : ContinuityProof) : Prop :=
  forall h : H, tx <> [] -> zlen (roots p) <= MAX_CONTINUITY_ROOTS ->
    merkle_gas mp + CONTINUITY_BLOCK_HASH_COST * zlen (roots p) + 5 * GAS_STORAGE_LOOKUP <= gas_left h ->
    gas_left h <= umax 64 -> exists h', verify sc ck n tx mp p h = (Ok true, h').

(** A response for a transaction of the source chain that the prover accepts. *)
Definition good_response sc (r : SingleContinuityResponse) : Prop :=
  exists hash tx, block_items (sr_header_number r) !! Z.to_nat (sr_tx_index r) = Some (hash, tx) /\
    sr_tx_hash r = Some (with_0x (h256_bytes hash)) /\ sr_tx_bytes r = Some (with_0x tx) /\
    path_index (mp_siblings (sr_merkle_proof r)) = sr_tx_index r /\
    accepted sc (sr_chain_key r) (sr_header_number r) tx (sr_merkle_proof r) (sr_continuity_proof r).

Lemma singleton_range n : least [n] = Some n /\ greatest [n] = Some n.
Proof. done. Qed.

Lemma answer_verifies sc chain n tx mp p :
  chain_typed chain -> caches_anchored sc chain -> 0 <= n -> build_continuity [n] chain = Ok p ->
  mp_root mp = items_root (block_items n) -> merkle_verify mp tx = true ->
  accepted sc (ch_chain_key chain) n tx mp p.
Proof.
  intros Ht Ha Hn Hrun Hroot Hv h Htx Hmax Hg Hu.
  destruct (continuity_answer [n] n n chain p Ht) as (upper & ud & Hc & Hle & Hr & Hd); [done..|].
  pose proof (proj2 Ht _ _ Hc) as [_ Hup]. rewrite pow2_64 in Hup.
  assert (zlen (roots p) = upper - n + 1) as Hlen.
  { rewrite Hr. unfold zlen. rewrite length_map, length_seqZ. lia. }
  rewrite Hlen in *. unfold MAX_CONTINUITY_ROOTS in *.
  apply (proof_verifies sc _ n upper); try done; [rewrite umax_64; lia|unfold MAX_CONTINUITY_ROOTS; lia| |].
  - rewrite Hd. by apply Ha.
  - rewrite Hr, seqZ_cons by lia. cbn. by rewrite Hroot.
Qed.

Lemma item_response sc chain item p cached_flag :
  chain_typed chain -> caches_anchored sc chain -> 0 <= pi_header_number item ->
  build_continuity [pi_header_number item] chain = Ok p -> proves_item sourced (ch_chain_key chain) item ->
  good_response sc (single_response_from_merkle (ch_chain_key chain) p item cached_flag).
Proof.
  intros Ht Ha Hn Hrun (txs & i & hash & tx & Htxs & Hi & _ & Hidx & Hh & Hb & _ & Hroot & Hv & Hp).
  unfold sourced in Htxs. subst txs. exists hash, tx. unfold single_response_from_merkle. cbn. rewrite Hidx, Hh, Hb. cbn. rewrite Nat2Z.id.
  split_and!; try done. by apply answer_verifies.
Qed.

(** Validated heights lie above the genesis. *)
Lemma validated hs chain latest :
  chain_typed chain -> validate_blocks hs chain = Ok latest ->
  cached_attested_height chain = Some latest /\ forall n, n ∈ hs -> 0 < n <= latest.
Proof.
  intros [[Hg _] _]. unfold validate_blocks. cbv zeta. destruct (List.find _ hs) eqn:Hf1; [done|].
  destruct (cached_attested_height chain) as [l|]; [|done]. destruct (List.find (fun h => l <? h) hs) eqn:Hf2; [done|].
  intros [= <-]. split; [done|]. intros n Hn%list_elem_of_In.
  pose proof (List.find_none _ _ Hf1 n Hn) as Ha%Z.leb_gt. pose proof (List.find_none _ _ Hf2 n Hn) as Hb%Z.ltb_ge. lia.
Qed.

(** The first of two joined futures reads, whichever finishes first. *)
Lemma try_join_ok {A B} left_first (l : Result ServiceError A) (r : SM B) chain x chain' :
  try_join left_first (lift l) r chain = (Ok x, chain') -> l = Ok x.1 /\ r chain = (Ok x.2, chain').
Proof. unfold try_join. destruct left_first; intros Hrun; run_inv; done. Qed.

Lemma get_proof_answer sc chain left_first n i r chain' :
  chain_typed chain -> caches_anchored sc chain -> 0 <= i ->
  get_proof left_first n i chain = (Ok r, chain') ->
  chain' = chain /\ sr_header_number r = n /\ sr_tx_index r = i /\ sr_chain_key r = ch_chain_key chain /\
  good_response sc r.
Proof.
  intros Ht Ha Hi Hrun. unfold get_proof in Hrun. run_inv. unfold id in *.
  apply validated in Hlift as [_ Hn]; [|done]. specialize (Hn n ltac:(by left)).
  destruct a1 as [p item]. apply try_join_ok in Hrun1 as [Hp Hm]. cbn [fst snd] in Hp, Hm. run_inv.
  apply merkle_answer in Hlift as (Hpr & Hh & Hidx); [|done]. rewrite <- Hh in Hp.
  destruct (item_response sc chain item p false Ht Ha) as (hash & tx & Hgood); [lia|done|done|].
  split_and!; try done. exists hash, tx. unfold single_response_from_merkle in Hgood. cbn in *.
  rewrite Hidx, Hh in Hgood. exact Hgood.
Qed.

(** ** By transaction hash *)

(** The Merkle cache holds blocks of the source. *)
Definition merkle_sourced chain : Prop := cache_ok sourced (merkle_proof_cache chain).

Lemma fill_sourced n chain r chain' :
  fill_block_single_flight n chain = (r, chain') -> merkle_sourced chain ->
  merkle_sourced chain' /\ ch_chain_key chain' = ch_chain_key chain.
Proof.
  intros Hrun Hc. split; [|by left_alone ch_chain_key Hrun Heq].
  unfold fill_block_single_flight in Hrun. rewrite run_gets in Hrun.
  case_bool_decide; [by injection Hrun as _ <-|]. unfold fetch_and_cache_block in Hrun.
  destruct (get_block_tx_data n) as [txs|] eqn:Htxs; [|by injection Hrun as _ <-].
  apply tx_data_sound in Htxs. rewrite (run_lift _ txs) in Hrun by done.
  case_bool_decide as Hne; injection Hrun as _ <-.
  - by apply mark_empty_ok.
  - by apply fill_ok.
Qed.

Lemma precompute_sourced n i chain o chain' :
  0 <= i -> precompute_merkle_cache_block_for_tx n i chain = (Ok o, chain') -> merkle_sourced chain ->
  merkle_sourced chain' /\ forall item, o = Some item ->
    proves_item sourced (ch_chain_key chain) item /\ pi_header_number item = n.
Proof.
  intros Hi Hrun Hc. unfold precompute_merkle_cache_block_for_tx in Hrun. rewrite run_gets in Hrun.
  destruct (get_by_block_index _ _ _ _) as [x|] eqn:Hx.
  - run_inv. split; [done|]. intros item [= ->].
    destruct (lookups_sound _ _ Hc) as [_ Hl]. by apply Hl in Hx as (? & ? & _).
  - apply bind_ok in Hrun as (z & c1 & Hfill & Hrun). apply fill_sourced in Hfill as [Hc1 Hk]; [|done].
    run_inv. split; [done|]. intros item Hitem. rewrite Hk in Hitem.
    destruct (lookups_sound _ _ Hc1) as [_ Hl]. by apply Hl in Hitem as (? & ? & _).
Qed.

Lemma check_tx_hash_ok x r r' :
  check_tx_hash x r = Ok r' -> r' = r /\ exists hash, sr_tx_hash r = Some hash /\ parse_tx_hash hash = Ok x.
Proof.
  unfold check_tx_hash. destruct (sr_tx_hash r) as [hash|]; [|done]. unfold mbind, Result_bind.
  destruct (parse_tx_hash hash) as [y|] eqn:Hp; [|done]. destruct (Z.eqb_spec y x) as [->|]; [|done].
  intros [= <-]. eauto.
Qed.

(** A hash names one transaction. *)
Definition unique_hashes : Prop :=
  forall x n m i j t u, block_items n !! i = Some (x, t) -> block_items m !! j = Some (x, u) -> n = m.

(** Wherever the Merkle proof of a position comes from, it proves the item there. *)
Lemma candidates_prove chain ck n i x tx item :
  merkle_sourced chain -> unique_hashes -> 0 <= i -> block_items n !! Z.to_nat i = Some (x, tx) ->
  get_by_tx_hash ck x (merkle_proof_cache chain) = Some item \/
  get_by_block_index ck n i (merkle_proof_cache chain) = Some item \/ generate_merkle_proof ck n i = Ok item ->
  proves_item sourced ck item /\ pi_header_number item = n.
Proof.
  intros Hc Huniq Hi Htx. destruct (lookups_sound _ _ Hc) as [Hl1 Hl2]. intros [Hx|[Hx|Hx]].
  - apply Hl1 in Hx as [Hpi Hhx]. split; [done|].
    destruct Hpi as (txs & k & hx & bs & Htxs & Hk & _ & _ & Hhx' & _). unfold sourced in Htxs. subst txs.
    rewrite Hhx in Hhx'. injection Hhx' as <-. by eapply Huniq.
  - by apply Hl2 in Hx as (Hpi & Hhn & _).
  - by apply merkle_answer in Hx as (Hpi & Hhn & _).
Qed.

Lemma by_tx_hash_answer sc chain left_first tx_hash r chain' :
  chain_typed chain -> caches_anchored sc chain -> merkle_sourced chain -> unique_hashes ->
  get_proof_by_tx_hash left_first tx_hash chain = (Ok r, chain') ->
  good_response sc r /\ merkle_sourced chain' /\
  exists x hash, parse_tx_hash tx_hash = Ok x /\ sr_tx_hash r = Some hash /\ parse_tx_hash hash = Ok x.
Proof.
  intros Ht Ha Hc Huniq Hrun. unfold get_proof_by_tx_hash in Hrun.
  apply bind_ok in Hrun as (x & c0 & [Hx ->]%lift_ok & Hrun). rewrite run_gets in Hrun. unfold id in Hrun.
  rewrite run_gets in Hrun. destruct (get_by_tx_hash _ _ _) as [item|] eqn:Hhit.
  - apply bind_ok in Hrun as (r0 & c1 & Hresp & [Hchk ->]%lift_ok).
    apply check_tx_hash_ok in Hchk as [-> (hash & Hh & Hp)].
    destruct (lookups_sound _ _ Hc) as [Hl _]. apply Hl in Hhit as [Hitem _].
    unfold get_proof_with_cached_merkle in Hresp. case_bool_decide; [done|]. run_inv. unfold id in *.
    apply validated in Hlift0 as [_ Hn]; [|done]. specialize (Hn _ ltac:(by left)).
    split_and!; [|done|eauto]. apply item_response; try done. lia.
  - apply bind_ok in Hrun as ([n i] & c0 & [Hpos ->]%lift_ok & Hrun).
    unfold get_height_and_index_for_tx_hash in Hpos.
    destruct (get_tx_position_by_hash x) as [[[n' i']|]|] eqn:Hget; [|done..]. injection Hpos as -> ->.
    apply position_sound in Hget as (_ & [Hi _] & tx & Htx).
    apply bind_ok in Hrun as (latest & c0 & [Hval ->]%lift_ok & Hrun).
    apply validated in Hval as [_ Hn]; [|done]. specialize (Hn n ltac:(by left)).
    apply bind_ok in Hrun as ([p o] & c1 & [Hp Hpre]%try_join_ok & Hrun). cbn [fst snd] in Hp, Hpre.
    apply precompute_sourced in Hpre as [Hc1 Ho]; [|done|done].
    rewrite !run_gets in Hrun. apply bind_ok in Hrun as (r0 & c2 & Hresp & [Hchk ->]%lift_ok).
    apply check_tx_hash_ok in Hchk as [-> (hash & Hh & Hpr)].
    assert (forall item flag, proves_item sourced (ch_chain_key chain) item /\ pi_header_number item = n ->
      good_response sc (single_response_from_merkle (ch_chain_key chain) p item flag)) as Hitem
      by (intros item flag [Hpi Hhn]; apply item_response; try done; [lia|congruence]).
    pose proof (candidates_prove c1 (ch_chain_key chain) n i x tx) as Hcand.
    assert (good_response sc r0 /\ c2 = c1) as [Hgood ->]; [|split_and!; eauto].
    repeat case_match; run_inv; split; try done; apply Hitem; first [by apply Ho|eapply Hcand; eauto].
Qed.

(** ** Batches *)

(** The entry of a response for a transaction. *)
Definition entry (m : gmap Height (gmap Z BatchedMerkleProofEntry)) (n : Height) (i : Z)
    : option BatchedMerkleProofEntry := m !! n ≫= (fun es => es !! i).

Lemma group_proofs_snoc rs n i e n' i' :
  entry (group_proofs (rs ++ [(n, i, e)])) n' i' =
  if bool_decide (n = n' /\ i = i') then Some e else entry (group_proofs rs) n' i'.
Proof.
  unfold group_proofs. rewrite foldl_app. cbn [foldl]. fold (group_proofs rs). unfold entry.
  destruct (decide (n = n')) as [->|Hn].
  - rewrite lookup_insert_eq. cbn. destruct (decide (i = i')) as [->|Hi].
    + by rewrite lookup_insert_eq, bool_decide_eq_true_2.
    + rewrite lookup_insert_ne, bool_decide_eq_false_2 by naive_solver.
      destruct (group_proofs rs !! n') eqn:Hg; cbn; [done|apply lookup_empty].
  - rewrite lookup_insert_ne, bool_decide_eq_false_2 by naive_solver. done.
Qed.

Lemma group_proofs_entries rs :
  (forall n i e, entry (group_proofs rs) n i = Some e -> (n, i, e) ∈ rs) /\
  (forall n i e, (n, i, e) ∈ rs -> is_Some (entry (group_proofs rs) n i)).
Proof.
  induction rs as [|[[n i] e] rs [IH1 IH2]] using rev_ind.
  { split; [done|]. intros n i e Hin. by apply elem_of_nil in Hin. }
  split; intros n' i' e'; rewrite group_proofs_snoc; case_bool_decide as Hd.
  - destruct Hd as [-> ->]. intros [= <-]. apply elem_of_app. right. by left.
  - intros Hin%IH1. apply elem_of_app. by left.
  - intros _. by eexists.
  - rewrite elem_of_app, list_elem_of_singleton. intros [Hin%IH2|[= -> -> ->]]; [done|]. by destruct Hd.
Qed.

(** What is in a response: a transaction of the source with its Merkle proof. *)
Definition batch_entry (r : BatchedContinuityResponse) (n : Height) (tx : list Z) (mp : TransactionMerkleProof) : Prop :=
  exists i e hash, entry (br_merkle_proofs r) n i = Some e /\ block_items n !! Z.to_nat i = Some (hash, tx) /\
    be_tx_hash e = Some (with_0x (h256_bytes hash)) /\ be_tx_bytes e = Some (with_0x tx) /\ be_merkle_proof e = mp /\
    path_index (mp_siblings mp) = i /\ mp_root mp = items_root (block_items n) /\ merkle_verify mp tx = true.

Lemma merkle_results_ok ck queries rs :
  (forall q, q ∈ queries -> Forall is_u64 (pq_tx_indexes q)) -> merkle_results ck queries = Ok rs ->
  (forall q i, q ∈ queries -> i ∈ pq_tx_indexes q -> exists e, (pq_header_number q, i, e) ∈ rs) /\
  (forall n i e, (n, i, e) ∈ rs -> n ∈ map pq_header_number queries /\ exists item, generate_merkle_proof ck n i = Ok item /\
     0 <= i /\ e = mkBatchEntry ((fun h => with_0x (h256_bytes h)) <$> pi_tx_hash item)
       (with_0x <$> pi_tx_bytes item) (pi_merkle_proof item)).
Proof.
  intros Hu Hrun%collect_ok. split.
  - intros q i Hq Hi. assert ((pq_header_number q, i) ∈ flat_map (fun q => map (pair (pq_header_number q)) (pq_tx_indexes q)) queries) as Hin.
    { apply list_elem_of_In, in_flat_map. exists q. split; [by apply list_elem_of_In|].
      by apply in_map, list_elem_of_In. }
    apply list_elem_of_lookup in Hin as [k Hk]. destruct (Forall2_lookup_l _ _ _ _ _ Hrun Hk) as (y & Hy & Hf).
    cbn in Hf. unfold mbind, Result_bind in Hf. destruct (generate_merkle_proof _ _ _) as [item|]; [|done].
    injection Hf as <-. eexists. by eapply list_elem_of_lookup_2.
  - intros n i e [k Hk]%list_elem_of_lookup. destruct (Forall2_lookup_r _ _ _ _ _ Hrun Hk) as ([n' i'] & Hy & Hf).
    cbn in Hf. unfold mbind, Result_bind in Hf. destruct (generate_merkle_proof ck n' i') as [item|] eqn:Hg; [|done].
    injection Hf as -> -> <-. apply list_elem_of_lookup_2, list_elem_of_In, in_flat_map in Hy as (q & Hq & Hin).
    apply in_map_iff in Hin as (x & [= <- <-] & Hx). apply list_elem_of_In in Hq, Hx.
    split; [by apply list_elem_of_fmap_2|]. exists item. split_and!; [done| |done].
    specialize (Hu q Hq). rewrite Forall_forall in Hu. by apply Hu.
Qed.

(** The tail of a proof verifies wherever the proof covers the height. *)
Lemma tail_verifies sc ck lo upper n tx mp p :
  0 <= lo <= n -> n <= upper -> upper < 2 ^ 64 ->
  roots p = map (fun n => items_root (block_items n)) (seqZ lo (upper - lo + 1)) ->
  anchored sc ck upper (compute_continuity_digest p lo) = true ->
  mp_root mp = items_root (block_items n) -> merkle_verify mp tx = true ->
  accepted sc ck n tx mp (tail_proof p lo n).
Proof.
  intros Hlo Hn Hup Hr Ha Hroot Hv h Htx Hmax Hg Hu. rewrite pow2_64 in Hup.
  assert (zlen (roots p) = upper - lo + 1) as Hlen.
  { rewrite Hr. unfold zlen. rewrite length_map, length_seqZ. lia. }
  assert (last_block p lo = upper) as Hlast by (unfold last_block; lia).
  destruct (tail_proof_spec p lo n) as (Hd & Hl & Hhd & _); [lia|].
  rewrite Hlast in Hl. unfold last_block in Hl.
  assert (zlen (roots (tail_proof p lo n)) = upper - n + 1) as Hlen' by lia. rewrite Hlen' in *.
  apply (proof_verifies sc ck n upper); try done; [lia|rewrite umax_64; lia|lia|by rewrite Hd|].
  rewrite Hhd, Hr, Hroot. f_equal. apply nth_lookup_Some. rewrite list_lookup_fmap.
  rewrite lookup_seqZ_lt by lia. cbn. do 3 f_equal. lia.
Qed.

Lemma result_entry ck n i item :
  0 <= i -> generate_merkle_proof ck n i = Ok item ->
  exists hash tx, block_items n !! Z.to_nat i = Some (hash, tx) /\ pi_tx_hash item = Some hash /\
    pi_tx_bytes item = Some tx /\ path_index (mp_siblings (pi_merkle_proof item)) = i /\
    mp_root (pi_merkle_proof item) = items_root (block_items n) /\ merkle_verify (pi_merkle_proof item) tx = true.
Proof.
  intros Hi (Hpi & Hh & Hidx)%merkle_answer; [|done].
  destruct Hpi as (txs & k & hash & tx & Htxs & Hk & _ & Hidx' & Hhash & Htx & _ & Hroot & Hv & Hp).
  unfold sourced in Htxs. rewrite Hh in Htxs. subst txs. rewrite Hidx in Hidx'. injection Hidx' as ->.
  exists hash, tx. rewrite Nat2Z.id. done.
Qed.

Lemma batch_answer sc chain max_span left_first queries r chain' :
  chain_typed chain -> caches_anchored sc chain -> (forall q, q ∈ queries -> Forall is_u64 (pq_tx_indexes q)) ->
  get_proof_batch max_span left_first queries chain = (Ok r, chain') ->
  let lo := br_from_header r in
  let p := br_continuity_proof r in
  chain' = chain /\ br_chain_key r = ch_chain_key chain /\
  least (map pq_header_number queries) = Some lo /\ greatest (map pq_header_number queries) = Some (br_to_header r) /\
  br_to_header r - lo <= max_span /\
  (forall q i, q ∈ queries -> i ∈ pq_tx_indexes q ->
     exists tx mp, batch_entry r (pq_header_number q) tx mp /\ path_index (mp_siblings mp) = i) /\
  (forall n tx mp, batch_entry r n tx mp ->
     0 < n <= umax 64 /\ accepted sc (ch_chain_key chain) n tx mp (tail_proof p lo n)).
Proof.
  intros Ht Ha Hq Hrun. unfold get_proof_batch in Hrun. rewrite run_gets in Hrun. unfold id in Hrun. cbv zeta in Hrun.
  apply bind_ok in Hrun as (latest & c0 & [Hval ->]%lift_ok & Hrun).
  apply validated in Hval as [_ Hn]; [|done].
  destruct (least _) as [lo|] eqn:Hlo; [|done]. destruct (greatest _) as [hi|] eqn:Hhi; [|done].
  destruct (Z.ltb_spec max_span (hi - lo)) as [|Hspan]; [done|].
  apply bind_ok in Hrun as ([p rs] & c1 & [Hp Hm]%try_join_ok & Hrun). cbn [fst snd] in Hp, Hm. run_inv. cbn.
  destruct (merkle_results_ok _ _ _ Hq Hlift) as [Hall Hent].
  destruct (group_proofs_entries rs) as [Hg1 Hg2].
  destruct (continuity_answer _ lo hi chain p Ht Hlo Hhi Hp) as (upper & ud & Hc & Hle & Hr & Hd).
  destruct (least_greatest _ lo hi Hlo Hhi) as (Hlin & _ & Hrange).
  split_and!; try done.
  - intros q i Hqq Hi. destruct (Hall q i Hqq Hi) as [e He]. destruct (Hg2 _ _ _ He) as [e' He'].
    destruct (Hent _ _ _ (Hg1 _ _ _ He')) as (_ & item & Hgen & Hi0 & ->).
    destruct (result_entry _ _ _ _ Hi0 Hgen) as (hash & tx & Htx & Hh & Hb & Hpi & Hroot & Hv).
    exists tx, (pi_merkle_proof item). split; [|done]. do 3 eexists. split; [exact He'|]. cbn. rewrite Hh, Hb. done.
  - intros n tx mp (i & e & hash & He & Htx & _ & _ & <- & _ & Hroot & Hv).
    destruct (Hent _ _ _ (Hg1 _ _ _ He)) as (Hin & _). pose proof (Hrange n Hin). pose proof (Hn n Hin).
    pose proof (Hn lo Hlin). pose proof (proj2 Ht _ _ Hc) as [_ Hup]. pose proof Hup as Hup'. rewrite pow2_64 in Hup'.
    split; [rewrite umax_64; lia|]. apply (tail_verifies sc _ lo upper); try done; [lia|lia|].
    rewrite Hd. by apply Ha.
Qed.

(** C8: served proofs verify. Let the server's caches hold only digests the chain
    still holds for those heights, and let its provider describe one source chain.
    Then whatever [get_proof] answers, from whichever caches and whichever of its two
    concurrent parts finishes first, is about the requested position of the source
    chain, and the block prover accepts it (given gas and a proof within its
    maximum); and so is what [get_proof_by_tx_hash] answers, from the Merkle cache or
    not, for a transaction with the requested hash, if the Merkle
    cache was filled from the source chain and no two of its transactions share a
    hash. *)
Theorem served_proofs_verify sc chain left_first :
  chain_typed chain -> caches_anchored sc chain ->
  (forall n i r chain', 0 <= i -> get_proof left_first n i chain = (Ok r, chain') ->
     sr_header_number r = n /\ sr_tx_index r = i /\ sr_chain_key r = ch_chain_key chain /\ good_response sc r) /\
  (merkle_sourced chain -> unique_hashes -> (forall n, Forall (fun item => is_h256 item.1) (block_items n)) ->
   forall tx_hash r chain', get_proof_by_tx_hash left_first tx_hash chain = (Ok r, chain') ->
     good_response sc r /\ merkle_sourced chain' /\ exists hash tx, parse_tx_hash tx_hash = Ok hash /\
       block_items (sr_header_number r) !! Z.to_nat (sr_tx_index r) = Some (hash, tx)).
Proof.
  intros Ht Ha. split.
  - intros n i r chain' Hi Hrun. by eapply get_proof_answer in Hrun as (_ & Hrun).
  - intros Hc Huniq Hhashes tx_hash r chain' Hrun.
    destruct (by_tx_hash_answer sc chain left_first tx_hash r chain') as (Hgood & Hc' & x & str & Hp & Hs & Hx); try done.
    split_and!; [done|done|]. destruct Hgood as (hash & tx & Hitem & Hh & _). exists hash, tx. split; [|done].
    rewrite Hp. rewrite Hh in Hs. injection Hs as <-. specialize (Hhashes (sr_header_number r)).
    rewrite Forall_forall in Hhashes. apply list_elem_of_lookup_2, Hhashes in Hitem as Hty.
    rewrite (proj1 (proj2 hex_roundtrip hash Hty)) in Hx. by injection Hx as ->.
Qed.

Lemma unique_queries_spec queries :
  map pq_header_number (unique_queries queries) = btree_set (map pq_header_number queries) /\
  (forall q i, q ∈ queries -> i ∈ pq_tx_indexes q -> exists q', q' ∈ unique_queries queries /\
     pq_header_number q' = pq_header_number q /\ i ∈ pq_tx_indexes q') /\
  (forall q' i, q' ∈ unique_queries queries -> i ∈ pq_tx_indexes q' -> exists q, q ∈ queries /\ i ∈ pq_tx_indexes q).
Proof.
  unfold unique_queries. split_and!.
  - rewrite map_map. cbn. by rewrite map_id.
  - intros q i Hq Hi. eexists. split; [apply list_elem_of_fmap_2, elem_of_btree_set, list_elem_of_fmap_2; exact Hq|].
    cbn. split; [done|]. apply elem_of_btree_set, list_elem_of_In, in_flat_map. exists q.
    split; [|by apply list_elem_of_In]. by apply list_elem_of_In, list_elem_of_filter.
  - intros q' i (h & -> & _)%list_elem_of_fmap. cbn.
    rewrite elem_of_btree_set, list_elem_of_In, in_flat_map. intros (q & Hq & Hi).
    apply list_elem_of_In, list_elem_of_filter in Hq as [_ Hq]. apply list_elem_of_In in Hi. eauto.
Qed.

(** The transactions of a batch response, as arguments of [verify_batch]. *)
Definition from_batch (r : BatchedContinuityResponse) (heights : list Height) (txs : list (list Z))
    (mps : list TransactionMerkleProof) : Prop :=
  heights <> [] /\ length heights = length txs /\ length heights = length mps /\
  (min_max heights).1 = Some (br_from_header r) /\
  forall n tx mp, (n, tx, mp) ∈ zip (zip heights txs) mps -> batch_entry r n tx mp /\ tx <> [].

(** C19: served batches verify. An answer of the batch route stays within the span,
    holds every requested transaction, and each of its transactions is accepted alone,
    with the part of the shared proof from its height on; and any selection of them
    that includes the lowest height is accepted as a whole by [verify_batch]. *)
Theorem served_batches_verify `{!ArchOk} sc chain max_span left_first queries r chain' :
  chain_typed chain -> caches_anchored sc chain -> (forall q, q ∈ queries -> Forall is_u64 (pq_tx_indexes q)) ->
  route_get_proof_batch max_span left_first queries chain = (Ok r, chain') ->
  br_to_header r - br_from_header r <= max_span /\
  (forall q i, q ∈ queries -> i ∈ pq_tx_indexes q ->
     exists tx mp, batch_entry r (pq_header_number q) tx mp /\ path_index (mp_siblings mp) = i) /\
  (forall n tx mp, batch_entry r n tx mp ->
     accepted sc (ch_chain_key chain) n tx mp (tail_proof (br_continuity_proof r) (br_from_header r) n)) /\
  (forall heights txs mps (h : H), from_batch r heights txs mps ->
     zlen (roots (br_continuity_proof r)) <= MAX_CONTINUITY_ROOTS ->
     queries_gas (zip (zip heights txs) mps) + CONTINUITY_BLOCK_HASH_COST * zlen (roots (br_continuity_proof r)) +
       5 * GAS_STORAGE_LOOKUP <= gas_left h -> gas_left h <= umax 64 ->
     exists h', verify_batch sc (ch_chain_key chain) heights txs mps (br_continuity_proof r) h = (Ok true, h')).
Proof.
  intros Ht Ha Hq Hrun. unfold route_get_proof_batch in Hrun. repeat (case_match; [done|]).
  destruct (unique_queries_spec queries) as (Hheights & Hin & Hout).
  destruct (batch_answer sc chain max_span left_first (unique_queries queries) r chain') as
    (_ & _ & Hlo & Hhi & Hspan & Hall & Hacc); [done|done| |done|].
  { intros q' Hq'. apply Forall_forall. intros i Hi. destruct (Hout q' i Hq' Hi) as (q & Hq0 & Hi0).
    specialize (Hq q Hq0). rewrite Forall_forall in Hq. by apply Hq. }
  split_and!; [done| |by intros n tx mp Hb; apply Hacc|].
  - intros q i Hq0 Hi. destruct (Hin q i Hq0 Hi) as (q' & Hq' & Hh & Hi'). rewrite <- Hh. by apply Hall.
  - intros heights txs mps h (Hne & Hl1 & Hl2 & Hmin & Hent) Hmax Hg Hu.
    assert (forall n, n ∈ heights -> is_u64 n) as Hu64.
    { intros n Hn. destruct (elem_of_zips heights txs mps n) as (tx & mp & Hz); [done..|].
      apply Hent in Hz as [[Hb _]%Hacc _]. rewrite umax_64 in Hb. unfold is_u64. rewrite pow2_64. lia. }
    apply batch_each_query; try done; [by apply Forall_forall|]. rewrite Hmin. cbn [default].
    intros n tx mp Hz. destruct (Hent n tx mp Hz) as [Hb Htx]. destruct (Hacc n tx mp Hb) as [_ Hok].
    pose proof (queries_gas_elem _ _ Hz) as Hgas. cbn [snd] in Hgas.
    assert (zlen (roots (tail_proof (br_continuity_proof r) (br_from_header r) n)) <=
      zlen (roots (br_continuity_proof r))) as Hle.
    { unfold tail_proof, zlen. cbn. rewrite length_drop. lia. }
    unfold CONTINUITY_BLOCK_HASH_COST, GAS_STORAGE_LOOKUP in *.
    apply Hok; try done; unfold CONTINUITY_BLOCK_HASH_COST, GAS_STORAGE_LOOKUP; lia.
Qed.
End Serving.

(** ** Availability *)

Section Available.
Context `{Keccak} {P : EthRpcProvider} `{!SourceChain P}.
Implicit Types (chain : ChainState) (hs : History).

(** The caches and the source lie on one history. *)
Definition agrees hs chain : Prop :=
  hash_chain hs /\ (forall h d, cached chain h d -> hs_lo hs <= h <= hs_hi hs /\ d = hs_digest hs h) /\
  (forall n, hs_lo hs < n <= hs_hi hs -> items_root (block_items n) = hs_root hs n).

(** The provider's endpoints are up for the blocks of the history. *)
Definition answers hs : Prop :=
  (forall d a b, hs_lo hs < a <= b -> b <= hs_hi hs -> is_ok (build_continuity_blocks d a b) = true) /\
  (forall n i, hs_lo hs < n <= hs_hi hs -> is_ok (get_block_tx_bytes_and_tx_hash n i) = true).

Lemma cached_attested chain u ud :
  cached chain u ud -> exists latest, cached_attested_height chain = Some latest /\ u <= latest.
Proof.
  unfold cached_attested_height, cached_attestation_height, cached_checkpoint_height.
  assert (forall m : gmap Height Digest, m !! u = Some ud -> exists k, last_key m = Some k /\ u <= k) as Hk.
  { intros m Hm. destruct (last_key m) as [k|] eqn:Hl; [|apply last_key_none in Hl; by rewrite Hl, lookup_empty in Hm].
    exists k. split; [done|]. apply last_key_max in Hl as [_ Hl]. by apply Hl. }
  intros [Hc|Hc]; destruct (Hk _ Hc) as (k & -> & Hle).
  - destruct (last_key (checkpoint_cache chain)); cbn; eexists; (split; [done|lia]).
  - destruct (last_key (attestation_cache chain)); cbn; eexists; (split; [done|lia]).
Qed.

(** The proof between two digests of the history is built. *)
Lemma history_builds hs chain n l u :
  agrees hs chain -> answers hs -> hs_lo hs <= l < n -> n <= u <= hs_hi hs ->
  exists p, build_proof_from_roots n l (hs_digest hs l) u (hs_digest hs u) = Ok p.
Proof.
  intros ((Hlo & Hhi & Hlink) & _ & Hroots) [Hb _] Hl Hu. unfold build_proof_from_roots, mbind, Result_bind.
  specialize (Hb (hs_digest hs l) (l + 1) u ltac:(lia) ltac:(lia)).
  destruct (build_continuity_blocks _ _ _) as [bs|] eqn:Hbs; [|done]. cbn [map_err].
  apply build_sound in Hbs as [Hlk Hr]; [|lia..]. replace (u - (l + 1) + 1) with (u - l) in Hr by lia.
  assert (zlen bs = u - l) as Hlen.
  { unfold zlen. rewrite <- (length_map b_root), Hr, length_map, length_seqZ. lia. }
  pose proof (linked_numbers _ _ _ Hlk ltac:(lia) ltac:(lia)) as Hn.
  destruct (List.find (fun b => b_block_number b =? u) bs) as [b|] eqn:Hf.
  - replace u with (l + 1 + zlen bs - 1) in Hf by lia. apply find_last in Hf; [|done].
    assert (b_digest b = hs_digest hs u) as ->; [|rewrite Z.eqb_refl; by eexists].
    pose proof (linked_digest _ _ _ Hlk) as Hd. unfold tip_digest in Hd. rewrite Hf, Hr in Hd. rewrite <- Hd.
    rewrite (map_ext_in _ (hs_root hs)) by (intros x Hx%list_elem_of_In%elem_of_seqZ; apply Hroots; lia).
    pose proof (history_proof_digest hs (l + 1) (Z.to_nat (u - l))) as Hp.
    unfold history_proof, compute_continuity_digest in Hp. cbn in Hp. rewrite Z2Nat.id in Hp by lia.
    replace (l + 1 - 1) with l in Hp by lia. rewrite Hp; [f_equal; lia|done|lia|lia].
  - destruct (exists_last (l := bs)) as (bs' & b & ->); [intros ->; unfold zlen in Hlen; cbn in Hlen; lia|].
    rewrite zlen_app in *. change (zlen [b]) with 1 in *.
    apply (List.find_none _ _) with (x := b) in Hf; [|apply in_app_iff; right; by left].
    apply Z.eqb_neq in Hf. apply (f_equal last) in Hn. rewrite map_app in Hn. cbn [map] in Hn. rewrite last_snoc in Hn.
    rewrite seqZ_app, last_app in Hn by (pose proof (zlen_nonneg bs'); lia). cbn in Hn. injection Hn as Hn. lia.
Qed.

Lemma merkle_available ck n i item :
  is_ok (get_block_tx_bytes_and_tx_hash n (Z.of_nat i)) = true -> block_items n !! i = Some item ->
  exists m, generate_merkle_proof ck n (Z.of_nat i) = Ok m.
Proof.
  intros Hok Hitem. unfold generate_merkle_proof, mbind, Result_bind.
  destruct (get_block_tx_bytes_and_tx_hash n _) as [[bytes hash]|] eqn:Hget; [|done]. cbn [map_err].
  apply tx_bytes_sound in Hget as [-> _]. pose proof (lookup_lt_Some _ _ _ Hitem) as Hlt.
  rewrite bool_decide_eq_false_2 by (by destruct (block_items n); cbn in *; [lia|]).
  rewrite (proj2 (Z.leb_gt _ _)) by (unfold zlen; rewrite length_map; lia).
  destruct (merkle_new_total (map snd (block_items n))) as [t Ht]. rewrite Ht.
  destruct (generated_proofs _ _ Ht) as [Hgen _].
  destruct (Hgen i item.2) as (mp & Hmp & _); [by rewrite list_lookup_fmap, Hitem|].
  rewrite Nat2Z.id. cbn -[generate_proof]. rewrite Hmp. by eexists.
Qed.

(** C21: attested transactions are served. Let the caches and the source lie on one
    history, and the source's endpoints answer for its blocks. Then for every
    transaction of a block above the attestation genesis with a cached digest below
    it and one at or above it, in whichever of the two caches, [get_proof] answers
    with a proof; and for a block above the highest cached digest it answers that the
    block is not attested yet, naming that height. *)
Theorem attested_transactions_are_served hs chain left_first n :
  agrees hs chain -> answers hs -> attestation_genesis_block chain < n ->
  (forall i item l ld u ud, cached chain l ld -> l < n -> cached chain u ud -> n <= u ->
     block_items n !! i = Some item ->
     exists r, get_proof left_first n (Z.of_nat i) chain = (Ok r, chain)) /\
  (forall latest i, cached_attested_height chain = Some latest -> latest < n ->
     get_proof left_first n i chain = (Err (BlockNotReady n latest), chain)).
Proof.
  intros Ha Hans Hg. split.
  - intros i item l ld u ud Hl Hln Hu Hnu Hitem.
    assert (exists latest, validate_blocks [n] chain = Ok latest) as [latest Hval].
    { destruct (cached_attested chain u ud Hu) as (latest & Hc & Hle). exists latest. unfold validate_blocks. cbn.
      rewrite (proj2 (Z.leb_gt _ _)), Hc, (proj2 (Z.ltb_ge _ _)) by lia. done. }
    assert (exists p, build_continuity [n] chain = Ok p) as [p Hp].
    { unfold build_continuity. change (least [n]) with (Some n). change (greatest [n]) with (Some n).
      destruct (boundaries_complete chain n n l ld u ud) as [[[[l' ld'] u'] ud'] Hb]; [done..|]. rewrite Hb.
      apply boundaries_sound in Hb as (Hl' & ? & Hu' & ?). pose proof Ha as (_ & Hon & _).
      apply Hon in Hl' as [? ->]. apply Hon in Hu' as [? ->]. apply (history_builds hs chain); [done|done|lia|lia]. }
    assert (exists m, generate_merkle_proof (ch_chain_key chain) n (Z.of_nat i) = Ok m) as [m Hm].
    { destruct Ha as (_ & Hon & _), Hans as [_ Hbytes]. apply Hon in Hl as [? _], Hu as [? _].
      eapply merkle_available; [apply Hbytes; lia|done]. }
    eexists. unfold get_proof. rewrite run_gets. unfold id. rewrite (run_lift _ latest) by done. unfold try_join.
    destruct left_first; unfold mbind, M_bind, lift; rewrite Hp, Hm; reflexivity.
  - intros latest i Hc Hlt. unfold get_proof. rewrite run_gets. unfold id, validate_blocks. cbn.
    by rewrite (proj2 (Z.leb_gt _ _)), Hc, (proj2 (Z.ltb_lt _ _)) by lia.
Qed.
End Available.

(** ** On the concrete runtime

    A source chain whose blocks hold two transactions each, served by a client that
    fetches and checks them, and a runtime with checkpoints at its blocks 100 and
    103. *)

#[export] Instance toy_formats : EthFormats := {|
  calculate_transaction_root := zlen;
  calculate_receipt_root := zlen;
  abi_encode := app;
|}.

Definition demo_fetch (n : Height) : Result EthError (RpcBlock * list TransactionReceipt) :=
  if bool_decide (is_u64 n) then
    Ok (mkRpcBlock n 9 2 2 [mkRpcTransaction (Some 1) (10 * n + 1) [3]; mkRpcTransaction (Some 0) (10 * n) [1]],
      [mkReceipt (Some 0) (Some 9) [2]; mkReceipt (Some 1) (Some 9) [2]])
  else Err (FailedToGetBlock n).

Definition demo_position (x : H256) : Result Anyhow (option (Height * Z)) :=
  if bool_decide (0 <= x < 2 ^ 64) && (x mod 10 <? 2) then Ok (Some (x / 10, x mod 10)) else Ok None.

Definition demo_client : EthClient := fetched_client 1 demo_fetch demo_position.
#[local] Instance demo_provider : EthRpcProvider := @rpc_provider _ demo_client.

Lemma demo_block n :
  client_get_block (EthClient := demo_client) n =
  if bool_decide (is_u64 n) then Ok (mkOrderedBlock n 9 [(10 * n, [1; 2]); (10 * n + 1, [3; 2])])
  else Err [EthCause (FailedToGetBlock n)].
Proof.
  cbn. unfold demo_fetch. case_bool_decide; [|done]. unfold try_from_fetched_block. cbn.
  rewrite Z.eqb_refl. cbn. by rewrite andb_false_r.
Qed.

Lemma demo_positions : @positions_served demo_client.
Proof.
  intros x n i. cbn. unfold demo_position. case_bool_decide as Hx; [|done].
  destruct (Z.ltb_spec (x mod 10) 2) as [Hm|]; [|done]. intros [= <- <-].
  pose proof (Z.mod_pos_bound x 10 ltac:(lia)). pose proof (Z.div_mod x 10 ltac:(lia)).
  assert (0 <= x / 10 <= x) by (split; [apply Z.div_pos; lia|apply Z.div_le_upper_bound; lia]).
  assert (is_u64 (x / 10)) as Hu by (unfold is_u64; lia). split_and!; [done|unfold is_u64; lia|].
  eexists _, (if x mod 10 =? 0 then [1; 2] else [3; 2]).
  split; [etrans; [apply demo_block|]; by rewrite bool_decide_eq_true_2 by done|].
  assert (x mod 10 = 0 \/ x mod 10 = 1) as [Hr|Hr] by lia; rewrite Hr;
    [change (Z.to_nat 0) with 0%nat|change (Z.to_nat 1) with 1%nat];
    cbn -[Z.mul Z.div Z.add]; do 2 f_equal; lia.
Qed.

#[local] Instance demo_source : SourceChain demo_provider := rpc_source 1 demo_fetch demo_position demo_positions.

Definition demo_items (n : Height) : list (H256 * list Z) :=
  if bool_decide (is_u64 n) then [(10 * n, [1; 2]); (10 * n + 1, [3; 2])] else [].

Lemma demo_block_items n : block_items n = demo_items n.
Proof.
  cbn [block_items demo_source rpc_source]. fold demo_client. rewrite demo_block. unfold demo_items.
  by case_bool_decide.
Qed.

Lemma demo_item n i x t : block_items n !! i = Some (x, t) -> is_u64 n /\ (x = 10 * n \/ x = 10 * n + 1).
Proof.
  rewrite demo_block_items. unfold demo_items. case_bool_decide; [|done].
  destruct i as [|[|i]]; cbn; [by intros [= <- <-]; auto|by intros [= <- <-]; auto|done].
Qed.

Definition demo_root (n : Height) : H256 := items_root (demo_items n).
Definition demo_digest (n : Height) : Digest :=
  compute_continuity_digest (mkContinuityProof 777 (map demo_root (seqZ 101 (n - 100)))) 101.

Definition demo_runtime : @Runtime Wallet :=
  default start (rt_genesis sc_cfg wallet []
    [mkChainConfiguration 1 120 10 10 [mkCheckpoint 100 777; mkCheckpoint 103 (demo_digest 103)]] [ex_chain 1 "eth"]).

(** The checkpoint 100 is in one cache, the digest of 103 in the other. *)
Definition demo_chain : ChainState :=
  mkChainState 1 {[100 := 777]} {[103 := demo_digest 103]} empty_cache 90 10 10 (mkCacheConfig None None None) None.

Lemma demo_cached h d : cached demo_chain h d -> h = 100 /\ d = 777 \/ h = 103 /\ d = demo_digest 103.
Proof. unfold cached, demo_chain. cbn. intros [Hc|Hc]; apply lookup_singleton_Some in Hc as [<- <-]; auto. Qed.

Lemma demo_typed : chain_typed demo_chain.
Proof. split; [decide_now|]. intros h d [[-> _]|[-> _]]%demo_cached; decide_now. Qed.

Lemma demo_anchored : caches_anchored (rn_listener demo_runtime) demo_chain.
Proof. intros h d [[-> ->]|[-> ->]]%demo_cached; vm_compute; reflexivity. Qed.

Definition demo_response : SingleContinuityResponse :=
  match (get_proof true 102 1 demo_chain).1 with
  | Ok r => r
  | Err _ => mkSingle 0 0 0 None None (mkContinuityProof 0 []) (mkMerkleProof 0 []) false
  end.

Lemma served_proofs_verify_witness :
  sr_tx_bytes demo_response = Some "0x0302"%string /\
  (exists h, verify (rn_listener demo_runtime) 1 102 [3; 2] (sr_merkle_proof demo_response)
    (sr_continuity_proof demo_response) full_tank = (Ok true, h)) /\
  exists r, (get_proof_by_tx_hash false (with_0x (h256_bytes 1021)) demo_chain).1 = Ok r /\
    good_response (H := GasHandle) (rn_listener demo_runtime) r.
Proof.
  destruct (served_proofs_verify (H := GasHandle) (rn_listener demo_runtime) demo_chain true demo_typed demo_anchored)
    as [Hget _].
  destruct (served_proofs_verify (H := GasHandle) (rn_listener demo_runtime) demo_chain false demo_typed demo_anchored)
    as [_ Hhash].
  split_and!; [vm_compute; reflexivity| |].
  - destruct (Hget 102 1 demo_response demo_chain) as (Hn & Hi & Hk & hash & tx & Htx & _ & Hb & _ & Hacc);
      [done|vm_compute; reflexivity|].
    rewrite Hn, Hi, Hk in *. rewrite demo_block_items in Htx. injection Htx as <- <-.
    apply (Hacc full_tank); [done|decide_now..].
  - eexists. split; [vm_compute; reflexivity|].
    eapply Hhash with (tx_hash := with_0x (h256_bytes 1021)).
    + split; [by intros h b Hb|by intros x h i Hx].
    + intros x n m i j t u [_ Hn]%demo_item [_ Hm]%demo_item. lia.
    + intros n. apply Forall_forall. intros [x t] [i Hi]%list_elem_of_lookup.
      apply demo_item in Hi as [Hn Hx]. unfold is_u64 in Hn. unfold is_h256. cbn [fst]. lia.
    + vm_compute. reflexivity.
Defined.

Definition demo_batch : BatchedContinuityResponse :=
  match (route_get_proof_batch 50 false [mkProofQuery 103 [0]; mkProofQuery 101 [1; 0; 1]; mkProofQuery 103 [1]] demo_chain).1 with
  | Ok r => r
  | Err _ => mkBatched 0 0 0 (mkContinuityProof 0 []) ∅
  end.

(** The proofs of a batch, as a client takes them from the response. *)
Definition proof_of (r : BatchedContinuityResponse) (n : Height) (i : Z) : TransactionMerkleProof :=
  match entry (br_merkle_proofs r) n i with Some e => be_merkle_proof e | None => mkMerkleProof 0 [] end.

Lemma batch_entry_intro (r : BatchedContinuityResponse) n i hash tx :
  block_items n !! Z.to_nat i = Some (hash, tx) -> tx <> [] ->
  (exists e, entry (br_merkle_proofs r) n i = Some e /\
    be_tx_hash e = Some (with_0x (h256_bytes hash)) /\ be_tx_bytes e = Some (with_0x tx)) ->
  path_index (mp_siblings (proof_of r n i)) = i /\ mp_root (proof_of r n i) = items_root (block_items n) /\
    merkle_verify (proof_of r n i) tx = true ->
  batch_entry r n tx (proof_of r n i) /\ tx <> [].
Proof.
  intros Hi Htx (e & Hent & Hh & Hb) Hp. split; [|done]. exists i, e, hash. unfold proof_of in *.
  rewrite Hent in *. done.
Qed.

Lemma served_batches_verify_witness :
  exists h, verify_batch (rn_listener demo_runtime) 1 [101; 103; 101] [[3; 2]; [1; 2]; [1; 2]]
    [proof_of demo_batch 101 1; proof_of demo_batch 103 0; proof_of demo_batch 101 0]
    (br_continuity_proof demo_batch) full_tank = (Ok true, h).
Proof.
  destruct (served_batches_verify (H := GasHandle) (rn_listener demo_runtime) demo_chain 50 false
    [mkProofQuery 103 [0]; mkProofQuery 101 [1; 0; 1]; mkProofQuery 103 [1]] demo_batch demo_chain
    demo_typed demo_anchored) as (_ & _ & _ & Hv); [apply Forall_forall; decide_now|vm_compute; reflexivity|].
  apply Hv; [|decide_now..]. split_and!; [done|done|done|vm_compute; reflexivity|].
  set (l := zip _ _). enough (Forall (fun q => batch_entry demo_batch q.1.1 q.1.2 q.2 /\ q.1.2 <> []) l) as Hall.
  { intros n tx mp Hin. rewrite Forall_forall in Hall. exact (Hall _ Hin). }
  unfold l. cbn [zip zip_with]. repeat apply Forall_cons_2; [| | |apply Forall_nil_2]; cbn [fst snd].
  - apply (batch_entry_intro demo_batch 101 1 1011); [by rewrite demo_block_items|done|eexists; split_and!; vm_compute; reflexivity|].
    rewrite demo_block_items. split_and!; vm_compute; reflexivity.
  - apply (batch_entry_intro demo_batch 103 0 1030); [by rewrite demo_block_items|done|eexists; split_and!; vm_compute; reflexivity|].
    rewrite demo_block_items. split_and!; vm_compute; reflexivity.
  - apply (batch_entry_intro demo_batch 101 0 1010); [by rewrite demo_block_items|done|eexists; split_and!; vm_compute; reflexivity|].
    rewrite demo_block_items. split_and!; vm_compute; reflexivity.
Defined.

Definition demo_history : History := mkHistory 100 103 demo_root demo_digest.

Lemma demo_agrees : agrees demo_history demo_chain.
Proof.
  split_and!.
  - split_and!; [decide_now..|]. intros n Hn. cbn in Hn.
    assert (n ∈ [101; 102; 103]) as Hin by (rewrite !elem_of_cons; lia).
    clear Hn. revert n Hin. apply Forall_forall. repeat constructor; vm_compute; reflexivity.
  - intros h d [[-> ->]|[-> ->]]%demo_cached; cbn; (split; [lia|]); [vm_compute; reflexivity|done].
  - intros n _. by rewrite demo_block_items.
Qed.

Lemma demo_answers : answers demo_history.
Proof.
  assert (forall a b, a ∈ [101; 102; 103] -> b ∈ [101; 102; 103] -> forall d,
    is_ok (build_continuity_blocks d a b) = true) as Hb.
  { intros a b Ha Hb d. revert a b Ha Hb.
    assert (Forall (fun a => Forall (fun b => is_ok (build_continuity_blocks d a b) = true) [101; 102; 103])
      [101; 102; 103]) as Hall by (repeat constructor; lazy; reflexivity).
    intros a b Ha Hb. rewrite Forall_forall in Hall. specialize (Hall a Ha). rewrite Forall_forall in Hall. by apply Hall. }
  split.
  - intros d a b Ha Hab. cbn in Ha, Hab. apply Hb; rewrite !elem_of_cons; lia.
  - intros n i Hn. cbn in Hn. cbn [get_block_tx_bytes_and_tx_hash demo_provider rpc_provider]. rewrite demo_block.
    by rewrite bool_decide_eq_true_2 by (unfold is_u64; lia).
Qed.

Lemma attested_transactions_are_served_witness :
  (exists r, get_proof false 101 1 demo_chain = (Ok r, demo_chain)) /\
  get_proof false 104 0 demo_chain = (Err (BlockNotReady 104 103), demo_chain).
Proof.
  split.
  - destruct (attested_transactions_are_served demo_history demo_chain false 101 demo_agrees demo_answers) as [Hs _]; [done|].
    apply (Hs 1%nat (1011, [3; 2]) 100 777 103 (demo_digest 103)); [by right|done|by left|done|].
    by rewrite demo_block_items.
  - destruct (attested_transactions_are_served demo_history demo_chain false 104 demo_agrees demo_answers) as [_ Hs]; [done|].
    apply Hs; [vm_compute; reflexivity|done].
Defined.
