(* ===== verification/EventStream.v ===== *)
(** * The stream of finalized events

    [src/common/streams/cc3/src/lib.rs]: finalized blocks of the Creditcoin chain,
    each with its events, for the proof server and the attestors. The subscription
    drops blocks when the connection is lost and sometimes while it is up; the stream
    walks back from the block it receives over the parents until it meets what it
    has already yielded, and yields the gap oldest first. The node's answers are the
    input of the stream's turns. *)

From stdpp Require Import prelude list.
From Stdlib Require Import ZArith Lia.
From S2P Require Import Prelude Primitives Types ServerState.

(** A block of the node, with the events of its state. *)
Record CcBlock := mkCcBlock {
  bl_number : Height;
  bl_hash : H256;
  bl_parent_hash : H256;
  bl_events : list RuntimeEvent;
}.

Definition MAX_BACKFILL_BLOCKS : Z := 10000.

(** What the stream waits for: the first block of its first subscription, a block
    of a subscription, the events of that block, the parent below a height, or a new
    subscription. *)
Inductive StreamPhase :=
| Seeding
| Listening
| FetchingHead (block : CcBlock)
| Walking (head : Height) (walk_n : Height) (walk_parent : H256) (backfill : list (Height * list RuntimeEvent))
| Resubscribing
| StreamEnded.

Record StreamCC3 := mkStreamCC3 {
  st_latest : option Height;
  st_phase : StreamPhase;
  st_silent_recoveries : Z;
}.

#[export] Instance eta_StreamCC3 : Settable StreamCC3 := fun r =>
  mkStreamCC3 (st_latest r) (st_phase r) (st_silent_recoveries r).

(** The node's answers: a finalized block; the end or an error of the subscription;
    silence until the deadline, with the answer to the probe of the finalized head;
    the events of the head block; a parent with its events; a failed fetch, for good
    or not; the outcome of reconnecting and subscribing again. *)
Inductive Reply :=
| Delivered (block : CcBlock)
| SubscriptionLost
| Silence (probe : option Height)
| HeadEvents (events : list RuntimeEvent)
| ParentFetched (block : CcBlock)
| FetchFailed (permanent : bool)
| Resubscribed (ok : bool).

(** What is yielded: [StreamEvents::new]. *)
Definition StreamEvents : Type := Height * list CcEvent.

Section Stream.
Variable chain_keys : list ChainKey.

Definition stream_events (b : Height * list RuntimeEvent) : StreamEvents := (b.1, extract_events chain_keys b.2).

Definition StreamCC3_new (resume_from : option Height) : StreamCC3 := mkStreamCC3 resume_from Seeding 0.

(** Go on walking, or note the progress and yield what was buffered, oldest first. *)
Definition walk_or_yield (s : StreamCC3) (head walk_n : Height) (walk_parent : H256)
    (backfill : list (Height * list RuntimeEvent)) : StreamCC3 * list StreamEvents :=
  let walk_floor := match st_latest s with None => head | Some l => l + 1 end in
  if walk_floor <? walk_n then (s <| st_phase := Walking head walk_n walk_parent backfill |>, [])
  else (s <| st_latest := Some head |> <| st_phase := Listening |>, map stream_events (rev backfill)).

Definition on_block (s : StreamCC3) (block : CcBlock) : StreamCC3 :=
  let n := bl_number block in
  if match st_latest s with Some l => n <=? l | None => false end then s <| st_phase := Listening |>
  else
    let gap := match st_latest s with Some l => n - l - 1 | None => 0 end in
    if MAX_BACKFILL_BLOCKS <? gap then s <| st_phase := StreamEnded |>
    else s <| st_phase := FetchingHead block |>.

(** One turn: the answer to what the stream waits for. *)
Definition stream_turn (s : StreamCC3) (reply : Reply) : StreamCC3 * list StreamEvents :=
  match st_phase s, reply with
  | Seeding, Delivered block => (on_block s block, [])
  | Seeding, _ => (s, [])
  | Listening, Delivered block => (on_block s block, [])
  | Listening, Silence (Some head) =>
      if match st_latest s with None => true | Some l => l <? head end
      then (s <| st_silent_recoveries ::= Z.add 1 |> <| st_phase := Resubscribing |>, [])
      else (s, [])
  | Listening, (Silence None | SubscriptionLost) => (s <| st_phase := Resubscribing |>, [])
  | FetchingHead block, HeadEvents events =>
      walk_or_yield s (bl_number block) (bl_number block) (bl_parent_hash block) [(bl_number block, events)]
  | Walking head _ _ backfill, ParentFetched block =>
      walk_or_yield s head (bl_number block) (bl_parent_hash block)
        (backfill ++ [(bl_number block, bl_events block)])
  | (FetchingHead _ | Walking _ _ _ _), FetchFailed true => (s <| st_phase := StreamEnded |>, [])
  | Resubscribing, Resubscribed true => (s <| st_phase := Listening |>, [])
  | _, _ => (s, [])
  end.

Fixpoint stream_run (s : StreamCC3) (replies : list Reply) : StreamCC3 * list StreamEvents :=
  match replies with
  | [] => (s, [])
  | reply :: replies =>
      let '(s, yielded) := stream_turn s reply in
      let '(s, rest) := stream_run s replies in
      (s, yielded ++ rest)
  end.

(** ** The finalized chain *)

(** Finalized blocks are one chain, linked by their hashes; a hash names one block. *)
Class FinalizedChain (final : Height -> CcBlock) : Prop := {
  final_number : forall n, bl_number (final n) = n;
  final_parent : forall n, 0 <= n -> bl_parent_hash (final (n + 1)) = bl_hash (final n);
}.

Context (final : Height -> CcBlock) `{!FinalizedChain final}.

(** The node serves finalized blocks and their events, and under a block's hash that
    block. *)
Definition node_answers (s : StreamCC3) (reply : Reply) : Prop :=
  match st_phase s, reply with
  | (Seeding | Listening), Delivered block => exists n, 0 <= n /\ block = final n
  | FetchingHead block, HeadEvents events => events = bl_events block
  | Walking _ _ walk_parent _, ParentFetched block =>
      forall n, 0 <= n -> bl_hash (final n) = walk_parent -> block = final n
  | _, _ => True
  end.

Fixpoint node_run (s : StreamCC3) (replies : list Reply) : Prop :=
  match replies with
  | [] => True
  | reply :: replies => node_answers s reply /\ node_run (stream_turn s reply).1 replies
  end.

Definition final_events (n : Height) : Height * list RuntimeEvent := (n, bl_events (final n)).

(** The stream holds finalized blocks, and has buffered a gap down to its walk. *)
Definition stream_inv (s : StreamCC3) : Prop :=
  (forall l, st_latest s = Some l -> 0 <= l) /\
  match st_phase s with
  | FetchingHead block => exists n, 0 <= n /\ block = final n /\ (forall l, st_latest s = Some l -> l < n)
  | Walking head walk_n walk_parent backfill =>
      exists l, st_latest s = Some l /\ l + 1 < walk_n <= head /\ walk_parent = bl_hash (final (walk_n - 1)) /\
        backfill = map final_events (rev (seqZ walk_n (head - walk_n + 1)))
  | _ => True
  end.

Definition yields (lo hi : Height) : list StreamEvents :=
  map (fun n => stream_events (final_events n)) (seqZ (lo + 1) (hi - lo)).

Lemma yields_app lo mid hi : lo <= mid -> mid <= hi -> yields lo hi = yields lo mid ++ yields mid hi.
Proof.
  intros H1 H2. unfold yields. rewrite <- map_app. f_equal.
  replace (hi - lo) with ((mid - lo) + (hi - mid)) by lia. rewrite seqZ_app by lia.
  by replace (lo + 1 + (mid - lo)) with (mid + 1) by lia.
Qed.

(** The buffer of a walk that has met [l], drained. *)
Lemma drained_buffer l head :
  l < head -> map stream_events (rev (map final_events (rev (seqZ (l + 1) (head - (l + 1) + 1))))) = yields l head.
Proof.
  intros Hlt. rewrite <- map_rev, rev_involutive, map_map. unfold yields.
  by replace (head - (l + 1) + 1) with (head - l) by lia.
Qed.

(** Walking on, or yielding the blocks since the last one. *)
Lemma walk_or_yield_spec s head walk_n l s' out :
  st_latest s = Some l -> 0 <= l < walk_n -> walk_n <= head ->
  walk_or_yield s head walk_n (bl_hash (final (walk_n - 1)))
    (map final_events (rev (seqZ walk_n (head - walk_n + 1)))) = (s', out) ->
  stream_inv s' /\ exists l', st_latest s' = Some l' /\ l <= l' /\ out = yields l l'.
Proof.
  intros Hl Hw Hh. unfold walk_or_yield. rewrite Hl. destruct (Z.ltb_spec (l + 1) walk_n) as [Hlt|Hge]; intros [= <- <-].
  - split; [|exists l; unfold yields; rewrite Z.sub_diag; done].
    split; cbn; [intros x Hx; simplify_eq; lia|]. exists l. split_and!; [done|lia|lia|done|done].
  - assert (walk_n = l + 1) as -> by lia.
    split; [split; cbn; [intros x [= <-]; lia|done]|]. exists head. split_and!; [done|lia|apply drained_buffer; lia].
Qed.

(** What a turn yields: the finalized blocks up to the new latest one. *)
Definition progress (latest latest' : option Height) (out : list StreamEvents) : Prop :=
  match latest with
  | Some l => exists l', latest' = Some l' /\ l <= l' /\ out = yields l l'
  | None => latest' = None /\ out = [] \/ exists n, 0 <= n /\ latest' = Some n /\ out = yields (n - 1) n
  end.

Lemma progress_none o : progress o o [].
Proof.
  destruct o as [l|]; [|by left]. exists l. unfold yields. rewrite Z.sub_diag. by split_and!.
Qed.

Lemma on_block_spec s n :
  stream_inv s -> 0 <= n -> stream_inv (on_block s (final n)) /\ st_latest (on_block s (final n)) = st_latest s.
Proof.
  intros [Hpos Hph] Hn. unfold on_block. rewrite final_number.
  destruct (match st_latest s with Some l => n <=? l | None => false end) eqn:Hold; [by split|].
  destruct (_ <? _); (split; [split; [done|]|done]); [done|]. cbn. exists n. split_and!; [done|done|].
  intros l Hl. rewrite Hl in Hold. lia.
Qed.

Lemma head_events_spec s n s' out :
  0 <= n -> (forall l, st_latest s = Some l -> 0 <= l < n) ->
  walk_or_yield s n n (bl_parent_hash (final n)) [(n, bl_events (final n))] = (s', out) ->
  stream_inv s' /\ progress (st_latest s) (st_latest s') out.
Proof.
  intros Hn Hl Hw. destruct (st_latest s) as [l|] eqn:Hs.
  - specialize (Hl l eq_refl). replace n with (n - 1 + 1) in Hw at 3 by lia. rewrite final_parent in Hw by lia.
    assert (map final_events (rev (seqZ n (n - n + 1))) = [(n, bl_events (final n))]) as Hb
      by (by replace (n - n + 1) with 1 by lia).
    rewrite <- Hb in Hw. by apply (walk_or_yield_spec s n n l) in Hw; [|done|lia|lia].
  - unfold walk_or_yield in Hw. rewrite Hs, Z.ltb_irrefl in Hw. injection Hw as <- <-.
    split; [split; cbn; [by intros l [= <-]|done]|]. right. exists n. split_and!; [done|done|].
    unfold yields. replace (n - (n - 1)) with 1 by lia. by replace (n - 1 + 1) with n by lia.
Qed.

(** One turn keeps the invariant and yields what is due. *)
Lemma turn_spec s reply s' out :
  stream_inv s -> node_answers s reply -> stream_turn s reply = (s', out) ->
  stream_inv s' /\ progress (st_latest s) (st_latest s') out.
Proof.
  intros Hinv Hans Hturn. pose proof Hinv as [Hpos Hph].
  assert (forall p k, (match p with FetchingHead _ | Walking _ _ _ _ => False | _ => True end) ->
    stream_inv (mkStreamCC3 (st_latest s) p k)) as Hidle by (intros p k Hp; split; [done|by destruct p]).
  unfold stream_turn, node_answers in *.
  destruct (st_phase s) as [| |block|head walk_n walk_parent backfill| |] eqn:Hphase;
    destruct reply as [b| |[probe|]|events|b|[]|[]]; try (injection Hturn as <- <-; split; [by try apply Hidle|apply progress_none]; fail).
  - destruct Hans as (n & Hn & ->). injection Hturn as <- <-. destruct (on_block_spec s n Hinv Hn) as [Hi ->].
    split; [done|apply progress_none].
  - destruct Hans as (n & Hn & ->). injection Hturn as <- <-. destruct (on_block_spec s n Hinv Hn) as [Hi ->].
    split; [done|apply progress_none].
  - destruct (match st_latest s with None => true | Some l => l <? probe end); injection Hturn as <- <-;
      (split; [by try apply Hidle|apply progress_none]).
  - destruct Hph as (n & Hn & -> & Hl). subst events. rewrite final_number in Hturn.
    apply head_events_spec in Hturn; [done|done|]. intros l Hs. split; [by apply Hpos|by apply Hl].
  - destruct Hph as (l & Hl & Hw & -> & ->). specialize (Hpos l Hl).
    assert (b = final (walk_n - 1)) as -> by (apply Hans; [lia|done]). rewrite final_number in Hturn.
    replace (walk_n - 1) with (walk_n - 2 + 1) in Hturn at 2 by lia. rewrite final_parent in Hturn by lia.
    assert (map final_events (rev (seqZ walk_n (head - walk_n + 1))) ++ [(walk_n - 1, bl_events (final (walk_n - 1)))] =
      map final_events (rev (seqZ (walk_n - 1) (head - (walk_n - 1) + 1)))) as Hb.
    { rewrite (seqZ_cons (walk_n - 1)) by lia. cbn [rev]. rewrite map_app. f_equal. do 3 f_equal; lia. }
    rewrite Hb in Hturn. replace (walk_n - 2) with (walk_n - 1 - 1) in Hturn by lia.
    rewrite Hl. apply (walk_or_yield_spec s head (walk_n - 1) l) in Hturn; [done|done|lia|lia].
Qed.

Lemma progress_trans o1 o2 o3 l out1 out2 :
  o1 = Some l -> progress o1 o2 out1 -> progress o2 o3 out2 -> progress o1 o3 (out1 ++ out2).
Proof.
  intros -> (l2 & -> & Hle & ->) (l3 & -> & Hle3 & ->). exists l3. split_and!; [done|lia|].
  by rewrite <- yields_app.
Qed.

Lemma run_spec s replies s' out l :
  stream_inv s -> st_latest s = Some l -> node_run s replies -> stream_run s replies = (s', out) ->
  stream_inv s' /\ progress (Some l) (st_latest s') out.
Proof.
  revert s l out. induction replies as [|reply replies IH]; intros s l out Hinv Hl Hnode Hrun; cbn in Hnode, Hrun.
  { injection Hrun as <- <-. rewrite Hl. split; [done|apply progress_none]. }
  destruct Hnode as [Hans Hnode]. destruct (stream_turn s reply) as [s1 out1] eqn:Hturn. cbn in Hnode.
  destruct (stream_run s1 replies) as [s2 out2] eqn:Hrest. injection Hrun as <- <-.
  apply turn_spec in Hturn as [Hinv1 Hp1]; [|done|done]. rewrite Hl in Hp1. pose proof Hp1 as (l1 & Hl1 & _).
  destruct (IH s1 l1 out2 Hinv1 Hl1 Hnode Hrest) as [Hinv2 Hp2]. split; [done|].
  eapply progress_trans; [done|exact Hp1|by rewrite Hl1].
Qed.

(** ** Catching up *)

(** The parents of [n] above [l], as the node serves them. *)
Definition parents (l n : Height) : list Reply := map (fun k => ParentFetched (final k)) (rev (seqZ (l + 1) (n - l - 1))).

Lemma latest_phase s p : st_latest (s <| st_phase := p |>) = st_latest s.
Proof. done. Qed.

Lemma run_cons s reply replies : (stream_run s (reply :: replies)).1 = (stream_run (stream_turn s reply).1 replies).1.
Proof. cbn [stream_run]. destruct (stream_turn s reply) as [s1 ?]. cbn. by destruct (stream_run s1 replies). Qed.

(** A walk over the [k] blocks above [l] meets it. *)
Lemma walk_closes s head l (k : nat) backfill parent :
  st_latest s = Some l -> (0 < k)%nat ->
  (stream_run (s <| st_phase := Walking head (l + 1 + Z.of_nat k) parent backfill |>)
     (map (fun k => ParentFetched (final k)) (rev (seqZ (l + 1) (Z.of_nat k))))).1 =
  s <| st_latest := Some head |> <| st_phase := Listening |>.
Proof.
  intros Hl. revert backfill parent. induction k as [|k IH]; intros backfill parent Hk; [lia|].
  rewrite seqZ_S, rev_app_distr. cbn [rev app map]. rewrite run_cons.
  set (b := final (l + 1 + Z.of_nat k)). assert (bl_number b = l + 1 + Z.of_nat k) as Hb by apply final_number.
  assert (forall p, (stream_turn (s <| st_phase := p |>) (ParentFetched b)).1 =
    match p with
    | Walking head _ _ backfill => (walk_or_yield (s <| st_phase := p |>) head (bl_number b) (bl_parent_hash b)
        (backfill ++ [(bl_number b, bl_events b)])).1
    | _ => s <| st_phase := p |>
    end) as Hturn by (by intros []).
  rewrite Hturn, Hb. unfold walk_or_yield. rewrite latest_phase, Hl.
  destruct (Z.ltb_spec (l + 1) (l + 1 + Z.of_nat k)) as [Hlt|Hge]; cbn [fst].
  - apply IH. lia.
  - assert (k = 0%nat) as -> by lia. done.
Qed.

(** C11: the stream yields every finalized block once, in order. Resumed from a
    height, whatever blocks the subscription drops, repeats or delivers late, and
    whenever connections are lost and fetches fail, it has yielded exactly the blocks
    between that height and the latest one, oldest first, each with its events. And
    when it listens and a block at most the cap above the latest one arrives, the
    events of that block and its parents bring it up to it. *)
Theorem stream_yields_every_block r replies s out :
  0 <= r -> node_run (StreamCC3_new (Some r)) replies -> stream_run (StreamCC3_new (Some r)) replies = (s, out) ->
  exists l, st_latest s = Some l /\ r <= l /\
    out = map (fun n => (n, extract_events chain_keys (bl_events (final n)))) (seqZ (r + 1) (l - r)) /\
    (st_phase s = Listening -> forall n, l < n -> n - l - 1 <= MAX_BACKFILL_BLOCKS ->
       (stream_run s (Delivered (final n) :: HeadEvents (bl_events (final n)) :: parents l n)).1 =
       s <| st_latest := Some n |>).
Proof.
  intros Hr Hnode Hrun.
  assert (stream_inv (StreamCC3_new (Some r))) as Hinv by (split; [|done]; cbn; intros l Hl; by simplify_eq).
  destruct (run_spec _ _ _ _ r Hinv eq_refl Hnode Hrun) as [_ (l & Hl & Hle & ->)].
  exists l. split_and!; [done|done|done|]. intros Hph n Hn Hgap. rewrite !run_cons.
  assert ((stream_turn s (Delivered (final n))).1 = s <| st_phase := FetchingHead (final n) |>) as ->.
  { unfold stream_turn. rewrite Hph. unfold on_block. rewrite Hl, final_number.
    rewrite (proj2 (Z.leb_gt _ _)) by lia. by rewrite (proj2 (Z.ltb_ge _ _)) by lia. }
  change (stream_turn (s <| st_phase := FetchingHead (final n) |>) (HeadEvents (bl_events (final n))))
    with (walk_or_yield (s <| st_phase := FetchingHead (final n) |>) (bl_number (final n)) (bl_number (final n))
      (bl_parent_hash (final n)) [(bl_number (final n), bl_events (final n))]).
  unfold walk_or_yield. rewrite latest_phase, Hl, !final_number.
  destruct (Z.ltb_spec (l + 1) n) as [Hlt|Hge]; cbn [fst].
  - unfold parents. pose proof (walk_closes s n l (Z.to_nat (n - l - 1))) as Hw.
    rewrite !Z2Nat.id in Hw by lia. replace (l + 1 + (n - l - 1)) with n in Hw by lia.
    etrans; [apply Hw; [done|lia]|]. rewrite <- Hph. by destruct s.
  - unfold parents. replace (n - l - 1) with 0 by lia. cbn. rewrite <- Hph. by destruct s.
Qed.
End Stream.

(** ** A stream with gaps

    A chain whose blocks change a setting; the subscription starts at block 12, the
    events of it fail to be fetched once, and it is lost before block 14. *)

Definition toy_final (n : Height) : CcBlock :=
  mkCcBlock n (n + 1000) (n + 999) [AttestationEvent (AttestationIntervalChanged 1 n); OtherEvent].

#[local] Instance toy_finalized : FinalizedChain toy_final.
Proof. constructor; [done|]. intros n _. cbn. lia. Qed.

Definition toy_replies : list Reply :=
  [Delivered (toy_final 12); FetchFailed false; HeadEvents (bl_events (toy_final 12)); ParentFetched (toy_final 11);
   Delivered (toy_final 12); SubscriptionLost; Resubscribed false; Resubscribed true].

Lemma stream_yields_every_block_witness :
  (stream_run [1] (StreamCC3_new (Some 10)) toy_replies).2 =
    [(11, [CcAttestationIntervalChanged 1 11]); (12, [CcAttestationIntervalChanged 1 12])] /\
  st_latest (stream_run [1] (stream_run [1] (StreamCC3_new (Some 10)) toy_replies).1
    (Delivered (toy_final 14) :: HeadEvents (bl_events (toy_final 14)) :: parents toy_final 12 14)).1 = Some 14.
Proof.
  destruct (stream_yields_every_block [1] toy_final 10 toy_replies
    (stream_run [1] (StreamCC3_new (Some 10)) toy_replies).1 (stream_run [1] (StreamCC3_new (Some 10)) toy_replies).2)
    as (l & Hl & _ & Hout & Hcatch).
  - done.
  - split; [by exists 12|]. do 2 (split; [done|]). split; [intros n _; cbn; intros Hn; f_equal; lia|].
    split; [by exists 12|]. done.
  - apply surjective_pairing.
  - assert (l = 12) as -> by (vm_compute in Hl; by injection Hl).
    split; [rewrite Hout; reflexivity|]. by rewrite Hcatch.
Defined.
