(* ===== verification/Announced.v ===== *)
(** * What the pallet's events announce

    A cache of one chain's attestations and checkpoints that replays the pallet's
    events keeps to what the pallet stores: attestations that are stored, above the
    last checkpoint, and checkpoints that are stable. A commit evicts attestations
    without an event of their own; the checkpoints it announces cover them. *)

From stdpp Require Import prelude gmap list sorting strings.
From Stdlib Require Import ZArith Lia.
From S2P Require Import Prelude Primitives Merkle Frame SupportedChains Types Ledger Roster Settings Validate Checkpoints Maintenance.
From S2P Require Import LadderFrame LadderSpec History LadderRefine MaintRefine Pallet.
From S2P Require Import ProofSource MerkleCache ServerState.

(** ** Replaying events *)

(** The attestations and the checkpoints that are cached for a chain. *)
Definition Caches : Type := gmap Height Digest * gmap Height Digest.

(** What an event does to them, with at most [cap] checkpoints. *)
Definition track (cap : option nat) (ck : ChainKey) (c : Caches) (e : Event) : Caches :=
  match e with
  | BlockAttested k h d => if k =? ck then (<[h := d]> c.1, c.2) else c
  | CheckpointReached k cp =>
      if k =? ck then
        let cps := <[cp_block_number cp := cp_digest cp]> c.2 in
        (from (saturating_add 64 (cp_block_number cp) 1) c.1,
         match cap with Some n => cap_checkpoints n cps | None => cps end)
      else c
  | RevertedAttestationChainTo k h _ =>
      if k =? ck then (below (saturating_add 64 h 1) c.1, below (saturating_add 64 h 1) c.2) else c
  | _ => c
  end.

(** The events that concern a chain's caches. *)
Definition concerns (ck : ChainKey) (e : Event) : Prop :=
  match e with
  | BlockAttested k _ _ | CheckpointReached k _ | RevertedAttestationChainTo k _ _ => k = ck
  | _ => False
  end.

#[export] Instance concerns_dec ck e : Decision (concerns ck e).
Proof. destruct e; cbn; apply _. Defined.

Lemma track_other cap ck c e : ~ concerns ck e -> track cap ck c e = c.
Proof. destruct e; cbn; try done; intros Hk; by rewrite (proj2 (Z.eqb_neq _ _)) by done. Qed.

Lemma track_filter cap ck c es :
  foldl (track cap ck) c (filter (concerns ck) es) = foldl (track cap ck) c es.
Proof.
  revert c. induction es as [|e es IH]; intros c; [done|]. rewrite filter_cons. cbn [foldl].
  case_decide; cbn [foldl]; [apply IH|]. by rewrite track_other.
Qed.

Lemma pop_first_sub {V} (m : gmap Z V) : pop_first m ⊆ m.
Proof. unfold pop_first. destruct (first_key m); [apply delete_subseteq|done]. Qed.

Lemma cap_checkpoints_sub n m : cap_checkpoints n m ⊆ m.
Proof.
  unfold cap_checkpoints. induction (size m - n)%nat as [|k IH]; [done|]. cbn.
  etrans; [apply pop_first_sub|done].
Qed.

(** ** Caches in step with a ladder *)

Section Announced.
Context {C : Type} `{!Currency C} `{Config} `{!ConfigOk} `{Keccak} `{Arch} `{!ArchOk} `{Bls}
  `{FrameStorage Z} `{!FrameStorageLaws Z} `{FrameStorage (Z * Z)}.
Variables (env : Env) (cap : option nat).

(** Twice the widest checkpoint width fits in a [usize]. *)
Hypothesis usize_width : 2 * (MaxChainAttestationInterval * MaxAttestationCheckpointInterval) < 2 ^ usize_bits.
Implicit Types (s : State C) (ck : ChainKey) (tight : bool).

(** The cached attestations are stored, [tight]ly if only those above the last
    checkpoint are cached, and the cached checkpoints can be read. *)
Record synced (tight : bool) (c : Caches) (l : Ladder) : Prop := {
  sy_attestation : forall h d, c.1 !! h = Some d -> l_cursor l = None /\
    (exists a, l_attestations l !! d = Some a /\ sa_header_number a = h) /\
    (tight = true -> forall cp, l_last l = Some cp -> cp_block_number cp < h);
  sy_checkpoint : forall h d, c.2 !! h = Some d -> stable_read l h = Some d;
}.

(** Only these parts of a ladder matter. *)
Lemma synced_loose tight c l : synced true c l -> synced tight c l.
Proof. intros [Ha Hk]. constructor; [|done]. intros h d Hd. apply Ha in Hd as (? & ? & Hl). auto. Qed.

Lemma synced_frame tight c l l' :
  l_attestations l' = l_attestations l -> l_cursor l' = l_cursor l -> l_last l' = l_last l ->
  l_checkpoints l' = l_checkpoints l -> l_pruning l' = l_pruning l -> synced tight c l -> synced tight c l'.
Proof.
  intros Ea Ec El Ek Ep [Ha Hk]. constructor; intros h d Hh.
  - rewrite Ea, Ec, El. by apply Ha.
  - unfold stable_read. rewrite Ep, Ek. by apply Hk.
Qed.

Lemma synced_attested tight c l att :
  synced tight c l -> l_cursor l = None -> l_attestations l !! sa_digest att = None ->
  (forall cp, l_last l = Some cp -> cp_block_number cp < sa_header_number att) ->
  synced tight (<[sa_header_number att := sa_digest att]> c.1, c.2) (attested_ladder l att).
Proof.
  intros [Ha Hk] Hcur Hfresh Hlast. constructor; cbn.
  - intros h d. rewrite lookup_insert. case_decide as Hh.
    + intros [= <-]. split_and!; [done| |intros _; by subst h]. exists att. by rewrite lookup_insert_eq.
    + intros Hd. apply Ha in Hd as (_ & (a & Hat & Hn) & Hl). split_and!; [done| |done].
      exists a. split; [|done]. rewrite lookup_insert_ne by congruence. done.
  - apply Hk.
Qed.

Lemma synced_record tight ck c l cp :
  synced tight c l -> l_pruning l = None -> 0 <= cp_block_number cp < umax 64 ->
  synced true (track cap ck c (CheckpointReached ck cp)) (record cp l).
Proof.
  intros [Ha Hk] Hpr Hn. cbn. rewrite Z.eqb_refl. constructor; cbn.
  - intros h d [Hd Hle]%map_lookup_filter_Some. cbn in Hle. apply Ha in Hd as (? & ? & _).
    split_and!; [done|done|]. intros _ x [= <-]. unfold saturating_add in Hle. cbn. lia.
  - intros h d Hd. unfold stable_read. cbn. rewrite Hpr.
    assert (<[cp_block_number cp := cp_digest cp]> c.2 !! h = Some d) as Hin.
    { destruct cap as [n|]; [|done]. by apply (lookup_weaken _ _ _ _ Hd), cap_checkpoints_sub. }
    revert Hin. rewrite !lookup_insert. case_decide; [done|]. intros Hin%Hk. unfold stable_read in Hin.
    by rewrite Hpr in Hin.
Qed.

(** Attestations may go at or below the last checkpoint. *)
Lemma synced_evict c l l' :
  synced true c l -> l_cursor l' = l_cursor l -> l_last l' = l_last l ->
  l_checkpoints l' = l_checkpoints l -> l_pruning l' = l_pruning l ->
  (forall d a, l_attestations l !! d = Some a -> l_attestations l' !! d = Some a \/
     exists cp, l_last l = Some cp /\ sa_header_number a <= cp_block_number cp) ->
  synced true c l'.
Proof.
  intros [Ha Hk] Ec El Ek Ep Hev. constructor; intros h d Hh.
  - apply Ha in Hh as (Hcur & (a & Hat & Hn) & Hl). rewrite Ec, El. split_and!; [done| |done].
    destruct (Hev d a Hat) as [?|(cp & Hcp & Hle)]; [by exists a|]. specialize (Hl eq_refl cp Hcp). lia.
  - unfold stable_read. rewrite Ep, Ek. by apply Hk.
Qed.

(** What the pallet deposits for a chain, and that replaying it keeps the caches
    in step. *)
Definition log ck s : list Event := filter (concerns ck) (events s).

Definition follows tight tight' ck s s' : Prop :=
  exists es, log ck s' = log ck s ++ es /\
    forall c, synced tight c (ladder_of ck s) -> synced tight' (foldl (track cap ck) c es) (ladder_of ck s').

Lemma follows_quiet tight ck s s' :
  log ck s' = log ck s -> (forall c, synced tight c (ladder_of ck s) -> synced tight c (ladder_of ck s')) ->
  follows tight tight ck s s'.
Proof. intros Hl Hs. exists []. by rewrite app_nil_r. Qed.

Lemma follows_refl tight ck s : follows tight tight ck s s.
Proof. by apply follows_quiet. Qed.

Lemma follows_trans t1 t2 t3 ck s1 s2 s3 : follows t1 t2 ck s1 s2 -> follows t2 t3 ck s2 s3 -> follows t1 t3 ck s1 s3.
Proof.
  intros (e1 & L1 & F1) (e2 & L2 & F2). exists (e1 ++ e2). split; [by rewrite L2, L1, <- app_assoc|].
  intros c Hc. rewrite foldl_app. auto.
Qed.

Lemma follows_loose t t' ck s s' : follows t true ck s s' -> follows t t' ck s s'.
Proof. intros (es & Hl & Hf). exists es. split; [done|]. intros c Hc. by apply synced_loose, Hf. Qed.

Lemma follows_event t t' ck s s' e :
  concerns ck e -> events s' = events s ++ [e] ->
  (forall c, synced t c (ladder_of ck s) -> synced t' (track cap ck c e) (ladder_of ck s')) -> follows t t' ck s s'.
Proof.
  intros He Hev Hs. exists [e]. split; [|done]. unfold log. rewrite Hev, filter_app. f_equal.
  by rewrite filter_cons_True.
Qed.

(** ** The parts of a commit *)

Lemma store_follows tight att s u s' :
  let ck := sa_chain_key att in let l := ladder_of ck s in
  store_attestation env att s = (Ok u, s') -> l_cursor l = None -> l_attestations l !! sa_digest att = None ->
  (forall h d, l_head l = Some (h, d) -> h < sa_header_number att) ->
  (forall cp, l_last l = Some cp -> cp_block_number cp < sa_header_number att) -> follows tight tight ck s s'.
Proof.
  intros ck l Hrun Hcur Hfresh Hhead Hlast.
  destruct (store_attestation_run env att s u s' Hrun Hhead) as (Hl & _).
  apply (follows_event _ _ ck s s' (BlockAttested ck (sa_header_number att) (sa_digest att))); [done| |].
  - unfold store_attestation in Hrun. do 5 step_inv Hrun. injection Hrun as _ <-. cbn.
    repeat case_match; done.
  - intros c Hc. fold ck in Hl. rewrite Hl. cbn [track]. rewrite Z.eqb_refl.
    eapply (synced_frame tight); [..|by apply (synced_attested tight c l att)]; done.
Qed.

Lemma record_follows tight ck cp s u s' :
  record_checkpoint ck cp s = (Ok u, s') -> l_pruning (ladder_of ck s) = None ->
  0 <= cp_block_number cp < umax 64 -> follows tight true ck s s'.
Proof.
  intros Hrun Hpr Hn. destruct (record_checkpoint_run ck cp s) as (t & Hrun' & Hl & _).
  rewrite Hrun in Hrun'. injection Hrun' as -> <-.
  apply (follows_event _ _ ck s s' (CheckpointReached ck cp)); [done| |].
  - injection Hrun as <-. done.
  - intros c Hc. rewrite Hl. by apply (synced_record tight).
Qed.

(** The newest digest of the queue stays. *)
Lemma remove_oldest_keeps ck ret queue s q s' :
  remove_oldest ck ret queue s = (Ok q, s') -> 1 <= ret ->
  forall d a, row (Attestations s) ck !! d = Some a -> row (Attestations s') ck !! d = Some a \/
    exists i, queue !! i = Some d /\ (S i < length queue)%nat.
Proof.
  intros Hrun Hret. revert s Hrun. induction queue as [|x queue IH]; intros s Hrun d a Hd; cbn [remove_oldest] in Hrun.
  { change (zlen []) with 0 in Hrun. rewrite (proj2 (Z.ltb_ge _ _)) in Hrun by lia. run_inv. by left. }
  destruct (Z.ltb_spec ret (zlen (x :: queue))) as [Hlt|Hge]; [|run_inv; by left].
  apply bind_ok in Hrun as (u1 & s1 & Hm & Hrun). apply modify_ok in Hm as ->.
  unfold zlen in Hlt. cbn in Hlt.
  destruct (decide (d = x)) as [->|Hne]; [right; exists 0%nat; split; [done|cbn; lia]|].
  destruct (IH _ Hrun d a) as [?|(i & Hi & Hl)]; [|by left|right; exists (S i); split; [done|cbn; lia]].
  cbn. rewrite row_dremove, decide_True by done. by rewrite lookup_delete_ne.
Qed.

Lemma remove_follows ck queue s u s' :
  remove_attestations ck queue s = (Ok u, s') -> 1 <= attestation_retention_duration s ck ->
  (forall i d a, queue !! i = Some d -> (S i < length queue)%nat -> l_attestations (ladder_of ck s) !! d = Some a ->
     exists cp, l_last (ladder_of ck s) = Some cp /\ sa_header_number a <= cp_block_number cp) ->
  follows true true ck s s'.
Proof.
  intros Hrun Hret Hev. apply follows_quiet.
  { refine (remove_attestations_leaves (log ck) ck queue _ _ _ _ _ Hrun); done. }
  destruct (remove_attestations_run ck queue s u s' Hrun Hret) as (_ & Hck & _).
  intros c Hc. apply (synced_evict c (ladder_of ck s)); [done|by rewrite Hck..|].
  intros d a Hd. unfold remove_attestations in Hrun. apply transactional_ok in Hrun.
  step_inv Hrun. step_inv Hrun. run_inv.
  destruct (remove_oldest_keeps ck _ _ _ _ _ Hstep Hret d a Hd) as [?|(i & Hi & Hl)]; [by left|right; eauto].
Qed.

(** ** Order *)

(** Retained attestations are ordered by their heights. *)
Lemma retained_before l i j d1 d2 a1 a2 :
  ladder_inv l -> l_cursor l = None -> (i < j)%nat -> retained l !! i = Some d1 -> retained l !! j = Some d2 ->
  l_attestations l !! d1 = Some a1 -> l_attestations l !! d2 = Some a2 ->
  sa_header_number a1 < proof_start a2 <= sa_header_number a2.
Proof.
  intros Hinv Hcur Hij. revert d2 a2. induction Hij as [|j Hij IH]; intros d2 a2 Hi Hj H1' H2'.
  { by eapply (li_order l Hinv i). }
  assert (j < length (retained l))%nat as [d Hd]%lookup_lt_is_Some by (apply lookup_lt_Some in Hj; lia).
  assert (is_Some (l_attestations l !! d)) as [a Ha].
  { apply (li_queue l Hinv Hcur). by eapply list_elem_of_lookup_2. }
  specialize (IH d a Hi Hd H1' Ha). pose proof (li_order l Hinv j d d2 a a2 Hd Hj Ha H2'). lia.
Qed.

(** What a checkpoint from the queue covers: the attestations it moves, or, if it
    moves none, everything before the first one. *)
Lemma condense_covers s ck target queue rollback removal cp q' removal' :
  condense_queue s ck target queue rollback removal = Ok (cp, q', removal') ->
  exists moved, queue = moved ++ q' /\ removal' = removal ++ moved /\ cp_block_number cp = target /\
    (forall d, d ∈ moved -> exists a, dget (Attestations s) ck d = Some a /\ sa_header_number a <= target) /\
    (moved = [] -> exists d q a, q' = d :: q /\ dget (Attestations s) ck d = Some a /\ proof_start a <= target).
Proof.
  revert rollback removal. induction queue as [|d queue IH]; intros rollback removal; cbn [condense_queue]; [done|].
  destruct (dget (Attestations s) ck d) as [a|] eqn:Hd; [|done].
  destruct (Z.compare_spec (sa_header_number a) target) as [<-|Hlt|Hgt].
  - intros [= <- <- <-]. exists [d]. split_and!; [done..| |done].
    intros x ->%list_elem_of_singleton. exists a. split; [done|lia].
  - intros (moved & -> & -> & Hcp & Hm & _)%IH. exists (d :: moved). rewrite <- app_assoc. split_and!; [done..| |done].
    intros x [->|Hx]%elem_of_cons; [exists a; split; [done|lia]|by apply Hm].
  - destruct (digest_for_block _ _ _) as [e|] eqn:He; [|done]. intros [= <- <- <-]. exists [].
    rewrite app_nil_r. split_and!; [done..|by intros x ?%elem_of_nil|]. intros _. exists d, queue, a.
    split_and!; [done..|]. unfold digest_for_block in He. fold (proof_start a) in He.
    destruct (Z.ltb_spec target (proof_start a)); [done|lia].
Qed.

(** So it covers what the removal queue holds then. *)
Lemma condensed_below s ck target queue rollback cp q' removal' i d a :
  let l := ladder_of ck s <| l_queue := queue |> in
  ladder_inv l -> l_cursor l = None ->
  condense_queue s ck target queue rollback (l_removal l) = Ok (cp, q', removal') ->
  removal' !! i = Some d -> l_attestations l !! d = Some a -> sa_header_number a <= target.
Proof.
  intros l Hinv Hcur (moved & Hq & -> & _ & Hmoved & Hnone)%condense_covers Hi Ha.
  apply lookup_app_Some in Hi as [Hi|[_ Hi]].
  2: { destruct (Hmoved d) as (a' & Ha' & Hle); [by eapply list_elem_of_lookup_2|].
    change (l_attestations l !! d = Some a') in Ha'. congruence. }
  assert (forall d' q a', queue = d' :: q -> dget (Attestations s) ck d' = Some a' ->
    sa_header_number a < proof_start a' <= sa_header_number a') as Hord.
  { intros d' q a' -> Ha'. apply lookup_lt_Some in Hi as Hlt.
    refine (retained_before l i (length (l_removal l)) d d' a a' Hinv Hcur Hlt _ _ Ha Ha'); unfold retained.
    - by rewrite lookup_app_l.
    - by rewrite lookup_app_r, Nat.sub_diag. }
  destruct moved as [|m moved].
  - destruct Hnone as (d' & q & a' & Hq' & Ha' & Hle); [done|].
    specialize (Hord d' q a' ltac:(by rewrite Hq) Ha'). lia.
  - destruct (Hmoved m) as (a' & Ha' & Hle); [by left|]. specialize (Hord m _ a' Hq Ha'). lia.
Qed.

Lemma try_make_follows tight queue ck header s r s' :
  try_make_checkpoint queue ck header s = (r, s') ->
  settings_ok s ck -> 1 <= attestation_retention_duration s ck -> is_u64 header ->
  ladder_inv (ladder_of ck s <| l_queue := queue |>) ->
  l_cursor (ladder_of ck s) = None -> l_pruning (ladder_of ck s) = None ->
  follows tight tight ck s s'.
Proof.
  intros Hrun Hset Hret Hu Hinv Hcur Hpr.
  destruct r as [q|[e q]]; [|apply try_make_err in Hrun as [_ ->]; [apply follows_refl|lia]].
  destruct (try_make_inv _ _ _ _ _ _ Hrun Hset Hu Hinv) as [[_ ->]|(cp & cp' & target & removal & s1 &
    Hcp & Hlow & Hhigh & Hcond & Hrec & Hrem & Hl1 & _ & Hret1)]; [apply follows_refl|].
  assert (cp_block_number cp' = target) as Hnum by (by apply condense_covers in Hcond as (? & _ & _ & ? & _)).
  unfold is_u64 in Hu. rewrite pow2_64 in Hu. apply follows_loose.
  eapply follows_trans; [eapply record_follows; [exact Hrec|done|rewrite umax_64; lia]|].
  apply (remove_follows ck _ s1 _ _ Hrem); [by rewrite Hret1|]. rewrite Hl1.
  intros i d a Hi _ Ha. eexists. split; [done|]. cbn. rewrite Hnum. by eapply condensed_below.
Qed.

(** ** Every checkpoint of a commit *)

Lemma boundary_follows tight fuel ck w head digests b s b' s' :
  boundary_loop fuel ck w head digests b s = (Ok b', s') ->
  0 < w -> head < umax 64 -> 0 <= b <= head -> l_pruning (ladder_of ck s) = None ->
  (exists cp, l_last (ladder_of ck s) = Some cp /\ cp_block_number cp = b) ->
  follows tight (tight || negb (b' =? b)) ck s s' /\ b <= b' /\ head - w < b' /\ exists cp, l_last (ladder_of ck s') = Some cp /\ cp_block_number cp = b'.
Proof.
  intros Hrun Hw Hmax. revert tight b s Hrun.
  induction fuel as [|fuel IH]; intros tight b s Hrun Hb Hpr Hcp; [done|].
  pose proof (boundary_loop_room _ _ _ _ _ _ _ _ _ Hrun Hw ltac:(lia)) as Hroom. cbn [boundary_loop] in Hrun.
  cbv zeta in Hrun. rewrite next_target_sub in Hrun by lia. set (t := saturating_add 64 b w - _) in *.
  destruct (Z.ltb_spec head t) as [Hgt|Hle].
  { run_inv. rewrite Z.eqb_refl, orb_false_r. split_and!; [apply follows_refl|lia| |done].
    pose proof (Z.mod_pos_bound (saturating_add 64 b w) w Hw). unfold t, saturating_add in *. lia. }
  destruct (next_target_spec b w) as [Htgt _]; [lia|done|by apply Hroom|]. fold t in Htgt.
  step_inv Hrun. rename x into d. apply bind_ok in Hrun as (u & s1 & Hrec & Hrun).
  destruct (record_checkpoint_run ck (mkCheckpoint t d) s) as (s1' & Hrec' & Hl1 & _).
  rewrite Hrec in Hrec'. injection Hrec' as -> ->.
  destruct (IH true t s1' Hrun) as (Hf & Hge & Hlow & Hlast); [lia|by rewrite Hl1|rewrite Hl1; by eexists|].
  split_and!; [|lia|done..]. apply follows_loose. eapply follows_trans; [|exact Hf].
  eapply record_follows; [exact Hrec|done|cbn; rewrite umax_64 in *; lia].
Qed.

(** Nothing retained is above the head. *)
Lemma retained_to_head l i d a hh hd :
  ladder_inv l -> l_cursor l = None -> l_head l = Some (hh, hd) -> retained l !! i = Some d ->
  l_attestations l !! d = Some a -> sa_header_number a <= hh.
Proof.
  intros Hinv Hcur Hhd Hi Ha. destruct (li_known l Hinv hh hd Hhd) as [[Hlast (a' & Ha' & <-)]|[_ Hr]];
    [|by rewrite Hr in Hi]. rewrite last_lookup in Hlast. apply lookup_lt_Some in Hi as Hlt.
  destruct (decide (i = pred (length (retained l)))) as [->|Hne]; [simplify_eq; lia|].
  pose proof (retained_before l i (pred (length (retained l))) d hd a a' Hinv Hcur ltac:(lia) Hi Hlast Ha Ha'). lia.
Qed.

Lemma delete_queue_follows t t' ck s s1 : follows t t' ck s s1 -> follows t t' ck s (s1 <| CheckpointingQueues ::= delete ck |>).
Proof.
  intros Hf. eapply follows_trans; [exact Hf|]. apply follows_quiet; [done|].
  intros c. rewrite ladder_of_delete_queue, decide_True by done. by apply synced_frame.
Qed.

Lemma checkpoint_at_follows tight ck header digest q s u s' :
  checkpoint_at_attestation ck header digest q s = (Ok u, s') ->
  let l := ladder_of ck s <| l_queue := q |> in
  1 <= attestation_retention_duration s ck -> 0 <= header < umax 64 -> ladder_inv l ->
  l_cursor l = None -> l_pruning l = None -> l_head l = Some (header, digest) -> follows tight tight ck s s'.
Proof.
  intros Hrun l Hret Hu Hinv Hcur Hpr Hhd. unfold checkpoint_at_attestation in Hrun.
  apply bind_ok in Hrun as (u1 & s1 & Hrec & Hrun).
  destruct (record_checkpoint_run ck (mkCheckpoint header digest) s) as (s1' & Hrec' & Hl1 & _).
  rewrite Hrec in Hrec'. injection Hrec' as _ <-. do 2 step_inv Hrun.
  left_alone (fun s : State C => (attestation_retention_duration s ck, attestation_removal_queue s ck)) Hrec Hv.
  injection Hv as Hret1 Hrem1.
  change (attestation_removal_queue (s1 <| CheckpointingQueues ::= delete ck |>) ck)
    with (attestation_removal_queue s1 ck) in Hrun. rewrite Hrem1 in Hrun.
  apply follows_loose. eapply follows_trans; [apply delete_queue_follows; eapply record_follows; [exact Hrec|done|done]|].
  apply (remove_follows ck _ _ _ _ Hrun); [change (1 <= attestation_retention_duration s1 ck); by rewrite Hret1|].
  rewrite ladder_of_delete_queue, decide_True, Hl1 by done.
  intros i d a Hi _ Ha. eexists. split; [done|]. cbn. by eapply (retained_to_head l).
Qed.

Lemma catch_up_follows tight ck att queue s b s' :
  create_checkpoints_from_queue ck att (sa_digest att) queue s = (Ok b, s') ->
  let l := ladder_of ck s <| l_queue := queue ++ [sa_digest att] |> in
  settings_ok s ck -> 1 <= attestation_retention_duration s ck ->
  0 <= sa_header_number att < umax 64 ->
  2 * checkpoint_width s ck <= zlen (roots (sa_continuity_proof att)) ->
  ladder_inv l -> l_cursor l = None -> l_pruning l = None ->
  l_attestations l !! sa_digest att = Some att -> l_head l = Some (sa_header_number att, sa_digest att) ->
  follows tight tight ck s s'.
Proof.
  intros Hrun l Hset Hret Hmax Hlong Hinv Hcur Hpr Hatt Hhd. destruct (width_ok s ck Hset) as [Hw _].
  unfold create_checkpoints_from_queue in Hrun. apply transactional_ok in Hrun.
  do 4 step_inv Hrun. cbv zeta in Hrun. do 2 step_inv Hrun. rename x into cp.
  assert (l_last l = Some cp) as Hcp by done. apply bind_ok in Hrun as (b' & s1 & Hloop & Hrun).
  assert (is_u64 (cp_block_number cp)) as [Hnn _].
  { apply (li_u64 _ Hinv). by rewrite (li_last _ Hinv cp Hcp). }
  destruct (boundary_follows tight _ _ _ _ _ _ _ _ _ Hloop) as (Hf & Hge & Hlow & cp' & Hcp' & Hnum); try done.
  { lia. }
  { by pose proof (li_head _ Hinv _ _ _ Hcp Hhd). }
  { by exists cp. }
  pose proof (fun T (v : State C -> T) Hv => boundary_loop_leaves v _ _ _ _ _ _ Hv _ _ _ Hloop) as Hfr.
  destruct (negb (b' =? cp_block_number cp)); [|run_inv; by rewrite orb_false_r in Hf].
  rewrite orb_true_r in Hf.
  apply bind_ok in Hrun as (u & s2 & Hrem & Hrun). run_inv. apply delete_queue_follows, follows_loose.
  eapply follows_trans; [exact Hf|]. apply (remove_follows ck _ _ _ _ Hrem).
  { rewrite (Hfr _ (fun s => attestation_retention_duration s ck)); [done|leaves]. }
  intros i d x Hi Hlast Hx. exists cp'. split; [done|]. rewrite Hnum.
  assert (row (Attestations s1) ck = row (Attestations s) ck) as Hsame by (apply (Hfr _ (fun s => row (Attestations s) ck)); leaves).
  change (row (Attestations s1) ck !! d = Some x) in Hx. rewrite Hsame in Hx.
  change (retained l !! i = Some d) in Hi. change (S i < length (retained l))%nat in Hlast.
  assert (sa_header_number x < proof_start att) as Hbefore.
  { refine (proj1 (retained_before l i (pred (length (retained l))) d (sa_digest att) x att Hinv Hcur _ Hi _ Hx Hatt)); [lia|].
    rewrite <- last_lookup. unfold retained, l. cbn. by rewrite app_assoc, last_snoc. }
  unfold proof_start, start_block_number, saturating_sub in Hbefore. lia.
Qed.

Lemma continuity_follows tight ck att s b s' :
  create_checkpoints_from_continuity_proof ck att (sa_digest att) s = (Ok b, s') ->
  let l := ladder_of ck s <| l_queue := checkpointing_queue s ck ++ [sa_digest att] |> in
  settings_ok s ck -> 1 <= attestation_retention_duration s ck ->
  0 <= sa_header_number att < umax 64 ->
  ladder_inv l -> l_cursor l = None -> l_pruning l = None ->
  l_attestations l !! sa_digest att = Some att -> l_head l = Some (sa_header_number att, sa_digest att) ->
  follows tight tight ck s s'.
Proof.
  intros Hrun l Hset. intros. unfold create_checkpoints_from_continuity_proof in Hrun.
  destruct (is_empty_proof _); [run_inv; apply follows_refl|]. do 2 step_inv Hrun.
  destruct (width_ok s ck Hset) as [Hw _].
  assert (2 * checkpoint_width s ck < 2 ^ usize_bits) as Husz.
  { pose proof (so_interval _ _ Hset). pose proof (so_checkpoint _ _ Hset). unfold checkpoint_width, saturating_mul.
    assert (chain_attestation_interval s ck * attestation_checkpoint_interval s ck <=
      MaxChainAttestationInterval * MaxAttestationCheckpointInterval) by (apply Z.mul_le_mono_nonneg; lia). lia. }
  rewrite (wrap_small _ (checkpoint_width s ck)), (wrap_small _ (2 * checkpoint_width s ck)) in Hrun by lia.
  destruct (Z.ltb_spec (zlen (roots (sa_continuity_proof att))) (2 * checkpoint_width s ck)); [run_inv; apply follows_refl|].
  step_inv Hrun. by eapply catch_up_follows.
Qed.

Lemma queue_follows tight ck header digest s u s' :
  queue_attestation ck header digest s = (Ok u, s') ->
  let l := ladder_of ck s <| l_queue := checkpointing_queue s ck ++ [digest] |> in
  settings_ok s ck -> 1 <= attestation_retention_duration s ck -> 0 <= header < umax 64 -> ladder_inv l ->
  l_cursor l = None -> l_pruning l = None -> l_head l = Some (header, digest) -> follows tight tight ck s s'.
Proof.
  intros Hrun l Hset Hret Hu Hinv Hcur Hpr Hhd. unfold queue_attestation in Hrun.
  assert (is_u64 header) as Hu64 by (unfold is_u64; rewrite umax_64 in Hu; rewrite pow2_64; lia).
  step_inv Hrun. apply bind_ok in Hrun as (q & s1 & Htry & Hrun).
  destruct (try_make_checkpoint _ ck header s) as [r s1'] eqn:Hmk in Htry.
  assert (s1' = s1) as -> by (destruct r as [|[]]; by injection Htry).
  pose proof (try_make_leaves _ _ ck _ _ _ _ Hmk) as Hview. injection Hview as Hv1 Hv2 Hv3 Hv4.
  eapply follows_trans; [by eapply try_make_follows|].
  destruct (Z.ltb_spec MaxCheckpointingQueueLen (zlen q)).
  - apply (checkpoint_at_follows _ ck header digest q s1 u s' Hrun); [by rewrite Hv4|done| |cbn in *; congruence..].
    destruct r as [q'|[e q']]; injection Htry as ->.
    + destruct (try_make_ok _ _ _ _ _ _ Hmk Hset Hret Hu64 Hinv Hcur Hpr) as (Hst & _); [by eexists|].
      by eapply ladder_steps_inv.
    + apply try_make_err in Hmk as [-> ->]; [|lia]. done.
  - run_inv. apply follows_quiet; [done|]. intros c. apply synced_frame; by ladder_eval.
Qed.

Lemma first_follows tight ck header digest s u s' :
  first_checkpoint ck header digest s = (Ok u, s') -> l_pruning (ladder_of ck s) = None ->
  0 <= header < umax 64 -> follows tight tight ck s s'.
Proof.
  intros Hrun Hpr Hu. unfold first_checkpoint in Hrun. do 2 step_inv Hrun.
  apply bind_ok in Hrun as (u1 & s1 & Hrec & Hrun). apply modify_ok in Hrun as ->.
  apply follows_loose. eapply follows_trans; [by eapply record_follows|]. apply follows_quiet; [done|].
  intros c. apply synced_frame; by ladder_eval.
Qed.

Lemma advance_follows tight att s u s' :
  let ck := sa_chain_key att in
  let l := ladder_of ck s <| l_queue := checkpointing_queue s ck ++ [sa_digest att] |> in
  (caught_up ← create_checkpoints_from_continuity_proof ck att (sa_digest att);
   if caught_up : bool then mret tt
   else queue_attestation ck (sa_header_number att) (sa_digest att)) s = (Ok u, s') ->
  settings_ok s ck -> 1 <= attestation_retention_duration s ck ->
  0 <= sa_header_number att < umax 64 ->
  ladder_inv l -> l_cursor l = None -> l_pruning l = None ->
  l_attestations l !! sa_digest att = Some att -> l_head l = Some (sa_header_number att, sa_digest att) ->
  follows tight tight ck s s'.
Proof.
  intros ck l Hrun Hset Hret Hmax Hinv Hcur Hpr Hatt Hhd. destruct (width_ok s ck Hset) as [Hw _].
  apply bind_ok in Hrun as (b & s1 & Hcat & Hrun).
  destruct b; [run_inv; by eapply continuity_follows|].
  assert (exists cp, l_last l = Some cp) as [cp Hcp].
  { destruct (l_last l) as [cp|] eqn:Hcp; [by exists cp|]. destruct (li_none _ Hinv Hcp) as (_ & Hh & _). congruence. }
  destruct (continuity_checkpoints_ok ck att s false s1 cp (sa_digest att) Hcat) as [_ Hs]; try done.
  { unfold is_u64. rewrite umax_64, pow2_64 in *. lia. }
  { intros d x Hx. by apply (li_key _ Hinv). }
  { split; [|exact (li_head _ Hinv _ _ _ Hcp Hhd)]. apply (li_u64 _ Hinv). by rewrite (li_last _ Hinv cp Hcp). }
  subst s1. by apply (queue_follows _ ck _ _ _ _ _ Hrun).
Qed.

Lemma commit_follows tight att s u s' :
  let ck := sa_chain_key att in
  do_commit_attestation env att s = (Ok u, s') ->
  settings_ok s ck -> 1 <= attestation_retention_duration s ck ->
  0 <= sa_header_number att < umax 64 ->
  ladder_inv (ladder_of ck s) -> follows tight tight ck s s'.
Proof.
  intros ck Hrun Hset Hret Hmax Hinv.
  assert (is_u64 (sa_header_number att)) as Hu by (unfold is_u64; rewrite umax_64, pow2_64 in *; lia).
  destruct (commit_start env att s u s' Hrun Hu Hinv)
    as (u1 & s1 & Hsto & Hcur & Hpr & Hfresh & Hhead & Hlast & Hl1 & _ & Hv1 & Hret1 & Hrest).
  eapply follows_trans; [by apply (store_follows tight att s u1 s1 Hsto)|].
  fold ck in Hl1, Hv1, Hret1, Hrest |- *. set (l := ladder_of ck s) in *.
  destruct Hrest as [(_ & _ & _ & Hfirst)|(cp & _ & Hatt & Hadv)].
  { apply (first_follows _ ck _ _ _ _ _ Hfirst); [by rewrite Hl1|lia]. }
  assert (ladder_of ck s1 <| l_queue := checkpointing_queue s1 ck ++ [sa_digest att] |> = attested_ladder l att) as Hl1'.
  { change (checkpointing_queue s1 ck) with (l_queue (ladder_of ck s1)). by rewrite Hl1. }
  pose proof (ladder_step_inv _ _ Hatt Hinv) as Hinv1. apply (settings_ok_frame ck s s1 Hv1) in Hset as Hset1.
  apply (advance_follows _ att s1 u s' Hadv); fold ck; rewrite ?Hl1', ?Hret1, ?(width_frame ck s s1 Hv1); try done.
  apply lookup_insert_eq.
Qed.

(** ** Operators *)

Lemma pivot_below_top h : is_u64 h -> compute_block_index_for h < umax 64.
Proof.
  unfold is_u64. intros Hu. rewrite pivot_eq, umax_64. rewrite pow2_64 in Hu.
  unfold CHECKPOINT_BUCKET_SIZE. pose proof (Z.mul_div_le h 1000 ltac:(done)). lia.
Qed.

Lemma synced_put tight ck c l cp :
  synced tight c l -> (forall st, l_pruning l = Some st -> compute_block_index_for (cp_block_number cp) < ps_next_pivot st) ->
  synced tight (track cap ck c (CheckpointReached ck cp)) (put_checkpoint (cp_block_number cp) (cp_digest cp) l).
Proof.
  intros [Ha Hk] Hst. cbn. rewrite Z.eqb_refl. constructor; cbn.
  - intros h d [Hd _]%map_lookup_filter_Some. by apply Ha.
  - intros h d Hd. apply stable_read_some. cbn.
    assert (<[cp_block_number cp := cp_digest cp]> c.2 !! h = Some d) as Hin.
    { destruct cap as [n|]; [|done]. by apply (lookup_weaken _ _ _ _ Hd), cap_checkpoints_sub. }
    revert Hin. rewrite !lookup_insert. case_decide as Hh; [intros [= <-]; subst h; auto|].
    intros Hin%Hk. by apply stable_read_some.
Qed.

Lemma store_one_follows {A} tight ck cp (a x : A) s s' :
  (insert_checkpoint ck cp;; deposit_event (CheckpointReached ck cp);; mret a : PM C A) s = (Ok x, s') ->
  (forall st, l_pruning (ladder_of ck s) = Some st -> compute_block_index_for (cp_block_number cp) < ps_next_pivot st) ->
  follows tight tight ck s s'.
Proof.
  intros Hrun Hst. destruct (store_one_ok ck cp a x s s' Hrun) as (_ & Hl & _).
  apply (follows_event _ _ ck s s' (CheckpointReached ck cp)); [done| |].
  - by injection Hrun as _ <-.
  - intros c Hc. rewrite Hl. by apply synced_put.
Qed.

(** A checkpoint below the last one is read at once, also while pruning. *)
Lemma import_follows_loop tight ck has last new cps s new' s' :
  import_loop ck has last new cps s = (Ok new', s') -> Forall (fun cp => is_u64 (cp_block_number cp)) cps ->
  (forall st h, l_pruning (ladder_of ck s) = Some st -> is_u64 h ->
     exists lc, last = Some lc /\ (h < cp_block_number lc -> compute_block_index_for h < ps_next_pivot st)) ->
  follows tight tight ck s s'.
Proof.
  revert new s. induction cps as [|cp cps IH]; intros new s Hrun Hu Hst; cbn [import_loop] in Hrun.
  { run_inv. apply follows_refl. }
  apply Forall_cons in Hu as [Hcp Hu]. apply bind_ok in Hrun as (new1 & s1 & Hone & Hrun).
  pose proof (import_loop_leaves (fun s : State C => CheckpointPruningStates s !! ck) ck has last new [cp]
    ltac:(intros; leaves) ltac:(intros; leaves) s (Ok new1) s1) as Hpr.
  cbn [import_loop] in Hpr. unfold mbind, M_bind in Hpr. rewrite Hone in Hpr. specialize (Hpr eq_refl).
  eapply follows_trans; [|apply (IH _ _ Hrun Hu); cbn in *; by rewrite Hpr].
  assert (forall nl, (last = None \/ exists lc, last = Some lc /\ cp_block_number cp < cp_block_number lc) ->
    (insert_checkpoint ck cp;; deposit_event (CheckpointReached ck cp);; mret nl : PM C _) s = (Ok new1, s1) ->
    follows tight tight ck s s1) as Hstore.
  { intros nl Hcase Hrun1. apply (store_one_follows _ _ _ _ _ _ _ Hrun1). intros st Hp.
    destruct (Hst st (cp_block_number cp) Hp Hcp) as (lc & Hlc & Hlow). apply Hlow.
    destruct Hcase as [?|(lc' & ? & ?)]; congruence. }
  unfold import_one in Hone. step_inv Hone. case_bool_decide; [run_inv; apply follows_refl|].
  destruct last as [lc|].
  - destruct (Z.leb_spec (cp_block_number lc) (cp_block_number cp)); destruct has;
      first [run_inv; apply follows_refl|apply (Hstore new); [right; by exists lc|exact Hone]].
  - destruct has; [done|]. repeat case_match; (eapply Hstore; [by left|exact Hone]).
Qed.

Lemma import_follows tight origin ck cps s u s' :
  import_checkpoints env origin ck cps s = (Ok u, s') -> Forall (fun cp => is_u64 (cp_block_number cp)) cps ->
  ladder_inv (ladder_of ck s) -> follows tight tight ck s s'.
Proof.
  intros Hrun Hu Hinv. unfold import_checkpoints, do_import_checkpoints in Hrun.
  apply transactional_ok in Hrun. step_inv Hrun. apply transactional_ok in Hrun.
  step_inv Hrun. unfold ensure_supported in Hstep. apply ensure_ok in Hstep as [_ ->].
  do 2 step_inv Hrun. cbv zeta in Hrun. apply bind_ok in Hrun as (new & s1 & Hloop & Hrun).
  eapply follows_trans; [apply (import_follows_loop _ _ _ _ _ _ _ _ _ Hloop Hu)|].
  { intros st h Hpr Hh. change (l_pruning (ladder_of ck s) = Some st) in Hpr.
    destruct (LastCheckpoint s !! ck) as [lc|] eqn:Hlc.
    - exists lc. split; [done|]. intros Hlt. destruct (li_pivot _ Hinv lc st Hlc Hpr) as [_ Hp].
      pose proof (pivot_below_top h Hh). unfold is_u64 in Hh. pose proof (pivot_spec h ltac:(lia)). lia.
    - destruct (li_none _ Hinv Hlc) as (_ & _ & _ & _ & ?). congruence. }
  destruct new as [cp|]; [|run_inv; apply follows_refl].
  apply when_ok in Hrun as [[Hset Hrun]|[_ ->]]; [|apply follows_refl]. apply modify_ok in Hrun as ->.
  assert (LastCheckpoint s !! ck = None) as Hnone.
  { destruct (LastCheckpoint s !! ck) as [lc|] eqn:Hlc; [|done].
    destruct (import_loop_ok _ _ _ _ _ _ _ _ Hloop Hu) as (_ & _ & Hnew); [by rewrite <- Hlc; apply Hinv|done|].
    injection Hnew as ->. cbn in Hset. rewrite Z.ltb_irrefl in Hset. done. }
  pose proof (import_loop_leaves (fun s : State C => (row (Attestations s) ck, AttestationClearingCursors s !! ck))
    _ _ _ _ _ ltac:(intros; leaves) ltac:(intros; leaves) _ _ _ Hloop) as Hv. injection Hv as Hat Hcur.
  apply follows_quiet; [done|]. intros c [Ha Hk]. constructor; [|exact Hk].
  intros h d Hd. apply Ha in Hd as (Hc & (sa & Hx & _) & _). cbn in Hc, Hx. rewrite Hcur in Hc. rewrite Hat in Hx.
  destruct (empty_attestations _ Hinv Hc Hnone) as [He _]. cbn in He. by rewrite He in Hx.
Qed.

Lemma revert_follows origin ck h s u s' :
  revert_to env origin ck h s = (Ok u, s') -> ladder_inv (ladder_of ck s) -> follows true true ck s s'.
Proof.
  intros Hrun Hinv. unfold revert_to in Hrun. apply transactional_ok in Hrun.
  do 2 step_inv Hrun. unfold ensure_supported in Hstep. apply ensure_ok in Hstep as [_ ->].
  do 2 step_inv Hrun. apply idle_split in Hens0 as [Hpr Hcur].
  apply bind_ok in Hrun as (d & s1 & Hrev & Hrun). apply modify_ok in Hrun as ->.
  assert (events s1 = events s) as Hev.
  { refine ((_ : leaves events (do_revert_to ck h)) _ _ _ Hrev). leaves. }
  apply do_revert_run in Hrev as (cp & atts & c' & Hcp & Hlast & Hcl & Hl & _); [|exact (li_buckets _ Hinv)].
  apply (follows_event _ _ ck _ _ (RevertedAttestationChainTo ck h d)); [done|cbn; by rewrite Hev|].
  assert (is_u64 h) as Hu by (apply (li_u64 _ Hinv); by eexists).
  intros c [Ha Hk]. change (ladder_of ck (_ <| events ::= _ |>)) with (ladder_of ck s1). rewrite Hl.
  cbn [track]. rewrite Z.eqb_refl. constructor; cbn [fst snd].
  - intros k e [He Hlt]%map_lookup_filter_Some. exfalso. apply Ha in He as (_ & _ & Habove).
    specialize (Habove eq_refl cp Hlast). cbn in Hlt. unfold saturating_add in Hlt.
    destruct (decide (cp_block_number cp < h)) as [Hgt|]; [|lia].
    destruct (li_above _ Hinv cp h Hlast) as (st & Hst & _); [by eexists|done|congruence].
  - intros k e [He Hlt]%map_lookup_filter_Some. cbn in Hlt. unfold saturating_add in Hlt.
    apply Hk, stable_read_some in He as [He _]. apply stable_read_some. cbn. split.
    + apply map_lookup_filter_Some. split; [done|]. unfold kept_below. cbn. lia.
    + intros st [= <-]. cbn. assert (is_u64 k) as Hku by (apply (li_u64 _ Hinv); by eexists).
      pose proof (pivot_below_top k Hku). pose proof (next_pivot_spec h Hu) as (_ & Hnext & _).
      unfold is_u64 in Hku. pose proof (pivot_spec k ltac:(lia)). lia.
Qed.

(** ** Calls and hooks *)

Lemma follows_same tight ck s s' : log ck s' = log ck s -> ladder_of ck s' = ladder_of ck s -> follows tight tight ck s s'.
Proof. intros Hl Hs. apply follows_quiet; [done|]. by rewrite Hs. Qed.

Lemma log_deposit {E} ck e : ~ concerns ck e -> leaves (log ck) (deposit_event e : M (State C) E unit).
Proof.
  intros He. apply leaves_modify. intros s. unfold log. cbn. rewrite filter_app, filter_cons_False by done.
  apply app_nil_r.
Qed.

#[local] Hint Extern 1 (leaves (log _) (deposit_event _)) =>
  apply log_deposit; cbn; solve [intros []|congruence|auto] : leaves.

Lemma updates_log ck : leaves (log ck) (apply_interval_updates : PM C Z).
Proof.
  unfold apply_interval_updates. apply leaves_bind; [|intros; apply leaves_bind; [|intros]]; apply leaves_drain;
    first [done|intros; unfold apply_interval, apply_sample_size, apply_max_catchup; leaves].
Qed.

#[local] Hint Resolve updates_log : leaves.

Lemma prune_hook_leaves {T} (v : State C -> T) :
  (forall k p h, leaves v (remove_checkpoint k p h : PM C unit)) ->
  (forall s f, v (s <| CheckpointPruningStates ::= f |>) = v s) -> leaves v (on_init_prune_checkpoints : PM C unit).
Proof.
  intros Hr Hv. unfold on_init_prune_checkpoints, on_first.
  apply leaves_bind; [leaves|intros [[k st]|]; [|leaves]]. by apply prune_loop_leaves.
Qed.

(** The hooks deposit nothing that concerns a chain's caches. *)
Lemma initialize_log ck : leaves (log ck) (on_initialize : PM C unit).
Proof.
  assert (leaves (log ck) (on_init_prune_checkpoints : PM C unit)) as Hp
    by (apply prune_hook_leaves; [leaves|done]).
  leaves.
Qed.

Definition cached_part ck s := (row (Attestations s) ck, AttestationClearingCursors s !! ck, LastCheckpoint s !! ck).

Lemma ladder_cached_part ck s s' : ladder_of ck s' = ladder_of ck s -> cached_part ck s' = cached_part ck s.
Proof. intros [= Ha _ _ Hl _ _ _ _ Hc]. unfold cached_part. congruence. Qed.

Lemma initialize_attestations ck s u s' :
  on_initialize s = (Ok u, s') -> l_cursor (ladder_of ck s) = None -> cached_part ck s' = cached_part ck s.
Proof.
  intros Hrun Hcur. unfold on_initialize in Hrun.
  apply bind_ok in Hrun as (u1 & s1 & R1 & Hrun). apply bind_ok in Hrun as (u2 & s2 & R2 & Hrun).
  apply bind_ok in Hrun as (u3 & s3 & R3 & Hrun). apply bind_ok in Hrun as (u4 & s4 & R4 & Hrun).
  apply (prune_hook_leaves (cached_part ck)) in R1; [|leaves|done].
  left_alone (cached_part ck) R2 V2. left_alone (cached_part ck) R3 V3.
  assert (cached_part ck s3 = cached_part ck s) as V by congruence. rewrite <- V.
  transitivity (cached_part ck s4); apply ladder_cached_part.
  - apply on_first_ok in Hrun as [->|(k & ph & _ & Hr)]; [done|]. by apply (cleanup_frame ck k ph) in Hr.
  - apply on_first_ok in R4 as [->|(k & x & Hx & Hr)]; [done|]. apply (clear_attestations_frame ck k) in Hr; [done|].
    intros ->. injection V as _ Hc _. cbn in Hcur. congruence.
Qed.

Lemma stable_reads_stay l l' h d :
  rtc ladder_step l l' -> ladder_inv l -> stable_read l h = Some d -> stable_read l' h = Some d.
Proof. induction 1 as [|l1 l2 l3 Hs _ IH]; [done|]. intros Hinv Hr. apply IH; [by eapply ladder_step_inv|by eapply stable_read_step]. Qed.

Lemma initialize_follows tight ck s u s' :
  on_initialize s = (Ok u, s') -> not_clearing ck s -> ladder_inv (ladder_of ck s) -> follows tight tight ck s s'.
Proof.
  intros Hrun Hq Hinv. apply follows_quiet; [by apply (initialize_log ck) in Hrun|].
  pose proof (initialize_refines ck s u s' Hrun Hq Hinv) as Hsteps. intros c [Ha Hk]. constructor.
  - intros h d Hd. apply Ha in Hd as Hd'. pose proof (proj1 Hd') as Hcur.
    pose proof (initialize_attestations ck s u s' Hrun Hcur) as Hv. injection Hv as Va Vc Vl. cbn in *.
    by rewrite Va, Vc, Vl.
  - intros h d Hd%Hk. by eapply stable_reads_stay.
Qed.

(** The calls on a chain whose changes its events do not tell: forward patches,
    which drop attestations, for caches that are not tight reversions, which
    drop attestations below the height they revert to, and a commit at the last
    height, whose checkpoint leaves the caches the attestation it condenses. *)
Definition untold_call tight ck (call : Call) : Prop :=
  match call with
  | ForwardPatchCheckpoints k _ _ => k = ck
  | RevertTo k _ => tight = false /\ k = ck
  | CommitAttestation att => umax 64 <= sa_header_number att /\ sa_chain_key att = ck
  | _ => False
  end.

(** A call on another chain. *)
Section Other.
Variables (origin : Origin) (ck k : ChainKey).
Hypothesis other : k <> ck.

Lemma remove_log queue : leaves (log ck) (remove_attestations k queue).
Proof. by apply remove_attestations_leaves. Qed.

Lemma record_log cp : leaves (log ck) (record_checkpoint k cp : PM C unit).
Proof. leaves. Qed.

#[local] Hint Resolve remove_log record_log : leaves.

Lemma try_make_log queue header : leaves (log ck) (try_make_checkpoint queue k header).
Proof.
  unfold try_make_checkpoint. apply leaves_transactional.
  repeat first
    [ progress cbv zeta
    | apply leaves_bind; [|intros]
    | apply leaves_with_queue
    | apply remove_log
    | solve [unfold ok_or_m, ensure_m; leaves]
    | match goal with |- leaves _ (match ?x with _ => _ end) => destruct x end ].
Qed.

Lemma queue_log header digest : leaves (log ck) (queue_attestation k header digest).
Proof.
  apply leaves_bind; [leaves|intros q]. apply leaves_bind; [|leaves].
  intros s r s'. destruct (try_make_checkpoint q k header s) as [[q'|[e q']] s1] eqn:Hs;
    intros [= _ <-]; by eapply try_make_log.
Qed.

Lemma boundary_log fuel w head digests b : leaves (log ck) (boundary_loop fuel k w head digests b).
Proof. apply boundary_loop_leaves, record_log. Qed.

#[local] Hint Resolve queue_log boundary_log : leaves.

Lemma commit_log att : sa_chain_key att = k -> leaves (log ck) (commit_attestation env origin att).
Proof.
  intros Hk. assert (leaves (log ck) (validate_attestation env (sa_chain_key att) att : PM C unit)) as Hval.
  { apply validate_leaves. }
  unfold commit_attestation, do_commit_attestation. rewrite Hk in *. leaves.
Qed.

Lemma import_log cps : leaves (log ck) (import_checkpoints env origin k cps).
Proof.
  assert (forall has last new, leaves (log ck) (import_loop k has last new cps)) as Hl.
  { induction cps as [|cp cps' IH]; intros; cbn [import_loop]; leaves. }
  leaves.
Qed.

Lemma revert_log h : leaves (log ck) (revert_to env origin k h).
Proof. leaves. Qed.

Lemma patch_log wipe cps : leaves (log ck) (forward_patch_checkpoints env origin k wipe cps).
Proof. leaves. Qed.
End Other.

Lemma dispatch_follows tight origin ck s call u s' :
  dispatch env origin call s = (Ok u, s') -> call_ok call -> ~ untold_call tight ck call ->
  settings_inv s -> (forall k, 1 <= attestation_retention_duration s k) ->
  (forall k, env_is_chain_supported env k = true -> ladder_inv (ladder_of k s)) -> follows tight tight ck s s'.
Proof.
  intros Hrun Hok Hno Hset Hret Hinv.
  destruct call; cbn [dispatch] in Hrun; cbn [call_ok untold_call] in Hok, Hno;
    lazymatch type of Hrun with
    | commit_attestation _ _ _ _ = _ => idtac
    | import_checkpoints _ _ _ _ _ = _ => idtac
    | revert_to _ _ _ _ _ = _ => idtac
    | forward_patch_checkpoints _ _ _ _ _ _ = _ => idtac
    | ?m _ = _ => apply follows_same; [refine ((_ : leaves (log ck) m) _ _ _ Hrun); leaves
        |refine ((_ : leaves (ladder_of ck) m) _ _ _ Hrun); leaves]
    end.
  - apply commit_inv in Hrun as Hc. destruct Hc as (Hcom & Hsup & _).
    destruct (decide (sa_chain_key attestation = ck)) as [<-|Hne].
    + eapply commit_follows; eauto. unfold is_u64 in Hok. rewrite umax_64, pow2_64 in *. lia.
    + destruct (commit_refines env attestation s u s' Hcom) as [_ Hother]; eauto.
      apply follows_same; [by eapply commit_log|by apply Hother].
  - assert (ladder_inv (ladder_of ck0 s)) as Hck
      by (apply Hinv, (operators_supported env origin s u s' ck0 0 checkpoints true); auto).
    destruct (decide (ck0 = ck)) as [->|Hne]; [by eapply import_follows|].
    destruct (import_refines env origin ck0 checkpoints s u s') as [_ Hother]; eauto.
    apply follows_same; [by eapply import_log|by apply Hother].
  - assert (ladder_inv (ladder_of ck0 s)) as Hck
      by (apply Hinv, (operators_supported env origin s u s' ck0 h [] true); auto).
    destruct (decide (ck0 = ck)) as [->|Hne].
    { destruct tight; [by eapply revert_follows|by destruct Hno]. }
    destruct (revert_refines env origin ck0 h s u s') as [_ Hother]; eauto.
    apply follows_same; [by eapply revert_log|by apply Hother].
  - assert (ladder_inv (ladder_of ck0 s)) as Hck
      by (apply Hinv, (operators_supported env origin s u s' ck0 0 checkpoints wipe_suffix); auto).
    destruct (patch_refines env origin ck0 wipe_suffix checkpoints s u s') as [_ Hother]; eauto.
    apply follows_same; [by eapply patch_log|by apply Hother].
Qed.

(** The epoch's election and updates. *)
Lemma epoch_follows tight ck epoch s r s' : on_new_epoch_randomness env epoch s = (r, s') -> follows tight tight ck s s'.
Proof.
  intros Hrun. apply follows_same.
  - refine ((_ : leaves (log ck) (on_new_epoch_randomness env epoch)) _ _ _ Hrun).
    unfold on_new_epoch_randomness, do_start_election, elect_attestors_for_chain. leaves.
  - refine ((_ : leaves (ladder_of ck) (on_new_epoch_randomness env epoch)) _ _ _ Hrun).
    unfold on_new_epoch_randomness, do_start_election, elect_attestors_for_chain. leaves.
Qed.

(** Changes to the table of chains. *)
Lemma removed_log ck k b : leaves (log ck) (on_chain_removed k b : PM C unit).
Proof. leaves. Qed.

Lemma registered_log ck k p : leaves (log ck) (on_chain_registered k p : M (State C) _ _).
Proof. leaves. Qed.
End Announced.
