(* ===== verification/Following.v ===== *)
(** * The server's caches follow the chain

    What the proof server caches for a chain after processing the events of any
    blocks is still on the chain: its proofs keep verifying, whatever is attested,
    condensed, evicted, imported, reverted or pruned, as long as no forward patch
    rewrites the chain and it is not removed. *)

From stdpp Require Import prelude gmap list sorting strings.
From Stdlib Require Import ZArith Lia.
From S2P Require Import Prelude Primitives Merkle Frame SupportedChains Randomness Types Ledger Roster.
From S2P Require Import Settings Validate Checkpoints Maintenance LadderFrame LadderSpec History LadderRefine.
From S2P Require Import MaintRefine Teardown Pallet Genesis Runtime Concrete Guarantees BlockProver ChainInfo Provable.
From S2P Require Import ProofSource MerkleCache ServerState ProofService Serving Announced.

(** ** The handler of events *)

Definition caches_of (chain : ChainState) : Caches := (attestation_cache chain, checkpoint_cache chain).

Definition attestation_event (e : RuntimeEvent) : option Event :=
  match e with AttestationEvent e => Some e | _ => None end.

Definition track_runtime (cap : option nat) (ck : ChainKey) (c : Caches) (e : RuntimeEvent) : Caches :=
  match attestation_event e with Some e => track cap ck c e | None => c end.

Lemma track_runtime_all cap ck c es :
  foldl (track_runtime cap ck) c es = foldl (track cap ck) c (omap attestation_event es).
Proof.
  revert c. induction es as [|e es IH]; intros c; [done|]. cbn [foldl]. rewrite IH. unfold track_runtime.
  by destruct e.
Qed.

(** A server with a chain in a state. *)
Definition serves srv ck (c : Caches) (cap : option nat) : Prop :=
  exists chain, chains srv !! ck = Some chain /\ ch_chain_key chain = ck /\ caches_of chain = c /\
    checkpoint_cache_max_entries (cache_config chain) = cap.

Lemma serves_alter srv ck k f c c' cap srv' :
  serves srv ck c cap -> chains srv' = alter f k (chains srv) ->
  (forall chain, ch_chain_key (f chain) = ch_chain_key chain /\ cache_config (f chain) = cache_config chain) ->
  (k <> ck -> c' = c) ->
  (k = ck -> forall chain, checkpoint_cache_max_entries (cache_config chain) = cap -> caches_of chain = c ->
     caches_of (f chain) = c') -> serves srv' ck c' cap.
Proof.
  intros (chain & Hc & Hk & <- & Hcap) Hsrv Hf Hne Heq. destruct (Hf chain) as [Hf1 Hf2]. unfold serves. rewrite Hsrv.
  destruct (decide (k = ck)) as [->|Hd].
  - exists (f chain). rewrite lookup_alter_eq, Hc, Hf1, Hf2. split_and!; [done|done|by apply Heq|done].
  - exists chain. rewrite lookup_alter_ne by done. split_and!; [done|done|by rewrite Hne|done].
Qed.

(** An event of a chain that is served changes that chain only. *)
Lemma kept_event (filter : list ChainKey) srv ck k cc c c' cap :
  serves srv ck c cap -> (forall k, k ∈ filter <-> is_Some (chains srv !! k)) -> (k <> ck -> c' = c) ->
  (serves_chain srv k = true -> serves (process_cc_event cc srv) ck c' cap) ->
  serves (default srv ((fun e => process_cc_event e srv) <$> (if bool_decide (k ∈ filter) then Some cc else None)))
    ck c' cap.
Proof.
  intros Hs Hf Hne Hk. case_bool_decide as Hin; cbn.
  - apply Hk. by apply bool_decide_eq_true, Hf.
  - rewrite Hne; [done|]. intros ->. apply Hin, Hf. destruct Hs as (chain & -> & _). by eexists.
Qed.

Lemma on_checkpoint_chains k cp srv :
  exists g, (forall chain, caches_of (g chain) = caches_of chain /\ cache_config (g chain) = cache_config chain /\
      ch_chain_key (g chain) = ch_chain_key chain) /\
    chains (on_checkpoint_reached k cp srv) = alter (prune_attestations_at_or_below (cp_block_number cp) ∘
      server_insert_checkpoint (cp_block_number cp) (cp_digest cp) ∘ g) k (chains srv).
Proof.
  unfold on_checkpoint_reached. destruct (_ <? _).
  - exists (update_last_checkpoint_block (cp_block_number cp)). split; [|cbn; by rewrite !alter_alter_eq].
    intros chain. unfold update_last_checkpoint_block. by repeat case_match.
  - exists id. split; [done|]. cbn. by rewrite alter_alter_eq.
Qed.

Lemma attested_serves srv ck c cap k h d :
  serves srv ck c cap -> serves (on_block_attested k h d srv) ck (track cap ck c (BlockAttested k h d)) cap.
Proof.
  intros Hs. cbn [track]. apply (serves_alter srv ck k (insert_attestation h d) c _ cap _ Hs); try done.
  - intros Hk. by rewrite (proj2 (Z.eqb_neq _ _)).
  - intros -> chain _ <-. by rewrite Z.eqb_refl.
Qed.

Lemma checkpoint_serves srv ck c cap k cp :
  serves srv ck c cap -> serves (on_checkpoint_reached k cp srv) ck (track cap ck c (CheckpointReached k cp)) cap.
Proof.
  intros Hs. cbn [track]. destruct (on_checkpoint_chains k cp srv) as (g & Hg & Hc).
  refine (serves_alter srv ck k _ c _ cap _ Hs Hc _ _ _).
  - intros chain. destruct (Hg chain) as (_ & ? & ?). done.
  - intros Hk. by rewrite (proj2 (Z.eqb_neq _ _)).
  - intros -> chain Hcap <-. rewrite Z.eqb_refl. destruct (Hg chain) as (Hgc & Hgf & _).
    unfold caches_of, compose, prune_attestations_at_or_below, server_insert_checkpoint in *. cbn.
    injection Hgc as Hga Hgk. by rewrite Hgf, Hcap, Hga, Hgk.
Qed.

Lemma reverted_serves srv ck c cap k h d :
  serves srv ck c cap -> serves (on_reverted k h srv) ck (track cap ck c (RevertedAttestationChainTo k h d)) cap.
Proof.
  intros Hs. cbn [track]. apply (serves_alter srv ck k (revert_caches h) c _ cap _ Hs); try done.
  - intros Hk. by rewrite (proj2 (Z.eqb_neq _ _)).
  - intros -> chain _ <-. by rewrite Z.eqb_refl.
Qed.

Lemma setting_serves srv srv' ck c cap k f :
  serves srv ck c cap -> chains srv' = alter f k (chains srv) ->
  (forall chain, ch_chain_key (f chain) = ch_chain_key chain /\ cache_config (f chain) = cache_config chain /\
     caches_of (f chain) = caches_of chain) -> serves srv' ck c cap.
Proof.
  intros Hs Hc Hf. refine (serves_alter srv ck k f c c cap _ Hs Hc _ _ _); [intros; by split; apply Hf|done|].
  intros _ chain _ <-. apply Hf.
Qed.

Lemma process_event_tracks (filter : list ChainKey) e srv ck c cap :
  serves srv ck c cap -> (forall k, k ∈ filter <-> is_Some (chains srv !! k)) ->
  serves (default srv ((fun e => process_cc_event e srv) <$> extract_event filter e)) ck (track_runtime cap ck c e) cap.
Proof.
  intros Hs Hf. destruct e as [e| | |]; [|done..].
  destruct e; cbn [extract_event track_runtime attestation_event]; try done;
    (eapply kept_event; [exact Hs|exact Hf|intros Hk; apply track_other; cbn; tauto|intros Hserved]); try exact Hs;
    cbn [process_cc_event]; rewrite Hserved;
    first [by apply attested_serves|by apply checkpoint_serves|by apply reverted_serves
      |eapply (setting_serves srv); [exact Hs|cbn; reflexivity|done]].
Qed.

Lemma process_cc_event_chains e srv k : is_Some (chains (process_cc_event e srv) !! k) <-> is_Some (chains srv !! k).
Proof.
  assert (forall f j (m : gmap ChainKey ChainState), is_Some (alter f j m !! k) <-> is_Some (m !! k)) as Ha.
  { intros f j m. apply lookup_alter_is_Some. }
  destruct e; cbn [process_cc_event]; try done; destruct (serves_chain _ _); try done;
    unfold on_block_attested, on_checkpoint_reached, on_reverted; cbn; rewrite ?Ha; try done.
  case_match; cbn; by rewrite ?Ha.
Qed.

(** Events are replayed one after another, for the keys of the served chains. *)
Lemma replay_tracks (filter : list ChainKey) es srv ck c cap :
  serves srv ck c cap -> (forall k, k ∈ filter <-> is_Some (chains srv !! k)) ->
  let srv' := foldl (fun srv e => process_cc_event e srv) srv (extract_events filter es) in
  serves srv' ck (foldl (track_runtime cap ck) c es) cap /\ forall k, k ∈ filter <-> is_Some (chains srv' !! k).
Proof.
  revert srv c. induction es as [|e es IH]; intros srv c Hs Hf; [done|].
  pose proof (process_event_tracks filter e srv ck c cap Hs Hf) as Hs1. unfold extract_events. cbn [foldl omap list_omap].
  destruct (extract_event filter e) as [cc|]; cbn in Hs1 |- *; apply IH; try done.
  intros k. by rewrite Hf, process_cc_event_chains.
Qed.

Lemma process_block_tracks es srv ck c cap :
  serves srv ck c cap -> serves (process_block es srv) ck (foldl (track_runtime cap ck) c es) cap.
Proof.
  intros Hs. apply replay_tracks; [done|]. intros k. by rewrite elem_of_elements, elem_of_dom.
Qed.

(** ** The runtime's steps *)

Section Following.
Context {C : Type} `{!Currency C} `{!CurrencyLaws C} `{Config} `{!ConfigOk} `{Keccak} `{Arch} `{!ArchOk}
  `{Bls} `{FrameStorage Z} `{!FrameStorageLaws Z} `{FrameStorage (Z * Z)}.
Variables (cfg : ScConfig) (cap : option nat) (tight : bool) (ck : ChainKey).
Implicit Types (s : @Runtime C).

Hypothesis usize_width : 2 * (MaxChainAttestationInterval * MaxAttestationCheckpointInterval) < 2 ^ usize_bits.

(** The calls whose changes to a chain its events do not tell: forward patches, the
    chain's removal, reversions unless the caches are tight, and an attestation at
    the last height. *)
Definition untold (call : RtCall) : Prop :=
  match call with
  | AttestationCall c => untold_call tight ck c
  | RemoveChain k _ => k = ck
  | _ => False
  end.

Inductive told_step : @Runtime C -> @Runtime C -> Prop :=
| told_initialize clock r s : told_step s (initialize_block clock r s)
| told_dispatch clock o call s :
    rt_call_ok call -> ~ untold call -> told_step s (rt_call cfg clock o call s).

Lemma told_step_rt s s' : told_step s s' -> rt_step cfg s s'.
Proof. by destruct 1; constructor. Qed.

Lemma told_step_live s s' :
  told_step s s' -> rt_inv cfg s -> live_chain (rn_listener s) ck -> live_chain (rn_listener s') ck.
Proof.
  intros [clock r s0|clock o call s0 Hok Hno] Hinv Hlive.
  - unfold initialize_block, rn_on_initialize. by case_match.
  - destruct call; try done; by apply table_calls_live.
Qed.

Lemma hooks_follow clock r s :
  rt_inv cfg s -> live_chain (rn_listener s) ck ->
  follows cap tight tight ck (attestation s) (attestation (initialize_block clock r s)).
Proof.
  intros [Hsc Hinv] Hlive. destruct (initialize_succeeds (attestation s)) as (u & a & Hrun).
  assert (follows cap tight tight ck (attestation s) a) as Hf.
  { apply (initialize_follows cap tight ck _ _ _ Hrun); [by apply Hinv|by apply (pi_ladder _ _ _ Hinv)]. }
  unfold initialize_block, rn_on_initialize. unfold attestation in Hrun. case_match; cbn; rewrite Hrun; [|done].
  cbn [snd]. eapply follows_trans; [exact Hf|].
  match goal with |- context [on_new_epoch_randomness ?e ?i a] =>
    destruct (on_new_epoch_randomness e i a) as [res a'] eqn:He; exact (epoch_follows e cap tight ck i a res a' He) end.
Qed.

Lemma table_calls_follow clock o call s :
  match call with AttestationCall _ => False | _ => True end -> ~ untold call ->
  follows cap tight tight ck (attestation s) (attestation (rt_call cfg clock o call s)).
Proof.
  intros Ht Hno. apply follows_same; [|apply table_calls_ladder; [done|by destruct call]].
  set (sc := rn_listener s).
  assert (forall sc', sc_listener sc' = sc_listener sc -> log ck (sc_listener sc') = log ck (sc_listener sc)) as Hsame
    by (by intros ? ->).
  destruct call as [|p st|k b|k st|k nm]; [done|..]; unfold attestation, rt_call; cbn; fold sc.
  - run_cases (register_chain cfg o p st sc) sc' Hrun.
    apply register_chain_ok in Hrun as (strategy & l & v & _ & _ & _ & -> & Hreg). cbn [sc_listener].
    exact (registered_log ck _ p _ _ _ Hreg).
  - run_cases (remove_chain cfg o k b sc) sc' Hrun.
    apply remove_chain_ok in Hrun as (c & _ & ->). cbn [sc_listener].
    destruct (removed_succeeds k b (sc_listener sc)) as (v & a1 & Ha).
    unfold on_supported_chain_removed, attestation_on_removed. rewrite Ha. cbn.
    exact (removed_log ck k b _ _ _ Ha).
  - apply Hsame. run_cases (set_maturity_strategy cfg o k st sc) sc' Hrun.
    unfold set_maturity_strategy, sc_deposit_event in Hrun. by call_inv.
  - apply Hsame. run_cases (set_chain_name cfg o k nm sc) sc' Hrun.
    unfold set_chain_name, sc_deposit_event in Hrun. by call_inv.
Qed.

Lemma told_step_follows s s' :
  told_step s s' -> rt_inv cfg s -> live_chain (rn_listener s) ck -> follows cap tight tight ck (attestation s) (attestation s').
Proof.
  intros [clock r s0|clock o call s0 Hok Hno] Hinv Hlive; [by apply hooks_follow|].
  destruct call as [c| | | |]; try (by apply table_calls_follow). destruct Hinv as [Hsc Hinv].
  unfold attestation. cbn. set (env := attestation_env _ _).
  destruct (dispatch env o c (sc_listener (rn_listener s0))) as [[u|e] a] eqn:Hrun; cbn.
  - eapply (dispatch_follows env cap usize_width); [exact Hrun|exact Hok|exact Hno|apply Hinv..|].
    intros k Hk. apply (pi_ladder _ _ _ Hinv). by left.
  - assert (a = sc_listener (rn_listener s0)) as ->; [|apply follows_refl].
    destruct c; eapply rolls_back_transactional, Hrun.
Qed.

Lemma told_steps_follow s s' :
  MaxSupportedChains cfg <= umax 32 ->
  rtc told_step s s' -> rt_inv cfg s -> live_chain (rn_listener s) ck ->
  follows cap tight tight ck (attestation s) (attestation s') /\ rt_inv cfg s' /\ live_chain (rn_listener s') ck.
Proof.
  intros Hmax. induction 1 as [s|s1 s2 s3 Hs _ IH]; intros Hinv Hlive; [split; [apply follows_refl|done]|].
  destruct IH as (Hf & Hrest).
  - eapply rt_steps_inv; [done|apply rtc_once; by eapply told_step_rt|done].
  - by eapply told_step_live.
  - split; [|done]. eapply follows_trans; [by apply told_step_follows|done].
Qed.

(** What is in step with a live chain's ladder is anchored on the chain. *)
Lemma synced_anchored (sc : ScState (State C)) c h d :
  is_chain_supported sc ck = true -> synced tight c (ladder_of ck (sc_listener sc)) ->
  c.1 !! h = Some d \/ c.2 !! h = Some d -> anchored sc ck h d = true.
Proof.
  intros Hsup%bool_decide_eq_true [Ha Hk] Hc. unfold anchored, attested_at, get_attestation, attestations_stable.
  destruct Hc as [Hc|Hc].
  - apply Ha in Hc as (Hcur & (a & Hat & <-) & _). apply orb_true_iff. left. cbn in Hcur.
    rewrite bool_decide_eq_true_2 by done. change (dget (Attestations (sc_listener sc)) ck d = Some a) in Hat.
    rewrite Hat. apply Z.eqb_refl.
  - apply Hk in Hc. apply orb_true_iff. right. rewrite !bool_decide_eq_true_2 by done. done.
Qed.

Lemma synced_caches_anchored (sc : ScState (State C)) chain :
  is_chain_supported sc ck = true -> ch_chain_key chain = ck ->
  synced tight (caches_of chain) (ladder_of ck (sc_listener sc)) -> caches_anchored sc chain.
Proof.
  intros Hsup Hk Hsync h d Hc. rewrite Hk. eapply synced_anchored; [done|exact Hsync|].
  destruct Hc; [by left|by right].
Qed.

(** The events of steps bring what is in step with their start in step with their end. *)
Lemma events_follow s s' c es :
  reached cfg s -> live_chain (rn_listener s) ck -> rtc told_step s s' ->
  events (attestation s') = events (attestation s) ++ omap attestation_event es ->
  synced tight c (ladder_of ck (attestation s)) ->
  synced tight (foldl (track_runtime cap ck) c es) (ladder_of ck (attestation s')).
Proof.
  intros Hr Hlive Hsteps Hev Hsync. pose proof Hr as (_ & _ & _ & _ & _ & _ & _ & Hmax & _).
  destruct (told_steps_follow s s' Hmax Hsteps (reached_inv _ _ Hr) Hlive) as ((new & Hlog & Hf) & _).
  assert (new = filter (concerns ck) (omap attestation_event es)) as ->.
  { unfold log in Hlog. rewrite Hev, filter_app in Hlog. by apply app_inv_head in Hlog. }
  specialize (Hf c Hsync). by rewrite track_filter, <- track_runtime_all in Hf.
Qed.

(** C10: the server's caches follow the chain. If what the server caches for a chain
    is on the chain, stored attestations and checkpoints that can be read, then so
    is what it caches after processing the events of any further blocks, whatever is
    committed, condensed, evicted, imported, pruned, elected or configured in them,
    except for forward patches of that chain, its removal and an attestation of it at
    the last height of the [u64] range; and, if it only caches attestations above the
    last checkpoint, reverted. So the digests it anchors its proofs on are known to
    the prover. *)
Theorem caches_follow_chain s s' srv es :
  reached cfg s -> live_chain (rn_listener s) ck -> rtc told_step s s' ->
  events (attestation s') = events (attestation s) ++ omap attestation_event es ->
  (exists c, serves srv ck c cap /\ synced tight c (ladder_of ck (attestation s))) ->
  exists chain, chains (process_block es srv) !! ck = Some chain /\
    synced tight (caches_of chain) (ladder_of ck (attestation s')) /\
    (is_chain_supported (rn_listener s') ck = true -> caches_anchored (rn_listener s') chain).
Proof.
  intros Hr Hlive Hsteps Hev (c & Hs & Hsync).
  pose proof (events_follow s s' c es Hr Hlive Hsteps Hev Hsync) as Hf.
  destruct (process_block_tracks es srv ck c cap Hs) as (chain & Hc & Hk & Hcs & _). exists chain. rewrite <- Hcs in Hf.
  split_and!; [done|done|]. intros Hsup. by apply synced_caches_anchored.
Qed.
End Following.

(** ** On the concrete runtime *)

(** A server that has cached the genesis checkpoint. *)
Definition server1 : Server :=
  mkServer {[1 := mkChainState 1 {[100 := 777]} ∅ empty_cache 90 10 10 (mkCacheConfig None None (Some 4%nat)) None]} [] ∅ ∅.

Definition block1 : list RuntimeEvent := [OtherEvent; AttestationEvent (BlockAttested 1 110 (sa_digest commit1))].

Lemma server1_synced : synced true (∅, {[100 := 777]}) (ladder_of 1 (attestation run1)).
Proof.
  constructor; [by intros h d Hd|]. intros h d Hd. cbn [snd] in Hd.
  apply lookup_singleton_Some in Hd as [<- <-]. vm_compute. reflexivity.
Qed.

Lemma caches_follow_chain_witness :
  exists chain, chains (process_block block1 server1) !! 1 = Some chain /\
    attestation_cache chain !! 110 = Some (sa_digest commit1) /\
    anchored (rn_listener run2) 1 110 (sa_digest commit1) = true.
Proof.
  destruct (caches_follow_chain sc_cfg (Some 4%nat) true 1 ltac:(decide_now) run1 run2 server1 block1)
    as (chain & Hc & _ & Ha).
  - apply run1_reached.
  - apply live1. vm_compute. reflexivity.
  - apply rtc_once, told_dispatch; [apply commit1_ok|intros [Htop _]; by apply Htop].
  - vm_compute. reflexivity.
  - exists (∅, {[100 := 777]}). split; [|apply server1_synced]. eexists. by split_and!.
  - assert (attestation_cache chain !! 110 = Some (sa_digest commit1)) as H110.
    { apply (f_equal (fmap (fun c => attestation_cache c !! 110))) in Hc. cbn [fmap option_fmap option_map] in Hc.
      injection Hc as <-. vm_compute. reflexivity. }
    exists chain. split_and!; [done|done|].
    assert (ch_chain_key chain = 1) as Hk.
    { apply (f_equal (fmap ch_chain_key)) in Hc. cbn [fmap option_fmap option_map] in Hc.
      injection Hc as <-. vm_compute. reflexivity. }
    rewrite <- Hk at 1. apply Ha; [vm_compute; reflexivity|by left].
Defined.
