(* ===== verification/Startup.v ===== *)
(** * Starting the proof server

    [src/proof-gen-api-server/src/lib.rs] and [ContinuityService::new_with_cache_configs]:
    the server reads its configuration of every chain, pins the finalized head,
    reads each chain's attestations and checkpoints at that block, retrying, and
    replays the events after it ([src/proof-gen-api-server/src/events/mod.rs]). The
    reads are those of [src/common/cc-client/src/lib.rs]. *)

From stdpp Require Import prelude gmap list sorting strings.
From Stdlib Require Import ZArith Lia.
From S2P Require Import Prelude Primitives Merkle Frame SupportedChains Randomness Types Ledger Roster.
From S2P Require Import Settings Validate Checkpoints Maintenance LadderFrame LadderSpec History LadderRefine.
From S2P Require Import MaintRefine Teardown Pallet Genesis Runtime Concrete Guarantees BlockProver Inclusion ChainInfo Provable.
From S2P Require Import ProofSource MerkleCache ServerState ProofService Serving EventStream Announced Following.

Implicit Types (ck : ChainKey).

(** ** Retrying *)

(** Errors of the client: a chain's attestations are being cleared, or the node
    cannot be reached. *)
Inductive CcError :=
| AttestationCleanupInProgress (chain_key : ChainKey)
| Rpc.

Definition is_cleanup_in_progress (err : CcError) : bool :=
  match err with AttestationCleanupInProgress _ => true | Rpc => false end.

Inductive StartError :=
| FailedAfterAttempts (last_err : option CcError)
| CleanupStillRunning (err : CcError)
| ReadFailed (err : CcError)
| NoSupportedChain (chain_key : ChainKey)
| SourceUnreachable (chain_key : ChainKey)
| WrongChain (chain_key : ChainKey) (chain_id supported_chain_id : Z)
| NoAttestationInterval (chain_key : ChainKey)
| NoCheckpointInterval (chain_key : ChainKey)
| NoBuilders
| DuplicateBuilder (chain_key : ChainKey).

Definition ATTEMPTS : Z := 5.

(** Milliseconds. *)
Definition CLEANUP_WAIT_LIMIT : Z := 10 * 60 * 1000.
Definition CLEANUP_WAIT_INTERVAL : Z := 5 * 1000.

Record Retrying := mkRetrying {
  rs_attempt : Z;
  rs_delay : Z;
  rs_last_err : option CcError;
  rs_cleanup_wait_started : option Z;
}.

#[export] Instance eta_Retrying : Settable Retrying := fun r =>
  mkRetrying (rs_attempt r) (rs_delay r) (rs_last_err r) (rs_cleanup_wait_started r).

Section Retry.
Context {A : Type}.

(** The answers to the calls of an operation and how long each takes, with what the
    timer before it overshoots. *)
Variables (op : nat -> Result CcError A) (took : nat -> Z) (cleanup_interval cleanup_limit : Z).

Definition wait_after_failure (r : Retrying) (err : CcError) (clock : Z) : Z * Retrying :=
  let r' := r <| rs_last_err := Some err |> <| rs_attempt ::= Z.add 1 |> in
  if rs_attempt r <? ATTEMPTS then (clock + rs_delay r, r' <| rs_delay ::= fun d => Z.min (d * 2) 2000 |>)
  else (clock, r').

Fixpoint retry_loop (fuel calls : nat) (clock : Z) (r : Retrying) : option (Result StartError A) :=
  match fuel with
  | O => None
  | S fuel =>
      if rs_attempt r <=? ATTEMPTS then
        let clock := clock + took calls in
        match op calls with
        | Ok value => Some (Ok value)
        | Err err =>
            if is_cleanup_in_progress err then
              let started := default clock (rs_cleanup_wait_started r) in
              if cleanup_limit <=? clock - started then Some (Err (CleanupStillRunning err))
              else retry_loop fuel (S calls) (clock + cleanup_interval) (r <| rs_cleanup_wait_started := Some started |>)
            else
              let '(clock, r) := wait_after_failure r err clock in
              retry_loop fuel (S calls) clock r
        end
      else Some (Err (FailedAfterAttempts (rs_last_err r)))
  end.

Definition retry_fuel : nat := Z.to_nat (cleanup_limit / cleanup_interval + 7).

Definition retry_startup_with : Result StartError A :=
  default (Err (FailedAfterAttempts None)) (retry_loop retry_fuel 0 0 (mkRetrying 1 250 None None)).
End Retry.

Definition retry_startup {A} (op : nat -> Result CcError A) (took : nat -> Z) : Result StartError A :=
  retry_startup_with op took CLEANUP_WAIT_INTERVAL CLEANUP_WAIT_LIMIT.

(** ** Reading the chain *)

Definition at_least {A} (height : A -> Height) (x y : A) : Prop := height y <= height x.

#[export] Instance at_least_dec {A} (height : A -> Height) : RelDecision (at_least height).
Proof. intros x y. unfold at_least. apply _. Defined.

(** The reads of the startup. *)
Inductive Read :=
| FinalizedHead
| SupportedChainOf ck
| AttestationIntervalOf ck
| CheckpointIntervalOf ck
| LastCheckpointOf ck
| GenesisBlockOf ck
| CheckpointsOf ck
| AttestationsOf ck.

(** The configuration of a chain: its key, the id its source reports, unless it
    cannot be reached, and the sizes of its caches. *)
Record ChainConfig := mkChainConfig {
  cf_chain_key : ChainKey;
  cf_source_chain_id : option Z;
  cf_cache : ChainCacheConfig;
}.

Record ContinuityConfig := mkContinuityConfig {
  cb_chain_key : ChainKey;
  cb_attestation_interval : Z;
  cb_checkpoint_interval : Z;
  cb_last_checkpoint_block : option Height;
}.

(** [collect] into a map: later entries win. *)
Definition collect_digests (kvs : list (Height * Digest)) : gmap Height Digest :=
  foldl (fun m kv => <[kv.1 := kv.2]> m) ∅ kvs.

Section Startup.
Context {C : Type} `{Keccak} `{FrameStorage Z}.

(** The node: the finalized head it reports, if it can pin one, the state of each
    finalized block, the latest state when a read is made, which calls fail, and how
    long calls take. *)
Record CcNode := mkCcNode {
  cc_head : nat -> option Height;
  cc_state_at : Height -> ScState (State C);
  cc_latest : Read -> nat -> ScState (State C);
  cc_down : Read -> nat -> bool;
  cc_took : Read -> nat -> Z;
}.

Variable node : CcNode.

Definition storage_at (at_block : option Height) (read : Read) (call : nat) : ScState (State C) :=
  match at_block with
  | Some h => cc_state_at node h
  | None => cc_latest node read call
  end.

(** One call of a read. *)
Definition fetch {A} (at_block : option Height) (read : Read) (f : ScState (State C) -> Result CcError A) (call : nat)
    : Result CcError A :=
  if cc_down node read call then Err Rpc else f (storage_at at_block read call).

Definition ensure_attestations_stable (sc : ScState (State C)) ck : Result CcError unit :=
  if bool_decide (is_Some (AttestationClearingCursors (sc_listener sc) !! ck))
  then Err (AttestationCleanupInProgress ck) else Ok tt.

Definition get_attestations_for_chain_at ck (sc : ScState (State C)) : Result CcError (list SignedAttestation) :=
  ensure_attestations_stable sc ck;;
  let rows := row (Attestations (sc_listener sc)) ck in
  mret (merge_sort (at_least sa_header_number) (omap (fun d => rows !! d) (iter_keys AttestationsItem rows))).

Definition get_checkpoints_for_chain_at ck (sc : ScState (State C)) : Result CcError (list AttestationCheckpoint) :=
  let rows := row (Checkpoints (sc_listener sc)) ck in
  mret (merge_sort (at_least cp_block_number)
    (omap (fun h => mkCheckpoint h <$> rows !! h) (iter_keys CheckpointsItem rows))).

Definition get_attestation_chain_genesis_block_number_at ck (sc : ScState (State C)) : Result CcError Height :=
  mret (default 0 (AttestationChainGenesisBlockNumber (sc_listener sc) !! ck)).

(** A read that is retried. *)
Definition retried {A} (at_block : option Height) (read : Read) (f : ScState (State C) -> Result CcError A)
    : Result StartError A :=
  retry_startup (fetch at_block read f) (cc_took node read).

(** ** The service *)

Definition start_chain (at_block : option Height) (cache_configs : gmap ChainKey ChainCacheConfig)
    (builder : ContinuityConfig) : Result StartError ChainState :=
  let ck := cb_chain_key builder in
  attestation_genesis_block ← retried at_block (GenesisBlockOf ck) (get_attestation_chain_genesis_block_number_at ck);
  checkpoints ← retried at_block (CheckpointsOf ck) (get_checkpoints_for_chain_at ck);
  let checkpoint_map := collect_digests (map (fun cp => (cp_block_number cp, cp_digest cp)) checkpoints) in
  attestations ← retried at_block (AttestationsOf ck) (get_attestations_for_chain_at ck);
  let attestation_map := collect_digests (map (fun att => (sa_header_number att, sa_digest att)) attestations) in
  let chain := mkChainState ck checkpoint_map attestation_map empty_cache attestation_genesis_block
    (cb_checkpoint_interval builder) (cb_attestation_interval builder)
    (default (mkCacheConfig None None None) (cache_configs !! ck)) (cb_last_checkpoint_block builder) in
  mret (match last_key checkpoint_map with
        | Some latest => update_last_checkpoint_block latest chain
        | None => chain
        end).

Fixpoint start_chains (at_block : option Height) (cache_configs : gmap ChainKey ChainCacheConfig)
    (builders : list ContinuityConfig) (chains : gmap ChainKey ChainState) : Result StartError (gmap ChainKey ChainState) :=
  match builders with
  | [] => mret chains
  | builder :: builders =>
      let ck := cb_chain_key builder in
      if bool_decide (is_Some (chains !! ck)) then Err (DuplicateBuilder ck)
      else
        chain ← start_chain at_block cache_configs builder;
        start_chains at_block cache_configs builders (<[ck := chain]> chains)
  end.

(** The chains, and the height of the snapshot. *)
Definition new_with_cache_configs (builders : list ContinuityConfig) (cache_configs : gmap ChainKey ChainCacheConfig)
    : Result StartError (gmap ChainKey ChainState * option Height) :=
  match builders with
  | [] => Err NoBuilders
  | _ =>
      snapshot ← retry_startup
        (fun call => if cc_down node FinalizedHead call then Err Rpc else Ok (cc_head node call))
        (cc_took node FinalizedHead);
      chains ← start_chains snapshot cache_configs builders ∅;
      mret (chains, snapshot)
  end.

(** ** The server *)

(** A read that is made once, of the latest state. *)
Definition read_once {A} (read : Read) (f : ScState (State C) -> A) : M Server StartError A :=
  lift (match fetch None read (fun sc => mret (f sc)) 0 with Ok a => Ok a | Err err => Err (ReadFailed err) end).

Definition build_continuity_for_chain (chain : ChainConfig) : M Server StartError ContinuityConfig :=
  let ck := cf_chain_key chain in
  supported ← read_once (SupportedChainOf ck) (fun sc => SupportedChains sc !! ck);
  supported_chain ← lift (ok_or (NoSupportedChain ck) supported);
  source_chain_id ← lift (ok_or (SourceUnreachable ck) (cf_source_chain_id chain));
  ensure (chain_id supported_chain =? source_chain_id) (WrongChain ck source_chain_id (chain_id supported_chain));;
  interval ← read_once (AttestationIntervalOf ck) (fun sc => ChainAttestationInterval (sc_listener sc) !! ck);
  attestation_interval ← lift (ok_or (NoAttestationInterval ck) interval);
  interval ← read_once (CheckpointIntervalOf ck) (fun sc => AttestationCheckpointInterval (sc_listener sc) !! ck);
  checkpoint_interval ← lift (ok_or (NoCheckpointInterval ck) interval);
  last_checkpoint ← attempt (read_once (LastCheckpointOf ck) (fun sc => LastCheckpoint (sc_listener sc) !! ck));
  let last_checkpoint_block :=
    match last_checkpoint with Ok (Some cp) => Some (cp_block_number cp) | _ => None end in
  modify (fun srv =>
    match last_checkpoint_block with
    | Some block_number => srv <| last_checkpoint_blocks ::= <[ck := block_number]> |>
    | None => srv
    end);;
  modify (fun srv => srv <| checkpoint_intervals ::= <[ck := checkpoint_interval]> |>);;
  mret (mkContinuityConfig ck attestation_interval checkpoint_interval last_checkpoint_block).

Fixpoint server_new (configured : list ChainConfig) : M Server StartError (list ContinuityConfig) :=
  match configured with
  | [] => mret []
  | chain :: configured =>
      builder ← build_continuity_for_chain chain;
      builders ← server_new configured;
      mret (builder :: builders)
  end.

(** [Server::new] and the start of [Server::run]: the snapshot's height is where the
    events are resumed from. *)
Definition server_start (configured : list ChainConfig) : M Server StartError (option Height) :=
  builders ← server_new configured;
  let cache_configs := list_to_map (reverse (map (fun c => (cf_chain_key c, cf_cache c)) configured)) in
  started ← lift (new_with_cache_configs builders cache_configs);
  modify (fun srv => srv <| chains := started.1 |>);;
  mret started.2.
End Startup.
Arguments CcNode : clear implicits.
Arguments mkCcNode {C}.

(** [Server::new] starts from nothing. *)
Definition empty_server : Server := mkServer ∅ [] ∅ ∅.

(** [start_cc3_event_subscription]: the events of the blocks that the stream yields. *)
Definition configured_chain_keys (srv : Server) : list ChainKey := elements (dom (chains srv)).

Definition process_stream (out : list StreamEvents) (srv : Server) : Server :=
  foldl (fun srv e => process_cc_event e srv) srv (concat (map snd out)).

(** ** Retries end *)

Section Retries.
Context {A : Type} (op : nat -> Result CcError A) (took : nat -> Z) (cleanup_interval cleanup_limit : Z).

Definition failed (r : Result CcError A) : bool :=
  match r with Err err => negb (is_cleanup_in_progress err) | Ok _ => false end.

(** How many of the first calls failed for another reason than a cleanup. *)
Definition failures (calls : nat) : nat := length (filter (fun n => failed (op n) = true) (seq 0 calls)).

Lemma failures_S calls : failures (S calls) = (failures calls + if failed (op calls) then 1 else 0)%nat.
Proof.
  unfold failures. rewrite seq_S, filter_app, length_app. f_equal. cbn.
  case_decide as Hf; destruct (failed (op calls)); done.
Qed.

Definition cleaning (r : Result CcError A) : bool :=
  match r with Err err => is_cleanup_in_progress err | Ok _ => false end.

(** The call among the first ones that was the first to meet a cleanup. *)
Definition first_cleanup (calls : nat) : option nat := head (filter (fun n => cleaning (op n) = true) (seq 0 calls)).

Lemma first_cleanup_S calls :
  first_cleanup (S calls) =
  match first_cleanup calls with Some n => Some n | None => if cleaning (op calls) then Some calls else None end.
Proof.
  unfold first_cleanup. rewrite seq_S, filter_app. destruct (filter _ (seq 0 calls)); [|done]. cbn.
  case_decide as Hf; destruct (cleaning (op calls)); done.
Qed.

(** The pause after a call: the interval after a cleanup, and 250, 500, 1000 and
    2000 milliseconds after the first four failures. *)
Definition pause (n : nat) : Z :=
  if cleaning (op n) then cleanup_interval
  else if Z.of_nat (failures (S n)) <? ATTEMPTS then Z.min (250 * 2 ^ Z.of_nat (failures n)) 2000 else 0.

(** When a call is answered. *)
Fixpoint answered (n : nat) : Z :=
  match n with O => took 0 | S m => answered m + pause m + took n end.

(** What a call ends the read with: its value, a cleanup that the limit has passed
    since the first answer that met one, or the fifth failure. *)
Definition ends_with (n : nat) : option (Result StartError A) :=
  match op n with
  | Ok value => Some (Ok value)
  | Err err =>
      if is_cleanup_in_progress err then
        if cleanup_limit <=? answered n - answered (default n (first_cleanup n))
        then Some (Err (CleanupStillRunning err)) else None
      else if Z.of_nat (failures (S n)) =? ATTEMPTS then Some (Err (FailedAfterAttempts (Some err))) else None
  end.

(** The result is that of the first call that ends the read. *)
Definition read_result (res : Result StartError A) : Prop :=
  exists n, ends_with n = Some res /\ forall m, (m < n)%nat -> ends_with m = None.

(** The loop's state before a call. *)
Record paced (calls : nat) (clock : Z) (r : Retrying) : Prop := {
  pc_failures : Z.of_nat (failures calls) < ATTEMPTS;
  pc_attempt : rs_attempt r = 1 + Z.of_nat (failures calls);
  pc_delay : rs_delay r = Z.min (250 * 2 ^ Z.of_nat (failures calls)) 2000;
  pc_clock : clock + took calls = answered calls;
  pc_cleanup : rs_cleanup_wait_started r = answered <$> first_cleanup calls;
  pc_before : forall m, (m < calls)%nat -> ends_with m = None;
}.

Lemma before_S calls : (forall m, (m < calls)%nat -> ends_with m = None) -> ends_with calls = None ->
  forall m, (m < S calls)%nat -> ends_with m = None.
Proof. intros Hall Hc m Hm. destruct (decide (m = calls)) as [->|]; [done|apply Hall; lia]. Qed.

(** A cleanup within the limit. *)
Lemma paced_cleanup calls clock r err :
  paced calls clock r -> op calls = Err err -> is_cleanup_in_progress err = true -> ends_with calls = None ->
  paced (S calls) (answered calls + cleanup_interval)
    (r <| rs_cleanup_wait_started := Some (default (answered calls) (rs_cleanup_wait_started r)) |>).
Proof.
  intros [P1 P2 P3 P4 P5 P6] Hop Hc Hend. assert (cleaning (op calls) = true) as Hcl by (by rewrite Hop).
  assert (failures (S calls) = failures calls) as Hf by (rewrite failures_S, Hop; cbn; rewrite Hc; cbn; lia).
  constructor; rewrite ?Hf; try done.
  - cbn [answered]. unfold pause. rewrite Hcl. lia.
  - cbn. rewrite first_cleanup_S, P5, Hcl. by destruct (first_cleanup calls).
  - by apply before_S.
Qed.

(** A failure before the fifth. *)
Lemma paced_failure calls clock r err :
  paced calls clock r -> op calls = Err err -> is_cleanup_in_progress err = false -> ends_with calls = None ->
  paced (S calls) (wait_after_failure r err (answered calls)).1 (wait_after_failure r err (answered calls)).2.
Proof.
  intros [P1 P2 P3 P4 P5 P6] Hop Hc Hend. assert (cleaning (op calls) = false) as Hcl by (by rewrite Hop).
  assert (failures (S calls) = S (failures calls)) as Hf by (rewrite failures_S, Hop; cbn; rewrite Hc; cbn; lia).
  assert (Z.of_nat (S (failures calls)) < ATTEMPTS) as Hlt.
  { unfold ends_with in Hend. rewrite Hop, Hc, Hf in Hend. destruct (Z.eqb_spec (Z.of_nat (S (failures calls))) ATTEMPTS); [done|lia]. }
  unfold wait_after_failure. rewrite (proj2 (Z.ltb_lt _ _)) by lia. constructor; cbn -[failures first_cleanup pause Z.of_nat Z.pow]; rewrite ?Hf; try lia.
  - rewrite P3, Nat2Z.inj_succ, Z.pow_succ_r by lia. lia.
  - unfold pause. rewrite Hcl, Hf, (proj2 (Z.ltb_lt _ _) Hlt), P3. lia.
  - rewrite P5, first_cleanup_S, Hcl. by destruct (first_cleanup calls).
  - by apply before_S.
Qed.

Lemma wait_spec r err clock :
  let '(clock', r') := wait_after_failure r err clock in
  rs_last_err r' = Some err /\ rs_attempt r' = rs_attempt r + 1 /\
  rs_cleanup_wait_started r' = rs_cleanup_wait_started r /\ (0 <= rs_delay r -> clock <= clock' /\ 0 <= rs_delay r').
Proof. unfold wait_after_failure. destruct (_ <? _); cbn; split_and!; try done; lia. Qed.

Lemma retry_loop_result fuel calls clock r res :
  paced calls clock r -> retry_loop op took cleanup_interval cleanup_limit fuel calls clock r = Some res ->
  read_result res.
Proof.
  revert calls clock r. induction fuel as [|fuel IH]; intros calls clock r Hp Hrun; [done|]. cbn [retry_loop] in Hrun.
  pose proof Hp as [P1 P2 P3 P4 P5 P6]. rewrite (proj2 (Z.leb_le _ _)), P4 in Hrun by lia. cbv zeta in Hrun.
  assert (forall x, ends_with calls = Some x -> Some x = Some res -> read_result res) as Hend.
  { intros x Hx [= <-]. by exists calls. }
  pose proof (eq_refl (ends_with calls)) as He. unfold ends_with at 2 in He.
  destruct (op calls) as [v|err] eqn:Hop; [by eapply Hend|]. destruct (is_cleanup_in_progress err) eqn:Hc.
  - replace (default (answered calls) (rs_cleanup_wait_started r)) with (answered (default calls (first_cleanup calls))) in Hrun
      by (rewrite P5; by destruct (first_cleanup calls)).
    destruct (_ <=? _) in He, Hrun; [by eapply Hend|]. eapply IH, Hrun.
    replace (answered (default calls (first_cleanup calls))) with (default (answered calls) (rs_cleanup_wait_started r))
      by (rewrite P5; by destruct (first_cleanup calls)).
    by eapply paced_cleanup.
  - destruct (Z.eqb_spec (Z.of_nat (failures (S calls))) ATTEMPTS) as [H5|Hne].
    + rewrite failures_S, Hop in H5. cbn in H5. rewrite Hc in H5. cbn in H5.
      assert (rs_attempt r = ATTEMPTS) as Ha by lia. unfold wait_after_failure in Hrun. rewrite Ha, Z.ltb_irrefl in Hrun.
      destruct fuel as [|fuel]; [done|]. cbn [retry_loop] in Hrun. cbn in Hrun. rewrite Ha in Hrun. by eapply Hend.
    + pose proof (paced_failure calls clock r err Hp Hop Hc He) as Hnext.
      destruct (wait_after_failure _ _ _) as [clock' r']. by eapply IH, Hrun.
Qed.

Hypotheses (interval_pos : 0 < cleanup_interval) (limit_pos : 0 <= cleanup_limit) (took_pos : forall n, 0 <= took n).

(** After [waits] waits for a cleanup, so many turns are enough. *)
Lemma retry_loop_ends fuel calls clock r (waits : Z) :
  0 <= waits <= cleanup_limit / cleanup_interval + 1 -> 1 <= rs_attempt r <= 6 -> 0 <= rs_delay r ->
  match rs_cleanup_wait_started r with Some t => waits * cleanup_interval <= clock - t | None => waits = 0 end ->
  6 - rs_attempt r + (cleanup_limit / cleanup_interval + 1 - waits) + 1 <= Z.of_nat fuel ->
  is_Some (retry_loop op took cleanup_interval cleanup_limit fuel calls clock r).
Proof.
  revert calls clock r waits. induction fuel as [|fuel IH]; intros calls clock r waits Hw Hatt Hd Hst Hf; [lia|].
  cbn [retry_loop]. destruct (Z.leb_spec (rs_attempt r) ATTEMPTS) as [Hle|Hgt]; unfold ATTEMPTS in *; [|by eexists].
  destruct (op calls) as [v|err]; [by eexists|]. specialize (took_pos calls).
  destruct (is_cleanup_in_progress err).
  - set (clock' := clock + took calls). set (t := default clock' (rs_cleanup_wait_started r)).
    assert (waits * cleanup_interval <= clock' - t) as Ht.
    { subst t clock'. destruct (rs_cleanup_wait_started r); cbn; lia. }
    destruct (Z.leb_spec cleanup_limit (clock' - t)) as [|Hlt]; [by eexists|].
    assert (waits <= cleanup_limit / cleanup_interval) by (apply Z.div_le_lower_bound; lia).
    apply (IH _ _ _ (waits + 1)); cbn; try lia.
  - pose proof (wait_spec r err (clock + took calls)) as Hsp.
    destruct (wait_after_failure _ _ _) as [clock' r']. destruct Hsp as (_ & Ha & Hs & Hc).
    apply (IH _ _ _ waits); rewrite ?Ha, ?Hs; try lia. destruct (rs_cleanup_wait_started r); [lia|done].
Qed.

Lemma paced_start : 0 < ATTEMPTS -> paced 0 0 (mkRetrying 1 250 None None).
Proof. intros H5. constructor; try done; cbn; lia. Qed.

Lemma retry_ends :
  exists res, retry_loop op took cleanup_interval cleanup_limit (retry_fuel cleanup_interval cleanup_limit) 0 0
    (mkRetrying 1 250 None None) = Some res /\
  retry_startup_with op took cleanup_interval cleanup_limit = res /\ read_result res.
Proof.
  assert (0 <= cleanup_limit / cleanup_interval) by (apply Z.div_pos; lia).
  destruct (retry_loop_ends (retry_fuel cleanup_interval cleanup_limit) 0 0 (mkRetrying 1 250 None None) 0) as [res Hres];
    [lia|cbn; lia|cbn; lia|done|unfold retry_fuel; cbn; lia|].
  exists res. split_and!; [done| |].
  - unfold retry_startup_with. by rewrite Hres.
  - eapply retry_loop_result, Hres. by apply paced_start.
Qed.
End Retries.

(** A value that is returned is the answer to a call. *)
Lemma retry_startup_ok {A} (op : nat -> Result CcError A) took v :
  retry_startup op took = Ok v -> exists n, op n = Ok v.
Proof.
  unfold retry_startup, retry_startup_with.
  destruct (retry_loop _ _ _ _ _ _ _ _) as [res|] eqn:Hloop; [|done]. cbn. intros ->.
  apply retry_loop_result in Hloop as (n & Hn & _); [|by apply paced_start]. exists n. unfold ends_with in Hn.
  destruct (op n) as [x|err]; [by injection Hn as ->|]. by repeat case_match.
Qed.

(** C38: a startup read ends, and with what. Whatever the calls answer and however long
    they take, the loop is left within the fuel, seven turns more than the waits that
    fit in the limit, and its result is that of the first call that ends it: a call
    that succeeds, with its value; a call that meets a cleanup when the limit has
    passed since the first call that met one was answered, with the cleanup still
    running; or the fifth call that fails for another reason, with its error. Calls
    are answered after the time they take and the pauses before them: the interval
    after each cleanup, 250, 500, 1000 and 2000 milliseconds after the failures. *)
Theorem startup_read_ends {A} (op : nat -> Result CcError A) (took : nat -> Z) cleanup_interval cleanup_limit :
  0 < cleanup_interval -> 0 <= cleanup_limit -> (forall n, 0 <= took n) ->
  is_Some (retry_loop op took cleanup_interval cleanup_limit (retry_fuel cleanup_interval cleanup_limit) 0 0
    (mkRetrying 1 250 None None)) /\
  exists n, ends_with op took cleanup_interval cleanup_limit n =
      Some (retry_startup_with op took cleanup_interval cleanup_limit) /\
    forall m, (m < n)%nat -> ends_with op took cleanup_interval cleanup_limit m = None.
Proof.
  intros Hi Hl Ht. destruct (retry_ends op took cleanup_interval cleanup_limit Hi Hl Ht) as (res & Hloop & -> & Hres).
  split; [by eexists|exact Hres].
Qed.

(** A node that fails twice, is clearing twice, and then answers. *)
Definition flaky (n : nat) : Result CcError Z :=
  match n with
  | 0%nat | 2%nat => Err Rpc
  | 1%nat | 3%nat => Err (AttestationCleanupInProgress 1)
  | _ => Ok 42
  end.

Definition clearing_for_ever (_ : nat) : Result CcError Z := Err (AttestationCleanupInProgress 1).

Lemma startup_read_ends_witness :
  retry_startup flaky (fun _ => 20) = Ok 42 /\ answered flaky (fun _ => 20) 5000 4 = 10850 /\
  exists n, ends_with clearing_for_ever (fun _ => 20) 5000 600000 n =
      Some (Err (CleanupStillRunning (AttestationCleanupInProgress 1))) /\
    forall m, (m < n)%nat -> ends_with clearing_for_ever (fun _ => 20) 5000 600000 m = None.
Proof.
  split_and!; [vm_compute; reflexivity..|].
  destruct (startup_read_ends clearing_for_ever (fun _ => 20) 5000 600000) as [_ (n & Hn & Hbefore)];
    [done|done|by intros _|]. exists n. split; [|exact Hbefore]. rewrite Hn. vm_compute. reflexivity.
Defined.

(** ** What a started chain caches *)

Lemma digests_snoc kvs kv : collect_digests (kvs ++ [kv]) = <[kv.1 := kv.2]> (collect_digests kvs).
Proof. unfold collect_digests. by rewrite foldl_app. Qed.

Lemma digests_some kvs h d : collect_digests kvs !! h = Some d -> (h, d) ∈ kvs.
Proof.
  induction kvs as [|[h' d'] kvs IH] using rev_ind; [done|]. rewrite digests_snoc, elem_of_app, list_elem_of_singleton.
  rewrite lookup_insert_Some. cbn. intros [[-> ->]|[_ Hd]]; [by right|left; by apply IH].
Qed.

Lemma digests_is_some kvs h d : (h, d) ∈ kvs -> is_Some (collect_digests kvs !! h).
Proof.
  induction kvs as [|[h' d'] kvs IH] using rev_ind; [by intros ?%elem_of_nil|].
  rewrite digests_snoc, elem_of_app, list_elem_of_singleton, lookup_insert_is_Some. cbn.
  destruct (decide (h' = h)); [by left|]. intros [Hin|[= -> ->]]; [right; auto|done].
Qed.

(** What a map's rows collect to is the map. *)
Lemma digests_rows (m : gmap Height Digest) kvs :
  (forall h d, (h, d) ∈ kvs <-> m !! h = Some d) -> collect_digests kvs = m.
Proof.
  intros Hkvs. apply map_eq. intros h. destruct (m !! h) as [d|] eqn:Hm.
  - destruct (digests_is_some kvs h d) as [d' Hd']; [by apply Hkvs|]. pose proof Hd' as Hin%digests_some%Hkvs. congruence.
  - apply eq_None_not_Some. intros [d Hd%digests_some%Hkvs]. congruence.
Qed.

Lemma result_bind_ok {E A B} (m : Result E A) (k : A -> Result E B) b :
  (m ≫= k) = Ok b -> exists a, m = Ok a /\ k a = Ok b.
Proof. destruct m as [a|e]; [|done]. cbn. by exists a. Qed.

Section Started.
Context {C : Type} `{Keccak} `{FrameStorage Z} `{!FrameStorageLaws Z}.
Variable node : CcNode C.
Implicit Types (sc : ScState (State C)).

Lemma elem_of_rows {V B} it (m : gmap Z V) (f : Z -> V -> B) y :
  y ∈ omap (fun k => f k <$> m !! k) (iter_keys it m) <-> exists k v, m !! k = Some v /\ f k v = y.
Proof.
  rewrite list_elem_of_omap. split.
  - intros (k & _ & Hy). apply fmap_Some in Hy as (v & Hv & ->). by exists k, v.
  - intros (k & v & Hk & <-). exists k. rewrite elem_of_iter_keys, Hk. by split; [eexists|].
Qed.

(** The attestations are read unless they are being cleared. *)
Lemma read_attestations ck sc atts :
  get_attestations_for_chain_at ck sc = Ok atts ->
  AttestationClearingCursors (sc_listener sc) !! ck = None /\
  forall att, att ∈ atts <-> exists d, row (Attestations (sc_listener sc)) ck !! d = Some att.
Proof.
  unfold get_attestations_for_chain_at, ensure_attestations_stable.
  case_bool_decide as Hc; [done|]. intros [= <-]. split; [by apply eq_None_not_Some|].
  intros att. rewrite merge_sort_Permutation, list_elem_of_omap. setoid_rewrite elem_of_iter_keys. split.
  - intros (d & _ & Hd). by exists d.
  - intros (d & Hd). exists d. rewrite Hd. eauto.
Qed.

Lemma read_checkpoints ck sc cps :
  get_checkpoints_for_chain_at ck sc = Ok cps ->
  collect_digests (map (fun cp => (cp_block_number cp, cp_digest cp)) cps) = row (Checkpoints (sc_listener sc)) ck.
Proof.
  intros [= <-]. apply digests_rows. intros h d. rewrite list_elem_of_fmap. setoid_rewrite merge_sort_Permutation.
  setoid_rewrite (elem_of_rows CheckpointsItem _ mkCheckpoint). split.
  - intros (cp & [= -> ->] & k & v & Hk & <-). done.
  - intros Hd. exists (mkCheckpoint h d). split; [done|]. by exists h, d.
Qed.

Lemma retried_ok {A} at_block read (f : ScState (State C) -> Result CcError A) v :
  retried node at_block read f = Ok v -> exists n, f (storage_at node at_block read n) = Ok v.
Proof. intros [n Hn]%retry_startup_ok. exists n. unfold fetch in Hn. by destruct (cc_down _ _ _). Qed.

(** What is cached of a chain at the snapshot. *)
Record snapshot_of (ck : ChainKey) (config : ChainCacheConfig) sc (chain : ChainState) : Prop := {
  sn_key : ch_chain_key chain = ck;
  sn_config : cache_config chain = config;
  sn_stable : AttestationClearingCursors (sc_listener sc) !! ck = None;
  sn_checkpoints : checkpoint_cache chain = row (Checkpoints (sc_listener sc)) ck;
  sn_attestation : forall h d, attestation_cache chain !! h = Some d ->
    exists k att, row (Attestations (sc_listener sc)) ck !! k = Some att /\ sa_header_number att = h /\ sa_digest att = d;
  sn_attested : forall k att, row (Attestations (sc_listener sc)) ck !! k = Some att ->
    is_Some (attestation_cache chain !! sa_header_number att);
  sn_genesis : attestation_genesis_block chain = default 0 (AttestationChainGenesisBlockNumber (sc_listener sc) !! ck);
  sn_merkle : merkle_proof_cache chain = empty_cache;
}.

Lemma start_chain_ok r cache_configs builder chain :
  start_chain node (Some r) cache_configs builder = Ok chain ->
  snapshot_of (cb_chain_key builder) (default (mkCacheConfig None None None) (cache_configs !! cb_chain_key builder))
    (cc_state_at node r) chain.
Proof.
  unfold start_chain. intros (g & [ng [= <-]]%retried_ok & Hrun)%result_bind_ok.
  apply result_bind_ok in Hrun as (cps & [nc Hcps%read_checkpoints]%retried_ok & Hrun). rewrite Hcps in Hrun. cbn in Hrun.
  apply result_bind_ok in Hrun as (atts & [na Ha]%retried_ok & Hrun). apply read_attestations in Ha as [Hcur Hatts].
  cbn in Hcur, Hatts. set (m := collect_digests _) in Hrun.
  assert (forall h d, m !! h = Some d -> exists k att, row (Attestations (sc_listener (cc_state_at node r))) (cb_chain_key builder) !! k = Some att /\
    sa_header_number att = h /\ sa_digest att = d) as Hm.
  { intros h d (att & [= -> ->] & [k Hk]%Hatts)%digests_some%list_elem_of_fmap. by exists k, att. }
  assert (forall k att, row (Attestations (sc_listener (cc_state_at node r))) (cb_chain_key builder) !! k = Some att ->
    is_Some (m !! sa_header_number att)) as Hm'.
  { intros k att Hk. apply (digests_is_some _ _ (sa_digest att)), list_elem_of_fmap. exists att. split; [done|]. apply Hatts. by exists k. }
  injection Hrun as <-. destruct (last_key _); [unfold update_last_checkpoint_block; cbn; repeat case_match|]; by constructor.
Qed.

(** Every builder has a chain of its own. *)
Lemma start_chains_ok r cache_configs builders chains0 chains1 :
  start_chains node (Some r) cache_configs builders chains0 = Ok chains1 ->
  chains0 ⊆ chains1 /\ NoDup (map cb_chain_key builders) /\
  forall builder, builder ∈ builders -> chains0 !! cb_chain_key builder = None /\
    exists chain, chains1 !! cb_chain_key builder = Some chain /\
    snapshot_of (cb_chain_key builder) (default (mkCacheConfig None None None) (cache_configs !! cb_chain_key builder))
      (cc_state_at node r) chain.
Proof.
  revert chains0. induction builders as [|b builders IH]; intros chains0 Hrun; cbn [start_chains] in Hrun.
  { injection Hrun as <-. split_and!; [done|constructor|by intros ? ?%elem_of_nil]. }
  case_bool_decide as Hnew; [done|]. apply eq_None_not_Some in Hnew.
  apply result_bind_ok in Hrun as (chain & Hchain%start_chain_ok & Hrun). apply IH in Hrun as (Hsub & Hnd & Hall).
  assert (chains1 !! cb_chain_key b = Some chain) as Hb by (eapply lookup_weaken; [apply lookup_insert_eq|done]).
  split_and!.
  - etrans; [by apply insert_subseteq|exact Hsub].
  - cbn. constructor; [|done]. intros (b' & Heq & Hb')%list_elem_of_fmap.
    destruct (Hall b' Hb') as [Hno _]. by rewrite <- Heq, lookup_insert_eq in Hno.
  - intros b' [->|Hb']%elem_of_cons; [split; [done|by exists chain]|]. destruct (Hall b' Hb') as [Hno Hsome].
    split; [|done]. by apply lookup_insert_None in Hno as [Hno _].
Qed.

Lemma build_key chain srv builder srv' :
  build_continuity_for_chain node chain srv = (Ok builder, srv') -> cb_chain_key builder = cf_chain_key chain.
Proof. unfold build_continuity_for_chain, read_once. intros Hrun. by run_inv. Qed.

Lemma server_new_keys configured srv builders srv' :
  server_new node configured srv = (Ok builders, srv') -> map cb_chain_key builders = map cf_chain_key configured.
Proof.
  revert srv builders. induction configured as [|c configured IH]; intros srv builders Hrun; cbn [server_new] in Hrun; run_inv; [done|].
  cbn. f_equal; [by eapply build_key|by eapply IH].
Qed.

Lemma new_ok builders cache_configs started :
  new_with_cache_configs node builders cache_configs = Ok started ->
  start_chains node started.2 cache_configs builders ∅ = Ok started.1 /\ exists n, cc_head node n = started.2.
Proof.
  unfold new_with_cache_configs. destruct builders as [|b builders]; [done|].
  intros (snapshot & Hhead & Hrun)%result_bind_ok. apply result_bind_ok in Hrun as (chains1 & Hc & [= <-]). split; [done|].
  apply retry_startup_ok in Hhead as [n Hn]. exists n. destruct (cc_down _ _ _); [done|by injection Hn].
Qed.

(** A server that has started caches every configured chain as of the snapshot. *)
Lemma server_start_ok configured srv0 at_block srv :
  server_start node configured srv0 = (Ok at_block, srv) ->
  (exists n, cc_head node n = at_block) /\
  forall r c, at_block = Some r -> c ∈ configured -> exists chain, chains srv !! cf_chain_key c = Some chain /\
    snapshot_of (cf_chain_key c) (cf_cache c) (cc_state_at node r) chain.
Proof.
  unfold server_start. intros Hrun. run_inv. cbn [chains].
  apply new_ok in Hlift as [Hlift Hhead]. split; [done|]. intros r c Hr Hc. rewrite Hr in Hlift.
  apply start_chains_ok in Hlift as (_ & Hnd & Hall).
  match goal with Hnew : server_new _ _ _ = _ |- _ => apply server_new_keys in Hnew as Hkeys end. rewrite Hkeys in Hnd.
  assert (cf_chain_key c ∈ map cb_chain_key a) as (b & Hb & Hin)%list_elem_of_fmap
    by (rewrite Hkeys; by apply list_elem_of_fmap_2).
  destruct (Hall b Hin) as (_ & chain & Hchain & Hsn). rewrite <- Hb in Hchain, Hsn. exists chain. split; [done|].
  set (m := list_to_map _) in Hsn. assert (m !! cf_chain_key c = Some (cf_cache c)) as Hm.
  { apply elem_of_list_to_map_1.
    - rewrite fmap_reverse, reverse_Permutation, <- list_fmap_compose. exact Hnd.
    - apply elem_of_reverse. by apply (list_elem_of_fmap_2 (fun c => (cf_chain_key c, cf_cache c))). }
  rewrite Hm in Hsn. exact Hsn.
Qed.

(** C39: a pinned snapshot never drains. A server whose snapshot is pinned to a block
    at which the attestations of one of its chains are being cleared does not start,
    whatever the latest blocks say: the reads that wait for the clearing to end are
    all made at that block. *)
Theorem pinned_cleanup_never_drains configured srv0 r c :
  (forall n, cc_head node n = Some r) -> c ∈ configured ->
  is_Some (AttestationClearingCursors (sc_listener (cc_state_at node r)) !! cf_chain_key c) ->
  is_ok (server_start node configured srv0).1 = false.
Proof.
  intros Hhead Hc Hcur. destruct (server_start node configured srv0) as [[at_block|e] srv] eqn:Hrun; [|done].
  apply server_start_ok in Hrun as [[n Hn] Hall]. rewrite Hhead in Hn.
  destruct (Hall r c (eq_sym Hn) Hc) as (chain & _ & Hsn). rewrite (sn_stable _ _ _ _ Hsn) in Hcur. by destruct Hcur.
Qed.
End Started.

(** ** From startup to proofs *)

Lemma extract_concat keys (ess : list (list RuntimeEvent)) :
  extract_events keys (concat ess) = concat (map (extract_events keys) ess).
Proof. induction ess as [|es ess IH]; [done|]. cbn. rewrite <- IH. apply omap_app. Qed.

Lemma process_yields keys (final : Height -> CcBlock) lo hi srv :
  process_stream (yields keys final lo hi) srv =
  foldl (fun srv e => process_cc_event e srv) srv
    (extract_events keys (concat (map (fun n => bl_events (final n)) (seqZ (lo + 1) (hi - lo))))).
Proof. unfold process_stream, yields. rewrite extract_concat, !map_map. done. Qed.

Section Restart.
Context {C H : Type} `{!Currency C} `{!CurrencyLaws C} `{Config} `{!ConfigOk} `{Keccak} `{Arch} `{!ArchOk}
  `{Bls} `{FrameStorage Z} `{!FrameStorageLaws Z} `{FrameStorage (Z * Z)}
  `{HL : HandleLaws H} `{Ethabi} {P : EthRpcProvider} `{!SourceChain P}.
Variables (cfg : ScConfig) (node : CcNode C) (r : Height) (St : Height -> @Runtime C) (final : Height -> CcBlock).
Context `{!FinalizedChain final}.

Hypothesis usize_width : 2 * (MaxChainAttestationInterval * MaxAttestationCheckpointInterval) < 2 ^ usize_bits.

(** The states of the finalized blocks from the snapshot on: each block's calls are
    told of by its events, and the node serves the snapshot's state. *)
Record finalized_states ck : Prop := {
  fs_height : 0 <= r;
  fs_snapshot : cc_state_at node r = rn_listener (St r);
  fs_reached : reached cfg (St r);
  fs_live : live_chain (rn_listener (St r)) ck;
  fs_step : forall n, r <= n -> rtc (told_step cfg false ck) (St n) (St (n + 1));
  fs_events : forall n, r <= n ->
    events (attestation (St (n + 1))) = events (attestation (St n)) ++ omap attestation_event (bl_events (final (n + 1)));
}.

Lemma told_blocks ck (k : nat) :
  finalized_states ck ->
  rtc (told_step cfg false ck) (St r) (St (r + Z.of_nat k)) /\
  events (attestation (St (r + Z.of_nat k))) = events (attestation (St r)) ++
    omap attestation_event (concat (map (fun n => bl_events (final n)) (seqZ (r + 1) (Z.of_nat k)))).
Proof.
  intros Hfs. induction k as [|k [IH1 IH2]].
  { replace (r + Z.of_nat 0) with r by lia. split; [done|]. cbn. by rewrite app_nil_r. }
  replace (r + Z.of_nat (S k)) with (r + Z.of_nat k + 1) by lia. split.
  - etrans; [exact IH1|]. apply (fs_step _ Hfs). lia.
  - rewrite (fs_events _ Hfs), IH2 by lia. rewrite seqZ_S, map_app, concat_app, omap_app, app_assoc. cbn.
    rewrite app_nil_r. do 4 f_equal. lia.
Qed.

(** The caches of a started chain are in step with the snapshot. *)
Lemma started_synced ck config chain :
  ladder_inv (ladder_of ck (attestation (St r))) -> CheckpointPruningStates (attestation (St r)) !! ck = None ->
  snapshot_of ck config (rn_listener (St r)) chain -> synced false (caches_of chain) (ladder_of ck (attestation (St r))).
Proof.
  intros Hli Hpr Hsn. constructor; cbn.
  - intros h d (k & att & Hk & Hh & Hd)%(sn_attestation _ _ _ _ Hsn). split_and!; [apply Hsn| |done].
    exists att. split; [|done]. rewrite <- Hd, (li_key _ Hli k att Hk). exact Hk.
  - intros h d. rewrite (sn_checkpoints _ _ _ _ Hsn). unfold stable_read. cbn. by rewrite Hpr.
Qed.

End Restart.

(** ** A run on the concrete chain

    The snapshot is taken at block 5; block 7 commits the source chain's blocks up to
    110. Every retried read fails once, and the subscription delivers block 7 first. *)

#[local] Existing Instance demo_provider.
#[local] Existing Instance demo_source.

Definition demo_commit : SignedAttestation :=
  let proof := mkContinuityProof 777 (map demo_root (seqZ 101 9)) in
  mkSignedAttestation
    (mkAttestationData 1 110 999 (demo_root 110) (Some (compute_continuity_digest proof 101))) 7 [20] proof.

Definition demo_committed : @Runtime Wallet :=
  rt_call sc_cfg clock1 (SignedOrigin 20) (AttestationCall (CommitAttestation demo_commit)) run1.

Definition demo_states (n : Height) : @Runtime Wallet := if n <? 7 then run1 else demo_committed.

Definition demo_final (n : Height) : CcBlock :=
  mkCcBlock n (n + 1000) (n + 999) (if n =? 7 then [AttestationEvent (BlockAttested 1 110 (sa_digest demo_commit)); OtherEvent] else [OtherEvent]).

#[local] Instance demo_finalized : FinalizedChain demo_final.
Proof. constructor; [done|]. intros n _. cbn. lia. Qed.

Definition demo_node : CcNode Wallet :=
  mkCcNode (fun _ => Some 5) (fun h => rn_listener (demo_states h)) (fun _ _ => rn_listener run1)
    (fun read n => match read with GenesisBlockOf _ | CheckpointsOf _ | AttestationsOf _ => (n =? 0)%nat | _ => false end)
    (fun _ _ => 20).

Definition demo_config : ChainConfig := mkChainConfig 1 (Some 1) (mkCacheConfig None None (Some 4%nat)).

Definition demo_server : Server := (server_start demo_node [demo_config] empty_server).2.

Definition demo_replies : list Reply :=
  [Delivered (demo_final 7); FetchFailed false; HeadEvents (bl_events (demo_final 7)); ParentFetched (demo_final 6)].

Definition demo_out : list StreamEvents := (stream_run (configured_chain_keys demo_server) (StreamCC3_new (Some 5)) demo_replies).2.

Definition demo_served : ChainState := default demo_chain (chains (process_stream demo_out demo_server) !! 1).

Definition demo_answer : SingleContinuityResponse :=
  match (get_proof true 105 1 demo_served).1 with Ok r => r | Err _ => demo_response end.

Lemma demo_served_typed : chain_typed demo_served.
Proof.
  split; [decide_now|]. unfold cached.
  assert (attestation_cache demo_served = {[110 := sa_digest demo_commit]}) as -> by (vm_compute; reflexivity).
  assert (checkpoint_cache demo_served = {[100 := 777]}) as -> by (vm_compute; reflexivity).
  intros h d [Hc|Hc]; apply lookup_singleton_Some in Hc as [<- _]; decide_now.
Qed.

Lemma demo_told : finalized_states sc_cfg demo_node 5 demo_states demo_final 1.
Proof.
  constructor; [done|done|apply run1_reached|apply live1; vm_compute; reflexivity|..]; intros n Hn; unfold demo_states.
  - destruct (Z.ltb_spec n 7), (Z.ltb_spec (n + 1) 7); [done| |lia|done].
    apply rtc_once, told_dispatch; [cbn [rt_call_ok call_ok]; decide_now|intros [Htop _]; by apply Htop].
  - unfold demo_final. cbn [bl_events]. destruct (Z.ltb_spec n 7), (Z.ltb_spec (n + 1) 7), (Z.eqb_spec (n + 1) 7); try lia.
    + by rewrite app_nil_r.
    + vm_compute. reflexivity.
    + by rewrite app_nil_r.
Qed.

Lemma demo_followed : node_run (configured_chain_keys demo_server) demo_final (StreamCC3_new (Some 5)) demo_replies.
Proof.
  split; [by exists 7|]. split; [done|]. split; [done|]. split; [|done].
  intros n _. cbn. intros Hn. by assert (n = 6) as -> by lia.
Qed.


(** The chain is cleared at block 5, and has been at block 6. *)
Definition clearing_node (head : Height) : CcNode Wallet :=
  mkCcNode (fun _ => Some head)
    (fun h => if h =? 5 then rn_listener run1 <| sc_listener ::= fun a => a <| AttestationClearingCursors ::= <[1 := 0]> |> |>
              else rn_listener run1)
    (fun _ _ => rn_listener run1) (fun _ _ => false) (fun _ _ => 20).

Lemma pinned_cleanup_never_drains_witness :
  is_ok (server_start (clearing_node 5) [demo_config] empty_server).1 = false /\
  is_ok (server_start (clearing_node 6) [demo_config] empty_server).1 = true.
Proof.
  split; [|vm_compute; reflexivity].
  apply (pinned_cleanup_never_drains (clearing_node 5) [demo_config] empty_server 5 demo_config);
    [done|by left|vm_compute; by eexists].
Defined.
